(* ===== verification/_CoqProject ===== *)
-Q . S2P
Prelude.v
CTypes.v
ListHead.v
ListTheory.v
ListSpec.v
HList.v
ListEntry.v
Spinlock.v
RwLock.v
Page.v
Buddy.v
BuddyTheory.v
BuddySpec.v
BuddyInit.v
BuddyFree.v
BuddyWitness.v
SchedData.v
Cfs.v
CfsTheory.v
CfsOps.v
CfsSpec.v
CfsGroups.v
CfsWitness.v
Sched.v
SchedTasks.v
SchedTypes.v
SchedSwitch.v
SchedCore.v
SchedWitness.v
KString.v
Main.v
MainSpec.v
MainWitness.v
Flags.v
