(* ===== verification/Prelude.v ===== *)
(** * The kernel's C sources, modelled and verified

    The repository is a small x86-64 kernel in C.  This library models every
    C file of it that has behaviour, and proves what makes each part correct,
    or where it is not, what it does instead.

    ** The program's parts

    - [kernel/include/types.h], [config.h]: the integer types and constants.
      All of them are 32 bits wide except [u64], [long] and pointers, which
      decides many results below.
    - [kernel/include/list.h]: circular lists and hash-bucket lists.
    - [kernel/include/spinlock.h]: spin locks and reader-writer locks.
    - [kernel/include/mm.h], [kernel/mm/buddy.c]: page descriptors and the
      buddy allocator.  Zones are protected by spin locks and keep their free
      blocks in circular lists.
    - [kernel/include/sched.h], [kernel/core/sched/sched_fair.c]: the fair
      class: runnable entities of each queue in a red-black tree ordered by
      virtual runtime, queues nested in a hierarchy of groups.
    - [kernel/core/sched/sched.c]: tasks (identifiers, allocation, reference
      counts, duplication, fork) and the switch: it takes a runqueue's spin
      lock, calls the fair class and switches.
    - [src/kernel/main.c]: console, panic, system calls, interrupt entry
      points, string functions, and the boot sequence, which calls the others.

    ** Files and the code they model

    [Prelude]: outcomes of C code and the state monad [M], with the lemmas and
    tactics everything uses.  A C function is a Rocq function of the same name
    in [M S] for the state [S] of its component: it returns ([Ret]), touches
    memory that is not there ([Fault]), panics ([Panic]), or is still in a
    loop when the fuel is used up ([OutOfFuel]).

    [CTypes]: [types.h] and [config.h].

    [ListHead], [ListTheory], [ListSpec]: [struct list_head].  The state is a
    heap of nodes; [rep] relates it to lists of entries.  [HList]: [struct
    hlist_head], likewise with [hrep].  [ListEntry]: [container_of] and the
    entry macros of both, on the same heaps with addresses as numbers.

    [Spinlock], [RwLock]: the lock operations, twice: [code] as one CPU runs
    them alone, and a machine whose steps are single accesses to the lock,
    interleaved over any number of CPUs.  [spin_code_steps] and
    [rw_code_steps] tie the two.

    [Page]: page flags and descriptors of [mm.h].  [Buddy]: the functions of
    [buddy.c] on the state [mm].  [BuddyTheory]: the invariant [zone_ok] of a
    zone with free lists [fl].  [BuddySpec]: an abstract allocator
    ([alloc_spec], [fl_merge]) and the refinement theorems.  [BuddyInit]:
    [init_zone], [get_order] and the accounting around the allocator.
    [BuddyFree]: the public path of a release, from the reference count to the
    zone or the CPU's list.
    [BuddyWitness]: a zone of 1024 pages on which every theorem is applied.

    [SchedData]: the structures of [sched.h] and the state [sched] shared by
    the scheduler files.  [Cfs]: [sched_fair.c].  [CfsTheory]: the invariant
    [sched_ok].  [CfsOps]: each operation keeps it.  [CfsSpec]: histories,
    the pick and time accounting.  [CfsGroups]: the walks up the hierarchy of
    groups.  [CfsWitness]: a concrete library and states.

    [Sched]: [sched.c].  [SchedTasks]: identifiers to duplication.
    [SchedTypes]: declared types of all members and their preservation.
    [SchedSwitch]: start, wake-up, [schedule].  [SchedCore]: the scheduler
    core as a whole, over histories of wake-ups, switches, sleeps and yields.
    [SchedWitness]: concrete states.

    [KString]: the string functions of [main.c].  [Main]: the rest of
    [main.c], on a state [kernel] that has the states of memory and scheduler
    as components.  [MainSpec], [MainWitness]: its theorems.

    [Flags]: flag words, file modes, enumerations and the address map of the
    headers.

    ** What the theorems show

    - Lists: any legal sequence of operations refines the operations on
      mathematical lists ([list_calls_refine], [hlist_calls_refine]); the entry
      loops visit the entries after, before or from the cursor
      ([entry_loops_visit], [entry_loop_resumes]), those over hash buckets run
      past the end ([hlist_entry_loops_overrun]).
    - Words: every family of flags keeps its flags apart in 32 bits
      ([flag_words_faithful]).
    - Locks: mutual exclusion, exact counters without wrap-around, and that
      from every reachable configuration all CPUs can finish and leave the lock
      as it was initialised.
    - Allocator: [init_zone] establishes the invariant; allocation and free
      refine the abstract allocator; over any history no page is in two
      blocks in use; allocate-free is a round trip; what [__free_pages] does on
      every branch; exactly which requests run out of bounds.
    - Fair class: any history keeps the timelines complete and without
      duplicates, and sorted as long as the virtual runtimes stay within 2^31
      of the minimum, where the 32-bit keys hold them ([window], [keys_fit]);
      on a sorted queue within that window and without buddy marks the pick has
      the least virtual runtime; outside it, [entity_key_overflow]; the minimum
      follows the least virtual runtime and never goes back; time is charged
      exactly; fixed-point arithmetic has the stated error bounds;
      the counters of all levels of the hierarchy agree.
    - Scheduler core: any sequence of wake-ups, activations, deactivations,
      switches and yields refines a set of runnable tasks with a current one
      ([core_refines]); what [sched_init] establishes; values stay in the ranges
      of their types; reference counts; a wake-up queues a task exactly once
      per level; [schedule] makes a task of the queue current (of least virtual runtime,
      under the same conditions as the pick) and hands the lock over; and which states a freshly booted kernel cannot leave.
    - Main: the console output of [printk], the dispatch of system calls, and
      how booting ends.

    Where the code does not do what it means to, the theorem states what it
    does: for example [fallback_order0_faults], [entity_key_overflow],
    [boot_panics], [dup_task_struct_stack].

    ** Fuel

    A loop whose rounds depend on the state takes its fuel as an argument, and
    the theorems state how much is enough: more than the number of entries for
    list traversals, than the length of the string for the string functions,
    than the number of entities up to the root for the walks of
    [enqueue_task_fair] and [dequeue_task_fair], and than the number of busy
    polls for the serial port.  Loops with a fixed bound have it built in:
    [merge_fuel] is [MAX_ORDER] plus one, [__calc_delta] has 65 rounds (each
    halves a 64-bit number), [get_order] 33.  A lock that is held is waited
    for without end: the sequential lock operations return with one unit of
    fuel when the lock is free, and the machines say what happens when it is
    not.

    ** Code outside the sources

    What the sources call and nobody in them defines is a class whose members
    are parameters ([BitOps], [PageLib], [PcpLib], [SchedLib], [CoreLib],
    [Allocator], [MainLib]), and what the code relies on is a second class of
    laws ([BitLaws], [PageLaws], [FreeLaws], [SchedLaws], [CoreLaws], [WidthLaws],
    [UartLaws]).  The witness files give instances of all of them.  Calls that
    are pure accounting change only the [world] component (of type [env]):
    there is no reweighting of groups by [update_cfs_shares], and the theorems
    on tasks in groups assume that no queue is throttled.

    ** Readings of the sources

    The sources do not compile as they stand; where a declaration and its uses
    differ the model follows the uses.
    - [struct list_head] has [next] and [prev]; [hlist_node.pprev] points to
      the pointer that points to the node.
    - [spin_lock_irqsave] is a function that takes the address of the flags;
      its callers pass the flags by value, and are modelled as if they passed
      the address.
    - The table [fallbacks] is visible to [find_suitable_fallback].
    - The members the scheduler files use are the members the structures have.
    - [main.c] and [sched.c] both define [sys_sched_yield]: each file uses its
      own.

    Pointers: a [struct page *] is a page frame number; a task and the
    scheduling entity inside it have one address; a runqueue and its [cfs]
    member are named by their CPU.  After [switch_to] the code continues with
    the values of the outgoing task's frame that the macro carries over.
    Methods of the fair class are the functions of [sched_fair.c].  The
    histories of [CfsSpec] and [SchedCore] set buddy marks for tasks without a
    group above them only; [CfsGroups] covers tasks in groups.

    ** Not modelled

    Assembly ([boot.S], [switch.S], [interrupt.S]): the C code sees only
    [switch_to], a parameter.  The user services are endless loops around
    empty functions.  [list_reverse], [list_for_each_entry],
    [list_for_each_entry_reverse], [hlist_for_each_entry_continue], [__va] and
    the [S_IS] macros do not compile in any use, and [list_empty_careful] has no
    body.  Of [config.h], [mm.h] and [sched.h] the structures and options that
    no C code reads.  Bodies of the traversal macros do not change the list.
    The class table at the end of [sched_fair.c] and [show_mem] at the end of
    [buddy.c] are cut off in the sources; the part of [show_mem] that is there
    is modelled. *)
From stdpp Require Import base gmap list strings fin_maps sorting.

(** * Outcomes of C code *)

(** What running a piece of kernel code can do: return, touch memory the
    model does not own (undefined behaviour in C), call [panic], or still be
    inside a loop when the fuel given to the model runs out. *)
Inductive outcome (A : Type) : Type :=
  | Ret (a : A)
  | Fault
  | Panic (msg : string)
  | OutOfFuel.
Arguments Ret {A} a.
Arguments Fault {A}.
Arguments Panic {A} msg.
Arguments OutOfFuel {A}.

(** Kernel code over a state of type [S]. *)
Definition M (S A : Type) : Type := S → outcome (A * S).

#[export] Instance M_ret {S} : MRet (M S) := λ A a s, Ret (a, s).
#[export] Instance M_bind {S} : MBind (M S) := λ A B f m s,
  match m s with
  | Ret (a, s') => f a s'
  | Fault => Fault
  | Panic msg => Panic msg
  | OutOfFuel => OutOfFuel
  end.

Definition fault {S A} : M S A := λ _, Fault.
Definition panic_with {S A} (msg : string) : M S A := λ _, Panic msg.
Definition out_of_fuel {S A} : M S A := λ _, OutOfFuel.
Definition get {S} : M S S := λ s, Ret (s, s).
Definition put {S} (s : S) : M S unit := λ _, Ret (tt, s).
Definition modify {S} (f : S → S) : M S unit := λ s, Ret (tt, f s).
Definition gets {S A} (f : S → A) : M S A := λ s, Ret (f s, s).
(** [guard_fault o] reads through a pointer: no object there is a fault. *)
Definition get_some {S A} (f : S → option A) : M S A := λ s,
  match f s with Some a => Ret (a, s) | None => Fault end.

(** What a loop over the cursors [l] computes when its body goes on with [inl]
    and returns with [inr]. *)
Fixpoint visit {X B R} (body : X → B → B + R) (l : list X) (a : B) : B + R :=
  match l with
  | [] => inl a
  | x :: l => match body x a with inr r => inr r | inl a => visit body l a end
  end.

(** Run code over a component of a larger state. *)
Definition zoom {S T A} (view : S → T) (upd : T → S → S) (m : M T A) : M S A := λ s,
  match m (view s) with
  | Ret (a, t) => Ret (a, upd t s)
  | Fault => Fault
  | Panic msg => Panic msg
  | OutOfFuel => OutOfFuel
  end.

Section monad_laws.
  Context {S : Type}.

Lemma bind_Ret {A B} (m : M S A) (f : A → M S B) s a s' :
  m s = Ret (a, s') → (m ≫= f) s = f a s'.
Proof. unfold mbind, M_bind. by intros ->. Qed.

Lemma bind_Ret_inv {A B} (m : M S A) (f : A → M S B) s b s'' :
  (m ≫= f) s = Ret (b, s'') →
  ∃ a s', m s = Ret (a, s') ∧ f a s' = Ret (b, s'').
Proof. unfold mbind, M_bind. destruct (m s) as [[a s']| | |]; naive_solver. Qed.

Lemma bind_Fault {A B} (m : M S A) (f : A → M S B) s :
  m s = Fault → (m ≫= f) s = Fault.
Proof. unfold mbind, M_bind. by intros ->. Qed.

Lemma bind_Panic {A B} (m : M S A) (f : A → M S B) s msg :
  m s = Panic msg → (m ≫= f) s = Panic msg.
Proof. unfold mbind, M_bind. by intros ->. Qed.

Lemma ret_run {A} (a : A) (s : S) : (mret a : M S A) s = Ret (a, s).
Proof. done. Qed.

Lemma bind_assoc {A B C} (m : M S A) (f : A → M S B) (g : B → M S C) s :
  ((m ≫= f) ≫= g) s = (m ≫= λ a, f a ≫= g) s.
Proof. unfold mbind, M_bind. by destruct (m s) as [[a s']| | |]. Qed.

Lemma get_some_run {A} (f : S → option A) s a :
  f s = Some a → get_some f s = Ret (a, s).
Proof. unfold get_some. by intros ->. Qed.
End monad_laws.

(** Symbolic execution: run the first statement of a sequence with a lemma
    or hypothesis that says what it returns. *)
Tactic Notation "mstep" "with" uconstr(lem) :=
  erewrite bind_Ret; [|eapply lem]; cbv beta iota.
Ltac mstep :=
  erewrite bind_Ret; [|first [reflexivity | eassumption | by eauto]]; cbv beta iota.
(** Take a successful run of a sequence apart. *)
Tactic Notation "minv" hyp(H) "as" simple_intropattern(pat) :=
  apply bind_Ret_inv in H as pat.

(** Weakest preconditions: the code returns, and what it returns and the
    state it leaves satisfy [Q]. *)
Definition wp {S A} (m : M S A) (s : S) (Q : A → S → Prop) : Prop :=
  match m s with Ret (a, s') => Q a s' | _ => False end.

Section wp.
  Context {S : Type}.

Lemma wp_ret {A} (a : A) (s : S) Q : Q a s → wp (mret a) s Q.
Proof. done. Qed.

Lemma wp_bind {A B} (m : M S A) (f : A → M S B) s Q :
  wp m s (λ a s', wp (f a) s' Q) → wp (m ≫= f) s Q.
Proof. unfold wp, mbind, M_bind. by destruct (m s) as [[a s']| | |]. Qed.

Lemma wp_mono {A} (m : M S A) s (P Q : A → S → Prop) :
  wp m s P → (∀ a s', P a s' → Q a s') → wp m s Q.
Proof. unfold wp. destruct (m s) as [[a s']| | |]; auto. Qed.

Lemma wp_Ret {A} (m : M S A) s a s' Q : m s = Ret (a, s') → Q a s' → wp m s Q.
Proof. unfold wp. by intros ->. Qed.

Lemma wp_returns {A} (m : M S A) s Q :
  wp m s Q ↔ ∃ a s', m s = Ret (a, s') ∧ Q a s'.
Proof.
  unfold wp. split.
  - destruct (m s) as [[a s']| | |]; naive_solver.
  - by intros (a & s' & -> & HQ).
Qed.

Lemma wp_returns_tt (m : M S unit) s (P : S → Prop) :
  wp m s (λ _ s', P s') → ∃ s', m s = Ret (tt, s') ∧ P s'.
Proof. intros ([] & s' & Hrun & HP)%wp_returns. eauto. Qed.

(** Any property of the outcome, once the first statement has returned. *)
Lemma wp_bind_out {A B} (m : M S A) (f : A → M S B) s (P : outcome (B * S) → Prop) :
  wp m s (λ a s', P (f a s')) → P ((m ≫= f) s).
Proof. unfold wp, mbind, M_bind. by destruct (m s) as [[a s']| | |]. Qed.

Lemma wp_bind_Fault {A B} (m : M S A) (f : A → M S B) s :
  wp m s (λ a s', f a s' = Fault) → (m ≫= f) s = Fault.
Proof. unfold wp, mbind, M_bind. by destruct (m s) as [[a s']| | |]. Qed.

Lemma wp_returned {A} (m : M S A) s Q a s' : wp m s Q → m s = Ret (a, s') → Q a s'.
Proof. unfold wp. by intros HQ Hm; rewrite Hm in HQ. Qed.

Lemma wp_modify (f : S → S) s Q : Q tt (f s) → wp (modify f) s Q.
Proof. done. Qed.

Lemma wp_gets {A} (f : S → A) s Q : Q (f s) s → wp (gets f) s Q.
Proof. done. Qed.

Lemma wp_zoom {T A} (view : S → T) (upd : T → S → S) (m : M T A) s (Q : A → S → Prop) :
  wp m (view s) (λ a t, Q a (upd t s)) → wp (zoom view upd m) s Q.
Proof. unfold wp, zoom. by destruct (m (view s)) as [[a t]| | |]. Qed.

Lemma wp_get_some {A} (f : S → option A) s a Q : f s = Some a → Q a s → wp (get_some f) s Q.
Proof. unfold wp, get_some. by intros ->. Qed.
End wp.

(** * Machine integers *)

Declare Scope kernel_scope.
Delimit Scope kernel_scope with K.
#[global] Open Scope Z_scope.

(** Reduction of an unsigned value to [w] bits, and of a signed one to the
    two's complement range of [w] bits (what gcc does for out-of-range
    conversions). *)
Definition wrap (w x : Z) : Z := x `mod` 2 ^ w.
Definition swrap (w x : Z) : Z := (x + 2 ^ (w - 1)) `mod` 2 ^ w - 2 ^ (w - 1).

Notation "x +[ w ] y" := (wrap w (x + y)) (at level 50, left associativity) : kernel_scope.
Notation "x -[ w ] y" := (wrap w (x - y)) (at level 50, left associativity) : kernel_scope.
Notation "x *[ w ] y" := (wrap w (x * y)) (at level 40, left associativity) : kernel_scope.
#[global] Open Scope kernel_scope.

Lemma pow2_pos w : 0 ≤ w → 0 < 2 ^ w.
Proof. intros. apply Z.pow_pos_nonneg; lia. Qed.

Lemma wrap_range w x : 0 ≤ w → 0 ≤ wrap w x < 2 ^ w.
Proof. intros. unfold wrap. apply Z.mod_pos_bound, pow2_pos; lia. Qed.

Lemma wrap_small w x : 0 ≤ x < 2 ^ w → wrap w x = x.
Proof. intros. unfold wrap. by apply Z.mod_small. Qed.

Lemma wrap_wrap w x : wrap w (wrap w x) = wrap w x.
Proof. unfold wrap. apply Z.mod_mod_divide. reflexivity. Qed.

Lemma swrap_range w x : 0 < w → - 2 ^ (w - 1) ≤ swrap w x < 2 ^ (w - 1).
Proof.
  intros. unfold swrap.
  assert (2 ^ w = 2 * 2 ^ (w - 1)) as Hw.
  { rewrite <-Z.pow_succ_r by lia. f_equal. lia. }
  pose proof (Z.mod_pos_bound (x + 2 ^ (w - 1)) (2 ^ w) (pow2_pos w ltac:(lia))). lia.
Qed.

Lemma swrap_small w x : 0 < w → - 2 ^ (w - 1) ≤ x < 2 ^ (w - 1) → swrap w x = x.
Proof.
  intros ? ?. unfold swrap.
  assert (2 ^ w = 2 * 2 ^ (w - 1)) as Hw.
  { rewrite <-Z.pow_succ_r by lia. f_equal. lia. }
  rewrite Z.mod_small; lia.
Qed.

Lemma wrap_testbit w x n :
  0 ≤ n → 0 ≤ w → Z.testbit (wrap w x) n = (n <? w) && Z.testbit x n.
Proof.
  intros Hn Hw. unfold wrap. destruct (Z.ltb_spec n w); simpl.
  - by apply Z.mod_pow2_bits_low.
  - by apply Z.mod_pow2_bits_high.
Qed.

Lemma swrap_wrap w w' x : 0 ≤ w ≤ w' → swrap w (wrap w' x) = swrap w x.
Proof.
  intros Hw. unfold swrap, wrap. f_equal. rewrite <-(Zplus_mod_idemp_l x), <-(Zplus_mod_idemp_l (x `mod` 2 ^ w')).
  rewrite Z.mod_mod_divide; [done|]. exists (2 ^ (w' - w)).
  rewrite <-Z.pow_add_r by lia. f_equal. lia.
Qed.

Lemma testbit_above w x n : 0 ≤ x < 2 ^ w → 0 ≤ w ≤ n → Z.testbit x n = false.
Proof.
  intros Hx Hn. rewrite <-(Z.mod_small x (2 ^ w)) by done. by apply Z.mod_pow2_bits_high.
Qed.

(** * Lists *)

Lemma elem_of_removelast {A} (l : list A) x : x ∈ removelast l → x ∈ l.
Proof.
  destruct l as [|y l]; [done|]. destruct (exists_last (l := y :: l)) as (l' & z & ->); [done|].
  rewrite removelast_last. intros. apply elem_of_app. by left.
Qed.

Lemma elem_of_tail {A} (l : list A) x : x ∈ tail l → x ∈ l.
Proof. destruct l; [done|]. by apply list_elem_of_further. Qed.

Lemma sorted_ext {A} (R R' : A → A → Prop) (l : list A) :
  (∀ x y, x ∈ l → y ∈ l → R x y → R' x y) → StronglySorted R l → StronglySorted R' l.
Proof.
  intros HR. induction 1 as [|x l Hs IH Hall]; constructor.
  - apply IH. intros y z ? ?. apply HR; by right.
  - rewrite Forall_forall in *. intros y Hy. apply HR; [by left|by right|by apply Hall].
Qed.

(** Settle a decidable closed proposition by running its decision. *)
Ltac by_decide := apply (bool_decide_eq_true_1 _); vm_compute; reflexivity.

(** Counting the elements of an array that satisfy a test, and how a single
    update changes the count. *)
Fixpoint count {A} (P : A → bool) (l : list A) : nat :=
  match l with
  | [] => 0
  | x :: l => (if P x then 1 else 0) + count P l
  end.

Lemma count_insert {A} (P : A → bool) (l : list A) i x y :
  l !! i = Some x →
  (count P (<[i := y]> l) + (if P x then 1 else 0) = count P l + (if P y then 1 else 0))%nat.
Proof.
  revert i. induction l as [|z l IH]; intros [|i] Hi; simplify_eq/=; [lia|].
  specialize (IH i Hi). lia.
Qed.

Lemma count_le_length {A} (P : A → bool) (l : list A) : (count P l ≤ length l)%nat.
Proof. induction l as [|x l IH]; simpl; [lia|]. destruct (P x); lia. Qed.

Lemma count_pos {A} (P : A → bool) (l : list A) i x :
  l !! i = Some x → P x = true → (1 ≤ count P l)%nat.
Proof.
  revert i. induction l as [|z l IH]; intros [|i] Hi HP; simplify_eq/=; [rewrite HP; lia|].
  specialize (IH i Hi HP). lia.
Qed.

Lemma count_lt_length {A} (P : A → bool) (l : list A) i x :
  l !! i = Some x → P x = false → (count P l < length l)%nat.
Proof.
  revert i. induction l as [|z l IH]; intros [|i] Hi HP; simplify_eq/=.
  - rewrite HP. pose proof (count_le_length P l). lia.
  - specialize (IH i Hi HP). destruct (P z); lia.
Qed.

Lemma count_zero {A} (P : A → bool) (l : list A) :
  (∀ i x, l !! i = Some x → P x = false) → count P l = 0%nat.
Proof.
  induction l as [|z l IH]; intros HP; simpl; [done|].
  rewrite (HP 0%nat z eq_refl), IH; [done|]. intros i. apply (HP (S i)).
Qed.

Lemma count_replicate {A} (P : A → bool) n x : P x = false → count P (replicate n x) = 0%nat.
Proof. intros HP. apply count_zero. by intros i y [-> _]%lookup_replicate. Qed.

Lemma count_mono {A} (P Q : A → bool) (l : list A) :
  (∀ x, P x = true → Q x = true) → (count P l ≤ count Q l)%nat.
Proof.
  intros HPQ. induction l as [|x l IH]; simpl; [done|]. specialize (HPQ x).
  destruct (P x); [rewrite HPQ by done; lia|lia].
Qed.

(** The sum of a rank over an array, for termination arguments. *)
Fixpoint total {A} (f : A → nat) (l : list A) : nat :=
  match l with [] => 0 | x :: l => f x + total f l end.

Lemma total_insert {A} (f : A → nat) (l : list A) i x y :
  l !! i = Some x → (total f (<[i := y]> l) + f x = total f l + f y)%nat.
Proof.
  revert i. induction l as [|z l IH]; intros [|i] Hi; simplify_eq/=; [lia|].
  specialize (IH i Hi). lia.
Qed.

(** Sums over the elements of a list. *)
Definition sumZ {A} (f : A → Z) (l : list A) : Z := foldr (λ x a, f x + a) 0 l.

Lemma sumZ_ext {A} (f g : A → Z) (l : list A) :
  (∀ x, x ∈ l → f x = g x) → sumZ f l = sumZ g l.
Proof.
  induction l as [|x l IH]; intros Hfg; [done|]. simpl. f_equal; [apply Hfg; left|].
  apply IH. intros y Hy. apply Hfg. by right.
Qed.

(** Changing one summand. *)
Lemma sumZ_update {A} (f g : A → Z) (l : list A) i :
  NoDup l → i ∈ l → (∀ j, j ∈ l → j ≠ i → g j = f j) → sumZ g l = sumZ f l - f i + g i.
Proof.
  induction 1 as [|x l Hx Hnd IH]; intros Hi Hfg; [by apply elem_of_nil in Hi|].
  simpl. apply elem_of_cons in Hi as [->|Hi].
  - rewrite (sumZ_ext g f l); [lia|]. intros j Hj. apply Hfg; [by right|]. by intros ->.
  - rewrite IH; [|done|intros; apply Hfg; [by right|done]].
    rewrite (Hfg x); [lia|by left|]. by intros ->.
Qed.

Lemma sumZ_nonneg {A} (f : A → Z) (l : list A) : (∀ x, x ∈ l → 0 ≤ f x) → 0 ≤ sumZ f l.
Proof.
  induction l as [|x l IH]; intros Hf; simpl; [lia|].
  pose proof (Hf x ltac:(by left)). assert (0 ≤ sumZ f l); [|lia].
  apply IH. intros y Hy. apply Hf. by right.
Qed.

Lemma sumZ_zero_inv {A} (f : A → Z) (l : list A) :
  (∀ x, 0 ≤ f x) → sumZ f l = 0 → ∀ x, x ∈ l → f x = 0.
Proof.
  intros Hf. induction l as [|y l IH]; simpl; intros Hs x Hx; [by apply elem_of_nil in Hx|].
  pose proof (Hf y). pose proof (sumZ_nonneg f l (λ x _, Hf x)).
  apply elem_of_cons in Hx as [->|Hx]; [lia|]. apply IH; [lia|done].
Qed.

Lemma wrap_add_l w x y : wrap w (wrap w x + y) = wrap w (x + y).
Proof. unfold wrap. apply Zplus_mod_idemp_l. Qed.

(** The first and the last element of an interval with a property, if any. *)
Lemma least_or_none (P : Z → Prop) `{!∀ x, Decision (P x)} a b :
  (∃ x, a ≤ x < b ∧ P x ∧ ∀ y, a ≤ y < x → ¬ P y) ∨ (∀ x, a ≤ x < b → ¬ P x).
Proof.
  destruct (Z.le_gt_cases a b) as [Hab|Hab]; [|right; lia].
  remember (Z.to_nat (b - a)) as n eqn:Hn. revert a Hab Hn.
  induction n as [|n IH]; intros a Hab Hn; [right; lia|].
  destruct (decide (P a)) as [Ha|Ha].
  - left. exists a. split_and!; [lia..|done|lia].
  - destruct (IH (a + 1)) as [(x & Hx & HP & Hlt)|Hnone]; [lia..| |].
    + left. exists x. split_and!; [lia..|done|]. intros y Hy.
      destruct (decide (y = a)) as [->|]; [done|]. apply Hlt. lia.
    + right. intros x Hx. destruct (decide (x = a)) as [->|]; [done|]. apply Hnone. lia.
Qed.

Lemma greatest_or_none (P : Z → Prop) `{!∀ x, Decision (P x)} a b :
  (∃ x, a ≤ x < b ∧ P x ∧ ∀ y, x < y < b → ¬ P y) ∨ (∀ x, a ≤ x < b → ¬ P x).
Proof.
  destruct (least_or_none (λ x, P (- x)) (1 - b) (1 - a)) as [(x & Hx & HP & Hlt)|Hnone].
  - left. exists (- x). split_and!; [lia..|done|]. intros y Hy. rewrite <-(Z.opp_involutive y).
    apply Hlt. lia.
  - right. intros x Hx. rewrite <-(Z.opp_involutive x). apply Hnone. lia.
Qed.

(** The map that sends every listed key to one value. *)
Section const_map.
  Context {K V : Type} `{Countable K}.
  Implicit Types (ks : list K) (v : V).

Lemma lookup_const_map ks v k w :
  (list_to_map ((λ k, (k, v)) <$> ks) : gmap K V) !! k = Some w → w = v.
Proof. intros Hl%elem_of_list_to_map_2. by apply list_elem_of_fmap in Hl as (? & [= _ ->] & _). Qed.

Lemma const_map_is_Some ks v k :
  is_Some ((list_to_map ((λ k, (k, v)) <$> ks) : gmap K V) !! k) ↔ k ∈ ks.
Proof.
  split.
  - intros [w Hl%elem_of_list_to_map_2]. by apply list_elem_of_fmap in Hl as (? & [= -> _] & ?).
  - intros Hin. destruct ((list_to_map _ : gmap K V) !! _) eqn:Hl; [eauto|exfalso].
    apply not_elem_of_list_to_map_2 in Hl. apply Hl. rewrite <-list_fmap_compose.
    apply list_elem_of_fmap. by exists k.
Qed.

Lemma lookup_const_map_elem ks v k :
  k ∈ ks → (list_to_map ((λ k, (k, v)) <$> ks) : gmap K V) !! k = Some v.
Proof.
  intros Hin. destruct (proj2 (const_map_is_Some ks v k) Hin) as [w Hw].
  by rewrite Hw, (lookup_const_map _ _ _ _ Hw).
Qed.
End const_map.
