(* ===== verification/CTypes.v ===== *)
(** The C environment of the kernel: [kernel/include/types.h] and the
    constants of [kernel/include/config.h].

    The typedefs matter to everything above: [ulong], [uint], [ushort] and
    [uchar] are all plain [unsigned] (32 bits), and [s8], [s16], [s32] and
    [s64] are all plain [signed] (32 bits); only [u64] is 64 bits wide. *)
From stdpp Require Import base list strings.
From S2P Require Import Prelude.

(** * Integer types *)

Inductive ctype :=
  | u8 | u16 | u32 | u64 | s8 | s16 | s32 | s64 | ulong | uint | ushort | uchar.

#[export] Instance ctype_eq_dec : EqDecision ctype.
Proof. solve_decision. Defined.

(** Width in bits and signedness of each typedef, with the LP64 widths of
    the [-m64] build for the base types: [char] 8, [short] 16, [int] 32,
    [long long] 64. *)
Definition bits (t : ctype) : Z :=
  match t with
  | u8 => 8 | u16 => 16 | u32 => 32 | u64 => 64
  | s8 | s16 | s32 | s64 => 32
  | ulong | uint | ushort | uchar => 32
  end.

Definition signed (t : ctype) : bool :=
  match t with s8 | s16 | s32 | s64 => true | _ => false end.

(** Conversion of a mathematical value to a typedef. *)
Definition cast (t : ctype) (x : Z) : Z :=
  if signed t then swrap (bits t) x else wrap (bits t) x.

Definition in_range (t : ctype) (x : Z) : Prop :=
  if signed t then - 2 ^ (bits t - 1) ≤ x < 2 ^ (bits t - 1) else 0 ≤ x < 2 ^ bits t.

(** The other typedefs of the file name these types. *)
Definition phys_addr_t := u64.
Definition virt_addr_t := u64.
Definition pid_t := s32.
Definition uid_t := u32.
Definition gid_t := u32.
Definition ino_t := u64.
Definition off_t := s64.
Definition dev_t := u64.
Definition mode_t := u32.
Definition nlink_t := u32.
Definition size_t := u64.
Definition ssize_t := s64.
Definition time_t := s64.

(** * Error codes *)

Inductive error_t :=
  | OK | ERROR | EOMEM | EINVAL | ENOENT | EACCES | EEXIST | EBUSY | EAGAIN
  | EINTER | EIO | EFAULT | EPERM | ESRCH | ECHILD | EDEADLK | ENOMSG | EDIRM
  | ENOSPC | ENODEV | ENOTDIR | EISDIR | EMFILE | ENFILE | ENOTTY | ETXTBSY
  | EFBIG | ENOSYS | ENOTEMPTY | ENAMETOOLONG | ELOOP | ENOTSOCK | EADDRINUSE
  | ECONNREFUSED | ENETUNREACH | ETIMEDOUT.

#[export] Instance error_t_eq_dec : EqDecision error_t.
Proof. solve_decision. Defined.

Definition error_value (e : error_t) : Z :=
  match e with
  | OK => 0 | ERROR => -1 | EOMEM => -2 | EINVAL => -3 | ENOENT => -4
  | EACCES => -5 | EEXIST => -6 | EBUSY => -7 | EAGAIN => -8 | EINTER => -9
  | EIO => -10 | EFAULT => -11 | EPERM => -12 | ESRCH => -13 | ECHILD => -14
  | EDEADLK => -15 | ENOMSG => -16 | EDIRM => -17 | ENOSPC => -18
  | ENODEV => -19 | ENOTDIR => -20 | EISDIR => -21 | EMFILE => -22
  | ENFILE => -23 | ENOTTY => -24 | ETXTBSY => -25 | EFBIG => -26
  | ENOSYS => -27 | ENOTEMPTY => -28 | ENAMETOOLONG => -29 | ELOOP => -30
  | ENOTSOCK => -31 | EADDRINUSE => -32 | ECONNREFUSED => -33
  | ENETUNREACH => -34 | ETIMEDOUT => -35
  end.

(** * Macros *)

Definition PAGE_SIZE : Z := 4096.
Definition PAGE_SHIFT : Z := 12.

(** [ALIGN_UP], [ALIDN_DOWN] (sic) and [IS_ALIGNED] on operands of [w] bits. *)
Definition ALIGN_UP (w x align : Z) : Z :=
  Z.land ((x +[w] align) -[w] 1) (wrap w (Z.lnot (wrap w (align - 1)))).
Definition ALIDN_DOWN (w x align : Z) : Z :=
  Z.land x (wrap w (Z.lnot (wrap w (align - 1)))).
Definition IS_ALIGNED (w x align : Z) : bool :=
  Z.land x (wrap w (align - 1)) =? 0.

Definition MIN (a b : Z) : Z := if a <? b then a else b.
Definition MAX (a b : Z) : Z := if a <? b then b else a.
Definition CLAMP (x min max : Z) : Z := MIN max (MAX min x).

(** [1UL << n]: the literal has the compiler's 64-bit [unsigned long]. *)
Definition BIT (n : Z) : Z := wrap 64 (Z.shiftl 1 n).
Definition SET_BIT (w x n : Z) : Z := wrap w (Z.lor x (BIT n)).
Definition CLEAR_BIT (w x n : Z) : Z := wrap w (Z.land x (wrap 64 (Z.lnot (BIT n)))).
Definition TEST_BIT (x n : Z) : bool := negb (Z.land x (BIT n) =? 0).

Definition KERNEL_VIRTUAL_BASE : Z := 0xFFFF800000000000.
Definition USER_VIRTUAL_END : Z := 0x0000800000000000.

(** [__pa(x)] on a 64-bit address. *)
Definition pa (x : Z) : Z := x -[64] KERNEL_VIRTUAL_BASE.

(** * Configuration ([config.h]) *)

Definition NR_CPUS : Z := 1.
Definition THREAD_SIZE : Z := 16384.
Definition MAX_ORDER : Z := 11.
Definition FORK_PREEMPT_COUNT : Z := 2.
Definition MAX_NICE : Z := 19.
Definition MIN_NICE : Z := -20.
Definition NICE_WIDTH : Z := 40.
Definition DEFAULT_PRIO : Z := 120.
Definition MAX_RT_PRIO : Z := 100.
Definition MAX_PRIO : Z := 140.
Definition NICE_0_LOAD : Z := 1024.
Definition MAX_NUMNODES : Z := 1.
Definition MAX_NR_ZONES : Z := 4.
Definition NR_LRU_LISTS : Z := 5.
Definition MIGRATE_TYPES : Z := 6.
Definition MIGRATE_PCPTYPES : Z := 3.
Definition PID_MAX : Z := 32768.
Definition BITS_PER_LONG : Z := 64.

(** * Facts used elsewhere *)

Lemma cast_in_range t x : in_range t (cast t x).
Proof.
  unfold in_range, cast. destruct t; simpl;
    first [apply wrap_range; lia | apply swrap_range; lia].
Qed.

Lemma cast_id t x : in_range t x → cast t x = x.
Proof.
  unfold in_range, cast. destruct t; simpl; intros;
    first [by apply wrap_small | by apply swrap_small].
Qed.

(** The mask [align - 1] of a power of two. *)
Lemma align_mask w k : 0 ≤ k < w → wrap w (2 ^ k - 1) = Z.ones k.
Proof.
  intros Hk. rewrite Z.ones_equiv, <-Z.sub_1_r. apply wrap_small.
  assert (0 < 2 ^ k) by (apply Z.pow_pos_nonneg; lia).
  assert (2 ^ k < 2 ^ w) by (apply Z.pow_lt_mono_r; lia). lia.
Qed.

Lemma land_not_mask w k x :
  0 ≤ k < w → 0 ≤ x < 2 ^ w → Z.land x (wrap w (Z.lnot (Z.ones k))) = 2 ^ k * (x / 2 ^ k).
Proof.
  intros Hk Hx. rewrite Z.mul_comm, <-Z.shiftr_div_pow2, <-Z.shiftl_mul_pow2 by lia.
  apply Z.bits_inj'. intros n Hn. rewrite Z.land_spec, wrap_testbit, Z.lnot_spec by lia.
  rewrite Z.shiftl_spec by lia.
  destruct (Z.ltb_spec n w) as [Hw|Hw].
  2: { rewrite Z.shiftr_spec by lia. replace (n - k + k) with n by lia.
       by rewrite (testbit_above w x n) by lia. }
  destruct (decide (n < k)).
  - rewrite Z.ones_spec_low, (Z.testbit_neg_r _ (n - k)) by lia. by rewrite !andb_false_r.
  - rewrite Z.ones_spec_high, Z.shiftr_spec by lia. simpl. rewrite andb_true_r. f_equal. lia.
Qed.

(** * Properties *)

(** The alignment macros on operands of [w] bits and a power of two.
    [IS_ALIGNED] decides divisibility; [ALIDN_DOWN] is the greatest multiple
    not above [x]; [ALIGN_UP] is the least multiple not below [x] as long as
    the intermediate sum fits the type, and 0 when it does not. *)
Theorem align_macros w k x :
  0 ≤ k < w → 0 ≤ x < 2 ^ w →
  (IS_ALIGNED w x (2 ^ k) = true ↔ (2 ^ k | x)) ∧
  (ALIDN_DOWN w x (2 ^ k) ≤ x < ALIDN_DOWN w x (2 ^ k) + 2 ^ k ∧ (2 ^ k | ALIDN_DOWN w x (2 ^ k))) ∧
  (x + 2 ^ k - 1 < 2 ^ w →
     x ≤ ALIGN_UP w x (2 ^ k) < x + 2 ^ k ∧ (2 ^ k | ALIGN_UP w x (2 ^ k))) ∧
  (2 ^ w ≤ x + 2 ^ k - 1 → ALIGN_UP w x (2 ^ k) = 0).
Proof.
  intros Hk Hx. assert (0 < 2 ^ k) by (apply Z.pow_pos_nonneg; lia).
  assert (2 ^ k < 2 ^ w) by (apply Z.pow_lt_mono_r; lia).
  unfold IS_ALIGNED, ALIDN_DOWN, ALIGN_UP. rewrite align_mask by done.
  assert ((x +[w] 2 ^ k -[w] 1) = wrap w (x + 2 ^ k - 1)) as ->.
  { unfold wrap. by rewrite Zminus_mod_idemp_l. }
  split_and!.
  - rewrite Z.eqb_eq, Z.land_ones, Z.mod_divide by lia. done.
  - rewrite land_not_mask by done. pose proof (Z.mul_div_le x (2 ^ k)). lia.
  - rewrite land_not_mask by done. pose proof (Z.mul_succ_div_gt x (2 ^ k)). lia.
  - rewrite land_not_mask by done. by exists (x / 2 ^ k); lia.
  - intros Hfit. rewrite wrap_small, land_not_mask by lia.
    pose proof (Z.mul_div_le (x + 2 ^ k - 1) (2 ^ k)).
    pose proof (Z.mul_succ_div_gt (x + 2 ^ k - 1) (2 ^ k)).
    split; [lia|]. exists ((x + 2 ^ k - 1) / 2 ^ k). lia.
  - intros Hov. assert (wrap w (x + 2 ^ k - 1) = x + 2 ^ k - 1 - 2 ^ w) as ->.
    { unfold wrap. symmetry. apply (Z.mod_unique _ _ 1); lia. }
    rewrite land_not_mask by lia. rewrite Z.div_small; lia.
Qed.

Lemma align_macros_witness :
  IS_ALIGNED 64 8192 (2 ^ 12) = true ∧ ALIGN_UP 64 8191 (2 ^ 12) = 8192.
Proof.
  split; [|by vm_compute]. apply (align_macros 64 12 8192); [by split|by vm_compute|].
  by exists 2.
Defined.
