(* ===== verification/ListHead.v ===== *)
(** Circular doubly-linked lists: [struct list_head] of
    [kernel/include/list.h].

    Nodes live in a heap indexed by addresses of a type [A] chosen by the
    client; a pointer may also be null or an arbitrary number (the poison
    values), and following such a pointer is a [Fault].  The operations are
    the C ones, field write by field write.  [rep] relates a heap to the
    abstract contents: which addresses are list heads, the sequence of
    entries of each, and which nodes are detached. *)
From stdpp Require Import base gmap list fin_maps.
From S2P Require Import Prelude.

(** * Data *)

Inductive ptr (A : Type) : Type :=
  | Null
  | Raw (z : Z)
  | Ptr (a : A).
Arguments Null {A}.
Arguments Raw {A} z.
Arguments Ptr {A} a.

#[export] Instance ptr_eq_dec {A} `{EqDecision A} : EqDecision (ptr A).
Proof. solve_decision. Defined.

Record list_head (A : Type) : Type := ListNode { next : ptr A; prev : ptr A }.
Arguments ListNode {A} next prev.
Arguments next {A} _.
Arguments prev {A} _.

(** * Operations *)

Section operations.
  Context {A : Type} `{Countable A}.
  Abbreviation heap := (gmap A (list_head A)).
  Abbreviation L := (M heap).

(** Field accesses through a pointer. *)
Definition load (p : ptr A) : L (list_head A) := λ h,
  match p with
  | Ptr a => match h !! a with Some n => Ret (n, h) | None => Fault end
  | _ => Fault
  end.
Definition rd_next (p : ptr A) : L (ptr A) := n ← load p; mret (next n).
Definition rd_prev (p : ptr A) : L (ptr A) := n ← load p; mret (prev n).
Definition set_next (a : A) (v : ptr A) (h : heap) : heap :=
  alter (λ n, ListNode v (prev n)) a h.
Definition set_prev (a : A) (v : ptr A) (h : heap) : heap :=
  alter (λ n, ListNode (next n) v) a h.
Definition wr_next (p v : ptr A) : L unit := λ h,
  match p with
  | Ptr a => match h !! a with Some _ => Ret (tt, set_next a v h) | None => Fault end
  | _ => Fault
  end.
Definition wr_prev (p v : ptr A) : L unit := λ h,
  match p with
  | Ptr a => match h !! a with Some _ => Ret (tt, set_prev a v h) | None => Fault end
  | _ => Fault
  end.

Definition INIT_LIST_HEAD (list : ptr A) : L unit :=
  wr_next list list;; wr_prev list list.

Definition list_empty (head : ptr A) : L bool :=
  n ← rd_next head; mret (bool_decide (n = head)).

Definition list_is_last (list head : ptr A) : L bool :=
  n ← rd_next list; mret (bool_decide (n = head)).

Definition list_is_first (list head : ptr A) : L bool :=
  p ← rd_prev list; mret (bool_decide (p = head)).

(** Declared [void] in the source, used for its value by
    [list_cut_position]: the returned expression is modelled. *)
Definition list_is_singular (head : ptr A) : L bool :=
  n ← rd_next head;
  if decide (n = head) then mret false
  else nn ← rd_next n; mret (bool_decide (nn = head)).

Definition __list_add (new prev next : ptr A) : L unit :=
  wr_prev next new;;
  wr_next new next;;
  wr_prev new prev;;
  wr_next prev new.

Definition list_add (new head : ptr A) : L unit :=
  n ← rd_next head; __list_add new head n.

Definition list_add_tail (new head : ptr A) : L unit :=
  p ← rd_prev head; __list_add new p head.

Definition __list_del (prev next : ptr A) : L unit :=
  wr_prev next prev;; wr_next prev next.

Definition LIST_POISON1 : ptr A := Raw 0x100.
Definition LIST_POISON2 : ptr A := Raw 0x200.

Definition list_del (entry : ptr A) : L unit :=
  p ← rd_prev entry;
  n ← rd_next entry;
  __list_del p n;;
  wr_next entry LIST_POISON1;;
  wr_prev entry LIST_POISON2.

Definition list_del_init (entry : ptr A) : L unit :=
  p ← rd_prev entry;
  n ← rd_next entry;
  __list_del p n;;
  INIT_LIST_HEAD entry.

Definition list_replace (old new : ptr A) : L unit :=
  on ← rd_next old;
  wr_next new on;;
  nn ← rd_next new;
  wr_prev nn new;;
  op ← rd_prev old;
  wr_prev new op;;
  np ← rd_prev new;
  wr_next np new.

Definition list_replace_init (old new : ptr A) : L unit :=
  list_replace old new;; INIT_LIST_HEAD old.

Definition list_move (list head : ptr A) : L unit :=
  p ← rd_prev list;
  n ← rd_next list;
  __list_del p n;;
  list_add list head.

Definition list_move_tail (list head : ptr A) : L unit :=
  p ← rd_prev list;
  n ← rd_next list;
  __list_del p n;;
  list_add_tail list head.

Definition list_rotate_left (head : ptr A) : L unit :=
  e ← list_empty head;
  if (e : bool) then mret tt
  else first ← rd_next head; list_move_tail first head.

Definition __list_cut_position (list head entry : ptr A) : L unit :=
  new_first ← rd_next entry;
  hn ← rd_next head;
  wr_next list hn;;
  ln ← rd_next list;
  wr_prev ln list;;
  wr_prev list entry;;
  wr_next entry list;;
  wr_next head new_first;;
  wr_prev new_first head.

Definition list_cut_position (list head entry : ptr A) : L unit :=
  e ← list_empty head;
  if (e : bool) then mret tt else
  sing ← list_is_singular head;
  hn ← rd_next head;
  hp ← rd_prev head;
  if (sing : bool) && bool_decide (hn ≠ entry) && bool_decide (hp ≠ entry) then mret tt else
  if decide (entry = head) then INIT_LIST_HEAD list
  else __list_cut_position list head entry.

(** The second parameter is named [head] in the source while the body uses
    [prev], which every caller passes in that position. *)
Definition __list_splice (list prev next : ptr A) : L unit :=
  first ← rd_next list;
  last ← rd_prev list;
  wr_prev first prev;;
  wr_next prev first;;
  wr_next last next;;
  wr_prev next last.

Definition list_splice (list head : ptr A) : L unit :=
  e ← list_empty list;
  if (e : bool) then mret tt
  else n ← rd_next head; __list_splice list head n.

Definition list_splice_tail (list head : ptr A) : L unit :=
  e ← list_empty list;
  if (e : bool) then mret tt
  else p ← rd_prev head; __list_splice list p head.

Definition list_splice_init (list head : ptr A) : L unit :=
  e ← list_empty list;
  if (e : bool) then mret tt
  else n ← rd_next head; __list_splice list head n;; INIT_LIST_HEAD list.

Definition list_splice_tail_init (list head : ptr A) : L unit :=
  e ← list_empty list;
  if (e : bool) then mret tt
  else p ← rd_prev head; __list_splice list p head;; INIT_LIST_HEAD list.

(** The macros [list_for_each] and [list_for_each_prev] around a body that
    looks at the cursor only: [inl] goes on with the loop, [inr] returns from
    it.  Fuel bounds the rounds. *)
Fixpoint for_each_loop {S R} (step : ptr A → L (ptr A)) (fuel : nat) (head pos : ptr A)
    (body : ptr A → S → S + R) (a : S) : L (S + R) :=
  match fuel with
  | O => out_of_fuel
  | S fuel =>
      if decide (pos = head) then mret (inl a)
      else match body pos a with
           | inr r => mret (inr r)
           | inl a => n ← step pos; for_each_loop step fuel head n body a
           end
  end.
Definition list_for_each {S R} (fuel : nat) (head : ptr A) (body : ptr A → S → S + R) (a : S) : L (S + R) :=
  pos ← rd_next head; for_each_loop rd_next fuel head pos body a.
Definition list_for_each_prev {S R} (fuel : nat) (head : ptr A) (body : ptr A → S → S + R) (a : S) : L (S + R) :=
  pos ← rd_prev head; for_each_loop rd_prev fuel head pos body a.

(** Counters are [size_t]. *)
Definition list_count_nodes (fuel : nat) (head : ptr A) : L Z :=
  r ← list_for_each (R := Empty_set) fuel head (λ _ count, inl (count +[64] 1)) 0;
  match r with inl count => mret count | inr r => match (r : Empty_set) with end end.

Definition list_contains (fuel : nat) (head node : ptr A) : L bool :=
  r ← list_for_each fuel head (λ pos _, if decide (pos = node) then inr true else inl tt) tt;
  mret (match r with inl _ => false | inr b => b end).

Definition list_get_nth (fuel : nat) (head : ptr A) (n : Z) : L (ptr A) :=
  r ← list_for_each fuel head (λ pos i, if i =? n then inr pos else inl (i +[64] 1)) 0;
  mret (match r with inl _ => Null | inr pos => pos end).

End operations.

(** * Abstract contents *)

Section contents.
  Context {A : Type} `{Countable A}.
  Abbreviation heap := (gmap A (list_head A)).

Definition getn (h : heap) (x : A) : option (ptr A) := next <$> h !! x.
Definition getp (h : heap) (x : A) : option (ptr A) := prev <$> h !! x.

(** [y] follows [x], seen from both ends. *)
Definition link (h : heap) (x y : A) : Prop :=
  getn h x = Some (Ptr y) ∧ getp h y = Some (Ptr x).

Fixpoint chain (h : heap) (l : list A) : Prop :=
  match l with
  | x :: (y :: _) as r => link h x y ∧ chain h r
  | _ => True
  end.

(** The circular list headed at [hd] holds exactly the entries [l]. *)
Definition dll (h : heap) (hd : A) (l : list A) : Prop :=
  chain h (hd :: l ++ [hd]).

Record astore := AStore {
  lists : gmap A (list A);   (* entries of each list head *)
  detached : gset A          (* allocated nodes that are in no list *)
}.

Record rep (h : heap) (s : astore) : Prop := {
  rep_dll hd l : lists s !! hd = Some l → dll h hd l ∧ NoDup (hd :: l);
  rep_disj hd1 l1 hd2 l2 x :
    lists s !! hd1 = Some l1 → lists s !! hd2 = Some l2 →
    x ∈ hd1 :: l1 → x ∈ hd2 :: l2 → hd1 = hd2;
  rep_detached x : x ∈ detached s → is_Some (h !! x);
  rep_apart x hd l : x ∈ detached s → lists s !! hd = Some l → x ∉ hd :: l;
}.

(** Running [m] on any heap that represents [s] returns [b] and a heap that
    represents [s']. *)
Definition runs_to {B} (m : M heap B) (s : astore) (b : B) (s' : astore) : Prop :=
  ∀ h, rep h s → ∃ h', m h = Ret (b, h') ∧ rep h' s'.

(** Neighbours across a split point of the circle [hd, l1, l2]. *)
Definition before (hd : A) (l1 : list A) : A := default hd (last l1).
Definition after (hd : A) (l2 : list A) : A := default hd (head l2).

(** The two field writes that make [n] follow [p]. *)
Definition connect (p n : A) (h : heap) : heap :=
  set_next p (Ptr n) (set_prev n (Ptr p) h).
End contents.
