(* ===== verification/ListTheory.v ===== *)
(** Reasoning about [list_head] circles: how field writes act on chains of
    nodes, how the representation relation of [ListHead] changes, and what
    each operation of [list.h] does to the abstract contents. *)
From stdpp Require Import base gmap list fin_maps.
From S2P Require Import Prelude ListHead.

Section fields.
  Context {A : Type} `{Countable A}.
  Abbreviation heap := (gmap A (list_head A)).

(** ** Field updates *)

Implicit Types (h : heap) (a x : A) (v : ptr A).

Lemma getn_set_next h a v x :
  is_Some (h !! a) → getn (set_next a v h) x = if decide (a = x) then Some v else getn h x.
Proof.
  intros [n Hn]. unfold getn, set_next. rewrite lookup_alter.
  case_decide; subst; [by rewrite Hn|done].
Qed.
Lemma getp_set_prev h a v x :
  is_Some (h !! a) → getp (set_prev a v h) x = if decide (a = x) then Some v else getp h x.
Proof.
  intros [n Hn]. unfold getp, set_prev. rewrite lookup_alter.
  case_decide; subst; [by rewrite Hn|done].
Qed.
Lemma getp_set_next h a v x : getp (set_next a v h) x = getp h x.
Proof.
  unfold getp, set_next. rewrite lookup_alter. case_decide; subst; [|done].
  by destruct (h !! x).
Qed.
Lemma getn_set_prev h a v x : getn (set_prev a v h) x = getn h x.
Proof.
  unfold getn, set_prev. rewrite lookup_alter. case_decide; subst; [|done].
  by destruct (h !! x).
Qed.
Lemma alloc_set_next h a v x : is_Some (set_next a v h !! x) ↔ is_Some (h !! x).
Proof.
  unfold set_next. rewrite lookup_alter. case_decide; subst; [|done].
  by rewrite fmap_is_Some.
Qed.
Lemma alloc_set_prev h a v x : is_Some (set_prev a v h !! x) ↔ is_Some (h !! x).
Proof.
  unfold set_prev. rewrite lookup_alter. case_decide; subst; [|done].
  by rewrite fmap_is_Some.
Qed.
Lemma set_next_ne h a v x : x ≠ a → set_next a v h !! x = h !! x.
Proof. intros. unfold set_next. by rewrite lookup_alter_ne. Qed.
Lemma set_prev_ne h a v x : x ≠ a → set_prev a v h !! x = h !! x.
Proof. intros. unfold set_prev. by rewrite lookup_alter_ne. Qed.
Lemma set_next_prev h a v b w :
  set_next a v (set_prev b w h) = set_prev b w (set_next a v h).
Proof.
  unfold set_next, set_prev. apply map_eq; intros x. destruct (decide (a = b)) as [->|?].
  - destruct (decide (b = x)) as [->|?].
    + rewrite !lookup_alter_eq. by destruct (h !! x).
    + by rewrite !lookup_alter_ne.
  - rewrite !lookup_alter. repeat case_decide; congruence.
Qed.

Lemma getn_alloc h x v : getn h x = Some v → is_Some (h !! x).
Proof. unfold getn. destruct (h !! x); naive_solver. Qed.
Lemma getp_alloc h x v : getp h x = Some v → is_Some (h !! x).
Proof. unfold getp. destruct (h !! x); naive_solver. Qed.

Lemma rd_next_run h x v : getn h x = Some v → rd_next (Ptr x) h = Ret (v, h).
Proof.
  unfold getn, rd_next, mbind, M_bind, load. destruct (h !! x); naive_solver.
Qed.
Lemma rd_prev_run h x v : getp h x = Some v → rd_prev (Ptr x) h = Ret (v, h).
Proof.
  unfold getp, rd_prev, mbind, M_bind, load. destruct (h !! x); naive_solver.
Qed.
Lemma wr_next_run h x v : is_Some (h !! x) → wr_next (Ptr x) v h = Ret (tt, set_next x v h).
Proof. unfold wr_next. by intros [? ->]. Qed.
Lemma wr_prev_run h x v : is_Some (h !! x) → wr_prev (Ptr x) v h = Ret (tt, set_prev x v h).
Proof. unfold wr_prev. by intros [? ->]. Qed.
End fields.

Create HintDb lists.
#[export] Hint Extern 2 (is_Some (_ !! _)) => eapply getn_alloc; eassumption : lists.
#[export] Hint Extern 2 (is_Some (_ !! _)) => eapply getp_alloc; eassumption : lists.

(** Solve allocation side conditions, and compute field reads, through any
    number of field writes. *)
Ltac alloc :=
  repeat first [rewrite alloc_set_next | rewrite alloc_set_prev]; eauto with lists.
Ltac fields :=
  repeat first [ rewrite getp_set_next | rewrite getn_set_prev
               | rewrite getn_set_next by alloc | rewrite getp_set_prev by alloc ].

(** * Chains *)

Section chains.
  Context {A : Type} `{Countable A}.
  Abbreviation heap := (gmap A (list_head A)).
  Implicit Types (h : heap) (l a b : list A).

Lemma chain_cons2 h x y l : chain h (x :: y :: l) ↔ link h x y ∧ chain h (y :: l).
Proof. done. Qed.

Lemma chain_app_inv h a b : chain h (a ++ b) → chain h a ∧ chain h b.
Proof.
  induction a as [|x a IH]; [done|]. destruct a as [|y a]; [|].
  - intros Hc. split; [done|]. by destruct b as [|z b]; [|destruct Hc].
  - intros [Hl Hc]. by destruct (IH Hc).
Qed.

Lemma chain_snoc_link h a x y b : chain h (a ++ x :: y :: b) → link h x y.
Proof. intros [_ Hc]%chain_app_inv. by destruct Hc. Qed.

(** A chain only depends on the [next] of all but its last node and on the
    [prev] of all but its first. *)
Lemma chain_frame h h' l :
  chain h l →
  (∀ x, x ∈ removelast l → getn h' x = getn h x) →
  (∀ x, x ∈ tail l → getp h' x = getp h x) →
  chain h' l.
Proof.
  induction l as [|x l IH]; [done|]. destruct l as [|y l]; [done|].
  intros [[Hn Hp] Hc] HN HP.
  split; [split|].
  - rewrite HN; [done|]. simpl. apply list_elem_of_here.
  - rewrite HP; [done|]. simpl. apply list_elem_of_here.
  - apply IH; [done| |]; intros z Hz.
    + apply HN. simpl. by apply list_elem_of_further.
    + apply HP. simpl. by apply list_elem_of_further.
Qed.

Lemma chain_frame_eq h h' l :
  chain h l → (∀ x, x ∈ l → h' !! x = h !! x) → chain h' l.
Proof.
  intros Hc Heq. apply (chain_frame h); [done| |]; intros x Hx; unfold getn, getp;
    rewrite Heq; eauto using elem_of_removelast, elem_of_tail.
Qed.

Lemma chain_connect_frame h p n l :
  chain h l → is_Some (h !! p) → is_Some (h !! n) →
  p ∉ removelast l → n ∉ tail l → chain (connect p n h) l.
Proof.
  intros Hc Hp Hn Hpl Hnl. apply (chain_frame h); [done| |];
    intros x Hx; unfold connect; fields; case_decide; subst; done.
Qed.

Lemma NoDup_last_removelast l p : NoDup l → last l = Some p → p ∉ removelast l.
Proof.
  intros Hnd Hl. destruct (exists_last (l := l)) as (l' & y & ->); [by intros ->|].
  rewrite last_snoc in Hl. rewrite removelast_last. simplify_eq.
  apply NoDup_app in Hnd as (_ & Hd & _). intros Hp. apply (Hd p Hp), list_elem_of_singleton. done.
Qed.

Lemma NoDup_head_tail l n : NoDup l → head l = Some n → n ∉ tail l.
Proof. destruct l; [done|]. intros [??]%NoDup_cons ?; by simplify_eq/=. Qed.

Lemma chain_app_join h a b p n :
  chain h a → chain h b → last a = Some p → head b = Some n → link h p n →
  chain h (a ++ b).
Proof.
  intros Ha Hb Hla Hhb Hl. destruct b as [|n' b]; [done|]. simplify_eq/=.
  revert p Hla Hl. induction a as [|x a IH]; intros p Hla Hl; [done|].
  destruct a as [|y a]; simplify_eq/=; [done|].
  destruct Ha as [Hxy Ha]. split; [done|]. by apply (IH Ha p).
Qed.

(** Joining two chains by linking the end of one to the start of the other. *)
Lemma chain_connect_join h a b p n :
  chain h a → chain h b → last a = Some p → head b = Some n →
  is_Some (h !! p) → is_Some (h !! n) →
  NoDup a → NoDup b →
  (∀ x, x ∈ a → x ∉ removelast b) → (∀ x, x ∈ b → x ∉ tail a) →
  chain (connect p n h) (a ++ b).
Proof.
  intros Ha Hb Hla Hhb Hp Hn Hnda Hndb Hab Hba.
  assert (p ∈ a) as Hpa.
  { apply last_Some in Hla as [l' ->]. set_solver. }
  assert (n ∈ b) as Hnb.
  { apply head_Some in Hhb as [l' ->]. set_solver. }
  apply (chain_app_join _ _ _ p n); [| |done..|].
  - apply chain_connect_frame; auto using NoDup_last_removelast.
  - apply chain_connect_frame; auto using NoDup_head_tail.
  - split; unfold connect; fields; by rewrite decide_True.
Qed.

(** ** Neighbours in a circle *)

Lemma last_before hd l : last (hd :: l) = Some (before hd l).
Proof. unfold before. rewrite last_cons. by destruct (last l). Qed.

Lemma head_after hd l : head (l ++ [hd]) = Some (after hd l).
Proof. by destruct l. Qed.

Lemma before_elem hd l : before hd l ∈ hd :: l.
Proof. pose proof (last_before hd l) as Hl. apply last_Some in Hl as [l' ->]. set_solver. Qed.

Lemma after_elem hd l : after hd l ∈ hd :: l.
Proof. destruct l; simpl; set_solver. Qed.

Lemma before_snoc hd l x : before hd (l ++ [x]) = x.
Proof. unfold before. by rewrite last_snoc. Qed.

Lemma dll_split h hd l1 l2 :
  dll h hd (l1 ++ l2) →
  chain h (hd :: l1) ∧ chain h (l2 ++ [hd]) ∧ link h (before hd l1) (after hd l2).
Proof.
  unfold dll. rewrite <-app_assoc. intros Hc.
  destruct (chain_app_inv h (hd :: l1) (l2 ++ [hd]) Hc) as [??].
  split_and!; [done..|]. change (hd :: l1 ++ l2 ++ [hd]) with ((hd :: l1) ++ l2 ++ [hd]) in Hc.
  pose proof (last_before hd l1) as Hl. pose proof (head_after hd l2) as Hh.
  apply last_Some in Hl as [l' Hl]. apply head_Some in Hh as [l'' Hh].
  rewrite Hl, Hh, <-app_assoc in Hc. by apply chain_snoc_link in Hc.
Qed.

Lemma dll_alloc h hd l x : dll h hd l → x ∈ hd :: l → is_Some (h !! x).
Proof.
  intros Hd Hx. apply list_elem_of_split in Hx as (l1 & l2 & Heq).
  destruct l1 as [|y l1]; simplify_eq/=.
  - apply (dll_split h x [] l2) in Hd as (_ & _ & [? _]). eauto with lists.
  - rewrite cons_middle, app_assoc in Hd. apply dll_split in Hd as (_ & _ & [? _]).
    rewrite before_snoc in *. eauto with lists.
Qed.
End chains.

(** * Changing the representation *)

Section representation.
  Context {A : Type} `{Countable A}.
  Abbreviation heap := (gmap A (list_head A)).
  Implicit Types (h : heap) (s : astore (A := A)) (l : list A) (x hd : A).

(** Forget that a list is one: all its nodes become detached. *)
(** Before any list exists, every node is detached. *)
Lemma rep_fresh h : rep h (AStore ∅ (dom h)).
Proof. split; simpl; [set_solver..| |set_solver]. intros x. by rewrite elem_of_dom. Qed.

Lemma rep_dissolve h s hd l :
  rep h s → lists s !! hd = Some l →
  rep h (AStore (delete hd (lists s)) (list_to_set (hd :: l) ∪ detached s)).
Proof.
  intros [Hdll Hdisj Hdet Hap] Hl. split; simpl.
  - intros hd' l' [_ Hl']%lookup_delete_Some. by apply Hdll.
  - intros hd1 l1 hd2 l2 x [_ H1]%lookup_delete_Some [_ H2]%lookup_delete_Some. by apply Hdisj.
  - intros x Hx. destruct (decide (x ∈ hd :: l)) as [Hin|].
    + destruct (Hdll _ _ Hl) as [Hd _]. by apply (dll_alloc h hd l).
    + apply Hdet. set_solver.
  - intros x hd' l' Hx [Hne Hl']%lookup_delete_Some Hin.
    destruct (decide (x ∈ hd :: l)) as [Hin'|].
    + by apply Hne, (Hdisj hd l hd' l' x).
    + apply (Hap x hd' l'); [set_solver|done..].
Qed.

(** Conversely, detached nodes that form a circle become a list; the heap may
    have changed on the detached nodes only. *)
Lemma rep_install h h' s hd l D :
  rep h s →
  (∀ x, x ∉ detached s → h' !! x = h !! x) →
  (∀ x, is_Some (h !! x) → is_Some (h' !! x)) →
  dll h' hd l → NoDup (hd :: l) →
  list_to_set (hd :: l) ⊆ detached s →
  D ⊆ detached s ∖ list_to_set (hd :: l) →
  rep h' (AStore (<[hd := l]> (lists s)) D).
Proof.
  intros [Hdll Hdisj Hdet Hap] Hf Ha Hd Hnd Hsub HD.
  assert (∀ hd' l', lists s !! hd' = Some l' → ∀ x, x ∈ hd' :: l' → x ∉ hd :: l) as Hsep.
  { intros hd' l' Hl' x Hx Hx'. apply (Hap x hd' l'); [|done..].
    apply Hsub. by apply elem_of_list_to_set. }
  split; simpl.
  - intros hd' l' [[<- <-]|[Hne Hl']]%lookup_insert_Some; [done|].
    destruct (Hdll _ _ Hl') as [Hdl Hnd']. split; [|done].
    apply (chain_frame_eq h); [done|]. intros x Hx. apply Hf. intros Hxd.
    apply (Hap x hd' l' Hxd Hl'). set_solver.
  - intros hd1 l1 hd2 l2 x [[<- <-]|[? H1]]%lookup_insert_Some
      [[<- <-]|[? H2]]%lookup_insert_Some Hx1 Hx2; [done|..].
    + by destruct (Hsep _ _ H2 x Hx2).
    + by destruct (Hsep _ _ H1 x Hx1).
    + by apply (Hdisj hd1 l1 hd2 l2 x).
  - intros x Hx. apply Ha, Hdet. set_solver.
  - intros x hd' l' Hx [[<- <-]|[Hne Hl']]%lookup_insert_Some; [set_solver|].
    apply Hap; [set_solver|done].
Qed.

(** The heap may change on detached nodes at will. *)
Lemma rep_frame h h' s :
  rep h s →
  (∀ x, x ∉ detached s → h' !! x = h !! x) →
  (∀ x, is_Some (h !! x) → is_Some (h' !! x)) →
  rep h' s.
Proof.
  intros [Hdll Hdisj Hdet Hap] Hf Ha. split; [|done|naive_solver|done].
  intros hd l Hl. destruct (Hdll _ _ Hl) as [Hd Hnd]. split; [|done].
  apply (chain_frame_eq h); [done|]. intros x Hx. apply Hf. intros Hxd.
  apply (Hap x hd l Hxd Hl). set_solver.
Qed.

(** New nodes enter the heap detached. *)
Lemma rep_grow h h' s D :
  rep h s →
  (∀ x, is_Some (h !! x) → h' !! x = h !! x) →
  (∀ x, x ∈ D → h !! x = None ∧ is_Some (h' !! x)) →
  rep h' (AStore (lists s) (D ∪ detached s)).
Proof.
  intros [Hdll Hdisj Hdet Hap] Hf HD. split; simpl; [|done|..].
  - intros hd l Hl. destruct (Hdll _ _ Hl) as [Hd Hnd]. split; [|done].
    apply (chain_frame_eq h); [done|]. intros x Hx. apply Hf, (dll_alloc h hd l); [done|set_solver].
  - intros x [Hx|Hx]%elem_of_union; [by apply HD|]. rewrite Hf; by apply Hdet.
  - intros x hd l [Hx|Hx]%elem_of_union Hl; [|by apply Hap]. destruct (Hdll _ _ Hl) as [Hd _].
    intros Hin. apply (dll_alloc h hd l) in Hin as [n Hn]; [|done]. destruct (HD x Hx). congruence.
Qed.

(** Only the membership of [detached] matters. *)
Lemma rep_shrink h s D :
  rep h s → D ⊆ detached s → rep h (AStore (lists s) D).
Proof. intros [] HD. split; naive_solver. Qed.

Lemma runs_ret {B} (b : B) s : runs_to (mret b) s b s.
Proof. intros h Hr. by exists h. Qed.

Lemma runs_bind {B C} (m : M heap B) (f : B → M heap C) s b s' c s'' :
  runs_to m s b s' → runs_to (f b) s' c s'' → runs_to (m ≫= f) s c s''.
Proof.
  intros Hm Hf h Hr. destruct (Hm h Hr) as (h' & Hmh & Hr').
  destruct (Hf h' Hr') as (h'' & Hfh & Hr''). exists h''. split; [|done].
  by rewrite (bind_Ret _ _ _ _ _ Hmh).
Qed.

(** Code that only reads: it leaves the heap as it was. *)
Definition reads_to {B} (m : M heap B) s (b : B) : Prop := ∀ h, rep h s → m h = Ret (b, h).

Lemma reads_runs {B} (m : M heap B) s b : reads_to m s b → runs_to m s b s.
Proof. intros Hm h Hr. exists h. auto. Qed.

Lemma reads_ret {B} (b : B) s : reads_to (mret b) s b.
Proof. done. Qed.

Lemma reads_bind {B C} (m : M heap B) (f : B → M heap C) s b c :
  reads_to m s b → reads_to (f b) s c → reads_to (m ≫= f) s c.
Proof. intros Hm Hf h Hr. mstep with (Hm h Hr). by apply Hf. Qed.

Lemma reads_rep {B} (m : M heap B) s b : (∀ h, rep h s → reads_to m s b) → reads_to m s b.
Proof. intros Hm h Hr. by apply (Hm h Hr). Qed.

Section reads.
  Context (s : astore (A := A)) (hd : A) (l1 l2 : list A).
  Hypothesis (Hl : lists s !! hd = Some (l1 ++ l2)).

Lemma reads_next_split : reads_to (rd_next (Ptr (before hd l1))) s (Ptr (after hd l2)).
Proof.
  intros h Hr. apply rd_next_run.
  destruct (rep_dll _ _ Hr _ _ Hl) as [(_ & _ & [? _])%dll_split _]. done.
Qed.

Lemma reads_prev_split : reads_to (rd_prev (Ptr (after hd l2))) s (Ptr (before hd l1)).
Proof.
  intros h Hr. apply rd_prev_run.
  destruct (rep_dll _ _ Hr _ _ Hl) as [(_ & _ & [_ ?])%dll_split _]. done.
Qed.
End reads.

Lemma reads_next_head s hd l :
  lists s !! hd = Some l → reads_to (rd_next (Ptr hd)) s (Ptr (after hd l)).
Proof. apply (reads_next_split s hd [] l). Qed.

Lemma reads_prev_head s hd l :
  lists s !! hd = Some l → reads_to (rd_prev (Ptr hd)) s (Ptr (before hd l)).
Proof. intros Hl. apply (reads_prev_split s hd l []). by rewrite app_nil_r. Qed.

Lemma reads_next_entry s hd l1 e l2 :
  lists s !! hd = Some (l1 ++ e :: l2) → reads_to (rd_next (Ptr e)) s (Ptr (after hd l2)).
Proof.
  intros Hl. rewrite <-(before_snoc hd l1 e). apply reads_next_split.
  by rewrite <-app_assoc.
Qed.

Lemma reads_prev_entry s hd l1 e l2 :
  lists s !! hd = Some (l1 ++ e :: l2) → reads_to (rd_prev (Ptr e)) s (Ptr (before hd l1)).
Proof. apply (reads_prev_split s hd l1 (e :: l2)). Qed.

Lemma runs_wr_next_detached s x v :
  x ∈ detached s → runs_to (wr_next (Ptr x) v) s tt s.
Proof.
  intros Hx h Hr. destruct (rep_detached _ _ Hr _ Hx) as [n Hn].
  eexists. split; [by apply wr_next_run|]. apply (rep_frame h); [done|..].
  - intros y Hy. apply set_next_ne. set_solver.
  - intros y. by rewrite alloc_set_next.
Qed.

Lemma runs_wr_prev_detached s x v :
  x ∈ detached s → runs_to (wr_prev (Ptr x) v) s tt s.
Proof.
  intros Hx h Hr. destruct (rep_detached _ _ Hr _ Hx) as [n Hn].
  eexists. split; [by apply wr_prev_run|]. apply (rep_frame h); [done|..].
  - intros y Hy. apply set_prev_ne. set_solver.
  - intros y. by rewrite alloc_set_prev.
Qed.
End representation.

(** * The operations on abstract contents *)

(** Footprint side conditions of [rep_install]. *)
Ltac footprint :=
  intros ??; unfold connect;
  repeat first [rewrite set_next_ne by set_solver | rewrite set_prev_ne by set_solver]; done.
Ltac alloc_mono := intros ?; unfold connect; by repeat first [rewrite alloc_set_next | rewrite alloc_set_prev].

(** [NoDup] of concatenations, by sets. *)
Ltac nodup :=
  repeat match goal with
  | H : NoDup _ |- _ => progress (repeat first [rewrite NoDup_app in H | rewrite NoDup_cons in H])
  end;
  repeat first [rewrite NoDup_app | rewrite NoDup_cons];
  split_and?; try apply NoDup_nil_2; set_solver.

(** Execute one field write to an allocated node. *)
Ltac wr := first [mstep with wr_prev_run | mstep with wr_next_run]; [|solve [alloc]].

Section operation_specs.
  Context {A : Type} `{Countable A}.
  Abbreviation heap := (gmap A (list_head A)).
  Implicit Types (h : heap) (s : astore (A := A)) (l m : list A) (x hd : A).

(** Membership facts about a circle split in two. *)
Lemma circle_split hd l1 l2 :
  NoDup (hd :: l1 ++ l2) →
  NoDup (hd :: l1) ∧ NoDup (l2 ++ [hd]) ∧
  (∀ x, x ∈ hd :: l1 → x ∉ l2) ∧ (∀ x, x ∈ l2 ++ [hd] → x ∉ l1).
Proof.
  intros [Hhd Hnd]%NoDup_cons. apply NoDup_app in Hnd as (Hn1 & Hd & Hn2).
  split_and!.
  - apply NoDup_cons. set_solver.
  - apply NoDup_app. split_and!; [done| |apply NoDup_singleton]. set_solver.
  - set_solver.
  - set_solver.
Qed.

Lemma before_in_circle hd l1 l2 : before hd l1 ∈ hd :: l1 ++ l2.
Proof. pose proof (before_elem hd l1). set_solver. Qed.
Lemma after_in_circle hd l1 l2 : after hd l2 ∈ hd :: l1 ++ l2.
Proof. pose proof (after_elem hd l2). set_solver. Qed.

Lemma after_in_snoc hd l2 : after hd l2 ∈ l2 ++ [hd].
Proof. pose proof (head_after hd l2) as Hh. apply head_Some in Hh as [l' ->]. set_solver. Qed.

Lemma elem_of_snoc_cons l x y : y ∈ l ++ [x] ↔ y ∈ x :: l.
Proof. set_solver. Qed.

(** A segment [m] linked in between the two halves of a circle. *)
Lemma halves_insert h hd l1 m l2 f e :
  chain h (hd :: l1) → chain h (l2 ++ [hd]) → NoDup (hd :: l1 ++ l2) →
  is_Some (h !! before hd l1) → is_Some (h !! after hd l2) →
  chain h m → NoDup m → head m = Some f → last m = Some e →
  is_Some (h !! f) → is_Some (h !! e) →
  (∀ x, x ∈ m → x ∉ hd :: l1 ++ l2) →
  dll (connect (before hd l1) f (connect e (after hd l2) h)) hd (l1 ++ m ++ l2).
Proof.
  intros Ha Hb Hnd Hba Haa Hm Hndm Hf He Hfa Hea Hsep.
  destruct (circle_split _ _ _ Hnd) as (Hn1 & Hn2 & Hd1 & Hd2).
  assert (f ∈ m) by (apply head_Some in Hf as [? ->]; set_solver).
  assert (e ∈ m) by (apply last_Some in He as [? ->]; set_solver).
  pose proof (after_in_snoc hd l2) as Haf.
  unfold dll. rewrite <-!app_assoc. apply (chain_connect_join _ (hd :: l1) (m ++ l2 ++ [hd])).
  - apply chain_connect_frame; [done..| |].
    + intros Hi%elem_of_removelast. set_solver.
    + simpl. by apply Hd2.
  - apply chain_connect_join; try done; [apply head_after|..].
    + intros y Hy Hy'%elem_of_removelast. set_solver.
    + intros y Hy Hy'%elem_of_tail. set_solver.
  - apply last_before.
  - by destruct m; simplify_eq/=.
  - unfold connect; alloc.
  - unfold connect; alloc.
  - done.
  - apply NoDup_app. split_and!; [done| |done]. set_solver.
  - rewrite app_assoc, removelast_last. set_solver.
  - simpl. set_solver.
Qed.

Lemma circle_insert h hd l1 m l2 f e :
  dll h hd (l1 ++ l2) → NoDup (hd :: l1 ++ l2) →
  chain h m → NoDup m → head m = Some f → last m = Some e →
  is_Some (h !! f) → is_Some (h !! e) →
  (∀ x, x ∈ m → x ∉ hd :: l1 ++ l2) →
  dll (connect (before hd l1) f (connect e (after hd l2) h)) hd (l1 ++ m ++ l2).
Proof.
  intros Hd ?. destruct (dll_split _ _ _ _ Hd) as (Ha & Hb & _).
  intros. apply halves_insert; try done; apply (dll_alloc _ _ _ _ Hd);
    [apply before_in_circle|apply after_in_circle].
Qed.

(** A segment closed into a circle by a new head [x]. *)
Lemma circle_close h x m f e :
  chain h m → NoDup (x :: m) → head m = Some f → last m = Some e →
  is_Some (h !! x) → is_Some (h !! f) → is_Some (h !! e) →
  dll (connect e x (connect x f h)) x m.
Proof.
  intros Hm Hnd Hf He Hx Hfa Hea. pose proof Hnd as [Hxm Hndm]%NoDup_cons.
  apply (chain_connect_join _ (x :: m) [x]); try done; try (unfold connect; alloc).
  - apply (chain_connect_join _ [x] m); try done; [apply NoDup_singleton| |set_solver].
    intros y ->%list_elem_of_singleton Hy%elem_of_removelast. done.
  - by rewrite last_cons, He.
  - apply NoDup_singleton.
  - set_solver.
  - by intros y ->%list_elem_of_singleton.
Qed.

Lemma connect_comm h p n p' n' :
  p ≠ p' → n ≠ n' → connect p n (connect p' n' h) = connect p' n' (connect p n h).
Proof.
  intros ??. unfold connect.
  rewrite <-!(set_next_prev _ p'), <-!(set_next_prev _ p).
  unfold set_next, set_prev. rewrite (alter_alter_ne _ _ _ p p') by done.
  by rewrite (alter_alter_ne _ _ _ n n').
Qed.

Lemma circle_remove h hd l1 e l2 :
  dll h hd (l1 ++ e :: l2) → NoDup (hd :: l1 ++ e :: l2) →
  dll (connect (before hd l1) (after hd l2) h) hd (l1 ++ l2).
Proof.
  intros Hd Hnd.
  destruct (dll_split _ _ _ _ Hd) as (Ha & Hb & _).
  assert (NoDup (hd :: l1 ++ l2)) as Hnd'.
  { clear -Hnd. nodup. }
  destruct (circle_split _ _ _ Hnd') as (Hn1 & Hn2 & Hd1 & Hd2).
  pose proof (before_elem hd l1). pose proof (after_in_snoc hd l2) as Haf.
  unfold dll. rewrite <-app_assoc. apply (chain_connect_join _ (hd :: l1) (l2 ++ [hd])); try done.
  - apply (chain_app_inv h [e] (l2 ++ [hd])). apply Hb.
  - apply last_before.
  - apply head_after.
  - apply (dll_alloc _ _ _ _ Hd). set_solver.
  - apply (dll_alloc _ _ _ _ Hd). set_solver.
  - rewrite removelast_last. done.
Qed.

Lemma runs_list_add_between s hd l1 l2 x :
  lists s !! hd = Some (l1 ++ l2) → x ∈ detached s →
  runs_to (__list_add (Ptr x) (Ptr (before hd l1)) (Ptr (after hd l2))) s tt
    (AStore (<[hd := l1 ++ x :: l2]> (lists s)) (detached s ∖ {[x]})).
Proof.
  intros Hl Hx h Hr.
  destruct (rep_dll _ _ Hr _ _ Hl) as [Hd Hnd].
  pose proof (λ y Hy, rep_apart _ _ Hr y _ _ Hy Hl) as Hap. pose proof (Hap _ Hx) as Hxn.
  pose proof (before_in_circle hd l1 l2) as Hbf. pose proof (after_in_circle hd l1 l2) as Haf.
  pose proof (dll_alloc _ _ _ _ Hd Hbf) as Hba. pose proof (dll_alloc _ _ _ _ Hd Haf) as Haa.
  pose proof (rep_detached _ _ Hr _ Hx) as Hxa.
  unfold __list_add. do 3 wr. eexists. split; [apply wr_next_run; alloc|].
  rewrite <-(insert_delete_eq (lists s)).
  eapply (rep_install h _ (AStore _ _)); [by apply rep_dissolve|simpl..].
  - footprint.
  - alloc_mono.
  - apply (circle_insert h hd l1 [x] l2 x x); try done; [apply NoDup_singleton|].
    by intros y ->%list_elem_of_singleton.
  - clear -Hnd Hxn. nodup.
  - clear -Hx. set_solver.
  - clear -Hap. set_solver.
Qed.

Lemma runs_list_del_between s hd l1 e l2 :
  lists s !! hd = Some (l1 ++ e :: l2) →
  runs_to (__list_del (Ptr (before hd l1)) (Ptr (after hd l2))) s tt
    (AStore (<[hd := l1 ++ l2]> (lists s)) ({[e]} ∪ detached s)).
Proof.
  intros Hl h Hr.
  destruct (rep_dll _ _ Hr _ _ Hl) as [Hd Hnd].
  pose proof (λ y Hy, rep_apart _ _ Hr y _ _ Hy Hl) as Hap.
  pose proof (before_elem hd l1) as Hbf. pose proof (after_elem hd l2) as Haf.
  assert (is_Some (h !! before hd l1)) as Hba by (apply (dll_alloc _ _ _ _ Hd); set_solver).
  assert (is_Some (h !! after hd l2)) as Haa by (apply (dll_alloc _ _ _ _ Hd); set_solver).
  unfold __list_del. wr. eexists. split; [apply wr_next_run; alloc|].
  rewrite <-(insert_delete_eq (lists s)).
  eapply (rep_install h _ (AStore _ _)); [by apply rep_dissolve|simpl..].
  - footprint.
  - alloc_mono.
  - by apply (circle_remove h hd l1 e l2).
  - clear -Hnd. nodup.
  - clear. set_solver.
  - clear -Hap Hnd. nodup.
Qed.

Lemma runs_splice_between s hd l1 l2 ls m :
  lists s !! hd = Some (l1 ++ l2) → lists s !! ls = Some m → m ≠ [] → ls ≠ hd →
  runs_to (__list_splice (Ptr ls) (Ptr (before hd l1)) (Ptr (after hd l2))) s tt
    (AStore (<[hd := l1 ++ m ++ l2]> (delete ls (lists s))) ({[ls]} ∪ detached s)).
Proof.
  intros Hl Hm Hne Hneq h Hr.
  destruct (rep_dll _ _ Hr _ _ Hl) as [Hd Hnd]. destruct (rep_dll _ _ Hr _ _ Hm) as [Hdm Hndm].
  assert (∀ x, x ∈ ls :: m → x ∉ hd :: l1 ++ l2) as Hsep.
  { intros x Hx Hx'. by apply Hneq, (rep_disj _ _ Hr _ _ _ _ x Hm Hl). }
  pose proof (λ y Hy, rep_apart _ _ Hr y _ _ Hy Hl) as Hap.
  pose proof (λ y Hy, rep_apart _ _ Hr y _ _ Hy Hm) as Hapm.
  destruct (exists_last Hne) as (m' & e & Hme). destruct m as [|f m'']; [done|].
  assert (e ∈ f :: m'') as Hem by (rewrite Hme; set_solver).
  pose proof (before_in_circle hd l1 l2) as Hbf. pose proof (after_in_circle hd l1 l2) as Haf.
  pose proof (dll_alloc _ _ _ _ Hd Hbf) as Hba. pose proof (dll_alloc _ _ _ _ Hd Haf) as Haa.
  assert (is_Some (h !! f)) as Hfa by (apply (dll_alloc _ _ _ _ Hdm); set_solver).
  assert (is_Some (h !! e)) as Hea by (apply (dll_alloc _ _ _ _ Hdm); set_solver).
  destruct (dll_split h ls [] (f :: m'') Hdm) as (_ & _ & [Hnf _]).
  assert (chain h (f :: m'')) as Hcm.
  { apply (chain_app_inv h [ls]) in Hdm as [_ Hdm].
    by apply chain_app_inv in Hdm as [? _]. }
  assert (getp h ls = Some (Ptr e)) as Hpe.
  { rewrite Hme in Hdm. rewrite <-(app_nil_r (m' ++ [e])) in Hdm. apply dll_split in Hdm as (_ & _ & [_ Hp]).
    by rewrite before_snoc in Hp. }
  unfold __list_splice.
  mstep with (rd_next_run _ _ _ Hnf). mstep with (rd_prev_run _ _ _ Hpe).
  do 3 wr. eexists. split; [apply wr_prev_run; alloc|].
  rewrite <-set_next_prev. rewrite <-(insert_delete_eq (delete ls (lists s))).
  pose proof (rep_dissolve _ _ _ _ Hr Hm) as Hr1.
  assert (delete ls (lists s) !! hd = Some (l1 ++ l2)) as Hl' by by rewrite lookup_delete_ne.
  pose proof (rep_dissolve _ _ _ _ Hr1 Hl') as Hr2.
  apply (rep_install _ _ _ _ _ _ Hr2); simpl.
  - footprint.
  - alloc_mono.
  - change (dll (connect e (after hd l2) (connect (before hd l1) f h)) hd (l1 ++ (f :: m'') ++ l2)).
    assert (e ≠ before hd l1).
    { intros Heq. apply (Hsep e); [by apply list_elem_of_further|by rewrite Heq]. }
    assert (after hd l2 ≠ f).
    { intros Heq. apply (Hsep f); [by apply list_elem_of_further, list_elem_of_here|by rewrite <-Heq]. }
    rewrite connect_comm by done.
    apply (circle_insert h hd l1 (f :: m'') l2 f e); try done.
    + clear -Hndm. nodup.
    + rewrite Hme. by rewrite last_snoc.
    + clear -Hsep. set_solver.
  - clear -Hnd Hndm Hsep. nodup.
  - clear. set_solver.
  - clear -Hap Hapm Hndm Hsep. nodup.
Qed.

(** [list_replace] of an entry: the new node takes its place. *)
Lemma runs_list_replace s hd l1 e l2 x :
  lists s !! hd = Some (l1 ++ e :: l2) → x ∈ detached s →
  runs_to (list_replace (Ptr e) (Ptr x)) s tt
    (AStore (<[hd := l1 ++ x :: l2]> (lists s)) ({[e]} ∪ detached s ∖ {[x]})).
Proof.
  intros Hl Hx h Hr. destruct (rep_dll _ _ Hr _ _ Hl) as [Hd Hnd].
  pose proof (λ y Hy, rep_apart _ _ Hr y _ _ Hy Hl) as Hap. pose proof (Hap _ Hx) as Hxn.
  pose proof (rep_detached _ _ Hr _ Hx) as Hxa.
  destruct (dll_split _ _ _ _ Hd) as (Ha & Hb & [_ Hpe]).
  pose proof Hd as Hd'. rewrite cons_middle, app_assoc in Hd'.
  destruct (dll_split _ _ _ _ Hd') as (_ & Hb2 & [Hne _]). rewrite before_snoc in Hne.
  simpl in Hpe. pose proof (before_elem hd l1) as Hbf. pose proof (after_elem hd l2) as Haf.
  assert (is_Some (h !! before hd l1)) by (apply (dll_alloc _ _ _ _ Hd); clear -Hbf; set_solver).
  assert (is_Some (h !! after hd l2)) by (apply (dll_alloc _ _ _ _ Hd); clear -Haf; set_solver).
  assert (after hd l2 ≠ e) as Hafe by (intros <-; clear -Hnd Haf; nodup).
  assert (x ≠ after hd l2) by (intros ->; clear -Hxn Haf; set_solver).
  unfold list_replace. mstep with (rd_next_run _ _ _ Hne). wr.
  mstep with rd_next_run; [|fields; by rewrite decide_True].
  wr. mstep with rd_prev_run; [|fields; rewrite decide_False by done; exact Hpe].
  wr. mstep with rd_prev_run; [|fields; by rewrite decide_True].
  eexists. split; [apply wr_next_run; alloc|].
  rewrite <-(set_next_prev _ x), <-(insert_delete_eq (lists s)).
  eapply (rep_install h _ (AStore _ _)); [by apply rep_dissolve|simpl..].
  - clear -Hx Hbf Haf. footprint.
  - alloc_mono.
  - apply (halves_insert h hd l1 [x] l2 x x); try done.
    + clear -Hnd. nodup.
    + apply NoDup_singleton.
    + intros y ->%list_elem_of_singleton. clear -Hxn. set_solver.
  - clear -Hnd Hxn. nodup.
  - clear -Hx. set_solver.
  - clear -Hap Hnd Hxn. nodup.
Qed.

(** [list_replace] of a list head: the new node becomes the head. *)
Lemma runs_list_replace_head s hd l x :
  lists s !! hd = Some l → x ∈ detached s →
  runs_to (list_replace (Ptr hd) (Ptr x)) s tt
    (AStore (<[x := l]> (delete hd (lists s))) ({[hd]} ∪ detached s ∖ {[x]})).
Proof.
  intros Hl Hx h Hr. destruct (rep_dll _ _ Hr _ _ Hl) as [Hd Hnd].
  pose proof (λ y Hy, rep_apart _ _ Hr y _ _ Hy Hl) as Hap. pose proof (Hap _ Hx) as Hxn.
  pose proof (rep_detached _ _ Hr _ Hx) as Hxa.
  destruct (dll_split h hd [] l Hd) as (_ & Hb & [Hnh _]). change (before hd []) with hd in Hnh.
  pose proof Hd as Hd'. rewrite <-(app_nil_r l) in Hd'.
  destruct (dll_split _ _ _ _ Hd') as (_ & _ & [_ Hph]). change (after hd []) with hd in Hph.
  pose proof (before_elem hd l) as Hbf. pose proof (after_elem hd l) as Haf.
  assert (is_Some (h !! hd)) by eauto with lists.
  assert (is_Some (h !! before hd l)) by (by apply (dll_alloc _ _ _ _ Hd)).
  assert (is_Some (h !! after hd l)) by (by apply (dll_alloc _ _ _ _ Hd)).
  assert (x ≠ after hd l) by (by intros ->).
  assert (x ≠ before hd l) by (by intros ->).
  unfold list_replace. mstep with (rd_next_run _ _ _ Hnh). wr.
  mstep with rd_next_run; [|fields; by rewrite decide_True]. wr.
  pose proof (rep_dissolve _ _ _ _ Hr Hl) as Hr1.
  destruct l as [|f l].
  - mstep with rd_prev_run; [|fields; by rewrite decide_True]. wr.
    mstep with rd_prev_run; [|fields; by rewrite decide_True].
    eexists. split; [apply wr_next_run; alloc|].
    apply (rep_install _ _ _ _ _ _ Hr1); simpl in *.
    + clear -Hx. footprint.
    + alloc_mono.
    + split; [|done]. split; fields; by rewrite decide_True.
    + apply NoDup_singleton.
    + clear -Hx. set_solver.
    + clear -Hap Hxn. set_solver.
  - assert (after hd (f :: l) ≠ hd) by (clear -Hnd; apply NoDup_cons in Hnd as [? _]; set_solver).
    mstep with rd_prev_run; [|fields; rewrite decide_False by done; exact Hph]. wr.
    mstep with rd_prev_run; [|fields; by rewrite decide_True].
    eexists. split; [apply wr_next_run; alloc|].
    rewrite <-(set_next_prev _ x).
    apply (rep_install _ _ _ _ _ _ Hr1); simpl in *.
    + clear -Hx Hbf. footprint.
    + alloc_mono.
    + apply (circle_close h x (f :: l) f (before hd (f :: l))); try done.
      * by apply (chain_app_inv h (f :: l) [hd]).
      * clear -Hnd Hxn. nodup.
      * rewrite <-last_before. by rewrite last_cons_cons.
    + clear -Hnd Hxn. nodup.
    + clear -Hx. set_solver.
    + clear -Hap Hxn Hnd. nodup.
Qed.

(** The two circles a cut makes share no node. *)
Lemma cut_separate hd l1 e l2 x : NoDup (hd :: l1 ++ e :: l2) → x ∉ hd :: l1 ++ e :: l2 →
  NoDup (x :: l1 ++ [e]) ∧ ∀ y, y ∈ hd :: l2 → y ∉ x :: l1 ++ [e].
Proof.
  intros Hnd Hxn. split; [clear -Hnd Hxn; nodup|].
  rewrite cons_middle, app_assoc in Hnd.
  destruct (circle_split hd (l1 ++ [e]) l2 Hnd) as (_ & _ & _ & Hd2).
  intros y Hy [->|Hy']%elem_of_cons; [set_solver|]. apply (Hd2 y); set_solver.
Qed.

(** Closing the rest of a circle behind the nodes that were cut from it keeps
    every connection of the rest. *)
Lemma cut_rest_chain h hd l2 e x f : let nf := after hd l2 in let k := connect e x (connect x f h) in
  chain h (l2 ++ [hd]) → NoDup (hd :: l2) → is_Some (h !! hd) → is_Some (h !! nf) →
  is_Some (h !! x) → is_Some (h !! e) → is_Some (h !! f) →
  (∀ y, y ∈ hd :: l2 → y ≠ x ∧ y ≠ e ∧ y ≠ f) →
  chain (connect hd nf k) (hd :: l2 ++ [hd]).
Proof.
  intros nf k Hseg Hnd ????? Hsep. unfold k.
  pose proof (λ y Hy, Hsep y (proj1 (elem_of_snoc_cons l2 hd y) Hy)) as Hsep'.
  apply (chain_connect_join _ [hd] (l2 ++ [hd])); try done; try (unfold connect; alloc).
  - repeat apply chain_connect_frame; try done; try (unfold connect; alloc);
      try (intros Hi%elem_of_removelast; destruct (Hsep' _ Hi) as (? & ? & ?); congruence);
      try (intros Hi%elem_of_tail; destruct (Hsep' _ Hi) as (? & ? & ?); congruence).
  - apply head_after.
  - apply NoDup_singleton.
  - clear -Hnd. nodup.
  - rewrite removelast_last. clear -Hnd. intros y ->%list_elem_of_singleton. nodup.
  - clear. set_solver.
Qed.

(** Cutting a non-empty prefix ending at [e] onto the detached head [x]. *)
Lemma runs_cut_position s hd l1 e l2 x :
  lists s !! hd = Some (l1 ++ e :: l2) → x ∈ detached s →
  runs_to (__list_cut_position (Ptr x) (Ptr hd) (Ptr e)) s tt
    (AStore (<[hd := l2]> (<[x := l1 ++ [e]]> (lists s))) (detached s ∖ {[x]})).
Proof.
  intros Hl Hx h Hr. destruct (rep_dll _ _ Hr _ _ Hl) as [Hd Hnd].
  pose proof (λ y Hy, rep_apart _ _ Hr y _ _ Hy Hl) as Hap. pose proof (Hap _ Hx) as Hxn.
  pose proof (rep_detached _ _ Hr _ Hx) as Hxa.
  pose proof (rep_dissolve _ _ _ _ Hr Hl) as Hr1.
  destruct (dll_split h hd [] _ Hd) as (_ & _ & [Hnh _]). change (before hd []) with hd in Hnh.
  pose proof Hd as Hd'. rewrite cons_middle, app_assoc in Hd'.
  destruct (dll_split _ _ _ _ Hd') as (Ha & Hb & [Hne _]). rewrite before_snoc in Hne.
  apply (chain_app_inv h [hd]) in Ha as [_ Hseg].
  set (f := after hd (l1 ++ e :: l2)) in *. set (nf := after hd l2) in *.
  assert (head (l1 ++ [e]) = Some f) as Hf by (by destruct l1).
  assert (f ∈ l1 ++ [e]) as Hfin by (apply head_Some in Hf as [? ->]; apply list_elem_of_here).
  assert (nf ∈ hd :: l2) as Hnf by apply after_elem.
  assert (is_Some (h !! f)) by (apply (dll_alloc _ _ _ _ Hd); clear -Hfin; set_solver).
  assert (is_Some (h !! nf)) by (apply (dll_alloc _ _ _ _ Hd); clear -Hnf; set_solver).
  assert (is_Some (h !! hd)) by eauto with lists.
  assert (is_Some (h !! e)) by eauto with lists.
  unfold __list_cut_position. mstep with (rd_next_run _ _ _ Hne).
  mstep with (rd_next_run _ _ _ Hnh). wr.
  mstep with rd_next_run; [|fields; by rewrite decide_True].
  do 4 wr. eexists. split; [apply wr_prev_run; alloc|].
  rewrite <-(set_next_prev _ hd), <-(set_next_prev _ x).
  change (set_next hd (Ptr nf) _) with (connect hd nf (connect e x (connect x f h))).
  destruct (cut_separate _ _ _ _ _ Hnd Hxn) as [Hndx Hsep].
  pose proof (Hsep hd (list_elem_of_here _ _)) as Hhd. pose proof (Hsep nf Hnf) as Hnfx.
  assert (dll (connect e x (connect x f h)) x (l1 ++ [e])) as Hdx.
  { apply circle_close; try done. by rewrite last_snoc. }
  set (h' := connect hd nf _).
  assert (rep h' (AStore (<[x := l1 ++ [e]]> (delete hd (lists s)))
      (list_to_set (hd :: l2) ∪ detached s ∖ {[x]}))) as Hr2.
  { unfold h'. apply (rep_install _ _ _ _ _ _ Hr1); simpl.
    - clear -Hx Hfin Hnf. footprint.
    - alloc_mono.
    - apply chain_connect_frame; [done|unfold connect; alloc..| |].
      + intros Hi%elem_of_removelast. clear -Hi Hhd. set_solver.
      + intros Hi%elem_of_tail. clear -Hi Hnfx. set_solver.
    - done.
    - clear -Hx. set_solver.
    - clear -Hap Hxn Hnd. nodup. }
  rewrite <-(insert_delete_eq (<[_ := _]> (lists s))), delete_insert_ne by (clear -Hhd; set_solver).
  apply (rep_install _ _ _ _ _ _ Hr2); simpl; try done.
  - unfold h'. apply cut_rest_chain; try done; try alloc; [clear -Hnd; nodup|].
    intros y Hy. specialize (Hsep y Hy). clear -Hsep Hfin. set_solver.
  - clear -Hnd. nodup.
  - clear. set_solver.
  - clear -Hap. set_solver.
Qed.
End operation_specs.



Section operations_on_contents.
  Context {A : Type} `{Countable A}.
  Abbreviation heap := (gmap A (list_head A)).
  Implicit Types (h : heap) (s : astore (A := A)) (l m : list A) (x hd : A).

Lemma head_not_detached h s hd l : rep h s → lists s !! hd = Some l → hd ∉ detached s.
Proof. intros Hr Hl Hd. apply (rep_apart _ _ Hr _ _ _ Hd Hl), list_elem_of_here. Qed.

Lemma entry_not_detached h s hd l1 e l2 :
  rep h s → lists s !! hd = Some (l1 ++ e :: l2) → e ∉ detached s.
Proof.
  intros Hr Hl Hd. apply (rep_apart _ _ Hr _ _ _ Hd Hl).
  apply list_elem_of_further, elem_of_app. right. apply list_elem_of_here.
Qed.

(** A run may be justified by facts about the represented contents. *)
Lemma runs_rep {B} (m : M heap B) s b s' :
  (∀ h, rep h s → runs_to m s b s') → runs_to m s b s'.
Proof. intros Hm h Hr. by apply (Hm h Hr). Qed.

Lemma runs_INIT s x :
  x ∈ detached s →
  runs_to (INIT_LIST_HEAD (Ptr x)) s tt (AStore (<[x := []]> (lists s)) (detached s ∖ {[x]})).
Proof.
  intros Hx h Hr. pose proof (rep_detached _ _ Hr _ Hx) as Hxa.
  unfold INIT_LIST_HEAD. wr. eexists. split; [apply wr_prev_run; alloc|].
  apply (rep_install h _ s); [done|..].
  - footprint.
  - alloc_mono.
  - split; [|done]. split; fields; by rewrite decide_True.
  - apply NoDup_singleton.
  - clear -Hx. set_solver.
  - clear. set_solver.
Qed.

Lemma runs_list_add s hd l x :
  lists s !! hd = Some l → x ∈ detached s →
  runs_to (list_add (Ptr x) (Ptr hd)) s tt
    (AStore (<[hd := x :: l]> (lists s)) (detached s ∖ {[x]})).
Proof.
  intros Hl Hx. eapply runs_bind; [by apply reads_runs, reads_next_head|].
  by apply (runs_list_add_between s hd [] l x).
Qed.

Lemma runs_list_add_tail s hd l x :
  lists s !! hd = Some l → x ∈ detached s →
  runs_to (list_add_tail (Ptr x) (Ptr hd)) s tt
    (AStore (<[hd := l ++ [x]]> (lists s)) (detached s ∖ {[x]})).
Proof.
  intros Hl Hx. eapply runs_bind; [by apply reads_runs, reads_prev_head|].
  apply (runs_list_add_between s hd l [] x); [by rewrite app_nil_r|done].
Qed.

(** Unlinking an entry, the part shared by all removals. *)
Lemma runs_unlink {B} (k : M heap B) s hd l1 e l2 b s' :
  lists s !! hd = Some (l1 ++ e :: l2) →
  runs_to k (AStore (<[hd := l1 ++ l2]> (lists s)) ({[e]} ∪ detached s)) b s' →
  runs_to (p ← rd_prev (Ptr e); n ← rd_next (Ptr e); __list_del p n;; k) s b s'.
Proof.
  intros Hl Hk. eapply runs_bind; [by eapply reads_runs, reads_prev_entry|].
  eapply runs_bind; [by eapply reads_runs, reads_next_entry|].
  eapply runs_bind; [by eapply runs_list_del_between|]. done.
Qed.

Lemma runs_list_del s hd l1 e l2 :
  lists s !! hd = Some (l1 ++ e :: l2) →
  runs_to (list_del (Ptr e)) s tt
    (AStore (<[hd := l1 ++ l2]> (lists s)) ({[e]} ∪ detached s)).
Proof.
  intros Hl. eapply runs_unlink; [done|].
  eapply runs_bind; [apply runs_wr_next_detached|apply runs_wr_prev_detached]; simpl; set_solver.
Qed.

Lemma runs_weaken {B} (m : M heap B) s b s' D :
  runs_to m s b s' → D ⊆ detached s' → runs_to m s b (AStore (lists s') D).
Proof.
  intros Hm HD h Hr. destruct (Hm h Hr) as (h' & ? & ?). exists h'. eauto using rep_shrink.
Qed.

Lemma runs_list_del_init s hd l1 e l2 :
  lists s !! hd = Some (l1 ++ e :: l2) →
  runs_to (list_del_init (Ptr e)) s tt
    (AStore (<[e := []]> (<[hd := l1 ++ l2]> (lists s))) (detached s)).
Proof.
  intros Hl. apply runs_rep. intros h Hr. pose proof (entry_not_detached _ _ _ _ _ _ Hr Hl).
  eapply runs_unlink; [done|].
  eapply (runs_weaken _ _ _ (AStore _ _)); [apply runs_INIT|]; simpl; set_solver.
Qed.

Lemma runs_list_move s hd l1 e l2 hd' m :
  lists s !! hd = Some (l1 ++ e :: l2) →
  <[hd := l1 ++ l2]> (lists s) !! hd' = Some m →
  runs_to (list_move (Ptr e) (Ptr hd')) s tt
    (AStore (<[hd' := e :: m]> (<[hd := l1 ++ l2]> (lists s))) (detached s)).
Proof.
  intros Hl Hm. apply runs_rep. intros h Hr. pose proof (entry_not_detached _ _ _ _ _ _ Hr Hl).
  eapply runs_unlink; [done|].
  eapply (runs_weaken _ _ _ (AStore _ _)); [apply runs_list_add|]; simpl; try done; set_solver.
Qed.

Lemma runs_list_move_tail s hd l1 e l2 hd' m :
  lists s !! hd = Some (l1 ++ e :: l2) →
  <[hd := l1 ++ l2]> (lists s) !! hd' = Some m →
  runs_to (list_move_tail (Ptr e) (Ptr hd')) s tt
    (AStore (<[hd' := m ++ [e]]> (<[hd := l1 ++ l2]> (lists s))) (detached s)).
Proof.
  intros Hl Hm. apply runs_rep. intros h Hr. pose proof (entry_not_detached _ _ _ _ _ _ Hr Hl).
  eapply runs_unlink; [done|].
  eapply (runs_weaken _ _ _ (AStore _ _)); [apply runs_list_add_tail|]; simpl; try done; set_solver.
Qed.

Lemma after_eq_head h s hd l : rep h s → lists s !! hd = Some l → after hd l = hd ↔ l = [].
Proof.
  intros Hr Hl. destruct (rep_dll _ _ Hr _ _ Hl) as [_ [Hn _]%NoDup_cons].
  destruct l as [|y l]; [done|]. split; [|done]. intros Heq. simpl in Heq. set_solver.
Qed.

Lemma reads_list_empty s hd l :
  lists s !! hd = Some l → reads_to (list_empty (Ptr hd)) s (bool_decide (l = [])).
Proof.
  intros Hl. apply reads_rep. intros h Hr.
  eapply reads_bind; [by eapply reads_next_head|].
  replace (bool_decide (l = [])) with (bool_decide (Ptr (after hd l) = Ptr hd)); [done|].
  apply bool_decide_ext. rewrite <-(after_eq_head h s hd l) by done.
  split; [congruence|by intros ->].
Qed.

(** Branching on [list_empty]. *)
Lemma runs_if_empty {B} (m1 m2 : M heap B) s hd l b s' :
  lists s !! hd = Some l →
  (l = [] → runs_to m1 s b s') → (l ≠ [] → runs_to m2 s b s') →
  runs_to (e ← list_empty (Ptr hd); if (e : bool) then m1 else m2) s b s'.
Proof.
  intros Hl H1 H2. eapply runs_bind; [by eapply reads_runs, reads_list_empty|].
  case_bool_decide; auto.
Qed.

(** The source list's head is left dangling (detached) by a splice. *)
Definition spliced s (ls hd : A) (m l : list A) (D : gset A) : astore :=
  if decide (m = []) then s else AStore (<[hd := l]> (delete ls (lists s))) D.

Lemma runs_list_splice s hd l ls m :
  lists s !! hd = Some l → lists s !! ls = Some m → ls ≠ hd →
  runs_to (list_splice (Ptr ls) (Ptr hd)) s tt (spliced s ls hd m (m ++ l) ({[ls]} ∪ detached s)).
Proof.
  intros Hl Hm Hne. eapply runs_if_empty; [done|..]; intros Hnil; unfold spliced; case_decide;
    try done; [apply runs_ret|].
  eapply runs_bind; [by apply reads_runs, reads_next_head|]. by apply (runs_splice_between s hd [] l).
Qed.

Lemma runs_list_splice_tail s hd l ls m :
  lists s !! hd = Some l → lists s !! ls = Some m → ls ≠ hd →
  runs_to (list_splice_tail (Ptr ls) (Ptr hd)) s tt
    (spliced s ls hd m (l ++ m) ({[ls]} ∪ detached s)).
Proof.
  intros Hl Hm Hne. eapply runs_if_empty; [done|..]; intros Hnil; unfold spliced; case_decide;
    try done; [apply runs_ret|].
  eapply runs_bind; [by apply reads_runs, reads_prev_head|].
  pose proof (runs_splice_between s hd l [] ls m) as Hs. rewrite !app_nil_r in Hs. by apply Hs.
Qed.

(** With the [_init] variants the source becomes an empty list. *)
Lemma runs_init_after {B} (k : M heap B) s b ls X (D : gset A) :
  ls ∉ D → runs_to k s b (AStore X ({[ls]} ∪ D)) →
  runs_to (k;; INIT_LIST_HEAD (Ptr ls)) s tt (AStore (<[ls := []]> X) D).
Proof.
  intros Hls Hk. eapply runs_bind; [exact Hk|].
  eapply (runs_weaken _ _ _ (AStore _ _)); [apply runs_INIT|]; simpl; set_solver.
Qed.

Lemma runs_assoc {B C E} (m : M heap B) (f : B → M heap C) (g : C → M heap E) s e s' :
  runs_to (m ≫= λ a, f a ≫= g) s e s' → runs_to ((m ≫= f) ≫= g) s e s'.
Proof. intros Hm h Hr. rewrite bind_assoc. by apply Hm. Qed.

Lemma spliced_init s ls hd m l (D : gset A) :
  lists s !! ls = Some m → hd ≠ ls →
  (if decide (m = []) then s else AStore (<[ls := []]> (<[hd := l]> (delete ls (lists s)))) D) =
  if decide (m = []) then s else AStore (<[hd := l]> (<[ls := []]> (lists s))) D.
Proof.
  intros Hm Hne. case_decide; [done|]. f_equal.
  by rewrite insert_insert_ne, insert_delete_eq by done.
Qed.

Lemma runs_list_splice_init s hd l ls m :
  lists s !! hd = Some l → lists s !! ls = Some m → ls ≠ hd →
  runs_to (list_splice_init (Ptr ls) (Ptr hd)) s tt
    (if decide (m = []) then s
     else AStore (<[hd := m ++ l]> (<[ls := []]> (lists s))) (detached s)).
Proof.
  intros Hl Hm Hne. apply runs_rep. intros h Hr.
  pose proof (head_not_detached _ _ _ _ Hr Hm). rewrite <-(spliced_init s ls hd m) by done.
  eapply runs_if_empty; [done|..]; intros Hnil; case_decide; try done; [apply runs_ret|].
  eapply runs_bind; [by apply reads_runs, reads_next_head|]. apply (runs_init_after _ _ tt); [done|].
  by apply (runs_splice_between s hd [] l).
Qed.

Lemma runs_list_splice_tail_init s hd l ls m :
  lists s !! hd = Some l → lists s !! ls = Some m → ls ≠ hd →
  runs_to (list_splice_tail_init (Ptr ls) (Ptr hd)) s tt
    (if decide (m = []) then s
     else AStore (<[hd := l ++ m]> (<[ls := []]> (lists s))) (detached s)).
Proof.
  intros Hl Hm Hne. apply runs_rep. intros h Hr.
  pose proof (head_not_detached _ _ _ _ Hr Hm). rewrite <-(spliced_init s ls hd m) by done.
  eapply runs_if_empty; [done|..]; intros Hnil; case_decide; try done; [apply runs_ret|].
  eapply runs_bind; [by apply reads_runs, reads_prev_head|]. apply (runs_init_after _ _ tt); [done|].
  pose proof (runs_splice_between s hd l [] ls m) as Hs. rewrite !app_nil_r in Hs. by apply Hs.
Qed.

Lemma runs_list_rotate_left s hd l :
  lists s !! hd = Some l →
  runs_to (list_rotate_left (Ptr hd)) s tt
    (AStore (<[hd := match l with [] => [] | x :: r => r ++ [x] end]> (lists s)) (detached s)).
Proof.
  intros Hl. eapply runs_if_empty; [done|..]; intros Hnil.
  - subst l. rewrite insert_id by done. destruct s. apply runs_ret.
  - destruct l as [|x l]; [done|].
    eapply runs_bind; [by apply reads_runs, reads_next_head|].
    pose proof (runs_list_move_tail s hd [] x l hd l Hl) as Hmv. simpl in Hmv.
    rewrite lookup_insert_eq, insert_insert_eq in Hmv. by apply Hmv.
Qed.
End operations_on_contents.
