(* ===== verification/ListSpec.v ===== *)
(** What [kernel/include/list.h] promises: every operation refines its effect
    on abstract contents, the traversals compute length, membership and
    indexing, and a deleted entry is poisoned. *)
From stdpp Require Import base gmap list fin_maps.
From S2P Require Import Prelude ListHead ListTheory.

Section spec.
  Context {A : Type} `{Countable A}.
  Abbreviation heap := (gmap A (list_head A)).
  Implicit Types (h : heap) (s : astore (A := A)) (l m : list A) (x hd e : A).

(** * Calls and their abstract effect *)

Inductive list_call :=
  | CInit (x : A) | CAdd (x hd : A) | CAddTail (x hd : A)
  | CDel (e : A) | CDelInit (e : A)
  | CReplace (old new : A) | CReplaceInit (old new : A)
  | CMove (e hd : A) | CMoveTail (e hd : A) | CRotateLeft (hd : A)
  | CCut (x hd e : A)
  | CSplice (ls hd : A) | CSpliceTail (ls hd : A)
  | CSpliceInit (ls hd : A) | CSpliceTailInit (ls hd : A).

Definition run_call (c : list_call) : M heap unit :=
  match c with
  | CInit x => INIT_LIST_HEAD (Ptr x)
  | CAdd x hd => list_add (Ptr x) (Ptr hd)
  | CAddTail x hd => list_add_tail (Ptr x) (Ptr hd)
  | CDel e => list_del (Ptr e)
  | CDelInit e => list_del_init (Ptr e)
  | CReplace old new => list_replace (Ptr old) (Ptr new)
  | CReplaceInit old new => list_replace_init (Ptr old) (Ptr new)
  | CMove e hd => list_move (Ptr e) (Ptr hd)
  | CMoveTail e hd => list_move_tail (Ptr e) (Ptr hd)
  | CRotateLeft hd => list_rotate_left (Ptr hd)
  | CCut x hd e => list_cut_position (Ptr x) (Ptr hd) (Ptr e)
  | CSplice ls hd => list_splice (Ptr ls) (Ptr hd)
  | CSpliceTail ls hd => list_splice_tail (Ptr ls) (Ptr hd)
  | CSpliceInit ls hd => list_splice_init (Ptr ls) (Ptr hd)
  | CSpliceTailInit ls hd => list_splice_tail_init (Ptr ls) (Ptr hd)
  end.

Fixpoint run_calls (cs : list list_call) : M heap unit :=
  match cs with
  | [] => mret tt
  | c :: cs => run_call c;; run_calls cs
  end.

(** The specification: [calls s c s'] says that [c] is a legal call on the
    contents [s] and leaves [s'].  A legal call adds only detached nodes and
    removes only entries. *)
Inductive calls : astore → list_call → astore → Prop :=
  | call_init s x :
      x ∈ detached s →
      calls s (CInit x) (AStore (<[x := []]> (lists s)) (detached s ∖ {[x]}))
  | call_add s hd l x :
      lists s !! hd = Some l → x ∈ detached s →
      calls s (CAdd x hd) (AStore (<[hd := x :: l]> (lists s)) (detached s ∖ {[x]}))
  | call_add_tail s hd l x :
      lists s !! hd = Some l → x ∈ detached s →
      calls s (CAddTail x hd) (AStore (<[hd := l ++ [x]]> (lists s)) (detached s ∖ {[x]}))
  | call_del s hd l1 e l2 :
      lists s !! hd = Some (l1 ++ e :: l2) →
      calls s (CDel e) (AStore (<[hd := l1 ++ l2]> (lists s)) ({[e]} ∪ detached s))
  | call_del_init s hd l1 e l2 :
      lists s !! hd = Some (l1 ++ e :: l2) →
      calls s (CDelInit e) (AStore (<[e := []]> (<[hd := l1 ++ l2]> (lists s))) (detached s))
  | call_replace s hd l1 e l2 x :
      lists s !! hd = Some (l1 ++ e :: l2) → x ∈ detached s →
      calls s (CReplace e x)
        (AStore (<[hd := l1 ++ x :: l2]> (lists s)) ({[e]} ∪ detached s ∖ {[x]}))
  | call_replace_head s hd l x :
      lists s !! hd = Some l → x ∈ detached s →
      calls s (CReplace hd x)
        (AStore (<[x := l]> (delete hd (lists s))) ({[hd]} ∪ detached s ∖ {[x]}))
  | call_replace_init s hd l1 e l2 x :
      lists s !! hd = Some (l1 ++ e :: l2) → x ∈ detached s →
      calls s (CReplaceInit e x)
        (AStore (<[e := []]> (<[hd := l1 ++ x :: l2]> (lists s))) (detached s ∖ {[x]}))
  | call_move s hd l1 e l2 hd' m :
      lists s !! hd = Some (l1 ++ e :: l2) →
      <[hd := l1 ++ l2]> (lists s) !! hd' = Some m →
      calls s (CMove e hd')
        (AStore (<[hd' := e :: m]> (<[hd := l1 ++ l2]> (lists s))) (detached s))
  | call_move_tail s hd l1 e l2 hd' m :
      lists s !! hd = Some (l1 ++ e :: l2) →
      <[hd := l1 ++ l2]> (lists s) !! hd' = Some m →
      calls s (CMoveTail e hd')
        (AStore (<[hd' := m ++ [e]]> (<[hd := l1 ++ l2]> (lists s))) (detached s))
  | call_rotate s hd l :
      lists s !! hd = Some l →
      calls s (CRotateLeft hd)
        (AStore (<[hd := match l with [] => [] | x :: r => r ++ [x] end]> (lists s))
           (detached s))
  | call_cut s hd l1 e l2 x :
      lists s !! hd = Some (l1 ++ e :: l2) → x ∈ detached s →
      calls s (CCut x hd e)
        (AStore (<[hd := l2]> (<[x := l1 ++ [e]]> (lists s))) (detached s ∖ {[x]}))
  | call_cut_head s hd l x :
      lists s !! hd = Some l → (2 ≤ length l)%nat → x ∈ detached s →
      calls s (CCut x hd hd) (AStore (<[x := []]> (lists s)) (detached s ∖ {[x]}))
  | call_cut_nothing s hd l x e :
      lists s !! hd = Some l → (length l ≤ 1)%nat → e ∉ l →
      calls s (CCut x hd e) s
  | call_splice s hd l ls m :
      lists s !! hd = Some l → lists s !! ls = Some m → ls ≠ hd → m ≠ [] →
      calls s (CSplice ls hd)
        (AStore (<[hd := m ++ l]> (delete ls (lists s))) ({[ls]} ∪ detached s))
  | call_splice_tail s hd l ls m :
      lists s !! hd = Some l → lists s !! ls = Some m → ls ≠ hd → m ≠ [] →
      calls s (CSpliceTail ls hd)
        (AStore (<[hd := l ++ m]> (delete ls (lists s))) ({[ls]} ∪ detached s))
  | call_splice_init s hd l ls m :
      lists s !! hd = Some l → lists s !! ls = Some m → ls ≠ hd →
      calls s (CSpliceInit ls hd)
        (AStore (<[hd := m ++ l]> (<[ls := []]> (lists s))) (detached s))
  | call_splice_tail_init s hd l ls m :
      lists s !! hd = Some l → lists s !! ls = Some m → ls ≠ hd →
      calls s (CSpliceTailInit ls hd)
        (AStore (<[hd := l ++ m]> (<[ls := []]> (lists s))) (detached s))
  | call_splice_nil s hd ls :
      lists s !! ls = Some [] →
      calls s (CSplice ls hd) s
  | call_splice_tail_nil s hd ls :
      lists s !! ls = Some [] →
      calls s (CSpliceTail ls hd) s.

Inductive calls_star : astore → list list_call → astore → Prop :=
  | star_nil s : calls_star s [] s
  | star_cons s c s' cs s'' :
      calls s c s' → calls_star s' cs s'' → calls_star s (c :: cs) s''.

(** * Lemmas *)

Lemma runs_list_replace_init s hd l1 e l2 x :
  lists s !! hd = Some (l1 ++ e :: l2) → x ∈ detached s →
  runs_to (list_replace_init (Ptr e) (Ptr x)) s tt
    (AStore (<[e := []]> (<[hd := l1 ++ x :: l2]> (lists s))) (detached s ∖ {[x]})).
Proof.
  intros Hl Hx. apply runs_rep. intros h Hr.
  pose proof (entry_not_detached _ _ _ _ _ _ Hr Hl).
  apply (runs_init_after _ _ tt); [set_solver|]. by apply runs_list_replace.
Qed.

Lemma reads_list_is_singular s hd l :
  lists s !! hd = Some l →
  reads_to (list_is_singular (Ptr hd)) s (bool_decide (length l = 1%nat)).
Proof.
  intros Hl. apply reads_rep. intros h Hr.
  eapply reads_bind; [by apply reads_next_head|]. destruct l as [|y l]; simpl.
  - rewrite decide_True by done. apply reads_ret.
  - destruct (rep_dll _ _ Hr _ _ Hl) as [_ Hnd]. change (after hd (y :: l)) with y.
    rewrite decide_False by (intros [= ->]; clear -Hnd; nodup).
    eapply reads_bind; [by apply (reads_next_entry s hd [] y l)|].
    replace (bool_decide (S (length l) = 1%nat)) with (bool_decide (Ptr (after hd l) = Ptr hd));
      [apply reads_ret|].
    apply bool_decide_ext. destruct l as [|z l]; [done|]. change (after hd (z :: l)) with z.
    split; [|simpl; lia].
    intros [= ->]. clear -Hnd. nodup.
Qed.

Lemma runs_list_cut_position s hd l1 e l2 x :
  lists s !! hd = Some (l1 ++ e :: l2) → x ∈ detached s →
  runs_to (list_cut_position (Ptr x) (Ptr hd) (Ptr e)) s tt
    (AStore (<[hd := l2]> (<[x := l1 ++ [e]]> (lists s))) (detached s ∖ {[x]})).
Proof.
  intros Hl Hx. apply runs_rep. intros h Hr. destruct (rep_dll _ _ Hr _ _ Hl) as [_ Hnd].
  eapply runs_if_empty; [done|by destruct l1|]. intros _.
  eapply runs_bind; [by apply reads_runs, reads_list_is_singular|].
  eapply runs_bind; [by apply reads_runs, reads_next_head|]. eapply runs_bind; [by apply reads_runs, reads_prev_head|].
  replace (_ && _ && _) with false.
  - rewrite decide_False by (intros [= ->]; clear -Hnd; nodup). by apply runs_cut_position.
  - symmetry. destruct l1 as [|y l1]; simpl.
    + rewrite (bool_decide_eq_false_2 (Ptr e ≠ Ptr e)) by auto. by rewrite andb_false_r.
    + rewrite bool_decide_eq_false_2; [done|]. rewrite length_app. simpl. lia.
Qed.

Lemma runs_cut_head s hd l x :
  lists s !! hd = Some l → (2 ≤ length l)%nat → x ∈ detached s →
  runs_to (list_cut_position (Ptr x) (Ptr hd) (Ptr hd)) s tt
    (AStore (<[x := []]> (lists s)) (detached s ∖ {[x]})).
Proof.
  intros Hl Hlen Hx. eapply runs_if_empty; [done|intros ->; simpl in Hlen; lia|]. intros _.
  eapply runs_bind; [by apply reads_runs, reads_list_is_singular|].
  eapply runs_bind; [by apply reads_runs, reads_next_head|]. eapply runs_bind; [by apply reads_runs, reads_prev_head|].
  rewrite (bool_decide_eq_false_2 (length l = 1%nat)) by lia. simpl.
  rewrite decide_True by done. by apply runs_INIT.
Qed.

Lemma runs_cut_nothing s hd l x e :
  lists s !! hd = Some l → (length l ≤ 1)%nat → e ∉ l →
  runs_to (list_cut_position (Ptr x) (Ptr hd) (Ptr e)) s tt s.
Proof.
  intros Hl Hlen He. eapply runs_if_empty; [done|intros; apply runs_ret|]. intros Hnil.
  eapply runs_bind; [by apply reads_runs, reads_list_is_singular|].
  eapply runs_bind; [by apply reads_runs, reads_next_head|]. eapply runs_bind; [by apply reads_runs, reads_prev_head|].
  destruct l as [|y [|z l]]; [done| |simpl in Hlen; lia].
  change (after hd [y]) with y. change (before hd [y]) with y.
  rewrite (bool_decide_eq_true_2 (Ptr y ≠ Ptr e)) by (intros [= ->]; set_solver).
  apply runs_ret.
Qed.

Lemma call_runs s c s' : calls s c s' → runs_to (run_call c) s tt s'.
Proof.
  destruct 1; simpl.
  - by apply runs_INIT.
  - by apply runs_list_add.
  - by apply runs_list_add_tail.
  - by apply runs_list_del.
  - by apply runs_list_del_init.
  - by apply runs_list_replace.
  - by apply runs_list_replace_head.
  - by apply runs_list_replace_init.
  - by apply runs_list_move.
  - by apply runs_list_move_tail.
  - by apply runs_list_rotate_left.
  - by apply runs_list_cut_position.
  - by eapply runs_cut_head.
  - by eapply runs_cut_nothing.
  - pose proof (runs_list_splice s hd l ls m) as Hs. unfold spliced in Hs.
    rewrite decide_False in Hs by done. auto.
  - pose proof (runs_list_splice_tail s hd l ls m) as Hs. unfold spliced in Hs.
    rewrite decide_False in Hs by done. auto.
  - pose proof (runs_list_splice_init s hd l ls m) as Hs. case_decide; [subst m|by auto].
    rewrite insert_id, insert_id in * by (rewrite ?insert_id; done). destruct s. auto.
  - pose proof (runs_list_splice_tail_init s hd l ls m) as Hs. case_decide; [subst m|by auto].
    rewrite app_nil_r, insert_id, insert_id in * by (rewrite ?insert_id; done). destruct s. auto.
  - eapply runs_if_empty; [done|intros; apply runs_ret|done].
  - eapply runs_if_empty; [done|intros; apply runs_ret|done].
Qed.

(** ** Traversals *)

Lemma entry_ne_head h s hd l1 e l2 :
  rep h s → lists s !! hd = Some (l1 ++ e :: l2) → Ptr e ≠ Ptr hd.
Proof. intros Hr Hl [= ->]. destruct (rep_dll _ _ Hr _ _ Hl) as [_ Hnd]. clear -Hnd. nodup. Qed.

Lemma reads_for_each_loop {B R} (step : ptr A → M heap (ptr A)) (body : ptr A → B → B + R) s hd :
  ∀ m fuel a,
  (∀ m1 e m2, m = m1 ++ e :: m2 → Ptr e ≠ Ptr hd ∧ reads_to (step (Ptr e)) s (Ptr (after hd m2))) →
  (length m < fuel)%nat →
  reads_to (for_each_loop step fuel (Ptr hd) (Ptr (after hd m)) body a) s (visit body (Ptr <$> m) a).
Proof.
  induction m as [|e m IH]; intros [|fuel] a Hm Hf; simpl in Hf; try lia; simpl.
  - change (after hd []) with hd. rewrite decide_True by done. apply reads_ret.
  - change (after hd (e :: m)) with e. destruct (Hm [] e m eq_refl) as [Hne Hstep].
    rewrite decide_False by done. destruct (body (Ptr e) a) as [a'|r]; [|apply reads_ret].
    eapply reads_bind; [exact Hstep|]. apply IH; [|lia].
    intros m1 e' m2 ->. by apply (Hm (e :: m1)).
Qed.

Lemma after_reverse hd l : after hd (reverse l) = before hd l.
Proof.
  unfold after, before. destruct l as [|x l _] using rev_ind; [done|].
  by rewrite reverse_snoc, last_snoc.
Qed.

(** [list_for_each] visits the entries from the first to the last,
    [list_for_each_prev] from the last to the first. *)
Lemma reads_list_for_each {B R} (body : ptr A → B → B + R) s hd l fuel a :
  lists s !! hd = Some l → (length l < fuel)%nat →
  reads_to (list_for_each fuel (Ptr hd) body a) s (visit body (Ptr <$> l) a).
Proof.
  intros Hl Hf. apply reads_rep. intros h Hr. eapply reads_bind; [by apply reads_next_head|].
  apply reads_for_each_loop; [|done]. intros m1 e m2 ->.
  split; [by eapply entry_ne_head|by eapply reads_next_entry].
Qed.

Lemma reads_list_for_each_prev {B R} (body : ptr A → B → B + R) s hd l fuel a :
  lists s !! hd = Some l → (length l < fuel)%nat →
  reads_to (list_for_each_prev fuel (Ptr hd) body a) s (visit body (reverse (Ptr <$> l)) a).
Proof.
  intros Hl Hf. apply reads_rep. intros h Hr. eapply reads_bind; [by apply reads_prev_head|].
  rewrite <-after_reverse, <-fmap_reverse. apply reads_for_each_loop; [|by rewrite length_reverse].
  intros m1 e m2 Heq. assert (l = reverse m2 ++ e :: reverse m1) as Hl'.
  { by rewrite <-(reverse_involutive l), Heq, reverse_app, reverse_cons, <-app_assoc. }
  rewrite Hl' in Hl. split; [by eapply entry_ne_head|].
  rewrite <-(reverse_involutive m2), after_reverse. by eapply reads_prev_entry.
Qed.

Lemma visit_count (l : list (ptr A)) : ∀ c, 0 ≤ c < 2 ^ 64 →
  visit (R := Empty_set) (λ _ n, inl (n +[64] 1)) l c = inl (wrap 64 (c + Z.of_nat (length l))).
Proof.
  induction l as [|p l IH]; intros c Hc; simpl; [by rewrite Z.add_0_r, wrap_small|].
  rewrite IH by (apply wrap_range; lia). f_equal. unfold wrap. rewrite Zplus_mod_idemp_l. f_equal. lia.
Qed.

Lemma visit_contains (x : ptr A) (l : list (ptr A)) :
  visit (λ pos _, if decide (pos = x) then inr true else inl tt) l tt = if decide (x ∈ l) then inr true else inl tt.
Proof.
  induction l as [|p l IH]; simpl; [done|]. destruct (decide (p = x)) as [->|Hne].
  - by rewrite decide_True by left.
  - rewrite IH. apply decide_ext. rewrite elem_of_cons. naive_solver.
Qed.

Lemma visit_nth n (l : list (ptr A)) : ∀ i, 0 ≤ i → i + Z.of_nat (length l) < 2 ^ 64 → i ≤ n →
  visit (λ pos j, if j =? n then inr pos else inl (j +[64] 1)) l i =
    match l !! Z.to_nat (n - i) with Some p => inr p | None => inl (i + Z.of_nat (length l)) end.
Proof.
  induction l as [|p l IH]; intros i Hi Hov Hn; simpl in *; [by rewrite Z.add_0_r|].
  destruct (Z.eqb_spec i n) as [->|Hne]; [by rewrite Z.sub_diag|].
  rewrite wrap_small, IH by lia. replace (Z.to_nat (n - i)) with (S (Z.to_nat (n - (i + 1)))) by lia. simpl.
  destruct (l !! _); [done|]. f_equal. lia.
Qed.

Lemma calls_star_run s cs s' h :
  calls_star s cs s' → rep h s → ∃ h', run_calls cs h = Ret (tt, h') ∧ rep h' s'.
Proof.
  intros Hcs. revert h. induction Hcs as [s|s c s1 cs s' Hc _ IH]; intros h Hr; [by exists h|].
  destruct (call_runs _ _ _ Hc h Hr) as (h1 & Hrun & Hr1).
  destruct (IH h1 Hr1) as (h2 & Hrun2 & Hr2). exists h2. split; [|done].
  simpl. by mstep with Hrun.
Qed.

Lemma reads_list_is_last s hd l1 e l2 :
  lists s !! hd = Some (l1 ++ e :: l2) →
  reads_to (list_is_last (Ptr e) (Ptr hd)) s (bool_decide (l2 = [])).
Proof.
  intros Hl. apply reads_rep. intros h Hr.
  eapply reads_bind; [by eapply reads_next_entry|].
  replace (bool_decide (l2 = [])) with (bool_decide (Ptr (after hd l2) = Ptr hd)); [done|].
  apply bool_decide_ext. destruct l2 as [|y l2]; [done|]. change (after hd (y :: l2)) with y.
  rewrite cons_middle, app_assoc in Hl. split; [|done].
  intros Heq. by destruct (entry_ne_head _ _ _ _ _ _ Hr Hl).
Qed.

Lemma reads_list_is_first s hd l1 e l2 :
  lists s !! hd = Some (l1 ++ e :: l2) →
  reads_to (list_is_first (Ptr e) (Ptr hd)) s (bool_decide (l1 = [])).
Proof.
  intros Hl. apply reads_rep. intros h Hr.
  eapply reads_bind; [by eapply reads_prev_entry|].
  replace (bool_decide (l1 = [])) with (bool_decide (Ptr (before hd l1) = Ptr hd)); [done|].
  apply bool_decide_ext. destruct l1 as [|y l1 _] using rev_ind; [done|].
  rewrite before_snoc. rewrite <-app_assoc in Hl. split.
  - intros Heq. by destruct (entry_ne_head _ _ _ _ _ _ Hr Hl).
  - intros Heq. by destruct (app_eq_nil _ _ Heq).
Qed.

(** The poison left in a deleted entry. *)
Lemma list_del_poisons h s hd l1 e l2 :
  rep h s → lists s !! hd = Some (l1 ++ e :: l2) →
  ∃ h', list_del (Ptr e) h = Ret (tt, h') ∧
        h' !! e = Some (ListNode LIST_POISON1 LIST_POISON2).
Proof.
  intros Hr Hl.
  pose proof (reads_prev_entry _ _ _ _ _ Hl h Hr) as Hp.
  pose proof (reads_next_entry _ _ _ _ _ Hl h Hr) as Hn.
  destruct (runs_list_del_between _ _ _ _ _ Hl h Hr) as (h1 & Hd & Hr1).
  assert (is_Some (h1 !! e)) as [n He] by (apply (rep_detached _ _ Hr1); set_solver).
  unfold list_del. mstep with Hp. mstep with Hn. mstep with Hd.
  mstep with wr_next_run; [|done]. eexists. split; [apply wr_prev_run; alloc|].
  unfold set_prev, set_next. by rewrite !lookup_alter_eq, He.
Qed.

(** * Properties *)

(** C5: the list operations refine their specification.  For every sequence
    of legal calls on contents [s] that the specification takes to [s'],
    running the C code on any heap that represents [s] returns (no wild
    access) and leaves a heap that represents [s']: forward and backward
    links of every list agree with the abstract sequence, lists stay
    disjoint, and all nodes stay allocated. *)
Theorem list_calls_refine s cs s' h :
  calls_star s cs s' → rep h s →
  ∃ h', run_calls cs h = Ret (tt, h') ∧ rep h' s'.
Proof. apply calls_star_run. Qed.

(** The traversals of a list whose length fits in [size_t] terminate
    (one more step of fuel than entries is enough) and compute its length,
    membership and indexing, with [NULL] out of range, without changing it. *)
Theorem list_traversals h s hd l fuel x n :
  rep h s → lists s !! hd = Some l → (length l < fuel)%nat →
  Z.of_nat (length l) < 2 ^ 64 → 0 ≤ n →
  list_count_nodes fuel (Ptr hd) h = Ret (Z.of_nat (length l), h) ∧
  list_contains fuel (Ptr hd) (Ptr x) h = Ret (bool_decide (x ∈ l), h) ∧
  list_get_nth fuel (Ptr hd) n h = Ret (default Null (Ptr <$> l !! Z.to_nat n), h).
Proof.
  intros Hr Hl Hf Hov Hn. unfold list_count_nodes, list_contains, list_get_nth. split_and!.
  - rewrite (bind_Ret _ _ _ _ _ (reads_list_for_each _ s hd l fuel 0 Hl Hf h Hr)), visit_count by lia.
    by rewrite length_fmap, Z.add_0_l, wrap_small by lia.
  - rewrite (bind_Ret _ _ _ _ _ (reads_list_for_each _ s hd l fuel tt Hl Hf h Hr)), visit_contains.
    case_decide as Hin.
    + apply list_elem_of_fmap in Hin as (y & [= ->] & Hy). by rewrite bool_decide_eq_true_2.
    + rewrite bool_decide_eq_false_2; [done|]. intros Hx. apply Hin. by apply list_elem_of_fmap_2.
  - rewrite (bind_Ret _ _ _ _ _ (reads_list_for_each _ s hd l fuel 0 Hl Hf h Hr)), visit_nth, Z.sub_0_r
      by (rewrite ?length_fmap; lia).
    rewrite list_lookup_fmap. by destruct (l !! Z.to_nat n).
Qed.

(** On a list that holds [e], [list_empty] is false, [list_is_singular]
    holds exactly when [e] is alone, and [list_is_first], [list_is_last] say
    whether nothing precedes or follows [e]; none of them writes. *)
Theorem list_queries h s hd l1 e l2 :
  rep h s → lists s !! hd = Some (l1 ++ e :: l2) →
  list_empty (Ptr hd) h = Ret (false, h) ∧
  list_is_singular (Ptr hd) h = Ret (bool_decide (l1 = [] ∧ l2 = []), h) ∧
  list_is_first (Ptr e) (Ptr hd) h = Ret (bool_decide (l1 = []), h) ∧
  list_is_last (Ptr e) (Ptr hd) h = Ret (bool_decide (l2 = []), h).
Proof.
  intros Hr Hl. split_and!.
  - rewrite (reads_list_empty _ _ _ Hl h Hr), bool_decide_eq_false_2; [done|by destruct l1].
  - rewrite (reads_list_is_singular _ _ _ Hl h Hr). do 2 f_equal. apply bool_decide_ext.
    rewrite length_app. simpl. destruct l1, l2; simpl; naive_solver lia.
  - by apply (reads_list_is_first _ _ _ _ _ Hl).
  - by apply (reads_list_is_last _ _ _ _ _ Hl).
Qed.

(** Deleting an entry twice is caught.  After [list_del] the entry holds
    the poison pointers 0x100 and 0x200, and a second [list_del] of it
    follows poison, an access to memory that is not a node. *)
Theorem list_del_twice_faults h s hd l1 e l2 :
  rep h s → lists s !! hd = Some (l1 ++ e :: l2) →
  ∃ h', list_del (Ptr e) h = Ret (tt, h') ∧
        h' !! e = Some (ListNode (Raw 0x100) (Raw 0x200)) ∧
        list_del (Ptr e) h' = Fault.
Proof.
  intros Hr Hl. destruct (list_del_poisons _ _ _ _ _ _ Hr Hl) as (h' & Hd & He).
  exists h'. split_and!; [done..|]. unfold list_del.
  mstep with rd_prev_run; [|by unfold getp; rewrite He].
  mstep with rd_next_run; [|by unfold getn; rewrite He]. done.
Qed.
End spec.

(** * Witnesses: four nodes, one list *)

Definition nodes4 : gmap nat (list_head nat) :=
  list_to_map ((λ i, (i, ListNode Null Null)) <$> [0; 1; 2; 3]%nat).
Definition calls4 : list (list_call (A := nat)) :=
  [CInit 0; CAdd 1 0; CAddTail 2 0; CAdd 3 0; CMoveTail 3 0]%nat.
Definition heap4 : gmap nat (list_head nat) :=
  match run_calls calls4 nodes4 with Ret (_, h) => h | _ => ∅ end.
Definition contents4 : astore (A := nat) :=
  AStore {[0%nat := [1; 2; 3]%nat]} ∅.

Lemma rep4_start : rep nodes4 (AStore ∅ {[0; 1; 2; 3]}%nat).
Proof. apply (rep_shrink _ (AStore ∅ (dom nodes4))); [apply rep_fresh|by_decide]. Qed.

Lemma calls4_spec : calls_star (AStore ∅ {[0; 1; 2; 3]}%nat) calls4 contents4.
Proof.
  econstructor; [apply call_init; by_decide|simpl].
  econstructor; [apply (call_add _ 0%nat []); [done|by_decide]|simpl].
  econstructor; [apply (call_add_tail _ 0%nat [1%nat]); [done|by_decide]|simpl].
  econstructor; [apply (call_add _ 0%nat [1;2]%nat); [done|by_decide]|simpl].
  econstructor; [by apply (call_move_tail _ 0%nat [] 3%nat [1;2]%nat 0%nat [1;2]%nat)|simpl].
  replace (AStore _ _) with contents4; [constructor|].
  unfold contents4. f_equal; by_decide.
Qed.

Lemma rep4 : rep heap4 contents4.
Proof.
  destruct (calls_star_run _ _ _ _ calls4_spec rep4_start) as (h' & Hrun & Hr).
  unfold heap4. by rewrite Hrun.
Qed.

Lemma list_calls_refine_witness :
  ∃ h', run_calls calls4 nodes4 = Ret (tt, h') ∧ rep h' contents4.
Proof. exact (list_calls_refine _ _ _ _ calls4_spec rep4_start). Defined.

Lemma list_traversals_witness :
  list_count_nodes 4 (Ptr 0%nat) heap4 = Ret (3, heap4) ∧
  list_contains 4 (Ptr 0%nat) (Ptr 2%nat) heap4 = Ret (true, heap4) ∧
  list_get_nth 4 (Ptr 0%nat) 2 heap4 = Ret (Ptr 3%nat, heap4).
Proof.
  apply (list_traversals heap4 contents4 0%nat [1;2;3]%nat 4 2%nat 2 rep4); simpl; done || lia.
Defined.

Lemma list_queries_witness :
  list_empty (Ptr 0%nat) heap4 = Ret (false, heap4) ∧
  list_is_singular (Ptr 0%nat) heap4 = Ret (false, heap4) ∧
  list_is_first (Ptr 1%nat) (Ptr 0%nat) heap4 = Ret (true, heap4) ∧
  list_is_last (Ptr 1%nat) (Ptr 0%nat) heap4 = Ret (false, heap4).
Proof. exact (list_queries heap4 contents4 0%nat [] 1%nat [2;3]%nat rep4 eq_refl). Defined.

Lemma list_del_twice_faults_witness :
  ∃ h', list_del (Ptr 2%nat) heap4 = Ret (tt, h') ∧
        h' !! 2%nat = Some (ListNode (Raw 0x100) (Raw 0x200)) ∧
        list_del (Ptr 2%nat) h' = Fault.
Proof.
  exact (list_del_twice_faults heap4 contents4 0%nat [1%nat] 2%nat [3%nat] rep4 eq_refl).
Defined.
