(* ===== verification/HList.v ===== *)
(** Hash-bucket lists: [struct hlist_head] and [struct hlist_node] of
    [kernel/include/list.h].

    A node's [pprev] is declared with the type of a node and used as the
    address of the pointer that points to the node, which is what it is here.
    That pointer is the first member of its head or node, so its address is
    the address of the object; [*p = v] writes the first word of the object at
    [p].  Heads and nodes are different objects: a member access through a
    pointer to the other kind is a [Fault]. *)
From stdpp Require Import base gmap list fin_maps.
From S2P Require Import Prelude ListHead.

(** * Data *)

Inductive hobj (A : Type) :=
  | HHead (first : ptr A)               (* struct hlist_head *)
  | HNode (next pprev : ptr A).         (* struct hlist_node *)
Arguments HHead {A} first.
Arguments HNode {A} next pprev.

(** * Operations *)

Section operations.
  Context {A : Type} `{Countable A}.
  Abbreviation heap := (gmap A (hobj A)).
  Abbreviation HL := (M heap).

(** The word at the address of an object, and a node's [pprev]. *)
Definition word (h : heap) (a : A) : option (ptr A) :=
  match h !! a with Some (HHead f) => Some f | Some (HNode n _) => Some n | None => None end.
Definition ppr (h : heap) (a : A) : option (ptr A) :=
  match h !! a with Some (HNode _ p) => Some p | _ => None end.
(** Is there a head or a node? *)
Definition kind (h : heap) (a : A) : option bool :=
  match h !! a with Some (HHead _) => Some true | Some (HNode _ _) => Some false | None => None end.

Definition put_word (a : A) (v : ptr A) (h : heap) : heap :=
  alter (λ o, match o with HHead _ => HHead v | HNode _ p => HNode v p end) a h.
Definition put_pprev (a : A) (v : ptr A) (h : heap) : heap :=
  alter (λ o, match o with HHead f => HHead f | HNode n _ => HNode n v end) a h.

Definition address (p : ptr A) : HL A := λ h, match p with Ptr a => Ret (a, h) | _ => Fault end.
Definition member (head : bool) (a : A) : HL unit := λ h,
  if decide (kind h a = Some head) then Ret (tt, h) else Fault.

Definition rd_first (p : ptr A) : HL (ptr A) := a ← address p; member true a;; get_some (λ h, word h a).
Definition rd_hnext (p : ptr A) : HL (ptr A) := a ← address p; member false a;; get_some (λ h, word h a).
Definition rd_pprev (p : ptr A) : HL (ptr A) := a ← address p; member false a;; get_some (λ h, ppr h a).
Definition wr_first (p v : ptr A) : HL unit := a ← address p; member true a;; modify (put_word a v).
Definition wr_hnext (p v : ptr A) : HL unit := a ← address p; member false a;; modify (put_word a v).
Definition wr_pprev (p v : ptr A) : HL unit := a ← address p; member false a;; modify (put_pprev a v).
(** [*p = v] *)
Definition store (p v : ptr A) : HL unit :=
  a ← address p; get_some (λ h, word h a);; modify (put_word a v).

Definition is_null (p : ptr A) : bool := match p with Null => true | _ => false end.

Definition INIT_HLIST_HEAD (h : ptr A) : HL unit := wr_first h Null.
Definition INIT_HLIST_NODE (h : ptr A) : HL unit := wr_hnext h Null;; wr_pprev h Null.
Definition hlist_unhashed (h : ptr A) : HL bool := p ← rd_pprev h; mret (is_null p).
Definition hlist_empty (h : ptr A) : HL bool := f ← rd_first h; mret (is_null f).

Definition __hlist_del (n : ptr A) : HL unit :=
  next ← rd_hnext n;
  pprev ← rd_pprev n;
  store pprev next;;
  if is_null next then mret tt else wr_pprev next pprev.

Definition hlist_del (n : ptr A) : HL unit :=
  u ← hlist_unhashed n;
  if u : bool then mret tt
  else __hlist_del n;; wr_hnext n (Raw 0x100);; wr_pprev n (Raw 0x200).

Definition hlist_del_init (n : ptr A) : HL unit :=
  u ← hlist_unhashed n;
  if u : bool then mret tt else __hlist_del n;; INIT_HLIST_NODE n.

Definition hlist_add_head (n h : ptr A) : HL unit :=
  first ← rd_first h;
  wr_hnext n first;;
  (if is_null first then mret tt else wr_pprev first n);;
  wr_first h n;;
  wr_pprev n h.

Definition hlist_add_before (n next : ptr A) : HL unit :=
  wr_hnext n next;;
  pp ← rd_pprev next;
  wr_pprev n pp;;
  np ← rd_pprev next;
  store np n;;
  wr_pprev next n.

(** [n->pprev->next = &n->next]: the word [n->pprev] points to. *)
Definition hlist_add_behind (n prev : ptr A) : HL unit :=
  nx ← rd_hnext prev;
  wr_hnext n nx;;
  wr_hnext prev n;;
  wr_pprev n prev;;
  nn ← rd_hnext n;
  if is_null nn then mret tt else np ← rd_pprev n; store np n.

Definition hlist_move_list (old new : ptr A) : HL unit :=
  e ← hlist_empty old;
  if e : bool then mret tt else
  f ← rd_first old;
  wr_first new f;;
  nf ← rd_first new;
  (if is_null nf then mret tt else nf ← rd_first new; wr_pprev nf new);;
  wr_first old Null.

Definition hlist_add_fake (n : ptr A) : HL unit := wr_pprev n n.

(** The macro [hlist_for_each] around a body that looks at the cursor only. *)
Fixpoint hlist_loop {S R} (fuel : nat) (pos : ptr A) (body : ptr A → S → S + R) (a : S) : HL (S + R) :=
  match fuel with
  | O => out_of_fuel
  | S fuel =>
      if is_null pos then mret (inl a)
      else match body pos a with
           | inr r => mret (inr r)
           | inl a => n ← rd_hnext pos; hlist_loop fuel n body a
           end
  end.
Definition hlist_for_each {S R} (fuel : nat) (head : ptr A) (body : ptr A → S → S + R) (a : S) : HL (S + R) :=
  pos ← rd_first head; hlist_loop fuel pos body a.
End operations.

(** * Contents *)

Section contents.
  Context {A : Type} `{Countable A}.
  Abbreviation heap := (gmap A (hobj A)).
  Implicit Types (h : heap) (a x hd n : A) (l : list A) (v : ptr A).

(** The word at [a] starts a chain through exactly the nodes [l], each of
    which names the object before it. *)
Fixpoint hseg h a l : Prop :=
  match l with
  | [] => word h a = Some Null
  | x :: l => word h a = Some (Ptr x) ∧ ppr h x = Some (Ptr a) ∧ hseg h x l
  end.
(** The chain as a traversal by [next] sees it. *)
Fixpoint forward h a l : Prop :=
  match l with
  | [] => word h a = Some Null
  | x :: l => word h a = Some (Ptr x) ∧ forward h x l
  end.

(** The lists, the heads not initialised yet, and the nodes in no list: [true]
    for one that is known to be unhashed. *)
Record hstore := HStore {
  hlists : gmap A (list A); raw : gset A; off : gmap A bool
}.

Record hrep h (s : hstore) : Prop := {
  hr_list hd l : hlists s !! hd = Some l → kind h hd = Some true ∧ hseg h hd l ∧ NoDup l;
  hr_disj hd1 l1 hd2 l2 x :
    hlists s !! hd1 = Some l1 → hlists s !! hd2 = Some l2 → x ∈ l1 → x ∈ l2 → hd1 = hd2;
  hr_raw x : x ∈ raw s → kind h x = Some true ∧ hlists s !! x = None;
  hr_off x b : off s !! x = Some b → kind h x = Some false ∧ (b = true → ppr h x = Some Null);
  hr_apart x b hd l : off s !! x = Some b → hlists s !! hd = Some l → x ∉ l
}.

Definition hfirst l : ptr A := match l with [] => Null | x :: _ => Ptr x end.
(** Where the pointer to what follows [l] is stored. *)
Fixpoint end_of a l : A := match l with [] => a | x :: l => end_of x l end.

(** ** Words *)

Lemma kind_put_word h a v x : kind (put_word a v h) x = kind h x.
Proof. unfold kind, put_word. rewrite lookup_alter. case_decide; subst; [|done]. by destruct (h !! _) as [[]|]. Qed.
Lemma kind_put_pprev h a v x : kind (put_pprev a v h) x = kind h x.
Proof. unfold kind, put_pprev. rewrite lookup_alter. case_decide; subst; [|done]. by destruct (h !! _) as [[]|]. Qed.
Lemma word_put_pprev h a v x : word (put_pprev a v h) x = word h x.
Proof. unfold word, put_pprev. rewrite lookup_alter. case_decide; subst; [|done]. by destruct (h !! _) as [[]|]. Qed.
Lemma ppr_put_word h a v x : ppr (put_word a v h) x = ppr h x.
Proof. unfold ppr, put_word. rewrite lookup_alter. case_decide; subst; [|done]. by destruct (h !! _) as [[]|]. Qed.
Lemma word_put_word h a v x : is_Some (kind h a) →
  word (put_word a v h) x = if decide (x = a) then Some v else word h x.
Proof.
  unfold kind, word, put_word. intros Hk. rewrite lookup_alter.
  destruct (decide (x = a)) as [->|Hne]; [|by rewrite decide_False].
  rewrite decide_True by done. destruct (h !! a) as [[]|]; [done..|]. by destruct Hk.
Qed.
Lemma ppr_put_pprev h a v x : kind h a = Some false →
  ppr (put_pprev a v h) x = if decide (x = a) then Some v else ppr h x.
Proof.
  unfold kind, ppr, put_pprev. intros Hk. rewrite lookup_alter.
  destruct (decide (x = a)) as [->|Hne]; [|by rewrite decide_False].
  rewrite decide_True by done. by destruct (h !! a) as [[]|].
Qed.
Lemma put_word_ne h a v x : x ≠ a → put_word a v h !! x = h !! x.
Proof. intros. unfold put_word. by rewrite lookup_alter_ne. Qed.
Lemma put_pprev_ne h a v x : x ≠ a → put_pprev a v h !! x = h !! x.
Proof. intros. unfold put_pprev. by rewrite lookup_alter_ne. Qed.

Lemma kind_word h x b : kind h x = Some b → ∃ v, word h x = Some v.
Proof. unfold kind, word. destruct (h !! x) as [[]|]; naive_solver. Qed.
Lemma kind_ppr h x : kind h x = Some false → ∃ v, ppr h x = Some v.
Proof. unfold kind, ppr. destruct (h !! x) as [[]|]; naive_solver. Qed.
Lemma word_kind h x v : word h x = Some v → is_Some (kind h x).
Proof. unfold kind, word. destruct (h !! x) as [[]|]; naive_solver. Qed.
Lemma ppr_kind h x v : ppr h x = Some v → kind h x = Some false.
Proof. unfold kind, ppr. destruct (h !! x) as [[]|]; naive_solver. Qed.
End contents.

Create HintDb hlists.
#[export] Hint Extern 3 (is_Some (kind _ _)) => eapply word_kind; eassumption : hlists.
#[export] Hint Extern 4 (kind _ _ = Some false) => eapply ppr_kind; eassumption : hlists.

(** Compute words, kinds and [pprev]s through any number of writes. *)
Ltac kinds := repeat first [rewrite kind_put_word | rewrite kind_put_pprev]; eauto with hlists.
Ltac words := repeat first [rewrite word_put_pprev | rewrite ppr_put_word
  | rewrite word_put_word by kinds | rewrite ppr_put_pprev by kinds].
Ltac untouched := intros; repeat first [rewrite put_word_ne by congruence | rewrite put_pprev_ne by congruence]; done.

Section proofs.
  Context {A : Type} `{Countable A}.
  Abbreviation heap := (gmap A (hobj A)).
  Implicit Types (h : heap) (a x hd n : A) (l : list A) (v : ptr A) (s : hstore (A := A)).

(** * Running the member accesses *)

Lemma wp_rd_first h a v (Q : ptr A → heap → Prop) :
  kind h a = Some true → word h a = Some v → Q v h → wp (rd_first (Ptr a)) h Q.
Proof.
  intros Hk Hw HQ. unfold rd_first. apply wp_bind. apply wp_ret. apply wp_bind.
  unfold wp at 1, member. rewrite decide_True by done. by eapply wp_get_some.
Qed.
Lemma wp_rd_hnext h a v (Q : ptr A → heap → Prop) :
  kind h a = Some false → word h a = Some v → Q v h → wp (rd_hnext (Ptr a)) h Q.
Proof.
  intros Hk Hw HQ. unfold rd_hnext. apply wp_bind. apply wp_ret. apply wp_bind.
  unfold wp at 1, member. rewrite decide_True by done. by eapply wp_get_some.
Qed.
Lemma wp_rd_pprev h a v (Q : ptr A → heap → Prop) :
  ppr h a = Some v → Q v h → wp (rd_pprev (Ptr a)) h Q.
Proof.
  intros Hp HQ. unfold rd_pprev. apply wp_bind. apply wp_ret. apply wp_bind.
  unfold wp at 1, member. rewrite decide_True by eauto using ppr_kind. by eapply wp_get_some.
Qed.
Lemma wp_wr_first h a v (Q : unit → heap → Prop) :
  kind h a = Some true → Q tt (put_word a v h) → wp (wr_first (Ptr a) v) h Q.
Proof.
  intros Hk HQ. unfold wr_first. apply wp_bind. apply wp_ret. apply wp_bind.
  unfold wp at 1, member. rewrite decide_True by done. by apply wp_modify.
Qed.
Lemma wp_wr_hnext h a v (Q : unit → heap → Prop) :
  kind h a = Some false → Q tt (put_word a v h) → wp (wr_hnext (Ptr a) v) h Q.
Proof.
  intros Hk HQ. unfold wr_hnext. apply wp_bind. apply wp_ret. apply wp_bind.
  unfold wp at 1, member. rewrite decide_True by done. by apply wp_modify.
Qed.
Lemma wp_wr_pprev h a v (Q : unit → heap → Prop) :
  kind h a = Some false → Q tt (put_pprev a v h) → wp (wr_pprev (Ptr a) v) h Q.
Proof.
  intros Hk HQ. unfold wr_pprev. apply wp_bind. apply wp_ret. apply wp_bind.
  unfold wp at 1, member. rewrite decide_True by done. by apply wp_modify.
Qed.
Lemma wp_store h a v (Q : unit → heap → Prop) :
  is_Some (kind h a) → Q tt (put_word a v h) → wp (store (Ptr a) v) h Q.
Proof.
  intros [b Hk] HQ. destruct (kind_word _ _ _ Hk) as [w Hw]. unfold store.
  apply wp_bind. apply wp_ret. apply wp_bind. eapply wp_get_some; [done|]. by apply wp_modify.
Qed.

(** * Chains *)

Lemma hseg_word h a l : hseg h a l → word h a = Some (hfirst l).
Proof. by destruct l; [|intros (? & _)]. Qed.

Lemma hseg_kind h a l x : hseg h a l → x ∈ l → kind h x = Some false.
Proof.
  revert a. induction l as [|y l IH]; intros a; [set_solver|].
  intros (_ & Hp & Hl) [->|Hx]%elem_of_cons; [by eapply ppr_kind|by apply (IH y)].
Qed.

Lemma hseg_frame h h' a l : hseg h a l →
  (∀ x, x ∈ a :: l → word h' x = word h x) → (∀ x, x ∈ l → ppr h' x = ppr h x) → hseg h' a l.
Proof.
  revert a. induction l as [|x l IH]; intros a; simpl.
  - intros Ha Hw _. by rewrite Hw by set_solver.
  - intros (Ha & Hp & Hl) Hw Hpp. split_and!.
    + by rewrite Hw by set_solver.
    + by rewrite Hpp by set_solver.
    + apply IH; [done|set_solver..].
Qed.

Lemma end_of_elem a l : end_of a l ∈ a :: l.
Proof. revert a. induction l as [|x l IH]; intros a; simpl; [set_solver|]. specialize (IH x). set_solver. Qed.

Lemma end_of_app a l1 x l2 : end_of a (l1 ++ x :: l2) = end_of x l2.
Proof. revert a. by induction l1 as [|y l1 IH]; intros a; simpl. Qed.

Lemma hseg_skip h a l1 l2 : hseg h a (l1 ++ l2) → hseg h (end_of a l1) l2.
Proof. revert a. induction l1 as [|x l1 IH]; intros a; [done|]. intros (_ & _ & Hl). by apply IH. Qed.

(** What follows [l1] is replaced. *)
Lemma hseg_splice h h' a l1 l2 l2' : hseg h a (l1 ++ l2) → NoDup (a :: l1) →
  (∀ x, x ∈ a :: l1 → x ≠ end_of a l1 → word h' x = word h x) →
  (∀ x, x ∈ l1 → ppr h' x = ppr h x) →
  hseg h' (end_of a l1) l2' → hseg h' a (l1 ++ l2').
Proof.
  revert a. induction l1 as [|x l1 IH]; intros a; [done|].
  intros (Ha & Hp & Hl) [Hna Hnd]%NoDup_cons Hw Hpp Hl'. simpl. split_and!.
  - rewrite Hw; [done|set_solver|]. simpl. intros ->. by apply Hna, end_of_elem.
  - by rewrite Hpp by set_solver.
  - apply IH; try done; [|set_solver]. intros y Hy. apply Hw. by right.
Qed.

Lemma hseg_forward h a l : hseg h a l → forward h a l.
Proof. revert a. induction l as [|x l IH]; intros a; simpl; [done|]. intros (? & _ & ?). auto. Qed.

(** * Changing the representation *)

(** One list changes, with nodes coming from and going to the unlisted ones. *)
Lemma hrep_change h h' s hd l l' off' : hrep h s → hlists s !! hd = Some l →
  (∀ x, kind h' x = kind h x) →
  (∀ x, x ≠ hd → x ∉ l → off s !! x = None → h' !! x = h !! x) →
  (∀ x, x ∉ l' → off' !! x = Some true → ppr h' x = Some Null) →
  hseg h' hd l' → NoDup l' →
  (∀ x, x ∈ l' → x ∈ l ∨ is_Some (off s !! x)) →
  (∀ x b, off' !! x = Some b → (x ∈ l ∨ is_Some (off s !! x)) ∧ x ∉ l') →
  hrep h' (HStore (<[hd := l']> (hlists s)) (raw s) off').
Proof.
  intros [Hli Hdi Hra Hof Hap] Hl Hk Hf Hun Hs Hnd Hl' Ho'.
  assert (∀ hd2 l2 x, hd2 ≠ hd → hlists s !! hd2 = Some l2 → x ∈ l2 → x ∈ l ∨ is_Some (off s !! x) → False) as Hsep.
  { intros hd2 l2 x Hne Hl2 Hx [Hx'|[b Hb]]; [by apply Hne, (Hdi hd2 l2 hd l x)|by apply (Hap x b hd2 l2)]. }
  assert (∀ x b, off' !! x = Some b → kind h x = Some false) as Hkind.
  { intros x b Hb. destruct (Ho' x b Hb) as [[Hx|[b' Hb']] _]; [|by eapply Hof].
    destruct (Hli _ _ Hl) as (_ & Hsg & _). by eapply hseg_kind. }
  split; simpl.
  - intros hd2 l2 [[<- <-]|[Hne Hl2]]%lookup_insert_Some.
    { rewrite Hk. split_and!; [by apply (Hli _ _ Hl)|done..]. }
    destruct (Hli _ _ Hl2) as (Hk2 & Hs2 & Hn2). rewrite Hk. split_and!; [done| |done].
    assert (∀ x, x ∈ hd2 :: l2 → h' !! x = h !! x) as Heq.
    { intros x Hx. destruct (decide (x ∈ l2)) as [Hx2|Hx2].
      - pose proof (hseg_kind _ _ _ _ Hs2 Hx2) as Hkx. apply Hf.
        + intros ->. destruct (Hli _ _ Hl) as (? & _). congruence.
        + intros Hx'. by apply (Hsep hd2 l2 x); auto.
        + apply eq_None_not_Some. intros Hb. by apply (Hsep hd2 l2 x); auto.
      - apply elem_of_cons in Hx as [->|?]; [|done]. apply Hf; [done|..].
        + intros Hx'. destruct (Hli _ _ Hl) as (_ & Hsg & _). pose proof (hseg_kind _ _ _ _ Hsg Hx'). congruence.
        + apply eq_None_not_Some. intros [b Hb]. destruct (Hof _ _ Hb). congruence. }
    apply (hseg_frame h); [done|..]; intros x Hx; unfold word, ppr; rewrite Heq by set_solver; done.
  - intros hd1 l1 hd2 l2 x [[<- <-]|[? H1]]%lookup_insert_Some [[<- <-]|[? H2]]%lookup_insert_Some Hx1 Hx2; [done|..].
    + exfalso. eapply (Hsep hd2 l2); eauto.
    + exfalso. eapply (Hsep hd1 l1); eauto.
    + by apply (Hdi hd1 l1 hd2 l2 x).
  - intros x Hx. destruct (Hra x Hx). rewrite Hk. split; [done|]. rewrite lookup_insert_ne; [done|]. naive_solver.
  - intros x b Hb. rewrite Hk. split; [by eapply Hkind|]. intros ->. apply Hun; [|done]. by apply (Ho' x true).
  - intros x b hd2 l2 Hb [[<- <-]|[Hne Hl2]]%lookup_insert_Some; [by apply (Ho' x b)|].
    intros Hx. destruct (Ho' x b Hb) as [Hin _]. by apply (Hsep hd2 l2 x).
Qed.

(** Writes to unlisted nodes. *)
Lemma hrep_off h h' s n b' : hrep h s → is_Some (off s !! n) →
  (∀ x, kind h' x = kind h x) → (∀ x, x ≠ n → h' !! x = h !! x) →
  (b' = true → ppr h' n = Some Null) →
  hrep h' (HStore (hlists s) (raw s) (<[n := b']> (off s))).
Proof.
  intros [Hli Hdi Hra Hof Hap] [b0 Hb0] Hk Hf Hn. destruct (Hof _ _ Hb0) as [Hkn _]. split; simpl.
  - intros hd l Hl. destruct (Hli _ _ Hl) as (Hkh & Hs & Hnd). rewrite Hk. split_and!; [done| |done].
    assert (n ∉ l) as Hnl by by eapply Hap.
    apply (hseg_frame h); [done|..]; intros x Hx; unfold word, ppr; rewrite Hf; try done; [|by intros ->].
    intros ->. apply elem_of_cons in Hx as [->|?]; [congruence|done].
  - done.
  - intros x Hx. rewrite Hk. by apply Hra.
  - intros x b [[<- <-]|[Hne Hb]]%lookup_insert_Some; rewrite Hk; [done|].
    destruct (Hof _ _ Hb) as [Hkx Hp]. split; [done|]. intros ->. unfold ppr. rewrite Hf by done. by apply Hp.
  - intros x b hd l [[<- <-]|[Hne Hb]]%lookup_insert_Some; [by apply (Hap n b0)|by eapply Hap].
Qed.

(** An object is its kind, its word and its [pprev]. *)
Lemma hobj_ext h h' x : kind h' x = kind h x → word h' x = word h x → ppr h' x = ppr h x → h' !! x = h !! x.
Proof. unfold kind, word, ppr. destruct (h !! x) as [[]|], (h' !! x) as [[]|]; naive_solver. Qed.

Section one_list.
  Context (h h' : heap) (s : hstore (A := A)) (hd : A) (l1 l2 : list A).
  Hypothesis (Hr : hrep h s) (Hk : ∀ x, kind h' x = kind h x).

(** A node linked in behind [l1]. *)
Lemma hrep_insert n : hlists s !! hd = Some (l1 ++ l2) → is_Some (off s !! n) →
  (∀ y, word h' y = if decide (y = end_of hd l1) then Some (Ptr n)
                    else if decide (y = n) then Some (hfirst l2) else word h y) →
  (∀ y, ppr h' y = if decide (y = n) then Some (Ptr (end_of hd l1))
                   else if decide (head l2 = Some y) then Some (Ptr n) else ppr h y) →
  hrep h' (HStore (<[hd := l1 ++ n :: l2]> (hlists s)) (raw s) (delete n (off s))).
Proof.
  intros Hl [b Hb] Hw Hp. destruct (hr_list _ _ Hr _ _ Hl) as (Hkh & Hs & Hnd).
  destruct (not_elem_of_app l1 l2 n) as [[Hna Hnb] _]; [by eapply (hr_apart _ _ Hr)|].
  destruct (hr_off _ _ Hr _ _ Hb) as [Hkn _].
  destruct (not_elem_of_app l1 l2 hd) as [[Hha Hhb] _].
  { intros Hin. pose proof (hseg_kind _ _ _ _ Hs Hin). congruence. }
  pose proof Hnd as (Hn1 & Hd12 & Hn2)%NoDup_app.
  assert (∀ x, end_of hd l1 = x → x = hd ∨ x ∈ l1) as He.
  { intros x <-. apply elem_of_cons, end_of_elem. }
  assert (∀ x, x ∈ l2 → x ≠ end_of hd l1) as He2.
  { intros x Hx Hxe. destruct (He x) as [->|Hx1]; [done..|]. by apply (Hd12 x). }
  assert (n ≠ end_of hd l1) as Hne.
  { intros Hxe. destruct (He n) as [->|?]; [done|congruence|done]. }
  assert (∀ x, head l2 = Some x → x ∈ l2) as Hhead.
  { intros x [l' ->]%head_Some. by left. }
  pose proof (hseg_skip _ _ _ _ Hs) as Hs2.
  eapply (hrep_change h); [done..| | | | | |].
  - intros x Hx Hxl Hxo. apply not_elem_of_app in Hxl as [Hxa Hxb]. apply hobj_ext; [done| |].
    + rewrite Hw, !decide_False; [done|congruence|]. intros Hxe. by destruct (He x).
    + rewrite Hp, !decide_False; [done|auto|congruence].
  - intros x Hx Hxo. apply lookup_delete_Some in Hxo as [Hxn Hxo]. rewrite Hp, !decide_False; [|auto..].
    + by apply (hr_off _ _ Hr x true).
    + intros Hx2%Hhead. apply (hr_apart _ _ Hr _ _ _ _ Hxo Hl). apply elem_of_app. by right.
  - apply (hseg_splice h h' hd l1 l2); [done|by apply NoDup_cons| | |].
    + intros x Hx Hxe. rewrite Hw, !decide_False; [done| |done]. intros ->. by apply elem_of_cons in Hx as [?|?]; [congruence|].
    + intros x Hx. rewrite Hp, !decide_False; [done| |by intros ->]. intros Hx2%Hhead. by apply (Hd12 x).
    + simpl. rewrite Hw, decide_True by done. rewrite Hp, decide_True by done. split_and!; [done..|].
      destruct l2 as [|y l2']; simpl.
      { rewrite Hw, decide_False by done. by rewrite decide_True. }
      destruct Hs2 as (_ & _ & Hs2). apply NoDup_cons in Hn2 as [Hy Hn2].
      rewrite Hw, decide_False, decide_True by done.
      rewrite Hp, decide_False, decide_True; [|done|by intros ->; apply Hnb; left].
      split_and!; [done..|]. apply (hseg_frame h); [done|..]; intros x Hx.
      * rewrite Hw, !decide_False; [done| |by apply He2]. by intros ->.
      * rewrite Hp, !decide_False; [done|by intros [= ->]|]. intros ->. apply Hnb. by right.
  - apply NoDup_app. split; [done|]. split; [|by apply NoDup_cons].
    intros x Hx [->|Hx2]%elem_of_cons; [done|by apply (Hd12 x)].
  - intros x. rewrite !elem_of_app, elem_of_cons. intros [?|[->|?]]; [auto|by right; eexists|auto].
  - intros x b' [Hxn Hx]%lookup_delete_Some. split; [by right; eexists|].
    pose proof (hr_apart _ _ Hr _ _ _ _ Hx Hl) as Hxl. rewrite elem_of_app, elem_of_cons in *. naive_solver.
Qed.

(** The node behind [l1] unlinked. *)
Lemma hrep_remove n b : hlists s !! hd = Some (l1 ++ n :: l2) →
  (∀ y, y ≠ n → word h' y = if decide (y = end_of hd l1) then Some (hfirst l2) else word h y) →
  (∀ y, y ≠ n → ppr h' y = if decide (head l2 = Some y) then Some (Ptr (end_of hd l1)) else ppr h y) →
  (b = true → ppr h' n = Some Null) →
  hrep h' (HStore (<[hd := l1 ++ l2]> (hlists s)) (raw s) (<[n := b]> (off s))).
Proof.
  intros Hl Hw Hp Hb. destruct (hr_list _ _ Hr _ _ Hl) as (Hkh & Hs & Hnd).
  destruct (not_elem_of_app l1 (n :: l2) hd) as [[Hha [Hhn Hhb]%not_elem_of_cons] _].
  { intros Hin. pose proof (hseg_kind _ _ _ _ Hs Hin). congruence. }
  destruct (hseg_skip _ _ _ _ Hs) as (_ & _ & Hs2).
  pose proof Hnd as (Hn1 & Hd12 & [Hn2 Hnd2]%NoDup_cons)%NoDup_app.
  assert (n ∉ l1) as Hna by (intros Hx; by apply (Hd12 n Hx); left).
  assert (∀ x, x ∈ l1 → x ∉ l2) as Hd by (intros x Hx Hx2; apply (Hd12 x Hx); by right).
  assert (∀ x, end_of hd l1 = x → x = hd ∨ x ∈ l1) as He.
  { intros x <-. apply elem_of_cons, end_of_elem. }
  assert (∀ x, x ∈ l2 → x ≠ end_of hd l1) as He2.
  { intros x Hx Hxe. destruct (He x) as [->|Hx1]; [done..|]. by apply (Hd x). }
  assert (end_of hd l1 ≠ n) as Hne by (intros Hxe; by destruct (He n) as [->|?]).
  assert (∀ x, head l2 = Some x → x ∈ l2) as Hhead.
  { intros x [l' ->]%head_Some. by left. }
  eapply (hrep_change h); [done..| | | | | |].
  - intros x Hx [Hxa [Hxn Hxb]%not_elem_of_cons]%not_elem_of_app Hxo. apply hobj_ext; [done| |].
    + rewrite Hw, decide_False; [done| |done]. intros Hxe. by destruct (He x).
    + rewrite Hp, decide_False; [done|auto|done].
  - intros x Hx [[<- Hbt]|[Hxn Hxo]]%lookup_insert_Some; [by apply Hb|].
    pose proof (hr_apart _ _ Hr _ _ _ _ Hxo Hl) as [_ [_ Hxl]%not_elem_of_cons]%not_elem_of_app.
    rewrite Hp, decide_False; [by apply (hr_off _ _ Hr x true)|auto|done].
  - apply (hseg_splice h h' hd l1 (n :: l2)); [done|by apply NoDup_cons| | |].
    + intros x Hx Hxe. rewrite Hw, decide_False; [done..|]. intros ->. by apply elem_of_cons in Hx as [?|?].
    + intros x Hx. rewrite Hp, decide_False; [done| |by intros ->]. intros Hx2%Hhead. by apply (Hd x).
    + destruct l2 as [|y l2']; simpl; [by rewrite Hw, decide_True|].
      apply not_elem_of_cons in Hn2 as [Hny Hn2]. apply NoDup_cons in Hnd2 as [Hy Hnd2].
      rewrite Hw, decide_True by done. rewrite Hp, decide_True by done. split_and!; [done..|].
      destruct Hs2 as (_ & _ & Hs2). apply (hseg_frame h); [done|..]; intros x Hx.
      * rewrite Hw, decide_False; [done|by apply He2|]. intros ->. by apply elem_of_cons in Hx as [?|?].
      * rewrite Hp, decide_False; [done|by intros [= ->]|by intros ->].
  - by apply NoDup_app.
  - intros x Hx. left. rewrite elem_of_app in *. rewrite elem_of_cons. tauto.
  - intros x b' [[<- <-]|[Hxn Hx]]%lookup_insert_Some.
    + rewrite !elem_of_app, elem_of_cons. tauto.
    + split; [by right; eexists|]. pose proof (hr_apart _ _ Hr _ _ _ _ Hx Hl) as Hxl.
      rewrite elem_of_app, elem_of_cons in *. tauto.
Qed.
End one_list.

(** * Calls and their effect on the contents *)

(** Running [m] on any heap with contents [s] answers [r] and leaves [s']. *)
Definition hspec {B} (m : M heap B) s (r : B) s' : Prop :=
  ∀ h, hrep h s → wp m h (λ r' h', r' = r ∧ hrep h' s').

Lemma is_null_hfirst l : is_null (hfirst l) = bool_decide (l = []).
Proof. by destruct l. Qed.

Lemma hspec_add_head s hd l n : hlists s !! hd = Some l → is_Some (off s !! n) →
  hspec (hlist_add_head (Ptr n) (Ptr hd)) s tt
    (HStore (<[hd := n :: l]> (hlists s)) (raw s) (delete n (off s))).
Proof.
  intros Hl Hn h Hr. pose proof Hn as [b Hb]. destruct (hr_list _ _ Hr _ _ Hl) as (Hk & Hs & Hnd).
  destruct (hr_off _ _ Hr _ _ Hb) as [Hkn _]. pose proof (hr_apart _ _ Hr _ _ _ _ Hb Hl) as Hnl.
  unfold hlist_add_head. apply wp_bind. eapply wp_rd_first; [done|by apply hseg_word|].
  apply wp_bind, wp_wr_hnext; [done|].
  assert (∀ h2, (∀ x, kind h2 x = kind h x) →
    (∀ y, word h2 y = if decide (y = n) then Some (hfirst l) else word h y) →
    (∀ y, ppr h2 y = if decide (head l = Some y) then Some (Ptr n) else ppr h y) →
    wp (wr_first (Ptr hd) (Ptr n);; wr_pprev (Ptr n) (Ptr hd)) h2 (λ r' h', r' = tt ∧
      hrep h' (HStore (<[hd := n :: l]> (hlists s)) (raw s) (delete n (off s))))) as Hend.
  { intros h2 Hk2 Hw2 Hp2. apply wp_bind, wp_wr_first; [by rewrite Hk2|].
    apply wp_wr_pprev; [by rewrite kind_put_word, Hk2|]. split; [done|].
    assert (is_Some (kind h2 hd)) by (rewrite Hk2, Hk; by eexists).
    assert (kind (put_word hd (Ptr n) h2) n = Some false) by by rewrite kind_put_word, Hk2.
    apply (hrep_insert h _ s hd [] l); [done| |done..| |].
    - intros x. by rewrite kind_put_pprev, kind_put_word.
    - intros y. rewrite word_put_pprev, word_put_word, Hw2 by done. done.
    - intros y. rewrite ppr_put_pprev, ppr_put_word, Hp2 by done. done. }
  destruct l as [|x l]; cbn [hfirst is_null].
  - apply wp_bind, wp_ret, Hend.
    + intros y. by rewrite kind_put_word.
    + intros y. rewrite word_put_word; [done|]. by rewrite Hkn; eexists.
    + intros y. by rewrite ppr_put_word.
  - assert (kind h x = Some false) as Hkx by (eapply hseg_kind; [done|by left]).
    assert (kind (put_word n (Ptr x) h) x = Some false) as Hkx2 by by rewrite kind_put_word.
    apply wp_bind, wp_wr_pprev; [done|]. apply Hend.
    + intros y. by rewrite kind_put_pprev, kind_put_word.
    + intros y. rewrite word_put_pprev, word_put_word; [done|]. by rewrite Hkn; eexists.
    + intros y. rewrite ppr_put_pprev, ppr_put_word by done. cbn [head].
      destruct (decide (y = x)) as [->|]; [by rewrite decide_True|]. rewrite decide_False; [done|congruence].
Qed.

Lemma hspec_add_before s hd l1 x l2 n : hlists s !! hd = Some (l1 ++ x :: l2) → is_Some (off s !! n) →
  hspec (hlist_add_before (Ptr n) (Ptr x)) s tt
    (HStore (<[hd := l1 ++ n :: x :: l2]> (hlists s)) (raw s) (delete n (off s))).
Proof.
  intros Hl Hn h Hr. pose proof Hn as [b Hb]. destruct (hr_list _ _ Hr _ _ Hl) as (Hk & Hs & Hnd).
  destruct (hr_off _ _ Hr _ _ Hb) as [Hkn _]. pose proof (hr_apart _ _ Hr _ _ _ _ Hb Hl) as Hnl.
  destruct (hseg_skip _ _ _ _ Hs) as (He & Hpx & _). pose proof (ppr_kind _ _ _ Hpx) as Hkx.
  pose proof (word_kind _ _ _ He) as Hke.
  assert (n ≠ x) as Hnx. { intros ->. apply Hnl, elem_of_app. right. by left. }
  unfold hlist_add_before. apply wp_bind, wp_wr_hnext; [done|].
  apply wp_bind. eapply wp_rd_pprev; [by rewrite ppr_put_word|].
  apply wp_bind, wp_wr_pprev; [by rewrite kind_put_word|].
  assert (kind (put_word n (Ptr x) h) n = Some false) as Hkn2 by by rewrite kind_put_word.
  apply wp_bind. eapply wp_rd_pprev.
  { rewrite ppr_put_pprev, decide_False by done. by rewrite ppr_put_word. }
  apply wp_bind, wp_store; [by rewrite kind_put_pprev, kind_put_word|].
  apply wp_wr_pprev; [by rewrite kind_put_word, kind_put_pprev, kind_put_word|]. split; [done|].
  apply (hrep_insert h _ s hd l1 (x :: l2)); [done| |done..| |].
  - intros y. by rewrite kind_put_pprev, kind_put_word, kind_put_pprev, kind_put_word.
  - intros y. rewrite word_put_pprev, word_put_word by (by rewrite kind_put_pprev, kind_put_word).
    rewrite word_put_pprev, word_put_word by (rewrite Hkn; by eexists). done.
  - intros y. rewrite ppr_put_pprev by (by rewrite kind_put_word, kind_put_pprev, kind_put_word).
    rewrite ppr_put_word, ppr_put_pprev, ppr_put_word by done. cbn [head].
    destruct (decide (y = x)) as [->|]; [rewrite decide_False by done; by rewrite decide_True|].
    destruct (decide (y = n)); [done|]. rewrite decide_False; [done|congruence].
Qed.

(** Behind the last entry. *)
Lemma hspec_add_behind s hd l p n : hlists s !! hd = Some (l ++ [p]) → is_Some (off s !! n) →
  hspec (hlist_add_behind (Ptr n) (Ptr p)) s tt
    (HStore (<[hd := l ++ [p; n]]> (hlists s)) (raw s) (delete n (off s))).
Proof.
  intros Hl Hn h Hr. pose proof Hn as [b Hb]. destruct (hr_list _ _ Hr _ _ Hl) as (Hk & Hs & Hnd).
  destruct (hr_off _ _ Hr _ _ Hb) as [Hkn _]. pose proof (hr_apart _ _ Hr _ _ _ _ Hb Hl) as Hnl.
  destruct (hseg_skip _ _ _ _ Hs) as (_ & Hpx & Hwp). simpl in Hwp.
  assert (kind h p = Some false) as Hkp by by eapply ppr_kind.
  assert (n ≠ p) as Hnp. { intros ->. apply Hnl, elem_of_app. right. by left. }
  unfold hlist_add_behind. apply wp_bind. eapply wp_rd_hnext; [done..|].
  apply wp_bind, wp_wr_hnext; [done|]. apply wp_bind, wp_wr_hnext; [by rewrite kind_put_word|].
  apply wp_bind, wp_wr_pprev; [by rewrite !kind_put_word|].
  assert (is_Some (kind (put_word n Null h) p)) as Hkp2 by (rewrite kind_put_word, Hkp; by eexists).
  assert (is_Some (kind h n)) as Hkn2 by (rewrite Hkn; by eexists).
  apply wp_bind. eapply wp_rd_hnext; [by rewrite kind_put_pprev, !kind_put_word| |].
  { rewrite word_put_pprev, word_put_word, decide_False, word_put_word, decide_True by done. done. }
  apply wp_ret. split; [done|].
  rewrite (eq_refl : l ++ [p; n] = l ++ [p] ++ [n]), app_assoc.
  apply (hrep_insert h _ s hd (l ++ [p]) []); [done| |by rewrite app_nil_r|done| |].
  - intros y. by rewrite kind_put_pprev, !kind_put_word.
  - intros y. rewrite word_put_pprev, word_put_word, word_put_word by done. by rewrite end_of_app.
  - intros y. rewrite ppr_put_pprev, !ppr_put_word by (by rewrite !kind_put_word). by rewrite end_of_app.
Qed.

(** [__hlist_del]: the node is out of the chain, its own members are as they were. *)
Lemma wp_hlist_unlink s hd l1 n l2 h (Q : unit → heap → Prop) :
  hrep h s → hlists s !! hd = Some (l1 ++ n :: l2) →
  (∀ h', (∀ x, kind h' x = kind h x) →
     (∀ y, word h' y = if decide (y = end_of hd l1) then Some (hfirst l2) else word h y) →
     (∀ y, ppr h' y = if decide (head l2 = Some y) then Some (Ptr (end_of hd l1)) else ppr h y) → Q tt h') →
  wp (__hlist_del (Ptr n)) h Q.
Proof.
  intros Hr Hl HQ. destruct (hr_list _ _ Hr _ _ Hl) as (Hk & Hs & Hnd).
  destruct (hseg_skip _ _ _ _ Hs) as (He & Hpn & Hs2). pose proof (ppr_kind _ _ _ Hpn) as Hkn.
  pose proof (word_kind _ _ _ He) as Hke.
  unfold __hlist_del. apply wp_bind. eapply wp_rd_hnext; [done|by apply hseg_word|].
  apply wp_bind. eapply wp_rd_pprev; [done|]. apply wp_bind, wp_store; [done|].
  destruct l2 as [|x l2]; cbn [hfirst is_null].
  - apply wp_ret, HQ.
    + intros y. by rewrite kind_put_word.
    + intros y. by rewrite word_put_word.
    + intros y. by rewrite ppr_put_word.
  - destruct Hs2 as (_ & Hpx & _). pose proof (ppr_kind _ _ _ Hpx) as Hkx.
    apply wp_wr_pprev; [by rewrite kind_put_word|]. apply HQ.
    + intros y. by rewrite kind_put_pprev, kind_put_word.
    + intros y. by rewrite word_put_pprev, word_put_word.
    + intros y. rewrite ppr_put_pprev, ppr_put_word by (by rewrite kind_put_word). cbn [head].
      destruct (decide (y = x)) as [->|]; [by rewrite decide_True|]. rewrite decide_False; [done|congruence].
Qed.

Lemma hspec_unhashed_listed s hd l1 n l2 : hlists s !! hd = Some (l1 ++ n :: l2) →
  hspec (hlist_unhashed (Ptr n)) s false s.
Proof.
  intros Hl h Hr. destruct (hr_list _ _ Hr _ _ Hl) as (_ & (_ & Hp & _)%hseg_skip & _).
  unfold hlist_unhashed. apply wp_bind. eapply wp_rd_pprev; [done|]. by apply wp_ret.
Qed.

Lemma hspec_unhashed_off s n : off s !! n = Some true → hspec (hlist_unhashed (Ptr n)) s true s.
Proof.
  intros Hn h Hr. destruct (hr_off _ _ Hr _ _ Hn) as [_ Hp].
  unfold hlist_unhashed. apply wp_bind. eapply wp_rd_pprev; [by apply Hp|]. by apply wp_ret.
Qed.

(** [hlist_for_each] visits the nodes of a list in order; one round more than
    there are nodes is enough. *)
Lemma wp_hlist_loop {B R} (body : ptr A → B → B + R) h : ∀ l a fuel (b : B) (Q : B + R → heap → Prop),
  hseg h a l → (length l < fuel)%nat → Q (visit body (Ptr <$> l) b) h →
  wp (hlist_loop fuel (hfirst l) body b) h Q.
Proof.
  induction l as [|x l IH]; intros a [|fuel] b Q Hs Hf HQ; simpl in Hf; try lia; simpl in Hs, HQ |- *.
  - by apply wp_ret.
  - destruct Hs as (_ & Hp & Hs). destruct (body (Ptr x) b) as [b'|r]; [|by apply wp_ret].
    apply wp_bind. eapply wp_rd_hnext; [by eapply ppr_kind|by apply hseg_word|].
    eapply IH; [exact Hs|lia|done].
Qed.

Lemma hspec_for_each {B R} (body : ptr A → B → B + R) s hd l fuel (b : B) :
  hlists s !! hd = Some l → (length l < fuel)%nat →
  hspec (hlist_for_each fuel (Ptr hd) body b) s (visit body (Ptr <$> l) b) s.
Proof.
  intros Hl Hf h Hr. destruct (hr_list _ _ Hr _ _ Hl) as (Hk & Hs & _).
  unfold hlist_for_each. apply wp_bind. eapply wp_rd_first; [done|by apply hseg_word|].
  by eapply wp_hlist_loop.
Qed.

Lemma hspec_empty s hd l : hlists s !! hd = Some l → hspec (hlist_empty (Ptr hd)) s (bool_decide (l = [])) s.
Proof.
  intros Hl h Hr. destruct (hr_list _ _ Hr _ _ Hl) as (Hk & Hs & _).
  unfold hlist_empty. apply wp_bind. eapply wp_rd_first; [done|by apply hseg_word|].
  apply wp_ret. by rewrite is_null_hfirst.
Qed.

Lemma hspec_bind {B C} (m : M heap B) (f : B → M heap C) s b s' c s'' :
  hspec m s b s' → hspec (f b) s' c s'' → hspec (m ≫= f) s c s''.
Proof. intros Hm Hf h Hr. apply wp_bind. eapply wp_mono; [by apply Hm|]. intros ? h' [-> Hr']. by apply Hf. Qed.

(** Both deletions: unlink, then two writes to the node itself. *)
Lemma hspec_unlink_then s hd l1 n l2 v1 v2 : hlists s !! hd = Some (l1 ++ n :: l2) →
  hspec (__hlist_del (Ptr n);; wr_hnext (Ptr n) v1;; wr_pprev (Ptr n) v2) s tt
    (HStore (<[hd := l1 ++ l2]> (hlists s)) (raw s) (<[n := is_null v2]> (off s))).
Proof.
  intros Hl h Hr. destruct (hr_list _ _ Hr _ _ Hl) as (_ & (_ & Hp & _)%hseg_skip & _).
  pose proof (ppr_kind _ _ _ Hp) as Hkn. apply wp_bind. eapply wp_hlist_unlink; [done..|].
  intros h' Hk' Hw' Hp'. apply wp_bind, wp_wr_hnext; [by rewrite Hk'|].
  apply wp_wr_pprev; [by rewrite kind_put_word, Hk'|]. split; [done|].
  assert (is_Some (kind h' n)) as Hkn' by (rewrite Hk', Hkn; by eexists).
  assert (kind (put_word n v1 h') n = Some false) as Hkn2 by by rewrite kind_put_word, Hk'.
  apply (hrep_remove h _ s hd l1 l2); [done| |done| | |].
  - intros x. by rewrite kind_put_pprev, kind_put_word.
  - intros y Hy. by rewrite word_put_pprev, word_put_word, decide_False by done.
  - intros y Hy. by rewrite ppr_put_pprev, decide_False, ppr_put_word by done.
  - intros Hv. rewrite ppr_put_pprev, decide_True by done. by destruct v2.
Qed.

Lemma hspec_del s hd l1 n l2 : hlists s !! hd = Some (l1 ++ n :: l2) →
  hspec (hlist_del (Ptr n)) s tt (HStore (<[hd := l1 ++ l2]> (hlists s)) (raw s) (<[n := false]> (off s))).
Proof.
  intros Hl. eapply hspec_bind; [by eapply hspec_unhashed_listed|].
  apply (hspec_unlink_then s hd l1 n l2 (Raw 0x100) (Raw 0x200) Hl).
Qed.

Lemma hspec_del_init s hd l1 n l2 : hlists s !! hd = Some (l1 ++ n :: l2) →
  hspec (hlist_del_init (Ptr n)) s tt (HStore (<[hd := l1 ++ l2]> (hlists s)) (raw s) (<[n := true]> (off s))).
Proof.
  intros Hl. eapply hspec_bind; [by eapply hspec_unhashed_listed|].
  apply (hspec_unlink_then s hd l1 n l2 Null Null Hl).
Qed.

Lemma hspec_del_unhashed s n : off s !! n = Some true →
  hspec (hlist_del (Ptr n)) s tt s ∧ hspec (hlist_del_init (Ptr n)) s tt s.
Proof. intros Hn. split; (eapply hspec_bind; [by apply hspec_unhashed_off|]); intros h Hr; by apply wp_ret. Qed.

Lemma hspec_init_head s hd : hd ∈ raw s →
  hspec (INIT_HLIST_HEAD (Ptr hd)) s tt (HStore (<[hd := []]> (hlists s)) (raw s ∖ {[hd]}) (off s)).
Proof.
  intros Hhd h Hr. destruct (hr_raw _ _ Hr _ Hhd) as [Hk Hno]. apply wp_wr_first; [done|]. split; [done|].
  assert (is_Some (kind h hd)) as Hks by (rewrite Hk; by eexists).
  destruct Hr as [Hli Hdi Hra Hof Hap]. split; simpl.
  - intros hd' l [[<- <-]|[Hne Hl]]%lookup_insert_Some.
    { rewrite kind_put_word. split_and!; [done| |apply NoDup_nil_2]. simpl. by rewrite word_put_word, decide_True. }
    destruct (Hli _ _ Hl) as (Hk' & Hs & Hnd). rewrite kind_put_word. split_and!; [done| |done].
    apply (hseg_frame h); [done|..]; intros x Hx; [|by rewrite ppr_put_word].
    rewrite word_put_word, decide_False; [done| |done]. intros ->. apply elem_of_cons in Hx as [?|Hx]; [done|].
    pose proof (hseg_kind _ _ _ _ Hs Hx). congruence.
  - intros hd1 l1 hd2 l2 x [[<- <-]|[? H1]]%lookup_insert_Some [[<- <-]|[? H2]]%lookup_insert_Some Hx1 Hx2; [done|..].
    + by apply elem_of_nil in Hx1.
    + by apply elem_of_nil in Hx2.
    + by apply (Hdi hd1 l1 hd2 l2 x).
  - intros x [Hx Hne]%elem_of_difference. rewrite kind_put_word. destruct (Hra x Hx). split; [done|].
    rewrite lookup_insert_ne; [done|]. set_solver.
  - intros x b Hb. rewrite kind_put_word, ppr_put_word. by apply Hof.
  - intros x b hd' l Hb [[<- <-]|[Hne Hl]]%lookup_insert_Some; [apply not_elem_of_nil|by eapply Hap].
Qed.

Lemma hspec_init_node s n : is_Some (off s !! n) →
  hspec (INIT_HLIST_NODE (Ptr n)) s tt (HStore (hlists s) (raw s) (<[n := true]> (off s))).
Proof.
  intros [b Hb] h Hr. destruct (hr_off _ _ Hr _ _ Hb) as [Hk _].
  apply wp_bind, wp_wr_hnext; [done|]. apply wp_wr_pprev; [by rewrite kind_put_word|]. split; [done|].
  apply (hrep_off h); [done|by eexists| | |].
  - intros x. by rewrite kind_put_pprev, kind_put_word.
  - intros x Hx. by rewrite put_pprev_ne, put_word_ne.
  - intros _. rewrite ppr_put_pprev by (by rewrite kind_put_word). by rewrite decide_True.
Qed.

Lemma hspec_add_fake s n : is_Some (off s !! n) →
  hspec (hlist_add_fake (Ptr n)) s tt (HStore (hlists s) (raw s) (<[n := false]> (off s))).
Proof.
  intros [b Hb] h Hr. destruct (hr_off _ _ Hr _ _ Hb) as [Hk _]. apply wp_wr_pprev; [done|]. split; [done|].
  apply (hrep_off h); [done|by eexists| | |done].
  - intros x. by rewrite kind_put_pprev.
  - intros x Hx. by rewrite put_pprev_ne.
Qed.

(** The nodes of a list whose head was emptied: in no list, nothing known. *)
Definition forgotten l : gmap A bool := set_to_map (λ x, (x, false)) (list_to_set l : gset A).
Lemma lookup_forgotten l x b : forgotten l !! x = Some b ↔ b = false ∧ x ∈ l.
Proof. unfold forgotten. rewrite lookup_set_to_map by done. setoid_rewrite elem_of_list_to_set. naive_solver. Qed.

Lemma hrep_emptied h s hd l : hrep h s → hlists s !! hd = Some l →
  hrep (put_word hd Null h) (HStore (<[hd := []]> (hlists s)) (raw s) (forgotten l ∪ off s)).
Proof.
  intros Hr Hl. destruct (hr_list _ _ Hr _ _ Hl) as (Hk & Hs & Hnd).
  assert (is_Some (kind h hd)) as Hks by (rewrite Hk; by eexists).
  pose proof (lookup_forgotten l) as Hin.
  eapply (hrep_change h); [done..| | | | | | |].
  - intros x. by rewrite kind_put_word.
  - intros x Hx _ _. by rewrite put_word_ne.
  - intros x _ [Hx|[_ Hx]]%lookup_union_Some_raw; [by apply Hin in Hx as [? _]|].
    rewrite ppr_put_word. by apply (hr_off _ _ Hr x true).
  - simpl. by rewrite word_put_word, decide_True.
  - apply NoDup_nil_2.
  - intros x Hx. by apply elem_of_nil in Hx.
  - intros x b [Hx|[_ Hx]]%lookup_union_Some_raw; (split; [|apply not_elem_of_nil]).
    + left. by apply Hin in Hx as [_ ?].
    + right. by eexists.
Qed.

Lemma hspec_move_list s old new l : hlists s !! old = Some l → l ≠ [] → hlists s !! new = Some [] →
  hspec (hlist_move_list (Ptr old) (Ptr new)) s tt
    (HStore (<[new := l]> (<[old := []]> (hlists s))) (raw s) (off s)).
Proof.
  intros Hl Hne Hnew h Hr. destruct (hr_list _ _ Hr _ _ Hl) as (Hk & Hs & Hnd).
  destruct (hr_list _ _ Hr _ _ Hnew) as (Hkn & _). destruct l as [|x l]; [done|]. clear Hne.
  assert (old ≠ new) as Hon by (intros ->; congruence).
  pose proof Hs as (Hw0 & Hpx & Hs'). pose proof (ppr_kind _ _ _ Hpx) as Hkx.
  assert (is_Some (kind h new)) as Hkn' by (rewrite Hkn; by eexists).
  unfold hlist_move_list, hlist_empty. apply wp_bind, wp_bind. eapply wp_rd_first; [done..|]. apply wp_ret. cbn [is_null].
  apply wp_bind. eapply wp_rd_first; [done..|].
  apply wp_bind, wp_wr_first; [done|]. apply wp_bind. eapply wp_rd_first; [by rewrite kind_put_word| |].
  { by rewrite word_put_word, decide_True. }
  cbn [is_null]. apply wp_bind, wp_bind. eapply wp_rd_first; [by rewrite kind_put_word| |].
  { by rewrite word_put_word, decide_True. }
  apply wp_wr_pprev; [by rewrite kind_put_word|]. apply wp_wr_first; [by rewrite kind_put_pprev, kind_put_word|].
  split; [done|].
  (* put the write to [old] first, then [new] receives the forgotten nodes *)
  pose proof (hrep_emptied _ _ _ _ Hr Hl) as Hr1. set (h' := put_word old Null (put_pprev x (Ptr new) (put_word new (Ptr x) h))).
  assert (∀ y, kind h' y = kind (put_word old Null h) y) as Hk'.
  { intros y. unfold h'. by rewrite !kind_put_word, kind_put_pprev, kind_put_word. }
  assert (is_Some (kind h old)) as Hko by (rewrite Hk; by eexists).
  assert (∀ y, word h' y = if decide (y = old) then Some Null else if decide (y = new) then Some (Ptr x) else word h y) as Hw'.
  { intros y. unfold h'. by rewrite word_put_word, word_put_pprev, word_put_word by (try rewrite kind_put_pprev, kind_put_word; done). }
  assert (∀ y, ppr h' y = if decide (y = x) then Some (Ptr new) else ppr h y) as Hp'.
  { intros y. unfold h'. by rewrite ppr_put_word, ppr_put_pprev, ppr_put_word by (by rewrite kind_put_word). }
  assert (∀ y, y ∈ x :: l → y ≠ old ∧ y ≠ new) as Hyn.
  { intros y Hy. pose proof (hseg_kind _ _ _ _ Hs Hy). split; intros ->; congruence. }
  apply (hrep_change (put_word old Null h) h' _ new [] (x :: l) (off s) Hr1); simpl.
  - by rewrite lookup_insert_ne.
  - done.
  - intros y Hy _ [Hno Hy2]%lookup_union_None. apply hobj_ext; [done| |].
    + by rewrite Hw', word_put_word, (decide_False (P := y = new)) by done.
    + rewrite Hp', ppr_put_word, decide_False; [done|]. intros ->.
      pose proof (proj2 (lookup_forgotten (x :: l) x false)) as Hf. rewrite Hno in Hf.
      discriminate Hf. split; [done|by left].
  - intros y Hy Hyo. rewrite Hp', decide_False; [by apply (hr_off _ _ Hr y true)|]. intros ->. apply Hy. by left.
  - split_and!.
    + by rewrite Hw', decide_False, decide_True.
    + by rewrite Hp', decide_True.
    + apply NoDup_cons in Hnd as [Hxl _]. apply (hseg_frame h); [done|..]; intros y Hy.
      * destruct (Hyn y Hy) as [??]. by rewrite Hw', !decide_False.
      * rewrite Hp', decide_False; [done|]. by intros ->.
  - done.
  - intros y Hy. right. exists false. by apply lookup_union_Some_l, lookup_forgotten.
  - intros y b Hb. split; [|by eapply (hr_apart _ _ Hr)]. right.
    apply lookup_union_is_Some. right. by eexists.
Qed.
End proofs.

(** * The contract of the calls *)

Section contract.
  Context {A : Type} `{Countable A}.
  Abbreviation heap := (gmap A (hobj A)).
  Implicit Types (h : heap) (x hd n : A) (l : list A) (s : hstore (A := A)).

Inductive hcall :=
  | HInitHead (hd : A) | HInitNode (n : A) | HAddHead (n hd : A) | HAddBefore (n x : A)
  | HAddBehind (n p : A) | HAddFake (n : A) | HDel (n : A) | HDelInit (n : A)
  | HMoveList (old new : A) | HEmpty (hd : A) | HUnhashed (n : A).

(** The answer of a query, or nothing. *)
Definition run_hcall (c : hcall) : M heap (option bool) :=
  let void (m : M heap unit) := m;; mret None in
  let query (m : M heap bool) := b ← m; mret (Some b) in
  match c with
  | HInitHead hd => void (INIT_HLIST_HEAD (Ptr hd))
  | HInitNode n => void (INIT_HLIST_NODE (Ptr n))
  | HAddHead n hd => void (hlist_add_head (Ptr n) (Ptr hd))
  | HAddBefore n x => void (hlist_add_before (Ptr n) (Ptr x))
  | HAddBehind n p => void (hlist_add_behind (Ptr n) (Ptr p))
  | HAddFake n => void (hlist_add_fake (Ptr n))
  | HDel n => void (hlist_del (Ptr n))
  | HDelInit n => void (hlist_del_init (Ptr n))
  | HMoveList old new => void (hlist_move_list (Ptr old) (Ptr new))
  | HEmpty hd => query (hlist_empty (Ptr hd))
  | HUnhashed n => query (hlist_unhashed (Ptr n))
  end.

Fixpoint run_hcalls (cs : list hcall) : M heap (list (option bool)) :=
  match cs with
  | [] => mret []
  | c :: cs => r ← run_hcall c; rs ← run_hcalls cs; mret (r :: rs)
  end.

(** [hcalls s c r s']: on contents [s] the call [c] is legal, answers [r] and
    leaves [s'].  [hlist_add_behind] is legal behind a last entry only. *)
Inductive hcalls : hstore → hcall → option bool → hstore → Prop :=
  | hc_init_head s hd : hd ∈ raw s →
      hcalls s (HInitHead hd) None (HStore (<[hd := []]> (hlists s)) (raw s ∖ {[hd]}) (off s))
  | hc_init_node s n : is_Some (off s !! n) →
      hcalls s (HInitNode n) None (HStore (hlists s) (raw s) (<[n := true]> (off s)))
  | hc_add_head s hd l n : hlists s !! hd = Some l → is_Some (off s !! n) →
      hcalls s (HAddHead n hd) None (HStore (<[hd := n :: l]> (hlists s)) (raw s) (delete n (off s)))
  | hc_add_before s hd l1 x l2 n : hlists s !! hd = Some (l1 ++ x :: l2) → is_Some (off s !! n) →
      hcalls s (HAddBefore n x) None
        (HStore (<[hd := l1 ++ n :: x :: l2]> (hlists s)) (raw s) (delete n (off s)))
  | hc_add_behind s hd l p n : hlists s !! hd = Some (l ++ [p]) → is_Some (off s !! n) →
      hcalls s (HAddBehind n p) None
        (HStore (<[hd := l ++ [p; n]]> (hlists s)) (raw s) (delete n (off s)))
  | hc_add_fake s n : is_Some (off s !! n) →
      hcalls s (HAddFake n) None (HStore (hlists s) (raw s) (<[n := false]> (off s)))
  | hc_del s hd l1 n l2 : hlists s !! hd = Some (l1 ++ n :: l2) →
      hcalls s (HDel n) None (HStore (<[hd := l1 ++ l2]> (hlists s)) (raw s) (<[n := false]> (off s)))
  | hc_del_init s hd l1 n l2 : hlists s !! hd = Some (l1 ++ n :: l2) →
      hcalls s (HDelInit n) None (HStore (<[hd := l1 ++ l2]> (hlists s)) (raw s) (<[n := true]> (off s)))
  | hc_del_unhashed s n : off s !! n = Some true → hcalls s (HDel n) None s
  | hc_del_init_unhashed s n : off s !! n = Some true → hcalls s (HDelInit n) None s
  | hc_move s old new l : hlists s !! old = Some l → l ≠ [] → hlists s !! new = Some [] →
      hcalls s (HMoveList old new) None
        (HStore (<[new := l]> (<[old := []]> (hlists s))) (raw s) (off s))
  | hc_move_nothing s old new : hlists s !! old = Some [] → hcalls s (HMoveList old new) None s
  | hc_empty s hd l : hlists s !! hd = Some l →
      hcalls s (HEmpty hd) (Some (bool_decide (l = []))) s
  | hc_hashed s hd l1 n l2 : hlists s !! hd = Some (l1 ++ n :: l2) →
      hcalls s (HUnhashed n) (Some false) s
  | hc_unhashed s n : off s !! n = Some true → hcalls s (HUnhashed n) (Some true) s.

Inductive hcalls_star : hstore → list hcall → list (option bool) → hstore → Prop :=
  | hstar_nil s : hcalls_star s [] [] s
  | hstar_cons s c r s' cs rs s'' :
      hcalls s c r s' → hcalls_star s' cs rs s'' → hcalls_star s (c :: cs) (r :: rs) s''.

Lemma hspec_void (m : M heap unit) s s' : hspec m s tt s' → hspec (m;; mret (None : option bool)) s None s'.
Proof. intros Hm. eapply hspec_bind; [done|]. intros h Hr. by apply wp_ret. Qed.
Lemma hspec_query (m : M heap bool) s b : hspec m s b s → hspec (b ← m; mret (Some b)) s (Some b) s.
Proof. intros Hm. eapply hspec_bind; [done|]. intros h Hr. by apply wp_ret. Qed.

Lemma run_hcall_spec s c r s' : hcalls s c r s' → hspec (run_hcall c) s r s'.
Proof.
  intros Hc. destruct Hc; simpl; first [apply hspec_query | apply hspec_void].
  - by apply hspec_init_head.
  - by apply hspec_init_node.
  - by apply hspec_add_head.
  - by apply hspec_add_before.
  - by apply hspec_add_behind.
  - by apply hspec_add_fake.
  - by apply hspec_del.
  - by apply hspec_del_init.
  - by apply hspec_del_unhashed.
  - by apply hspec_del_unhashed.
  - by apply hspec_move_list.
  - eapply hspec_bind; [by apply hspec_empty|]. intros h Hr. by apply wp_ret.
  - by apply hspec_empty.
  - by eapply hspec_unhashed_listed.
  - by apply hspec_unhashed_off.
Qed.

(** C19: every sequence of legal calls of the [hlist] operations runs without
    a wild access, answers its queries as the contents say and leaves a heap
    with the specified contents: [hlist_add_head], [hlist_add_before],
    [hlist_add_behind] behind a last entry, [hlist_del] and [hlist_del_init]
    with their test for unhashed nodes, [hlist_move_list]. *)
Theorem hlist_calls_refine h s cs rs s' (Hc : hcalls_star s cs rs s') (Hr : hrep h s) :
  ∃ h', run_hcalls cs h = Ret (rs, h') ∧ hrep h' s'.
Proof.
  enough (wp (run_hcalls cs) h (λ rs' h', rs' = rs ∧ hrep h' s')) as (? & h' & Hrun & -> & ?)%wp_returns by eauto.
  revert h Hr. induction Hc as [s|s c r s' cs rs s'' H1 Hc IH]; intros h Hr; simpl; [by apply wp_ret|].
  apply wp_bind. eapply wp_mono; [by apply (run_hcall_spec _ _ _ _ H1)|]. intros ? h1 [-> Hr1].
  apply wp_bind. eapply wp_mono; [by apply IH|]. intros ? h2 [-> Hr2]. by apply wp_ret.
Qed.

Lemma forward_prefix h h' a l1 p l l' : forward h a (l1 ++ p :: l) →
  (∀ y, y ∈ a :: l1 → word h' y = word h y) → forward h' p l' → forward h' a (l1 ++ p :: l').
Proof.
  revert a. induction l1 as [|x l1 IH]; intros a; simpl; intros [Hw Hf] Hy Hl'.
  - split; [|done]. rewrite Hy; [done|by left].
  - split; [rewrite Hy; [done|by left]|]. apply IH; [done| |done]. intros y Hin. apply Hy. by right.
Qed.

(** The tail of a chain, where the words did not change. *)
Lemma forward_tail h h' a b l : forward h a l → word h' b = Some (hfirst l) →
  (∀ y, y ∈ l → word h' y = word h y) → forward h' b l.
Proof.
  revert a b. induction l as [|x l IH]; intros a b; simpl; [done|]. intros [_ Hf] Hb Hy.
  split; [done|]. apply (IH x); [done| |].
  - rewrite Hy by (by left). destruct l; [done|]. by destruct Hf.
  - intros y Hin. apply Hy. by right.
Qed.

(** [hlist_add_behind] anywhere in a list: which words and [pprev]s it changes. *)
Lemma wp_hlist_add_behind h s hd l1 p x l2 n : hrep h s → hlists s !! hd = Some (l1 ++ p :: x :: l2) →
  is_Some (off s !! n) →
  wp (hlist_add_behind (Ptr n) (Ptr p)) h (λ _ h1, (∀ y, kind h1 y = kind h y) ∧
    (∀ y, word h1 y = if decide (y = p) then Some (Ptr n) else if decide (y = n) then Some (Ptr x) else word h y) ∧
    (∀ y, ppr h1 y = if decide (y = n) then Some (Ptr p) else ppr h y)).
Proof.
  intros Hr Hl [b Hb]. destruct (hr_list _ _ Hr _ _ Hl) as (Hk & Hs & Hnd).
  destruct (hr_off _ _ Hr _ _ Hb) as [Hkn _]. pose proof (hr_apart _ _ Hr _ _ _ _ Hb Hl) as Hnl.
  destruct (hseg_skip _ _ _ _ Hs) as (_ & Hpp & Hwp & _). pose proof (ppr_kind _ _ _ Hpp) as Hkp.
  assert (n ≠ p) as Hnp. { intros ->. apply Hnl, elem_of_app. right. by left. }
  assert (is_Some (kind h n)) as Hkn' by (rewrite Hkn; by eexists).
  assert (is_Some (kind (put_word n (Ptr x) h) p)) as Hkp' by (rewrite kind_put_word, Hkp; by eexists).
  assert (kind (put_word p (Ptr n) (put_word n (Ptr x) h)) n = Some false) as Hkn2 by by rewrite !kind_put_word.
  unfold hlist_add_behind. apply wp_bind. eapply wp_rd_hnext; [done..|].
  apply wp_bind, wp_wr_hnext; [done|]. apply wp_bind, wp_wr_hnext; [by rewrite kind_put_word|].
  apply wp_bind, wp_wr_pprev; [done|].
  apply wp_bind. eapply wp_rd_hnext; [by rewrite kind_put_pprev| |].
  { rewrite word_put_pprev, word_put_word, decide_False, word_put_word, decide_True by done. done. }
  cbn [is_null]. apply wp_bind. eapply wp_rd_pprev; [by rewrite ppr_put_pprev, decide_True|].
  apply wp_store; [by rewrite kind_put_pprev, kind_put_word|]. split_and!; intros y.
  - by rewrite kind_put_word, kind_put_pprev, !kind_put_word.
  - rewrite word_put_word by (by rewrite kind_put_pprev, kind_put_word).
    rewrite word_put_pprev, word_put_word, word_put_word by done. by destruct (decide (y = p)).
  - by rewrite ppr_put_word, ppr_put_pprev, !ppr_put_word.
Qed.

(** [hlist_del] of a node whose [pprev] points to the word at [p]. *)
Lemma wp_hlist_del_at h x p l2 : ppr h x = Some (Ptr p) → is_Some (kind h p) → word h x = Some (hfirst l2) →
  (∀ y, y ∈ l2 → kind h y = Some false) → x ∉ l2 → p ≠ x →
  wp (hlist_del (Ptr x)) h (λ _ h', ∀ y, y ≠ x → word h' y = if decide (y = p) then Some (hfirst l2) else word h y).
Proof.
  intros Hp Hkp Hw Hk Hx Hne. pose proof (ppr_kind _ _ _ Hp) as Hkx.
  assert (is_Some (kind h x)) as Hks by (rewrite Hkx; by eexists).
  unfold hlist_del, hlist_unhashed. apply wp_bind, wp_bind. eapply wp_rd_pprev; [done|]. apply wp_ret. cbn [is_null].
  assert (∀ h2, (∀ y, kind h2 y = kind h y) →
    (∀ y, word h2 y = if decide (y = p) then Some (hfirst l2) else word h y) →
    wp (wr_hnext (Ptr x) (Raw 0x100);; wr_pprev (Ptr x) (Raw 0x200)) h2 (λ _ h', ∀ y, y ≠ x →
      word h' y = if decide (y = p) then Some (hfirst l2) else word h y)) as Hend.
  { intros h2 Hk2 Hw2. apply wp_bind, wp_wr_hnext; [by rewrite Hk2|].
    apply wp_wr_pprev; [by rewrite kind_put_word, Hk2|]. intros y Hy.
    by rewrite word_put_pprev, word_put_word, decide_False by (try rewrite Hk2; done). }
  apply wp_bind. unfold __hlist_del. apply wp_bind. eapply wp_rd_hnext; [done..|].
  apply wp_bind. eapply wp_rd_pprev; [done|]. apply wp_bind, wp_store; [done|].
  destruct l2 as [|y l2]; cbn [hfirst is_null].
  - apply wp_ret, Hend; intros z; [by rewrite kind_put_word|by rewrite word_put_word].
  - apply wp_wr_pprev; [rewrite kind_put_word; apply Hk; by left|].
    apply Hend; intros z; [by rewrite kind_put_pprev, kind_put_word|by rewrite word_put_pprev, word_put_word].
Qed.

(** [hlist_add_behind] in the middle of a list writes the wrong pointer:
    the list reads correctly afterwards, but the entry that follows the new one
    still names the one before it as its predecessor, and deleting that
    entry drops the new one from the list as well. *)
Theorem hlist_add_behind_loses h s hd l1 p x l2 n (Hr : hrep h s)
    (Hl : hlists s !! hd = Some (l1 ++ p :: x :: l2)) (Hn : is_Some (off s !! n)) :
  ∃ h1 h2, hlist_add_behind (Ptr n) (Ptr p) h = Ret (tt, h1) ∧
    forward h1 hd (l1 ++ p :: n :: x :: l2) ∧ ppr h1 x = Some (Ptr p) ∧
    hlist_del (Ptr x) h1 = Ret (tt, h2) ∧ forward h2 hd (l1 ++ p :: l2).
Proof.
  destruct (hr_list _ _ Hr _ _ Hl) as (Hk & Hs & Hnd). pose proof Hn as [b Hb].
  pose proof (hr_apart _ _ Hr _ _ _ _ Hb Hl) as [Hn1 [Hnp [Hnx Hn2]%not_elem_of_cons]%not_elem_of_cons]%not_elem_of_app.
  destruct (hr_off _ _ Hr _ _ Hb) as [Hkn _].
  assert (hd ∉ l1 ++ p :: x :: l2) as Hhd.
  { intros Hin. pose proof (hseg_kind _ _ _ _ Hs Hin). congruence. }
  pose proof Hnd as (_ & Hd12 & [Hp2 [Hx2 Hnd2]%NoDup_cons]%NoDup_cons)%NoDup_app.
  pose proof (hseg_skip _ _ _ _ Hs) as (_ & Hpp & Hwp & Hpx & Hs2).
  pose proof (hseg_forward _ _ _ Hs) as Hf. pose proof (hseg_forward _ _ _ Hs2) as Hf2.
  assert (p ≠ x ∧ p ∉ l2) as [Hpx' Hp2'] by (by apply not_elem_of_cons in Hp2).
  assert (∀ y, y ∈ hd :: l1 → y ≠ p ∧ y ≠ n ∧ y ≠ x) as Hy1.
  { intros y [->|Hy]%elem_of_cons.
    - split_and!; intros ->; [..|congruence|]; apply Hhd, elem_of_app; right; [by left|by right; left].
    - split_and!; [|by intros ->|]; intros ->; apply (Hd12 _ Hy); [by left|by right; left]. }
  pose proof (wp_hlist_add_behind h s hd l1 p x l2 n Hr Hl Hn) as ([] & h1 & Hrun1 & Hk1 & Hw1 & Hp1)%wp_returns.
  assert (wp (hlist_del (Ptr x)) h1 (λ _ h', ∀ y, y ≠ x →
    word h' y = if decide (y = p) then Some (hfirst l2) else word h1 y)) as ([] & h2 & Hrun2 & Hw2)%wp_returns.
  { apply wp_hlist_del_at; [..|done|done].
  { by rewrite Hp1, decide_False by done. }
  { rewrite Hk1, (ppr_kind _ _ _ Hpp). by eexists. }
  { rewrite Hw1, !decide_False by done. by apply hseg_word in Hs2. }
  { intros y Hy. rewrite Hk1. by eapply hseg_kind. } }
  exists h1, h2. split_and!; [done| |by rewrite Hp1, decide_False by done|done|].
  - apply (forward_prefix h _ _ _ _ (x :: l2)); [done| |].
    + intros y Hy. destruct (Hy1 y Hy) as (? & ? & _). by rewrite Hw1, !decide_False.
    + simpl. split_and!; [by rewrite Hw1, decide_True|by rewrite Hw1, decide_False, decide_True|].
      apply (forward_tail h _ x); [done| |].
      * rewrite Hw1, !decide_False by done. by apply hseg_word in Hs2.
      * intros y Hy. by rewrite Hw1, !decide_False by (intros ->; done).
  - apply (forward_prefix h _ _ _ _ (x :: l2)); [done| |].
    + intros y Hy. destruct (Hy1 y Hy) as (? & ? & ?). by rewrite Hw2, decide_False, Hw1, !decide_False.
    + apply (forward_tail h _ x); [done| |].
      * by rewrite Hw2, decide_True.
      * intros y Hy. rewrite Hw2, decide_False, Hw1, !decide_False; [done|(intros ->; done)..].
Qed.
End contract.

(** * Witnesses: a head and four nodes *)

Definition bucket : gmap nat (hobj nat) :=
  <[0%nat := HHead (Raw 7)]> (list_to_map ((λ i, (i, HNode Null Null)) <$> [1; 2; 3; 4]%nat)).
Definition bucket_off : gmap nat bool := list_to_map ((λ i, (i, true)) <$> [1; 2; 3; 4]%nat).

Lemma bucket_rep : hrep bucket (HStore ∅ {[0%nat]} bucket_off).
Proof.
  split; simpl; [done..| | |done].
  - intros x ->%elem_of_singleton. split; reflexivity.
  - intros x b Hx%elem_of_list_to_map_2. simpl in Hx.
    repeat (apply elem_of_cons in Hx as [[= -> ->]|Hx]; [done|]). by apply elem_of_nil in Hx.
Qed.

Definition bucket_calls : list (hcall (A := nat)) :=
  [HInitHead 0; HAddHead 1 0; HAddBefore 2 1; HAddBehind 3 1; HDelInit 1; HUnhashed 1; HEmpty 0]%nat.

Lemma bucket_spec : ∃ s, hlists s = {[0%nat := [2; 3]%nat]} ∧
  hcalls_star (HStore ∅ {[0%nat]} bucket_off) bucket_calls
    [None; None; None; None; None; Some true; Some false] s.
Proof.
  eexists. split; [|unfold bucket_calls].
  2:{ econstructor; [apply hc_init_head; by apply elem_of_singleton|]. cbn [hlists raw off].
      econstructor; [by apply (hc_add_head _ 0%nat []); [|eexists]|]. cbn [hlists raw off].
      econstructor; [by apply (hc_add_before _ 0%nat [] 1%nat []); [|eexists]|]. cbn [hlists raw off].
      econstructor; [by apply (hc_add_behind _ 0%nat [2%nat] 1%nat); [|eexists]|]. cbn [hlists raw off].
      econstructor; [by apply (hc_del_init _ 0%nat [2%nat] 1%nat [3%nat])|]. cbn [hlists raw off].
      econstructor; [by apply hc_unhashed|]. cbn [hlists raw off].
      econstructor; [by apply (hc_empty _ 0%nat [2;3]%nat)|]. constructor. }
  reflexivity.
Qed.

Lemma hlist_calls_refine_witness : ∃ h', run_hcalls bucket_calls bucket =
    Ret ([None; None; None; None; None; Some true; Some false], h') ∧ hseg h' 0%nat [2; 3]%nat.
Proof.
  destruct bucket_spec as (s & Hs & Hc).
  destruct (hlist_calls_refine _ _ _ _ _ Hc bucket_rep) as (h' & Hrun & Hr').
  exists h'. split; [exact Hrun|]. apply (hr_list _ _ Hr'). rewrite Hs. reflexivity.
Defined.

(** The list 1, 2. *)
Definition pair_heap : gmap nat (hobj nat) :=
  <[0%nat := HHead (Ptr 1%nat)]> (<[1%nat := HNode (Ptr 2%nat) (Ptr 0%nat)]>
    (<[2%nat := HNode Null (Ptr 1%nat)]> {[3%nat := HNode Null Null]})).
Definition pair_store : hstore (A := nat) := HStore {[0%nat := [1; 2]%nat]} ∅ {[3%nat := true]}.

Lemma pair_rep : hrep pair_heap pair_store.
Proof.
  split; simpl.
  - intros hd l [<- <-]%lookup_singleton_Some. split; [reflexivity|]. split; [|by_decide]. simpl. done.
  - intros hd1 l1 hd2 l2 x [<- <-]%lookup_singleton_Some [<- <-]%lookup_singleton_Some. done.
  - intros x []%elem_of_empty.
  - intros x b [<- <-]%lookup_singleton_Some. done.
  - intros x b hd l [<- <-]%lookup_singleton_Some [<- <-]%lookup_singleton_Some. by_decide.
Qed.

Lemma hlist_add_behind_loses_witness : ∃ h1 h2,
  hlist_add_behind (Ptr 3%nat) (Ptr 1%nat) pair_heap = Ret (tt, h1) ∧ forward h1 0%nat [1; 3; 2]%nat ∧
  hlist_del (Ptr 2%nat) h1 = Ret (tt, h2) ∧ forward h2 0%nat [1]%nat.
Proof.
  destruct (hlist_add_behind_loses pair_heap pair_store 0%nat [] 1%nat 2%nat [] 3%nat pair_rep eq_refl)
    as (h1 & h2 & H1 & H2 & _ & H3 & H4).
  - by eexists.
  - exists h1, h2. exact (conj H1 (conj H2 (conj H3 H4))).
Defined.
