(* ===== verification/ListEntry.v ===== *)
(** The entry macros of [kernel/include/list.h] and [container_of] of
    [kernel/include/types.h].

    An entry is an object that embeds its list node at a fixed offset.  Entries
    and nodes are byte addresses here: [container_of] subtracts the offset,
    [&pos->member] adds it, both on 64-bit addresses.  The loops over entries
    are shown to be the loops over nodes of [ListHead], seen through
    [container_of]: they visit exactly the entries after, before or from the
    cursor, and a loop that was left can be continued where it stopped. *)
From stdpp Require Import base gmap list fin_maps.
From S2P Require Import Prelude ListHead ListTheory ListSpec HList.

(** * Addresses *)

(** A pointer is null when its address is 0. *)
Definition address_of (p : ptr Z) : Z := match p with Null => 0 | Raw z => z | Ptr a => a end.
Definition pointer_to (a : Z) : ptr Z := if a =? 0 then Null else Ptr a.

(** * The macros *)

Section macros.
  (** [offsetof(type, member)] *)
  Context (off : Z).
  Abbreviation L := (M (gmap Z (list_head Z))).

Definition container_of (p : ptr Z) : Z := address_of p -[64] off.
(** [&pos->member] *)
Definition member_of (pos : Z) : ptr Z := pointer_to (pos +[64] off).

Definition list_entry (p : ptr Z) : Z := container_of p.
Definition list_first_entry (p : ptr Z) : L Z := n ← rd_next p; mret (list_entry n).
Definition list_last_entry (p : ptr Z) : L Z := n ← rd_prev p; mret (list_entry n).
Definition list_next_entry (pos : Z) : L Z := n ← rd_next (member_of pos); mret (list_entry n).
Definition list_prev_entry (pos : Z) : L Z := n ← rd_prev (member_of pos); mret (list_entry n).

(** The loops return the last value of the cursor beside what the body
    returned: the cursor is the caller's variable. *)
Fixpoint entry_loop {S R} (step : Z → L Z) (fuel : nat) (pos : Z) (head : ptr Z)
    (body : Z → S → S + R) (a : S) : L (Z * (S + R)) :=
  match fuel with
  | O => out_of_fuel
  | S fuel =>
      if decide (member_of pos = head) then mret (pos, inl a)
      else match body pos a with
           | inr r => mret (pos, inr r)
           | inl a => n ← step pos; entry_loop step fuel n head body a
           end
  end.

Definition list_for_each_entry_continue {S R} (fuel : nat) (pos : Z) (head : ptr Z)
    (body : Z → S → S + R) (a : S) : L (Z * (S + R)) :=
  pos ← list_next_entry pos; entry_loop list_next_entry fuel pos head body a.
Definition list_for_each_entry_continue_reverse {S R} (fuel : nat) (pos : Z) (head : ptr Z)
    (body : Z → S → S + R) (a : S) : L (Z * (S + R)) :=
  pos ← list_prev_entry pos; entry_loop list_prev_entry fuel pos head body a.
Definition list_for_each_entry_from {S R} (fuel : nat) (pos : Z) (head : ptr Z)
    (body : Z → S → S + R) (a : S) : L (Z * (S + R)) :=
  entry_loop list_next_entry fuel pos head body a.

Definition list_prepare_entry (pos : Z) (head : ptr Z) : Z :=
  if pos =? 0 then list_entry head else pos.

(** ** Hash-bucket lists *)

Abbreviation HL := (M (gmap Z (hobj Z))).

Definition hlist_entry (p : ptr Z) : Z := container_of p.
(** [hlist_entry(pos->member.next, ...)] *)
Definition hlist_next_entry (pos : Z) : HL Z := n ← rd_hnext (member_of pos); mret (hlist_entry n).

(** The loop with its condition: [pos] for the [from] form, and
    [&pos->member != head], which compares a node with a head, for the other. *)
Fixpoint hlist_entry_loop {S R} (go : Z → bool) (fuel : nat) (pos : Z)
    (body : Z → S → S + R) (a : S) : HL (Z * (S + R)) :=
  match fuel with
  | O => out_of_fuel
  | S fuel =>
      if go pos
      then match body pos a with
           | inr r => mret (pos, inr r)
           | inl a => n ← hlist_next_entry pos; hlist_entry_loop go fuel n body a
           end
      else mret (pos, inl a)
  end.
Definition hlist_for_each_entry {S R} (fuel : nat) (head : ptr Z)
    (body : Z → S → S + R) (a : S) : HL (Z * (S + R)) :=
  f ← rd_first head;
  hlist_entry_loop (λ pos, bool_decide (member_of pos ≠ head)) fuel (hlist_entry f) body a.
Definition hlist_for_each_entry_from {S R} (fuel : nat) (pos : Z)
    (body : Z → S → S + R) (a : S) : HL (Z * (S + R)) :=
  hlist_entry_loop (λ pos, negb (pos =? 0)) fuel pos body a.
End macros.

(** * Contents seen as entries *)

Section entries.
  Context (off : Z).
  Implicit Types (s : astore (A := Z)) (l : list Z) (hd e : Z).

(** The entry that embeds the node [a]. *)
Definition entry_of (a : Z) : Z := container_of off (Ptr a).

(** Addresses of nodes are 64-bit and not null. *)
Definition node_addr (a : Z) : Prop := 0 < a < 2 ^ 64.

(** Going to the node and back is the identity, on 64-bit addresses. *)
Lemma member_of_entry a : node_addr a → member_of off (entry_of a) = Ptr a.
Proof.
  intros Ha. unfold node_addr in Ha. unfold member_of, entry_of, container_of, pointer_to. simpl.
  rewrite wrap_add_l, Z.sub_add, wrap_small by lia.
  by rewrite (proj2 (Z.eqb_neq _ _)) by lia.
Qed.

Lemma container_of_member pos : 0 ≤ pos < 2 ^ 64 → container_of off (member_of off pos) = pos.
Proof.
  intros Hpos. unfold container_of, member_of, pointer_to.
  assert (address_of (if pos +[64] off =? 0 then Null else Ptr (pos +[64] off)) = pos +[64] off) as ->.
  { destruct (Z.eqb_spec (pos +[64] off) 0) as [Hz|]; [by rewrite Hz|done]. }
  unfold Z.sub. rewrite wrap_add_l. rewrite wrap_small; lia.
Qed.

(** ** One step *)

Lemma reads_next_entry_of s hd l1 l2 : lists s !! hd = Some (l1 ++ l2) →
  node_addr (before hd l1) →
  reads_to (list_next_entry off (entry_of (before hd l1))) s (entry_of (after hd l2)).
Proof.
  intros Hl Ha. unfold list_next_entry. rewrite member_of_entry by done.
  eapply reads_bind; [by apply reads_next_split|apply reads_ret].
Qed.

Lemma reads_prev_entry_of s hd l1 l2 : lists s !! hd = Some (l1 ++ l2) →
  node_addr (after hd l2) →
  reads_to (list_prev_entry off (entry_of (after hd l2))) s (entry_of (before hd l1)).
Proof.
  intros Hl Ha. unfold list_prev_entry. rewrite member_of_entry by done.
  eapply reads_bind; [by apply reads_prev_split|apply reads_ret].
Qed.

(** Both ends of a cut of the circle are nodes of it. *)
Lemma circle_addrs hd l1 l2 : Forall node_addr (hd :: l1 ++ l2) →
  node_addr (before hd l1) ∧ node_addr (after hd l2).
Proof.
  rewrite Forall_cons, Forall_app. intros (Hd & H1 & H2). unfold before, after. split.
  - destruct (last l1) as [x|] eqn:Hx; [|done]. apply last_Some_elem_of in Hx.
    by apply (Forall_forall _ l1).
  - destruct l2; [done|]. by inversion H2.
Qed.

(** ** The loops *)

(** The cursor after a loop over [l]: the entry the body returned from, or
    [d] when the loop ran to its end. *)
Fixpoint cursor {B R} (body : Z → B → B + R) (l : list Z) (a : B) (d : Z) : Z :=
  match l with
  | [] => d
  | x :: l => match body x a with inr _ => x | inl a => cursor body l a d end
  end.

(** What a loop over the nodes [l] leaves: the cursor and the body's result. *)
Definition looped {B R} (body : Z → B → B + R) hd l (a : B) : Z * (B + R) :=
  (cursor body (entry_of <$> l) a (entry_of hd), visit body (entry_of <$> l) a).

Lemma reads_entry_loop {B R} (step : Z → M (gmap Z (list_head Z)) Z) (body : Z → B → B + R) s hd :
  node_addr hd → ∀ m fuel a,
  (∀ m1 e m2, m = m1 ++ e :: m2 → e ≠ hd ∧ node_addr e ∧
     reads_to (step (entry_of e)) s (entry_of (after hd m2))) →
  (length m < fuel)%nat →
  reads_to (entry_loop off step fuel (entry_of (after hd m)) (Ptr hd) body a) s (looped body hd m a).
Proof.
  intros Hhd. induction m as [|e m IH]; intros [|fuel] a Hm Hf; simpl in Hf; try lia; simpl.
  - change (after hd []) with hd. rewrite member_of_entry, decide_True by done. apply reads_ret.
  - change (after hd (e :: m)) with e. destruct (Hm [] e m eq_refl) as (Hne & Ha & Hstep).
    rewrite member_of_entry, decide_False by (done || congruence). unfold looped. simpl.
    destruct (body (entry_of e) a) as [a'|r]; [|apply reads_ret].
    eapply reads_bind; [exact Hstep|]. apply IH; [|lia].
    intros m1 e' m2 ->. by apply (Hm (e :: m1)).
Qed.

Section circle.
  Context (s : astore (A := Z)) (hd : Z) (l1 l2 : list Z).
  Context (Hl : lists s !! hd = Some (l1 ++ l2)) (Haddr : Forall node_addr (hd :: l1 ++ l2)).

(** [list_for_each_entry_from] visits the entries from the cursor on. *)
Lemma reads_entry_from {B R} (body : Z → B → B + R) fuel a : (length l2 < fuel)%nat →
  reads_to (list_for_each_entry_from off fuel (entry_of (after hd l2)) (Ptr hd) body a) s
    (looped body hd l2 a).
Proof.
  intros Hf. apply reads_rep. intros h Hr. apply reads_entry_loop; [by inversion Haddr| |done].
  intros m1 e m2 ->. split_and!.
  - pose proof Hl as Hl'. rewrite app_assoc in Hl'. pose proof (entry_ne_head _ _ _ _ _ _ Hr Hl').
    congruence.
  - apply (Forall_forall _ _) with (x := e) in Haddr; [done|]. set_solver.
  - pose proof Hl as Hl'. rewrite cons_middle, !app_assoc in Hl'.
    rewrite <-(before_snoc hd (l1 ++ m1) e). apply reads_next_entry_of; [done|].
    rewrite before_snoc. apply (Forall_forall _ _) with (x := e) in Haddr; [done|]. set_solver.
Qed.

(** [list_for_each_entry_continue] visits the entries after the cursor, which
    is an entry or stands for the head. *)
Lemma reads_entry_continue {B R} (body : Z → B → B + R) fuel a : (length l2 < fuel)%nat →
  reads_to (list_for_each_entry_continue off fuel (entry_of (before hd l1)) (Ptr hd) body a) s
    (looped body hd l2 a).
Proof.
  intros Hf. eapply reads_bind; [|by apply reads_entry_from].
  apply reads_next_entry_of; [done|]. by apply (circle_addrs hd l1 l2).
Qed.

(** [list_for_each_entry_continue_reverse] visits the entries before it, from
    the nearest to the first. *)
Lemma reads_entry_continue_reverse {B R} (body : Z → B → B + R) fuel a : (length l1 < fuel)%nat →
  reads_to (list_for_each_entry_continue_reverse off fuel (entry_of (after hd l2)) (Ptr hd) body a) s
    (looped body hd (reverse l1) a).
Proof.
  intros Hf. apply reads_rep. intros h Hr.
  eapply reads_bind; [apply reads_prev_entry_of; [done|by apply (circle_addrs hd l1 l2)]|].
  rewrite <-after_reverse. apply reads_entry_loop; [by inversion Haddr| |by rewrite length_reverse].
  intros m1 e m2 Heq. assert (l1 = reverse m2 ++ e :: reverse m1) as ->.
  { by rewrite <-(reverse_involutive l1), Heq, reverse_app, reverse_cons, <-app_assoc. }
  rewrite <-app_assoc in Hl. simpl in Hl.
  assert (node_addr e) as He.
  { apply (Forall_forall _ _) with (x := e) in Haddr; [done|]. set_solver. }
  split_and!; [|done|].
  - pose proof (entry_ne_head _ _ _ _ _ _ Hr Hl). congruence.
  - rewrite <-(reverse_involutive m2), after_reverse.
    by apply (reads_prev_entry_of s hd _ (e :: reverse m1 ++ l2)).
Qed.
End circle.

(** ** Hash-bucket loops *)

Lemma hnext_entry_run h x n : kind h x = Some false → word h x = Some n → node_addr x →
  hlist_next_entry off (entry_of x) h = Ret (hlist_entry off n, h).
Proof.
  intros Hk Hw Ha. unfold hlist_next_entry. rewrite member_of_entry by done.
  change (hlist_entry off n) with (container_of off n).
  unfold rd_hnext, address, member, get_some, mbind, M_bind. rewrite decide_True by done. by rewrite Hw.
Qed.

(** What the entry loops over a hash-bucket list do when their test does not
    stop them at its end: the body also gets the entry of the null pointer, and
    reading that entry's node faults. *)
Definition overrun {B R} (body : Z → B → B + R) l (a : B) (h : gmap Z (hobj Z)) :
    outcome ((Z * (B + R)) * gmap Z (hobj Z)) :=
  let null := container_of off Null in
  match visit body (entry_of <$> l) a with
  | inr r => Ret ((cursor body (entry_of <$> l) a null, inr r), h)
  | inl a => match body null a with inr r => Ret ((null, inr r), h) | inl _ => Fault end
  end.

Lemma null_entry_faults h : hlist_next_entry off (container_of off Null) h = Fault.
Proof.
  unfold hlist_next_entry, member_of, container_of. simpl (address_of Null).
  rewrite wrap_add_l, Z.sub_add. done.
Qed.

Lemma hlist_entry_loop_overruns {B R} (go : Z → bool) (body : Z → B → B + R) h :
  go (container_of off Null) = true → ∀ l a fuel b,
  hseg h a l → Forall (λ x, node_addr x ∧ go (entry_of x) = true) l → (S (length l) < fuel)%nat →
  hlist_entry_loop off go fuel (container_of off (hfirst l)) body b h = overrun body l b h.
Proof.
  intros Hgo. induction l as [|x l IH]; intros a [|fuel] b Hs Hx Hf; simpl in Hf; try lia;
    unfold overrun; simpl.
  - rewrite Hgo. destruct (body _ b); [|done]. unfold mbind, M_bind. by rewrite null_entry_faults.
  - apply Forall_cons in Hx as [[Ha Hx] Hl]. destruct Hs as (_ & Hp & Hs).
    change (container_of off (Ptr x)) with (entry_of x). rewrite Hx.
    destruct (body (entry_of x) b) as [b'|r]; [|done].
    erewrite bind_Ret; [|apply hnext_entry_run; [by eapply ppr_kind|by apply hseg_word|done]].
    apply (IH x); [done..|lia].
Qed.
End entries.

(** * Properties *)

(** The entry loops visit exactly the entries they are meant to.  With the
    cursor at the entry of any node of the circle ([before hd l1] is the last
    node of [l1], or the head when [l1] is empty; [after hd l2] the first of
    [l2], or the head), [continue] visits the entries after it, [from] the entry
    itself and those after it, [continue_reverse] the entries before it from the
    nearest on.  One round more than there are entries is enough, the heap
    is not written, and a loop that runs to its end leaves the cursor at the
    entry of the head. *)
Theorem entry_loops_visit {B R} (off : Z) (body : Z → B → B + R) h s hd l1 l2 fuel a :
  rep h s → lists s !! hd = Some (l1 ++ l2) → Forall node_addr (hd :: l1 ++ l2) →
  (length (l1 ++ l2) < fuel)%nat →
  list_for_each_entry_continue off fuel (entry_of off (before hd l1)) (Ptr hd) body a h =
    Ret (looped off body hd l2 a, h) ∧
  list_for_each_entry_from off fuel (entry_of off (after hd l2)) (Ptr hd) body a h =
    Ret (looped off body hd l2 a, h) ∧
  list_for_each_entry_continue_reverse off fuel (entry_of off (after hd l2)) (Ptr hd) body a h =
    Ret (looped off body hd (reverse l1) a, h).
Proof.
  intros Hr Hl Ha Hf. rewrite length_app in Hf. split_and!.
  - apply (reads_entry_continue off s hd l1 l2); [done..|lia|done].
  - apply (reads_entry_from off s hd l1 l2); [done..|lia|done].
  - apply (reads_entry_continue_reverse off s hd l1 l2); [done..|lia|done].
Qed.

(** [list_prepare_entry] lets [continue] start: with a null cursor the loop
    visits the whole list.  A body that returns leaves the cursor at the entry
    it returned from, and the loop continued from there visits the entries
    after that one: a loop and its continuation visit every entry once. *)
Theorem entry_loop_resumes {B R} (off : Z) (body : Z → B → B + R) h s hd l fuel a r :
  rep h s → lists s !! hd = Some l → Forall node_addr (hd :: l) → (length l < fuel)%nat →
  visit body (entry_of off <$> l) a = inr r →
  ∃ l1 e l2, l = l1 ++ e :: l2 ∧
    list_for_each_entry_continue off fuel (list_prepare_entry off 0 (Ptr hd)) (Ptr hd) body a h =
      Ret ((entry_of off e, inr r), h) ∧
    (∀ B' R' (body' : Z → B' → B' + R') a',
       list_for_each_entry_continue off fuel (entry_of off e) (Ptr hd) body' a' h =
         Ret (looped off body' hd l2 a', h)).
Proof.
  intros Hr Hl Ha Hf Hv.
  assert (∃ l1 e l2, l = l1 ++ e :: l2 ∧
    cursor body (entry_of off <$> l) a (entry_of off hd) = entry_of off e) as (l1 & e & l2 & -> & Hc).
  { clear -Hv. revert a Hv. induction l as [|x l IH]; intros a Hv; [done|]. simpl in Hv |- *.
    destruct (body (entry_of off x) a) as [a'|r']; [|by exists [], x, l].
    destruct (IH a' Hv) as (l1 & e & l2 & -> & Hc). by exists (x :: l1), e, l2. }
  exists l1, e, l2. split_and!; [done| |].
  - change (list_prepare_entry off 0 (Ptr hd)) with (entry_of off (before hd [])).
    rewrite (reads_entry_continue off s hd [] _ Hl Ha body fuel a Hf h Hr).
    unfold looped. by rewrite Hc, Hv.
  - intros B' R' body' a'. rewrite cons_middle, app_assoc in Hl, Ha. rewrite length_app in Hf.
    rewrite <-(before_snoc hd l1 e).
    apply (reads_entry_continue off s hd (l1 ++ [e]) l2); [done..|simpl in Hf; lia|done].
Qed.

(** The entry loops over hash-bucket lists do not stop at the end of the
    list.  [hlist_for_each_entry] compares the address of a node with that of
    the head, which is no node's, and [hlist_for_each_entry_from] tests the
    entry of the null pointer, which is not null unless the node is the first
    member.  Unless it returns from the loop, the body is also called with that
    entry, and reading its node is an access to memory that is not there. *)
Theorem hlist_entry_loops_overrun {B R} (off : Z) (body : Z → B → B + R) h s hd l fuel a :
  hrep h s → hlists s !! hd = Some l → Forall node_addr l → (S (length l) < fuel)%nat →
  hlist_for_each_entry off fuel (Ptr hd) body a h = overrun off body l a h ∧
  (0 < off < 2 ^ 64 → Forall (λ x, x ≠ off) l →
   hlist_for_each_entry_from off fuel (hlist_entry off (hfirst l)) body a h = overrun off body l a h).
Proof.
  intros Hr Hl Ha Hf. destruct (hr_list _ _ Hr _ _ Hl) as (Hk & Hs & _). split.
  - unfold hlist_for_each_entry. erewrite bind_Ret.
    2: { unfold rd_first, address, HList.member, get_some, mbind, M_bind. simpl.
         rewrite decide_True by done. by rewrite (hseg_word _ _ _ Hs). }
    eapply hlist_entry_loop_overruns; [|done| |done].
    + apply bool_decide_eq_true. unfold member_of, container_of. simpl (address_of Null).
      by rewrite wrap_add_l, Z.sub_add.
    + apply Forall_forall. intros x Hx. rewrite Forall_forall in Ha. split; [by apply Ha|].
      apply bool_decide_eq_true. rewrite member_of_entry by by apply Ha. intros [= ->].
      by rewrite (hseg_kind _ _ _ _ Hs Hx) in Hk.
  - intros Hoff Hne. eapply hlist_entry_loop_overruns; [|done| |done].
    + unfold container_of. simpl. apply negb_true_iff, Z.eqb_neq.
      unfold wrap. rewrite <-(Z.mod_add _ 1) by lia. rewrite Z.mod_small; lia.
    + apply Forall_forall. intros x Hx. rewrite Forall_forall in Ha, Hne.
      specialize (Ha x Hx) as Hxa. split; [done|]. apply negb_true_iff, Z.eqb_neq. intros Hz.
      apply (Hne x Hx). unfold entry_of, container_of, wrap in Hz. simpl in Hz. unfold node_addr in Hxa.
      destruct (Z.mod_divide (x - off) (2 ^ 64)) as [[k Hk'] _]; [lia|done|]. lia.
Qed.

(** * Witnesses: two objects with their node at offset 16, on one list *)

Definition objects : gmap Z (list_head Z) :=
  list_to_map ((λ i, (i, ListNode Null Null)) <$> [4096; 8208; 12304]).
Definition link_calls : list (list_call (A := Z)) :=
  [CInit 4096; CAddTail 8208 4096; CAddTail 12304 4096].
Definition linked : gmap Z (list_head Z) :=
  match run_calls link_calls objects with Ret (_, h) => h | _ => ∅ end.
Definition linked_contents : astore (A := Z) := AStore {[4096 := [8208; 12304]]} ∅.

Lemma linked_rep : rep linked linked_contents.
Proof.
  assert (calls_star (AStore ∅ {[4096; 8208; 12304]}) link_calls linked_contents) as Hc.
  { econstructor; [apply call_init; by_decide|simpl].
    econstructor; [apply (call_add_tail _ 4096 []); [done|by_decide]|simpl].
    econstructor; [apply (call_add_tail _ 4096 [8208]); [done|by_decide]|simpl].
    replace (AStore _ _) with linked_contents; [constructor|]. unfold linked_contents. f_equal; by_decide. }
  destruct (calls_star_run _ _ _ objects Hc) as (h' & Hrun & Hr).
  - apply (rep_shrink _ (AStore ∅ (dom objects))); [apply rep_fresh|by_decide].
  - unfold linked. by rewrite Hrun.
Qed.

Lemma linked_addrs : Forall node_addr [4096; 8208; 12304].
Proof. unfold node_addr. repeat constructor; lia. Qed.

(** The entries are at 8192 and 12288; the entry of the head would be at 4080. *)
Lemma entry_loops_visit_witness :
  list_for_each_entry_continue 16 3 8192 (Ptr 4096) (λ e l, inl (B := unit) (e :: l)) [] linked =
    Ret ((4080, inl [12288]), linked) ∧
  list_for_each_entry_from 16 3 12288 (Ptr 4096) (λ e l, inl (B := unit) (e :: l)) [] linked =
    Ret ((4080, inl [12288]), linked) ∧
  list_for_each_entry_continue_reverse 16 3 12288 (Ptr 4096) (λ e l, inl (B := unit) (e :: l)) [] linked =
    Ret ((4080, inl [8192]), linked).
Proof.
  apply (entry_loops_visit 16 (λ e l, inl (B := unit) (e :: l)) linked linked_contents 4096 [8208] [12304] 3 []
    linked_rep eq_refl linked_addrs). simpl. lia.
Defined.

(** Looking for an entry beyond 8192 and going on behind it. *)
Lemma entry_loop_resumes_witness : ∃ l1 e l2, [8208; 12304] = l1 ++ e :: l2 ∧
  list_for_each_entry_continue 16 3 (list_prepare_entry 16 0 (Ptr 4096)) (Ptr 4096)
    (λ e (_ : unit), if 8192 <? e then inr e else inl tt) tt linked = Ret ((entry_of 16 e, inr 12288), linked).
Proof.
  destruct (entry_loop_resumes 16 (λ e (_ : unit), if 8192 <? e then inr e else inl tt) linked
    linked_contents 4096 [8208; 12304] 3 tt 12288 linked_rep eq_refl linked_addrs)
    as (l1 & e & l2 & Hl & Hrun & _); [simpl; lia|reflexivity|].
  by exists l1, e, l2.
Defined.

(** A bucket with one object: the body is called for 8192 and then for the
    entry of the null pointer, 2^64 - 16. *)
Definition one_bucket : gmap Z (hobj Z) :=
  <[4096 := HHead (Ptr 8208)]> {[8208 := HNode Null (Ptr 4096)]}.

Lemma hlist_entry_loops_overrun_witness :
  hlist_for_each_entry 16 3 (Ptr 4096) (λ e l, inl (B := unit) (e :: l)) [] one_bucket = Fault ∧
  hlist_for_each_entry_from 16 3 8192
    (λ e l, if e =? 2 ^ 64 - 16 then inr (e :: l) else inl (e :: l)) [] one_bucket =
    Ret ((2 ^ 64 - 16, inr [2 ^ 64 - 16; 8192]), one_bucket).
Proof.
  assert (hrep one_bucket (HStore {[4096 := [8208]]} ∅ ∅)) as Hr.
  { split; simpl.
    - intros hd l [<- <-]%lookup_singleton_Some. split; [reflexivity|]. split; [|by_decide]. simpl. done.
    - intros hd1 l1 hd2 l2 x [<- <-]%lookup_singleton_Some [<- <-]%lookup_singleton_Some. done.
    - intros x []%elem_of_empty.
    - done.
    - done. }
  assert (Forall node_addr [8208]) as Ha by (unfold node_addr; repeat constructor; lia).
  split.
  - refine (proj1 (hlist_entry_loops_overrun 16 (λ e l, inl (B := unit) (e :: l)) one_bucket _ 4096
      [8208] 3 [] Hr eq_refl Ha _)). simpl. lia.
  - refine (proj2 (hlist_entry_loops_overrun 16 (λ e l, if e =? 2 ^ 64 - 16 then inr (e :: l) else inl (e :: l))
      one_bucket _ 4096 [8208] 3 [] Hr eq_refl Ha _) _ _); [simpl; lia|lia|].
    repeat constructor. lia.
Defined.
