(* ===== verification/Spinlock.v ===== *)
(** Spinlocks: the first half of [kernel/include/spinlock.h].

    Section [code] holds the lock operations as one CPU runs them when nobody
    else touches the lock.  Section [machine] splits the same operations at
    their memory accesses and interleaves any number of CPUs (sequential
    consistency), so that a CPU is described by a program counter and every
    step is one access to the shared lock. *)
From stdpp Require Import base list strings.
From S2P Require Import Prelude.

(** * The lock *)

Record spinlock_t := SpinLock {
  lock : Z;         (* u32 *)
  owner_cpu : Z;    (* u32 *)
  owner : Z;        (* return address of the locker, 0 for NULL *)
  name : string;
  magic : Z         (* u32 *)
}.

Definition SPINLOCK_MAGIC : Z := 0xDEADBEEF.
Definition SPINLOCK_UNLOCKED : Z := 0.
Definition SPINLOCK_LOCKED : Z := 1.
Definition NO_CPU : Z := 0xFFFFFFFF.

Definition SPINLOCK_INIT (nm : string) : spinlock_t :=
  SpinLock SPINLOCK_UNLOCKED NO_CPU 0 nm SPINLOCK_MAGIC.

Definition with_lock (v : Z) (l : spinlock_t) : spinlock_t :=
  SpinLock v (owner_cpu l) (owner l) (name l) (magic l).
Definition with_owner_cpu (v : Z) (l : spinlock_t) : spinlock_t :=
  SpinLock (lock l) v (owner l) (name l) (magic l).
Definition with_owner (v : Z) (l : spinlock_t) : spinlock_t :=
  SpinLock (lock l) (owner_cpu l) v (name l) (magic l).

(** * The operations of one CPU *)

Section code.
  (** [smp_processor_id()] and [__builtin_return_address(0)] of the caller. *)
  Context (cpu ra : Z).

Definition spin_lock_init : M spinlock_t unit :=
  put (SpinLock SPINLOCK_UNLOCKED NO_CPU 0 "unknown" SPINLOCK_MAGIC).

Definition check_magic : M spinlock_t unit :=
  m ← gets magic;
  if m =? SPINLOCK_MAGIC then mret tt else panic_with "Bad spinlock magic".

Definition check_not_recursive : M spinlock_t unit :=
  o ← gets owner_cpu;
  if o =? cpu then panic_with "Recursive spinlock" else mret tt.

(** [__sync_bool_compare_and_swap(&lock->lock, old, new)] *)
Definition lock_cas (old new : Z) : M spinlock_t bool :=
  v ← gets lock;
  if v =? old then modify (with_lock new);; mret true else mret false.

(** The acquire loop; [fuel] bounds the number of reads of the lock word. *)
Fixpoint spin_loop (fuel : nat) : M spinlock_t unit :=
  match fuel with
  | O => out_of_fuel
  | S fuel =>
      ok ← lock_cas SPINLOCK_UNLOCKED SPINLOCK_LOCKED;
      if (ok : bool) then modify (with_owner_cpu cpu);; modify (with_owner ra)
      else spin_loop fuel
  end.

Definition spin_lock (fuel : nat) : M spinlock_t unit :=
  check_magic;; check_not_recursive;; spin_loop fuel.

Definition spin_trylock : M spinlock_t Z :=
  check_magic;;
  check_not_recursive;;
  ok ← lock_cas SPINLOCK_UNLOCKED SPINLOCK_LOCKED;
  if (ok : bool) then
    modify (with_owner_cpu cpu);; modify (with_owner ra);; mret 1
  else mret 0.

Definition spin_unlock : M spinlock_t unit :=
  check_magic;;
  o ← gets owner_cpu;
  (if o =? cpu then mret tt
   else panic_with "Spinlock not owned by current CPU");;
  modify (with_owner_cpu NO_CPU);;
  modify (with_owner 0);;
  modify (with_lock SPINLOCK_UNLOCKED).

Definition spin_is_locked : M spinlock_t bool :=
  v ← gets lock; mret (v =? SPINLOCK_LOCKED).

Definition spin_assert_locked : M spinlock_t unit :=
  b ← spin_is_locked;
  if (b : bool) then mret tt else panic_with "Spinlock assertion failed".

(** The variants that also mask interrupts or bottom halves run on the lock
    and the CPU's interrupt-enable flag; [local_irq_save] returns the flag. *)
Definition on_lock {A} (m : M spinlock_t A) : M (spinlock_t * bool) A :=
  zoom fst (λ l s, (l, snd s)) m.
Definition local_irq_save : M (spinlock_t * bool) bool :=
  b ← gets snd; modify (λ s, (fst s, false));; mret b.
Definition local_irq_restore (flags : bool) : M (spinlock_t * bool) unit :=
  modify (λ s, (fst s, flags)).
Definition spin_lock_irqsave (fuel : nat) : M (spinlock_t * bool) bool :=
  flags ← local_irq_save; on_lock (spin_lock fuel);; mret flags.
Definition spin_unlock_irqrestore (flags : bool) : M (spinlock_t * bool) unit :=
  on_lock spin_unlock;; local_irq_restore flags.
Definition spin_lock_irq (fuel : nat) : M (spinlock_t * bool) unit :=
  modify (λ s, (fst s, false));; on_lock (spin_lock fuel).
Definition spin_unlock_irq : M (spinlock_t * bool) unit :=
  on_lock spin_unlock;; modify (λ s, (fst s, true)).

(** [local_bh_disable] and [local_bh_enable] are only declared: [B] is what
    they count in. *)
Definition spin_lock_bh {B} (local_bh_disable : B → B) (fuel : nat) : M (spinlock_t * B) unit :=
  modify (λ s, (fst s, local_bh_disable (snd s)));; zoom fst (λ l s, (l, snd s)) (spin_lock fuel).
Definition spin_unlock_bh {B} (local_bh_enable : B → B) : M (spinlock_t * B) unit :=
  zoom fst (λ l s, (l, snd s)) spin_unlock;; modify (λ s, (fst s, local_bh_enable (snd s))).

End code.

(** * Interleaved CPUs *)

(** Where a CPU is.  [try] tells [spin_trylock] from [spin_lock]. *)
Inductive pc :=
  | Idle
  | AMagic (try : bool) | AOwner (try : bool) | ACas (try : bool)
  | ASpin                          (* inner [while (lock == LOCKED)] *)
  | ASetCpu | ASetOwner
  | Held
  | UMagic | UOwner | UClrCpu | UClrOwner | URelease
  | Panicked.

#[export] Instance pc_eq_dec : EqDecision pc.
Proof. solve_decision. Defined.

(** One memory access of CPU [cpu] at [p]; [None] where the next move is the
    client's. *)
Definition run_pc (cpu ra : Z) (l : spinlock_t) (p : pc) : option (spinlock_t * pc) :=
  match p with
  | Idle | Held | Panicked => None
  | AMagic t => Some (l, if magic l =? SPINLOCK_MAGIC then AOwner t else Panicked)
  | AOwner t => Some (l, if owner_cpu l =? cpu then Panicked else ACas t)
  | ACas t =>
      Some (if lock l =? SPINLOCK_UNLOCKED then (with_lock SPINLOCK_LOCKED l, ASetCpu)
            else (l, if t then Idle else ASpin))
  | ASpin => Some (l, if lock l =? SPINLOCK_LOCKED then ASpin else ACas false)
  | ASetCpu => Some (with_owner_cpu cpu l, ASetOwner)
  | ASetOwner => Some (with_owner ra l, Held)
  | UMagic => Some (l, if magic l =? SPINLOCK_MAGIC then UOwner else Panicked)
  | UOwner => Some (l, if owner_cpu l =? cpu then UClrCpu else Panicked)
  | UClrCpu => Some (with_owner_cpu NO_CPU l, UClrOwner)
  | UClrOwner => Some (with_owner 0 l, URelease)
  | URelease => Some (with_lock SPINLOCK_UNLOCKED l, Idle)
  end.

Definition config : Type := spinlock_t * list pc.

(** CPU [i] has id [i]; clients call an acquire when idle and release what
    they hold. *)
Inductive step : config → config → Prop :=
  | step_call l ps i t :
      ps !! i = Some Idle → step (l, ps) (l, <[i := AMagic t]> ps)
  | step_release l ps i :
      ps !! i = Some Held → step (l, ps) (l, <[i := UMagic]> ps)
  | step_run l ps i p ra l' p' :
      ps !! i = Some p → run_pc (Z.of_nat i) ra l p = Some (l', p') →
      step (l, ps) (l', <[i := p']> ps).

Inductive steps : config → config → Prop :=
  | steps_refl c : steps c c
  | steps_cons c1 c2 c3 : step c1 c2 → steps c2 c3 → steps c1 c3.

Definition start (nm : string) (n : nat) : config := (SPINLOCK_INIT nm, replicate n Idle).

(** Between the successful compare-and-swap and the releasing store. *)
Definition owning (p : pc) : bool :=
  match p with
  | ASetCpu | ASetOwner | Held | UMagic | UOwner | UClrCpu | UClrOwner | URelease => true
  | _ => false
  end.

(** Where the lock names its owner. *)
Definition named (p : pc) : bool :=
  match p with ASetOwner | Held | UMagic | UOwner | UClrCpu => true | _ => false end.

(** * Invariant *)

Definition owned_by (o : option nat) (l : spinlock_t) (ps : list pc) : Prop :=
  match o with
  | None =>
      lock l = SPINLOCK_UNLOCKED ∧ owner_cpu l = NO_CPU ∧
      ∀ i p, ps !! i = Some p → owning p = false
  | Some k =>
      lock l = SPINLOCK_LOCKED ∧
      ∃ p, ps !! k = Some p ∧ owning p = true ∧
           owner_cpu l = (if named p then Z.of_nat k else NO_CPU) ∧
           ∀ i p', ps !! i = Some p' → owning p' = true → i = k
  end.

Definition inv (c : config) : Prop :=
  let (l, ps) := c in
  magic l = SPINLOCK_MAGIC ∧ Z.of_nat (length ps) ≤ NO_CPU ∧
  (∀ i, ps !! i ≠ Some Panicked) ∧ ∃ o, owned_by o l ps.

Lemma insert_pc (ps : list pc) i j p p' q :
  ps !! i = Some p → <[i := p']> ps !! j = Some q → (i = j ∧ q = p') ∨ (i ≠ j ∧ ps !! j = Some q).
Proof. rewrite list_lookup_insert_Some. naive_solver. Qed.

Lemma lookup_pc (ps : list pc) i p p' : ps !! i = Some p → <[i := p']> ps !! i = Some p'.
Proof. intros. apply list_lookup_insert_eq. by eapply lookup_lt_Some. Qed.

Lemma not_panicked_insert (ps : list pc) i p' :
  (∀ j, ps !! j ≠ Some Panicked) → p' ≠ Panicked → ∀ j, <[i := p']> ps !! j ≠ Some Panicked.
Proof. intros Hp Hne j [[? ?]|[? ?]]%list_lookup_insert_Some; naive_solver. Qed.

(** A move that keeps [owning] and [named] keeps the ownership. *)
Lemma owned_move o l l' ps i p p' :
  ps !! i = Some p → owned_by o l ps →
  lock l' = lock l → owner_cpu l' = owner_cpu l →
  owning p' = owning p → named p' = named p → owned_by o l' (<[i := p']> ps).
Proof.
  intros Hi Ho Hl Hc How Hna. destruct o as [k|]; simpl in *; rewrite Hl, Hc.
  - destruct Ho as (Hk & q & Hq & Hqo & Hqc & Huniq). split; [done|].
    destruct (decide (i = k)) as [->|Hne].
    + simplify_eq. exists p'. rewrite How, Hna. split_and!; [by eapply lookup_pc|done..|].
      intros j q' [[-> ->]|[? ?]]%(insert_pc _ _ _ _ _ _ Hi); eauto.
    + exists q. rewrite list_lookup_insert_ne by done. split_and!; [done..|].
      intros j q' [[-> ->]|[? ?]]%(insert_pc _ _ _ _ _ _ Hi); eauto using eq_trans.
  - destruct Ho as (? & ? & Hno). split_and!; [done..|].
    intros j q' [[-> ->]|[? ?]]%(insert_pc _ _ _ _ _ _ Hi); eauto using eq_trans.
Qed.

(** The owner's own moves that change [owning] or [named]. *)
Lemma owned_take l ps i p :
  ps !! i = Some p → owned_by None l ps →
  owned_by (Some i) (with_lock SPINLOCK_LOCKED l) (<[i := ASetCpu]> ps).
Proof.
  intros Hi (Hl & Hc & Hno). simpl. split; [done|]. exists ASetCpu.
  split_and!; [by eapply lookup_pc|done..|].
  intros j q [[-> ->]|[? Hj]]%(insert_pc _ _ _ _ _ _ Hi) Hq; [done|].
  by rewrite (Hno _ _ Hj) in Hq.
Qed.

Lemma owner_is o l ps i p :
  ps !! i = Some p → owning p = true → owned_by o l ps → o = Some i.
Proof.
  intros Hi Hp Ho. destruct o as [k|]; simpl in Ho.
  - destruct Ho as (_ & q & _ & _ & _ & Huniq). by rewrite (Huniq i p).
  - destruct Ho as (_ & _ & Hno). by rewrite (Hno i p) in Hp.
Qed.

Lemma owned_rename o l ps i p p' c :
  ps !! i = Some p → owning p = true → owned_by o l ps → owning p' = true →
  c = (if named p' then Z.of_nat i else NO_CPU) →
  owned_by (Some i) (with_owner_cpu c l) (<[i := p']> ps).
Proof.
  intros Hi Hp Ho Hp' ->. rewrite (owner_is _ _ _ _ _ Hi Hp Ho) in Ho.
  destruct Ho as (Hl & q & Hq & _ & _ & Huniq). split; [done|]. exists p'.
  split_and!; [by eapply lookup_pc|done..|].
  intros j q' [[-> ->]|[? Hj]]%(insert_pc _ _ _ _ _ _ Hi) Hq'; eauto.
Qed.

Lemma owned_release o l ps i :
  ps !! i = Some URelease → owned_by o l ps →
  owned_by None (with_lock SPINLOCK_UNLOCKED l) (<[i := Idle]> ps).
Proof.
  intros Hi Ho. rewrite (owner_is _ _ _ _ _ Hi eq_refl Ho) in Ho.
  destruct Ho as (Hl & q & Hq & _ & Hc & Huniq). simplify_eq. simpl in *.
  split_and!; [done..|].
  intros j q' [[-> ->]|[? Hj]]%(insert_pc _ _ _ _ _ _ Hi); [done|].
  destruct (owning q') eqn:Hq'; [|done]. by rewrite (Huniq _ _ Hj Hq') in *.
Qed.

(** A CPU that owns nothing is not the named owner; one that is past the
    naming store is. *)
Lemma owner_cpu_other o l ps i p :
  ps !! i = Some p → owning p = false → Z.of_nat (length ps) ≤ NO_CPU →
  owned_by o l ps → owner_cpu l ≠ Z.of_nat i.
Proof.
  intros Hi Hp Hlen Ho. pose proof (lookup_lt_Some _ _ _ Hi). destruct o as [k|]; simpl in Ho.
  - destruct Ho as (_ & q & Hq & Hqo & -> & _). destruct (named q); [|lia].
    intros ->%Nat2Z.inj. congruence.
  - destruct Ho as (_ & -> & _). lia.
Qed.

Lemma owner_cpu_self o l ps i p :
  ps !! i = Some p → owning p = true → named p = true →
  owned_by o l ps → owner_cpu l = Z.of_nat i.
Proof.
  intros Hi Hp Hn Ho. rewrite (owner_is _ _ _ _ _ Hi Hp Ho) in Ho.
  destruct Ho as (_ & q & Hq & _ & Hc & _). simplify_eq. by rewrite Hn in Hc.
Qed.

Lemma run_pc_owned o l ps i p ra l' p' :
  magic l = SPINLOCK_MAGIC → Z.of_nat (length ps) ≤ NO_CPU →
  ps !! i = Some p → owned_by o l ps → run_pc (Z.of_nat i) ra l p = Some (l', p') →
  magic l' = SPINLOCK_MAGIC ∧ p' ≠ Panicked ∧ ∃ o', owned_by o' l' (<[i := p']> ps).
Proof.
  intros Hm Hlen Hi Ho Hrun. destruct p; simplify_eq/=; try rewrite Hm; simpl.
  - split_and!; [done..|]. exists o. by eapply owned_move.
  - pose proof (owner_cpu_other _ _ _ _ _ Hi eq_refl Hlen Ho) as Hne.
    rewrite (proj2 (Z.eqb_neq _ _) Hne). split_and!; [done..|]. exists o. by eapply owned_move.
  - destruct (Z.eqb_spec (lock l) SPINLOCK_UNLOCKED) as [He|He]; simplify_eq.
    + split_and!; [done..|]. exists (Some i). destruct o as [k|]; [|by eapply owned_take].
      destruct Ho as [Hk _]. by rewrite Hk in He.
    + split_and!; [done|by destruct try|]. exists o. eapply owned_move; try done; by destruct try.
  - split_and!; [done|by destruct (_ =? _)|]. exists o.
    eapply owned_move; try done; by destruct (_ =? _).
  - split_and!; [done..|]. exists (Some i). by eapply owned_rename.
  - split_and!; [done..|]. exists o. by eapply owned_move.
  - split_and!; [done..|]. exists o. by eapply owned_move.
  - rewrite (owner_cpu_self _ _ _ _ _ Hi eq_refl eq_refl Ho), Z.eqb_refl.
    split_and!; [done..|]. exists o. by eapply owned_move.
  - split_and!; [done..|]. exists (Some i). by eapply owned_rename.
  - split_and!; [done..|]. exists o. by eapply owned_move.
  - split_and!; [done..|]. exists None. by eapply owned_release.
Qed.

Lemma step_inv c c' : step c c' → inv c → inv c'.
Proof.
  destruct 1 as [l ps i t Hi|l ps i Hi|l ps i p ra l' p' Hi Hrun];
    intros (Hm & Hlen & Hp & o & Ho); unfold inv; rewrite length_insert.
  - split_and!; [done..|by apply not_panicked_insert|]. exists o. by eapply owned_move.
  - split_and!; [done..|by apply not_panicked_insert|]. exists o. by eapply owned_move.
  - destruct (run_pc_owned _ _ _ _ _ _ _ _ Hm Hlen Hi Ho Hrun) as (? & ? & ?).
    split_and!; [done..|by apply not_panicked_insert|done].
Qed.

Lemma steps_inv c c' : steps c c' → inv c → inv c'.
Proof. induction 1; eauto using step_inv. Qed.

Lemma inv_start nm n : Z.of_nat n ≤ NO_CPU → inv (start nm n).
Proof.
  intros Hn. unfold inv, start. rewrite length_replicate.
  split_and!; [done..| |exists None].
  - intros i [??]%lookup_replicate. done.
  - simpl. split_and!; [done..|]. by intros i p [-> _]%lookup_replicate.
Qed.

Lemma steps_trans c1 c2 c3 : steps c1 c2 → steps c2 c3 → steps c1 c3.
Proof. induction 1; eauto using steps. Qed.

Lemma steps_length c c' : steps c c' → length (snd c') = length (snd c).
Proof.
  induction 1 as [c|c1 c2 c3 Hst _ IH]; [done|]. rewrite IH.
  destruct Hst; simpl; by rewrite length_insert.
Qed.

(** ** The lock as initialised *)

(** The return address of the last owner is gone once the lock is free, or
    about to be freed. *)
Definition clean (c : config) : Prop :=
  let (l, ps) := c in
  (lock l = SPINLOCK_UNLOCKED ∨ ∃ i, ps !! i = Some URelease) → owner l = 0.

Lemma clean_move l l' ps i p' :
  clean (l, ps) → (lock l' = SPINLOCK_UNLOCKED → lock l = SPINLOCK_UNLOCKED) → owner l' = owner l →
  p' ≠ URelease → clean (l', <[i := p']> ps).
Proof.
  intros Hc Hl Ho Hp [Hfree|[j Hj]]; rewrite Ho; apply Hc; [by left; apply Hl|right].
  apply list_lookup_insert_Some in Hj as [(_ & -> & _)|[_ Hj]]; [done|by exists j].
Qed.

(** The owner is alone between its compare-and-swap and its release, so only
    its own store changes [owner], and it clears it last. *)
Lemma clean_set_owner ra l ps i : inv (l, ps) → ps !! i = Some ASetOwner →
  clean (with_owner ra l, <[i := Held]> ps).
Proof.
  intros (_ & _ & _ & o & Ho) Hi. rewrite (owner_is _ _ _ _ _ Hi eq_refl Ho) in Ho.
  destruct Ho as (Hl & _ & _ & _ & _ & Huniq). intros [Hfree|[j Hj]]; [exfalso; simpl in Hfree; by rewrite Hl in Hfree|].
  apply list_lookup_insert_Some in Hj as [(_ & ? & _)|[Hne Hj]]; [done|]. by rewrite (Huniq j _ Hj) in Hne.
Qed.

Lemma run_pc_clean ra l ps i p l' p' : inv (l, ps) → clean (l, ps) → ps !! i = Some p →
  run_pc (Z.of_nat i) ra l p = Some (l', p') → clean (l', <[i := p']> ps).
Proof.
  intros Hinv Hc Hi Hrun. pose proof (λ l' p', clean_move l l' ps i p' Hc) as Hmove.
  destruct p; simplify_eq/=; try (apply Hmove; (done || by case_match)).
  - destruct (lock l =? SPINLOCK_UNLOCKED); simplify_eq; apply Hmove; (done || by case_match).
  - by apply clean_set_owner.
  - by intros _.
  - intros _. apply Hc. right. by exists i.
Qed.

Lemma steps_clean c c' : steps c c' → inv c → clean c → clean c'.
Proof.
  induction 1 as [|c1 c2 c3 Hs Hss IH]; intros Hinv Hc; [done|].
  apply IH; [by eapply step_inv|].
  destruct Hs; [by eapply clean_move|by eapply clean_move|by eapply run_pc_clean].
Qed.

(** No step renames the lock. *)
Lemma steps_name c c' : steps c c' → name (fst c') = name (fst c).
Proof.
  induction 1 as [|c1 c2 c3 Hs Hss IH]; [done|]. rewrite IH.
  destruct Hs as [| |l ps i p ra l' p' _ Hrun]; [done..|]. simpl.
  destruct p; simplify_eq/=; try done. by case_match; simplify_eq.
Qed.

(** A free lock that CPUs can reach is the initial one. *)
Lemma free_is_initial nm n l ps : Z.of_nat n ≤ NO_CPU → steps (start nm n) (l, ps) →
  owned_by None l ps → l = SPINLOCK_INIT nm.
Proof.
  intros Hn Hs (Hl & Hcpu & _). pose proof (inv_start nm n Hn) as Hinv.
  destruct (steps_inv _ _ Hs Hinv) as (Hm & _).
  pose proof (steps_name _ _ Hs) as Hname.
  assert (owner l = 0) as Ho by (apply (steps_clean _ _ Hs Hinv); [done|by left]).
  destruct l as [v c o na m]; simplify_eq/=. reflexivity.
Qed.

(** ** Running one CPU alone *)

Definition rank (p : pc) : nat :=
  match p with
  | Idle | Panicked => 0 | URelease => 1 | UClrOwner => 2 | UClrCpu => 3 | UOwner => 4
  | UMagic => 5 | Held => 6 | ASetOwner => 7 | ASetCpu => 8 | ACas _ => 9 | ASpin => 10
  | AOwner _ => 10 | AMagic _ => 11
  end.

Definition mine (i : nat) (o : option nat) : Prop := o = None ∨ o = Some i.

Lemma solo_step l ps i p o :
  inv (l, ps) → ps !! i = Some p → p ≠ Idle → owned_by o l ps → mine i o →
  ∃ l' p' o', step (l, ps) (l', <[i := p']> ps) ∧ (rank p' < rank p)%nat ∧
    owned_by o' l' (<[i := p']> ps) ∧ mine i o'.
Proof.
  intros (Hm & Hlen & Hp & _) Hi Hne Ho Hmine.
  destruct (decide (p = Held)) as [->|Hnh].
  { exists l, UMagic, o. split_and!; [by apply step_release|simpl; lia|by eapply owned_move|done]. }
  assert (∃ l' p', run_pc (Z.of_nat i) 0 l p = Some (l', p') ∧ (rank p' < rank p)%nat)
    as (l' & p' & Hrun & Hrank).
  { destruct p; simpl; try done; try (by do 2 eexists; split; [done|simpl; lia]).
    - rewrite Hm. do 2 eexists; split; [done|simpl; lia].
    - rewrite (proj2 (Z.eqb_neq _ _) (owner_cpu_other _ _ _ _ _ Hi eq_refl Hlen Ho)).
      do 2 eexists; split; [done|simpl; lia].
    - destruct (lock l =? SPINLOCK_UNLOCKED) eqn:He; [do 2 eexists; split; [done|simpl; lia]|].
      destruct Hmine as [->| ->]; [by destruct Ho as [Hl _]; rewrite Hl in He|].
      destruct Ho as (_ & q & Hq & Hqo & _). simplify_eq.
    - destruct (lock l =? SPINLOCK_LOCKED) eqn:He; [|do 2 eexists; split; [done|simpl; lia]].
      destruct Hmine as [->| ->]; [by destruct Ho as [Hl _]; rewrite Hl in He|].
      destruct Ho as (_ & q & Hq & Hqo & _). simplify_eq.
    - rewrite Hm. do 2 eexists; split; [done|simpl; lia].
    - rewrite (owner_cpu_self _ _ _ _ _ Hi eq_refl eq_refl Ho), Z.eqb_refl.
      do 2 eexists; split; [done|simpl; lia].
    - by destruct (Hp i). }
  destruct (run_pc_owned _ _ _ _ _ _ _ _ Hm Hlen Hi Ho Hrun) as (_ & _ & o' & Ho').
  exists l', p', o'. split_and!; [by eapply step_run|done..|].
  unfold mine. destruct o' as [k|]; [|by left]. right. f_equal.
  destruct Ho' as (_ & q & Hq & Hqo & _ & _). destruct (decide (i = k)) as [|Hik]; [done|].
  rewrite list_lookup_insert_ne in Hq by done.
  pose proof (owner_is _ _ _ _ _ Hq Hqo Ho) as ->. destruct Hmine; congruence.
Qed.

Lemma solo_idle l ps i p o :
  inv (l, ps) → ps !! i = Some p → owned_by o l ps → mine i o →
  ∃ l', steps (l, ps) (l', <[i := Idle]> ps) ∧ owned_by None l' (<[i := Idle]> ps).
Proof.
  remember (rank p) as r eqn:Hr. revert l ps p o Hr.
  induction (lt_wf r) as [r _ IH]; intros l ps p o -> Hinv Hi Ho Hmine.
  destruct (decide (p = Idle)) as [->|Hne].
  - rewrite list_insert_id by done. exists l. split; [constructor|].
    destruct Hmine as [->| ->]; [done|]. destruct Ho as (_ & q & ? & ? & _). simplify_eq.
  - destruct (solo_step _ _ _ _ _ Hinv Hi Hne Ho Hmine) as (l1 & p1 & o1 & Hs & Hrank & Ho1 & Hm1).
    destruct (IH _ Hrank l1 (<[i := p1]> ps) p1 o1) as (l' & Hsteps & Ho');
      [done|by eapply step_inv|by eapply lookup_pc|done..|].
    rewrite list_insert_insert_eq in Hsteps, Ho'. exists l'. eauto using steps.
Qed.

Lemma all_idle_from l ps k :
  inv (l, ps) → owned_by None l ps → (k ≤ length ps)%nat →
  ∃ l' ps', steps (l, ps) (l', ps') ∧ owned_by None l' ps' ∧ length ps' = length ps ∧
    ∀ j, (j < k)%nat → ps' !! j = Some Idle.
Proof.
  intros Hinv Ho. induction k as [|k IH]; intros Hk.
  - exists l, ps. split_and!; [constructor|done..|lia].
  - destruct IH as (l1 & ps1 & Hs1 & Ho1 & Hlen & Hidle); [lia|].
    destruct (lookup_lt_is_Some_2 ps1 k) as [p Hp]; [lia|].
    destruct (solo_idle l1 ps1 k p None) as (l2 & Hs2 & Ho2);
      [by eapply steps_inv|done|done|by left|].
    exists l2, (<[k := Idle]> ps1). split_and!; [by eapply steps_trans|done|by rewrite length_insert|].
    intros j Hj. destruct (decide (j = k)) as [->|]; [by eapply lookup_pc|].
    rewrite list_lookup_insert_ne by done. apply Hidle. lia.
Qed.

(** ** The code and its steps *)

Definition acquired (cpu ra : Z) (l : spinlock_t) : spinlock_t :=
  SpinLock SPINLOCK_LOCKED cpu ra (name l) (magic l).
Definition released (l : spinlock_t) : spinlock_t :=
  SpinLock SPINLOCK_UNLOCKED NO_CPU 0 (name l) (magic l).

Lemma lock_cas_run old new l :
  lock_cas old new l = Ret (lock l =? old, if lock l =? old then with_lock new l else l).
Proof. unfold lock_cas, mbind, M_bind. simpl. by destruct (lock l =? old). Qed.

Lemma spin_loop_busy cpu ra fuel l :
  lock l ≠ SPINLOCK_UNLOCKED → spin_loop cpu ra fuel l = OutOfFuel.
Proof.
  intros Hl. induction fuel as [|fuel IH]; [done|].
  cbn [spin_loop]. mstep with lock_cas_run. by rewrite (proj2 (Z.eqb_neq _ _) Hl).
Qed.

Lemma spin_loop_run cpu ra fuel l :
  spin_loop cpu ra (S fuel) l =
    if lock l =? SPINLOCK_UNLOCKED then Ret (tt, acquired cpu ra l) else OutOfFuel.
Proof.
  destruct (Z.eqb_spec (lock l) SPINLOCK_UNLOCKED) as [Hl|Hl]; [|by apply spin_loop_busy].
  cbn [spin_loop]. mstep with lock_cas_run. by rewrite Hl.
Qed.

Lemma spin_lock_run cpu ra fuel l :
  spin_lock cpu ra (S fuel) l =
    if negb (magic l =? SPINLOCK_MAGIC) then Panic "Bad spinlock magic"
    else if owner_cpu l =? cpu then Panic "Recursive spinlock"
    else if lock l =? SPINLOCK_UNLOCKED then Ret (tt, acquired cpu ra l)
    else OutOfFuel.
Proof.
  unfold spin_lock, check_magic, check_not_recursive, mbind, M_bind. simpl.
  destruct (magic l =? SPINLOCK_MAGIC); [|done]. simpl. destruct (owner_cpu l =? cpu); [done|].
  apply spin_loop_run.
Qed.

Lemma spin_trylock_run cpu ra l :
  spin_trylock cpu ra l =
    if negb (magic l =? SPINLOCK_MAGIC) then Panic "Bad spinlock magic"
    else if owner_cpu l =? cpu then Panic "Recursive spinlock"
    else if lock l =? SPINLOCK_UNLOCKED then Ret (1, acquired cpu ra l)
    else Ret (0, l).
Proof.
  unfold spin_trylock, check_magic, check_not_recursive, lock_cas, mbind, M_bind. simpl.
  destruct (magic l =? SPINLOCK_MAGIC); [|done]. simpl.
  destruct (owner_cpu l =? cpu); [done|]. simpl. by destruct (lock l =? SPINLOCK_UNLOCKED).
Qed.

Lemma spin_unlock_run cpu l :
  spin_unlock cpu l =
    if negb (magic l =? SPINLOCK_MAGIC) then Panic "Bad spinlock magic"
    else if owner_cpu l =? cpu then Ret (tt, released l)
    else Panic "Spinlock not owned by current CPU".
Proof.
  unfold spin_unlock, check_magic, mbind, M_bind. simpl.
  destruct (magic l =? SPINLOCK_MAGIC); [|done]. simpl. by destruct (owner_cpu l =? cpu).
Qed.

(** [n] accesses of one CPU in a row. *)
Fixpoint run_pcs (n : nat) (cpu ra : Z) (l : spinlock_t) (p : pc) : option (spinlock_t * pc) :=
  match n with
  | O => Some (l, p)
  | S n => '(l', p') ← run_pc cpu ra l p; run_pcs n cpu ra l' p'
  end.

Lemma run_pcs_steps n ra l ps i p l' p' :
  ps !! i = Some p → run_pcs n (Z.of_nat i) ra l p = Some (l', p') →
  steps (l, ps) (l', <[i := p']> ps).
Proof.
  revert l ps p. induction n as [|n IH]; intros l ps p Hi Hrun; simplify_eq/=.
  - rewrite list_insert_id by done. constructor.
  - apply bind_Some in Hrun as ([l1 p1] & Hr1 & Hrun).
    eapply steps_cons; [by eapply step_run|].
    rewrite <-(list_insert_insert_eq ps i p' p1). eapply IH; [by eapply lookup_pc|done].
Qed.

(** * Properties *)

(** C35: the step machine runs the code.  When a CPU at the start of
    [spin_lock], [spin_trylock] or [spin_unlock] executes alone, the machine
    can take it to where the code says: to [Held] (or back to [Idle] for a
    failed try or a release) with the lock the code computes, or to
    [Panicked] exactly on the code's panics. *)
Theorem spin_code_steps fuel ra l ps i :
  (ps !! i = Some (AMagic false) →
     match spin_lock (Z.of_nat i) ra (S fuel) l with
     | Ret (_, l') => steps (l, ps) (l', <[i := Held]> ps)
     | Panic _ => steps (l, ps) (l, <[i := Panicked]> ps)
     | OutOfFuel => steps (l, ps) (l, <[i := ASpin]> ps)
     | Fault => False
     end) ∧
  (ps !! i = Some (AMagic true) →
     match spin_trylock (Z.of_nat i) ra l with
     | Ret (ok, l') => steps (l, ps) (l', <[i := if ok =? 1 then Held else Idle]> ps)
     | Panic _ => steps (l, ps) (l, <[i := Panicked]> ps)
     | _ => False
     end) ∧
  (ps !! i = Some UMagic →
     match spin_unlock (Z.of_nat i) l with
     | Ret (_, l') => steps (l, ps) (l', <[i := Idle]> ps)
     | Panic _ => steps (l, ps) (l, <[i := Panicked]> ps)
     | _ => False
     end).
Proof.
  rewrite spin_lock_run, spin_trylock_run, spin_unlock_run. split_and!; intros Hi;
    (destruct (magic l =? SPINLOCK_MAGIC) eqn:Hm; simpl;
       [|apply (run_pcs_steps 1 ra _ _ _ _ _ _ Hi); simpl; by rewrite Hm]);
    (destruct (owner_cpu l =? Z.of_nat i) eqn:Hc; simpl;
       [try by apply (run_pcs_steps 2 ra _ _ _ _ _ _ Hi); simpl; rewrite Hm; simpl; rewrite Hc|]).
  - destruct (lock l =? SPINLOCK_UNLOCKED) eqn:Hl;
      [apply (run_pcs_steps 5 ra _ _ _ _ _ _ Hi)|apply (run_pcs_steps 3 ra _ _ _ _ _ _ Hi)];
      simpl; rewrite Hm; simpl; rewrite Hc; simpl; by rewrite Hl.
  - destruct (lock l =? SPINLOCK_UNLOCKED) eqn:Hl;
      [apply (run_pcs_steps 5 ra _ _ _ _ _ _ Hi)|apply (run_pcs_steps 3 ra _ _ _ _ _ _ Hi)];
      simpl; rewrite Hm; simpl; rewrite Hc; simpl; by rewrite Hl.
  - apply (run_pcs_steps 5 ra _ _ _ _ _ _ Hi); simpl; rewrite Hm; simpl; by rewrite Hc.
  - apply (run_pcs_steps 2 ra _ _ _ _ _ _ Hi); simpl; rewrite Hm; simpl; by rewrite Hc.
Qed.

(** The variants for bottom halves mask them first and unmask them last. *)
Lemma spin_bh_sections {B} (disable enable : B → B) cpu ra fuel l (b : B) :
  magic l = SPINLOCK_MAGIC → owner_cpu l ≠ cpu → lock l = SPINLOCK_UNLOCKED →
  spin_lock_bh cpu ra disable (S fuel) (l, b) = Ret (tt, (acquired cpu ra l, disable b)) ∧
  spin_unlock_bh cpu enable (acquired cpu ra l, disable b) = Ret (tt, (released l, enable (disable b))).
Proof.
  intros Hm Hc Hl. unfold spin_lock_bh, spin_unlock_bh, zoom, modify, mbind, M_bind; simpl.
  rewrite spin_lock_run, spin_unlock_run; simpl.
  by rewrite Hm, Hl, !Z.eqb_refl, (proj2 (Z.eqb_neq _ _) Hc).
Qed.

(** What the checks of the code do, on any lock: an acquire of a lock
    that names the calling CPU panics instead of deadlocking, a release by
    any other CPU panics, a corrupted magic panics; an acquire of a free lock
    and the release that follows restore the lock and the interrupt flag. *)
Theorem spin_lock_checks cpu ra fuel l (irq : bool) :
  magic l = SPINLOCK_MAGIC → owner_cpu l ≠ cpu → lock l = SPINLOCK_UNLOCKED →
  ∃ l', spin_lock_irqsave cpu ra (S fuel) (l, irq) = Ret (irq, (l', false)) ∧
    spin_is_locked l' = Ret (true, l') ∧
    spin_lock cpu ra (S fuel) l' = Panic "Recursive spinlock" ∧
    spin_trylock cpu ra l' = Panic "Recursive spinlock" ∧
    (∀ cpu', cpu' ≠ cpu → spin_unlock cpu' l' = Panic "Spinlock not owned by current CPU") ∧
    (∀ m, m ≠ SPINLOCK_MAGIC →
       spin_unlock cpu (SpinLock (lock l') (owner_cpu l') (owner l') (name l') m) =
         Panic "Bad spinlock magic") ∧
    spin_unlock_irqrestore cpu irq (l', false) = Ret (tt, (released l, irq)).
Proof.
  intros Hm Hc Hl. exists (acquired cpu ra l).
  unfold spin_lock_irqsave, spin_unlock_irqrestore, on_lock, zoom, local_irq_save,
    local_irq_restore, spin_is_locked, gets, modify, mbind, M_bind; simpl.
  rewrite !spin_lock_run, !spin_trylock_run, !spin_unlock_run; simpl.
  rewrite Hm, Hl, !Z.eqb_refl, (proj2 (Z.eqb_neq _ _) Hc); simpl. split_and!; try done.
  - intros cpu' Hne. rewrite spin_unlock_run; simpl. rewrite Hm; simpl.
    by rewrite (proj2 (Z.eqb_neq cpu cpu')).
  - intros m Hne. rewrite spin_unlock_run; simpl. by rewrite (proj2 (Z.eqb_neq _ _) Hne).
Qed.


(** C6: mutual exclusion.  In every configuration reachable by any
    interleaving of [spin_lock], [spin_trylock] and [spin_unlock] on any
    number of CPUs (fewer than the sentinel id), at most one CPU is between
    its successful compare-and-swap and the releasing store, and while it
    holds the lock the word is locked and names it. *)
Theorem spin_mutual_exclusion nm n l ps i p :
  Z.of_nat n ≤ NO_CPU → steps (start nm n) (l, ps) →
  ps !! i = Some p → owning p = true →
  (∀ j q, ps !! j = Some q → owning q = true → i = j) ∧
  lock l = SPINLOCK_LOCKED ∧ (p = Held → owner_cpu l = Z.of_nat i).
Proof.
  intros Hn Hs Hi Hp. destruct (steps_inv _ _ Hs (inv_start nm n Hn)) as (_ & _ & _ & o & Ho).
  split_and!.
  - intros j q Hj Hq. rewrite (owner_is _ _ _ _ _ Hi Hp Ho) in Ho.
    pose proof (owner_is _ _ _ _ _ Hj Hq Ho). congruence.
  - rewrite (owner_is _ _ _ _ _ Hi Hp Ho) in Ho. by destruct Ho.
  - intros ->. by apply (owner_cpu_self _ _ _ _ _ Hi eq_refl eq_refl Ho).
Qed.

(** Clients that only release what they hold never reach one of the
    lock's [panic] calls: the bad-magic, recursion and not-owner checks all
    pass, whatever the interleaving. *)
Theorem spin_no_panic nm n l ps i :
  Z.of_nat n ≤ NO_CPU → steps (start nm n) (l, ps) → ps !! i ≠ Some Panicked.
Proof. intros Hn Hs. by destruct (steps_inv _ _ Hs (inv_start nm n Hn)) as (_ & _ & Hp & _). Qed.

(** C33: no deadlock.  From every reachable configuration there is an
    execution in which every pending acquire succeeds or returns and every
    holder releases, ending with all CPUs idle and the lock exactly as
    initialised: unlocked, no owner CPU, no return address, the same name and
    magic. *)
Theorem spin_no_deadlock nm n l ps :
  Z.of_nat n ≤ NO_CPU → steps (start nm n) (l, ps) →
  steps (l, ps) (SPINLOCK_INIT nm, replicate n Idle).
Proof.
  intros Hn Hs. pose proof (steps_inv _ _ Hs (inv_start nm n Hn)) as Hinv.
  pose proof Hinv as (_ & _ & _ & o & Ho).
  pose proof (steps_length _ _ Hs) as Hlen. simpl in Hlen. rewrite length_replicate in Hlen.
  assert (∃ l1 ps1, steps (l, ps) (l1, ps1) ∧ owned_by None l1 ps1 ∧ length ps1 = n)
    as (l1 & ps1 & Hs1 & Ho1 & Hlen1).
  { destruct o as [k|]; [|by exists l, ps; split_and!; [constructor|..]].
    pose proof Ho as (_ & p & Hp & _).
    destruct (solo_idle l ps k p (Some k)) as (l1 & ? & ?); [done..|by right|].
    exists l1, (<[k := Idle]> ps). by rewrite length_insert. }
  destruct (all_idle_from l1 ps1 n) as (l' & ps' & Hs2 & Ho2 & Hlen2 & Hidle);
    [by eapply steps_inv|done|lia|].
  replace ps' with (replicate n Idle) in *.
  - assert (steps (l, ps) (l', replicate n Idle)) as Hend by by eapply steps_trans.
    rewrite <-(free_is_initial nm n l' (replicate n Idle)); [done|done| |done]. by eapply steps_trans.
  - apply list_eq_same_length with n; [lia|by rewrite length_replicate|].
    intros j x y Hj Hx Hy. rewrite Hidle in Hy by done.
    apply lookup_replicate in Hx as [-> _]. by simplify_eq.
Qed.

(** * Witnesses: two CPUs, the first holding the lock *)

Definition zlock : spinlock_t := SPINLOCK_INIT "zone".

Lemma start_held0 : steps (start "zone" 2) (acquired 0 7 zlock, [Held; Idle]).
Proof.
  eapply steps_cons; [by apply (step_call _ _ 0 false)|].
  by apply (run_pcs_steps 5 7 zlock [AMagic false; Idle] 0 (AMagic false) _ Held).
Qed.

Lemma spin_mutual_exclusion_witness :
  (∀ j q, [Held; Idle] !! j = Some q → owning q = true → 0%nat = j) ∧
  lock (acquired 0 7 zlock) = SPINLOCK_LOCKED ∧
  (Held = Held → owner_cpu (acquired 0 7 zlock) = 0).
Proof.
  apply (spin_mutual_exclusion "zone" 2 (acquired 0 7 zlock) [Held; Idle] 0 Held);
    [by vm_compute|exact start_held0|done|done].
Defined.

Lemma spin_no_panic_witness : [Held; Idle] !! 0%nat ≠ Some Panicked.
Proof.
  apply (spin_no_panic "zone" 2 (acquired 0 7 zlock) [Held; Idle] 0);
    [by vm_compute|exact start_held0].
Defined.

Lemma spin_no_deadlock_witness :
  steps (acquired 0 7 zlock, [Held; Idle]) (SPINLOCK_INIT "zone", [Idle; Idle]).
Proof.
  apply (spin_no_deadlock "zone" 2 (acquired 0 7 zlock) [Held; Idle]);
    [by vm_compute|exact start_held0].
Defined.

Lemma spin_code_steps_witness :
  steps (zlock, [AMagic false]) (acquired 0 7 zlock, [Held]).
Proof. exact (proj1 (spin_code_steps 0 7 zlock [AMagic false] 0) eq_refl). Defined.

Lemma spin_lock_checks_witness :
  ∃ l', spin_lock_irqsave 3 7 1 (zlock, true) = Ret (true, (l', false)) ∧
    spin_is_locked l' = Ret (true, l') ∧
    spin_lock 3 7 1 l' = Panic "Recursive spinlock" ∧
    spin_trylock 3 7 l' = Panic "Recursive spinlock" ∧
    (∀ cpu', cpu' ≠ 3 → spin_unlock cpu' l' = Panic "Spinlock not owned by current CPU") ∧
    (∀ m, m ≠ SPINLOCK_MAGIC →
       spin_unlock 3 (SpinLock (lock l') (owner_cpu l') (owner l') (name l') m) =
         Panic "Bad spinlock magic") ∧
    spin_unlock_irqrestore 3 true (l', false) = Ret (tt, (released zlock, true)).
Proof. apply (spin_lock_checks 3 7 0 zlock true); done. Defined.
