(* ===== verification/RwLock.v ===== *)
(** Reader-writer locks: the second half of [kernel/include/spinlock.h].

    As in [Spinlock], the operations are given once as one CPU runs them
    alone and once as a machine that interleaves the memory accesses of any
    number of CPUs.  The code never asks which CPU runs it. *)
From stdpp Require Import base list strings.
From S2P Require Import Prelude.

(** * The lock *)

Record rwlock_t := RwLk {
  rlock : Z;            (* u32, 0 or RWLOCK_WRITE_BIAS *)
  reader_count : Z;     (* u32 *)
  writer_waiting : Z;   (* u32 *)
  rname : string;
  rmagic : Z            (* u32 *)
}.

Definition RWLOCK_MAGIC : Z := 0xFACEFEED.
Definition RWLOCK_WRITE_BIAS : Z := 0x01000000.

Definition RWLOCK_INIT (nm : string) : rwlock_t := RwLk 0 0 0 nm RWLOCK_MAGIC.

Definition with_rlock (v : Z) (l : rwlock_t) : rwlock_t :=
  RwLk v (reader_count l) (writer_waiting l) (rname l) (rmagic l).
Definition with_readers (v : Z) (l : rwlock_t) : rwlock_t :=
  RwLk (rlock l) v (writer_waiting l) (rname l) (rmagic l).
Definition with_waiting (v : Z) (l : rwlock_t) : rwlock_t :=
  RwLk (rlock l) (reader_count l) v (rname l) (rmagic l).

(** [lock->lock & RWLOCK_WRITE_BIAS] *)
Definition write_biased (v : Z) : bool := negb (Z.land v RWLOCK_WRITE_BIAS =? 0).

(** * The operations of one CPU *)

Definition rwlock_init : M rwlock_t unit := put (RWLOCK_INIT "unknown").

Definition check_rw_magic : M rwlock_t unit :=
  m ← gets rmagic;
  if m =? RWLOCK_MAGIC then mret tt else panic_with "Bad rwlock magic".

(** [lock->writer_waiting || (lock->lock & RWLOCK_WRITE_BIAS)] *)
Definition writer_present : M rwlock_t bool :=
  w ← gets writer_waiting;
  if negb (w =? 0) then mret true
  else v ← gets rlock; mret (write_biased v).

(** [__sync_add_and_fetch] and [__sync_sub_and_fetch] on the counters. *)
Definition readers_add (d : Z) : M rwlock_t Z :=
  n ← gets reader_count; modify (with_readers (n +[32] d));; mret (n +[32] d).
Definition waiting_add (d : Z) : M rwlock_t Z :=
  n ← gets writer_waiting; modify (with_waiting (n +[32] d));; mret (n +[32] d).
Definition rw_cas (old new : Z) : M rwlock_t bool :=
  v ← gets rlock;
  if v =? old then modify (with_rlock new);; mret true else mret false.

Fixpoint read_wait (fuel : nat) : M rwlock_t unit :=
  match fuel with
  | O => out_of_fuel
  | S fuel => b ← writer_present; if (b : bool) then read_wait fuel else mret tt
  end.

Fixpoint read_loop (fuel : nat) : M rwlock_t unit :=
  match fuel with
  | O => out_of_fuel
  | S fuel =>
      read_wait fuel;;
      n ← readers_add 1;
      if n =? 0 then read_loop fuel
      else
        b ← writer_present;
        if (b : bool) then readers_add (-1);; read_loop fuel else mret tt
  end.
Definition read_lock (fuel : nat) : M rwlock_t unit := check_rw_magic;; read_loop fuel.

Definition read_unlock : M rwlock_t unit :=
  check_rw_magic;; readers_add (-1);; mret tt.

Fixpoint drain_readers (fuel : nat) : M rwlock_t unit :=
  match fuel with
  | O => out_of_fuel
  | S fuel => n ← gets reader_count; if 0 <? n then drain_readers fuel else mret tt
  end.
Fixpoint write_loop (fuel : nat) : M rwlock_t unit :=
  match fuel with
  | O => out_of_fuel
  | S fuel =>
      ok ← rw_cas 0 RWLOCK_WRITE_BIAS;
      if (ok : bool) then drain_readers fuel else write_loop fuel
  end.
Definition write_lock (fuel : nat) : M rwlock_t unit :=
  check_rw_magic;; waiting_add 1;; write_loop fuel;; waiting_add (-1);; mret tt.

Definition write_unlock : M rwlock_t unit :=
  check_rw_magic;; modify (with_rlock 0).

Definition read_trylock : M rwlock_t Z :=
  check_rw_magic;;
  b ← writer_present;
  if (b : bool) then mret 0 else
  n ← readers_add 1;
  if n =? 0 then mret 0 else
  b ← writer_present;
  if (b : bool) then readers_add (-1);; mret 0 else mret 1.

Definition write_trylock : M rwlock_t Z :=
  check_rw_magic;;
  ok ← rw_cas 0 RWLOCK_WRITE_BIAS;
  if (ok : bool) then
    n ← gets reader_count;
    if 0 <? n then modify (with_rlock 0);; mret 0 else mret 1
  else mret 0.

(** The interrupt-masking variants, on the lock and the interrupt flag. *)
Definition on_rwlock {A} (m : M rwlock_t A) : M (rwlock_t * bool) A :=
  zoom fst (λ l s, (l, snd s)) m.
Definition irq_save : M (rwlock_t * bool) bool :=
  b ← gets snd; modify (λ s, (fst s, false));; mret b.
Definition irq_set (b : bool) : M (rwlock_t * bool) unit := modify (λ s, (fst s, b)).
Definition read_lock_irqsave (fuel : nat) : M (rwlock_t * bool) bool :=
  flags ← irq_save; on_rwlock (read_lock fuel);; mret flags.
Definition read_unlock_irqrestore (flags : bool) : M (rwlock_t * bool) unit :=
  on_rwlock read_unlock;; irq_set flags.
Definition write_lock_irqsave (fuel : nat) : M (rwlock_t * bool) bool :=
  flags ← irq_save; on_rwlock (write_lock fuel);; mret flags.
Definition write_unlock_irqrestore (flags : bool) : M (rwlock_t * bool) unit :=
  on_rwlock write_unlock;; irq_set flags.
Definition read_lock_irq (fuel : nat) : M (rwlock_t * bool) unit :=
  irq_set false;; on_rwlock (read_lock fuel).
Definition read_unlock_irq : M (rwlock_t * bool) unit := on_rwlock read_unlock;; irq_set true.
Definition write_lock_irq (fuel : nat) : M (rwlock_t * bool) unit :=
  irq_set false;; on_rwlock (write_lock fuel).
Definition write_unlock_irq : M (rwlock_t * bool) unit := on_rwlock write_unlock;; irq_set true.

(** The variants for bottom halves; [local_bh_disable] and [local_bh_enable]
    are only declared, and [B] is what they count in. *)
Definition bh_then {B} (local_bh_disable : B → B) (m : M rwlock_t unit) : M (rwlock_t * B) unit :=
  modify (λ s, (fst s, local_bh_disable (snd s)));; zoom fst (λ l s, (l, snd s)) m.
Definition then_bh {B} (m : M rwlock_t unit) (local_bh_enable : B → B) : M (rwlock_t * B) unit :=
  zoom fst (λ l s, (l, snd s)) m;; modify (λ s, (fst s, local_bh_enable (snd s))).
Definition read_lock_bh {B} (disable : B → B) (fuel : nat) := bh_then disable (read_lock fuel).
Definition read_unlock_bh {B} (enable : B → B) := then_bh read_unlock enable.
Definition write_lock_bh {B} (disable : B → B) (fuel : nat) := bh_then disable (write_lock fuel).
Definition write_unlock_bh {B} (enable : B → B) := then_bh write_unlock enable.

(** * Interleaved CPUs *)

Inductive rpc :=
  | Idle
  (* read_lock, or read_trylock when [try] *)
  | RMagic (try : bool) | RWaitW (try : bool) | RWaitL (try : bool) | RInc (try : bool)
  | RChkW (try : bool) | RChkL (try : bool) | RUndo (try : bool)
  | RHeld | RUMagic | RDec
  (* write_lock *)
  | WMagic | WInc | WCas | WWait | WDec
  | WHeld | WUMagic | WRel
  (* write_trylock *)
  | TMagic | TCas | TChk | TRel
  | Panicked.

#[export] Instance rpc_eq_dec : EqDecision rpc.
Proof. solve_decision. Defined.

(** Where a reader goes on seeing a writer: a try gives up, a lock retries. *)
Definition retry (try : bool) : rpc := if try then Idle else RWaitW false.

Definition run_rpc (l : rwlock_t) (p : rpc) : option (rwlock_t * rpc) :=
  match p with
  | Idle | RHeld | WHeld | Panicked => None
  | RMagic t => Some (l, if rmagic l =? RWLOCK_MAGIC then RWaitW t else Panicked)
  | RWaitW t => Some (l, if writer_waiting l =? 0 then RWaitL t else retry t)
  | RWaitL t => Some (l, if write_biased (rlock l) then retry t else RInc t)
  | RInc t =>
      let n := reader_count l +[32] 1 in
      Some (with_readers n l, if n =? 0 then retry t else RChkW t)
  | RChkW t => Some (l, if writer_waiting l =? 0 then RChkL t else RUndo t)
  | RChkL t => Some (l, if write_biased (rlock l) then RUndo t else RHeld)
  | RUndo t => Some (with_readers (reader_count l +[32] -1) l, retry t)
  | RUMagic => Some (l, if rmagic l =? RWLOCK_MAGIC then RDec else Panicked)
  | RDec => Some (with_readers (reader_count l +[32] -1) l, Idle)
  | WMagic => Some (l, if rmagic l =? RWLOCK_MAGIC then WInc else Panicked)
  | WInc => Some (with_waiting (writer_waiting l +[32] 1) l, WCas)
  | WCas => Some (if rlock l =? 0 then (with_rlock RWLOCK_WRITE_BIAS l, WWait) else (l, WCas))
  | WWait => Some (l, if 0 <? reader_count l then WWait else WDec)
  | WDec => Some (with_waiting (writer_waiting l +[32] -1) l, WHeld)
  | WUMagic => Some (l, if rmagic l =? RWLOCK_MAGIC then WRel else Panicked)
  | WRel => Some (with_rlock 0 l, Idle)
  | TMagic => Some (l, if rmagic l =? RWLOCK_MAGIC then TCas else Panicked)
  | TCas => Some (if rlock l =? 0 then (with_rlock RWLOCK_WRITE_BIAS l, TChk) else (l, Idle))
  | TChk => Some (l, if 0 <? reader_count l then TRel else WHeld)
  | TRel => Some (with_rlock 0 l, Idle)
  end.

Definition rconfig : Type := rwlock_t * list rpc.

(** Clients start any acquire when idle and release what they hold. *)
Inductive client : rpc → rpc → Prop :=
  | client_read t : client Idle (RMagic t)
  | client_write : client Idle WMagic
  | client_trywrite : client Idle TMagic
  | client_read_unlock : client RHeld RUMagic
  | client_write_unlock : client WHeld WUMagic.

Inductive rstep : rconfig → rconfig → Prop :=
  | rstep_client l ps i p p' :
      ps !! i = Some p → client p p' → rstep (l, ps) (l, <[i := p']> ps)
  | rstep_run l ps i p l' p' :
      ps !! i = Some p → run_rpc l p = Some (l', p') → rstep (l, ps) (l', <[i := p']> ps).

Inductive rsteps : rconfig → rconfig → Prop :=
  | rsteps_refl c : rsteps c c
  | rsteps_cons c1 c2 c3 : rstep c1 c2 → rsteps c2 c3 → rsteps c1 c3.

Definition rstart (nm : string) (n : nat) : rconfig := (RWLOCK_INIT nm, replicate n Idle).

(** Counted in [reader_count]; counted in [writer_waiting]; owning the write
    bias; holding for reading; holding for writing. *)
Definition counted (p : rpc) : bool :=
  match p with RChkW _ | RChkL _ | RUndo _ | RHeld | RUMagic | RDec => true | _ => false end.
Definition waiting (p : rpc) : bool :=
  match p with WCas | WWait | WDec => true | _ => false end.
Definition biased (p : rpc) : bool :=
  match p with WWait | WDec | WHeld | WUMagic | WRel | TChk | TRel => true | _ => false end.
Definition reading (p : rpc) : bool :=
  match p with RHeld | RUMagic | RDec => true | _ => false end.
Definition writing (p : rpc) : bool :=
  match p with WDec | WHeld | WUMagic | WRel => true | _ => false end.
Definition panicked (p : rpc) : bool := match p with Panicked => true | _ => false end.

(** * Invariant: the words of the lock count the CPUs' program counters *)

Definition rinv (c : rconfig) : Prop :=
  let (l, ps) := c in
  rmagic l = RWLOCK_MAGIC ∧ Z.of_nat (length ps) < 2 ^ 32 ∧ count panicked ps = 0%nat ∧
  reader_count l = Z.of_nat (count counted ps) ∧
  writer_waiting l = Z.of_nat (count waiting ps) ∧
  rlock l = RWLOCK_WRITE_BIAS * Z.of_nat (count biased ps) ∧
  (count biased ps ≤ 1)%nat ∧
  (count reading ps = 0%nat ∨ count writing ps = 0%nat).

Lemma reading_counted ps : (count reading ps ≤ count counted ps)%nat.
Proof. apply count_mono. by intros []. Qed.

Lemma writing_biased ps : (count writing ps ≤ count biased ps)%nat.
Proof. apply count_mono. by intros []. Qed.

Lemma write_biased_mult k : (k ≤ 1)%nat →
  write_biased (RWLOCK_WRITE_BIAS * Z.of_nat k) = negb (k =? 0)%nat.
Proof. destruct k as [|[|k]]; [done..|lia]. Qed.

(** How a move of CPU [i] from [p] to [p'] changes every count at once. *)
Ltac count_move Hi p' :=
  pose proof (count_insert panicked _ _ _ p' Hi);
  pose proof (count_insert counted _ _ _ p' Hi);
  pose proof (count_insert waiting _ _ _ p' Hi);
  pose proof (count_insert biased _ _ _ p' Hi);
  pose proof (count_insert reading _ _ _ p' Hi);
  pose proof (count_insert writing _ _ _ p' Hi).

Ltac rw_close Hi p' :=
  rewrite ?negb_true_iff, ?negb_false_iff, ?Nat.eqb_eq, ?Nat.eqb_neq, ?Z.eqb_eq, ?Z.eqb_neq,
    ?Z.ltb_lt, ?Z.ltb_ge in *; simplify_eq/=; count_move Hi p'; simpl in *; split_and!; try done; unfold RWLOCK_WRITE_BIAS in *; lia.

Lemma run_rpc_inv l ps i p l' p' :
  rinv (l, ps) → ps !! i = Some p → run_rpc l p = Some (l', p') → rinv (l', <[i := p']> ps).
Proof.
  intros (Hm & Hlen & Hpan & Hrc & Hww & Hl & Hb & Hx) Hi Hrun.
  pose proof (reading_counted ps). pose proof (writing_biased ps).
  pose proof (count_le_length counted ps). pose proof (count_le_length waiting ps).
  pose proof (write_biased_mult _ Hb) as Hwb.
  pose proof (λ P : rpc → bool, count_pos P ps i p Hi) as Hpos.
  pose proof (λ P : rpc → bool, count_lt_length P ps i p Hi) as Hlt.
  unfold rinv. rewrite length_insert.
  destruct p; simpl in Hrun; try discriminate; rewrite ?Hm in Hrun; simpl in Hrun;
    rewrite ?Hl, ?Hwb in Hrun.
  all: first
    [ (* the counters *)
      match type of Hrun with context [_ +[32] 1] =>
        try pose proof (Hlt counted eq_refl); try pose proof (Hlt waiting eq_refl);
        rewrite (wrap_small 32) in Hrun by lia
      end
    | match type of Hrun with context [_ +[32] -1] =>
        try pose proof (Hpos counted eq_refl); try pose proof (Hpos waiting eq_refl);
        rewrite (wrap_small 32) in Hrun by lia
      end
    | idtac ].
  all: try pose proof (Hpos biased eq_refl).
  all: repeat match type of Hrun with
    | context [if ?b then _ else _] => let E := fresh in destruct b eqn:E
    | context [retry ?t] => destruct t; simpl in Hrun
    end.
  all: match type of Hrun with Some (_, ?q) = _ => rw_close Hi q end.
Qed.

Lemma client_inv l ps i p p' :
  rinv (l, ps) → ps !! i = Some p → client p p' → rinv (l, <[i := p']> ps).
Proof.
  intros (Hm & Hlen & Hpan & Hrc & Hww & Hl & Hb & Hx) Hi Hc.
  unfold rinv. rewrite length_insert. destruct Hc as [t| | | |];
    match goal with |- context [<[i := ?q]> ps] => rw_close Hi q end.
Qed.

Lemma rstep_inv c c' : rstep c c' → rinv c → rinv c'.
Proof. destruct 1; intros; [by eapply client_inv|by eapply run_rpc_inv]. Qed.

Lemma rsteps_inv c c' : rsteps c c' → rinv c → rinv c'.
Proof. induction 1; eauto using rstep_inv. Qed.

Lemma rinv_start nm n : Z.of_nat n < 2 ^ 32 → rinv (rstart nm n).
Proof.
  intros Hn. unfold rinv, rstart. rewrite length_replicate, !count_replicate by done.
  split_and!; try done; [lia|by left].
Qed.

Lemma rsteps_trans c1 c2 c3 : rsteps c1 c2 → rsteps c2 c3 → rsteps c1 c3.
Proof. induction 1; eauto using rsteps. Qed.

Lemma rsteps_length c c' : rsteps c c' → length (snd c') = length (snd c).
Proof.
  induction 1 as [c|c1 c2 c3 Hst _ IH]; [done|]. rewrite IH.
  destruct Hst; simpl; by rewrite length_insert.
Qed.

(** ** Progress *)

(** How far a CPU is from [Idle].  A reader that backs off counts as nearer
    than one that has still to check, so retrying makes no progress and the
    proof schedules it only when no writer is around. *)
Definition rrank (p : rpc) : nat :=
  match p with
  | Idle | Panicked => 0 | RDec => 1 | RUMagic => 2 | RHeld => 3 | RInc _ => 4 | RWaitL _ => 5
  | RWaitW _ => 6 | RUndo _ => 7 | RChkL _ => 8 | RChkW _ => 9 | RMagic _ => 10
  | WRel => 1 | WUMagic => 2 | WHeld => 3 | WDec => 4 | WWait => 5 | WCas => 6 | WInc => 7
  | WMagic => 8 | TRel => 1 | TChk => 4 | TCas => 5 | TMagic => 6
  end.

(** The accesses that may find the lock in a state where they must wait. *)
Definition blocking (p : rpc) : bool :=
  match p with RWaitW _ | RWaitL _ | RInc _ | WCas | WWait => true | _ => false end.

Lemma rlookup (ps : list rpc) i p p' : ps !! i = Some p → <[i := p']> ps !! i = Some p'.
Proof. intros. apply list_lookup_insert_eq. by eapply lookup_lt_Some. Qed.

Lemma free_progress l ps i p :
  rinv (l, ps) → ps !! i = Some p → p ≠ Idle → blocking p = false →
  ∃ l' p', rstep (l, ps) (l', <[i := p']> ps) ∧ (rrank p' < rrank p)%nat.
Proof.
  intros (Hm & _ & Hpan & _) Hi Hne Hnb.
  destruct (decide (p = RHeld)) as [->|?].
  { exists l, RUMagic. split; [eapply rstep_client; [done|constructor]|simpl; lia]. }
  destruct (decide (p = WHeld)) as [->|?].
  { exists l, WUMagic. split; [eapply rstep_client; [done|constructor]|simpl; lia]. }
  assert (p ≠ Panicked).
  { intros ->. pose proof (count_pos panicked _ _ _ Hi eq_refl). lia. }
  assert (∃ l' p', run_rpc l p = Some (l', p') ∧ (rrank p' < rrank p)%nat)
    as (l' & p' & Hrun & Hr); [|by exists l', p'; split; [eapply rstep_run|]].
  destruct p; try done; simpl; rewrite ?Hm; simpl; repeat case_match;
    do 2 eexists; (split; [done|]); try destruct try; simpl; lia.
Qed.

(** A run of one CPU's own accesses. *)
Fixpoint run_rpcs (n : nat) (l : rwlock_t) (p : rpc) : option (rwlock_t * rpc) :=
  match n with
  | O => Some (l, p)
  | S n => '(l', p') ← run_rpc l p; run_rpcs n l' p'
  end.

Lemma run_rpcs_steps n l ps i p l' p' :
  ps !! i = Some p → run_rpcs n l p = Some (l', p') → rsteps (l, ps) (l', <[i := p']> ps).
Proof.
  revert l ps p. induction n as [|n IH]; intros l ps p Hi Hrun; simplify_eq/=.
  - rewrite list_insert_id by done. constructor.
  - apply bind_Some in Hrun as ([l1 p1] & Hr1 & Hrun).
    eapply rsteps_cons; [by eapply rstep_run|].
    rewrite <-(list_insert_insert_eq ps i p' p1). eapply IH; [by eapply rlookup|done].
Qed.

(** With no reader counted, a writer that must wait can go on; with no writer
    either, a reader can go all the way to holding the lock. *)
Lemma blocked_progress l ps i p :
  rinv (l, ps) → ps !! i = Some p → blocking p = true →
  count counted ps = 0%nat →
  (p = WCas → count biased ps = 0%nat) →
  (p ≠ WWait → p ≠ WCas → count biased ps = 0%nat ∧ count waiting ps = 0%nat) →
  ∃ l' p', rsteps (l, ps) (l', <[i := p']> ps) ∧ (rrank p' < rrank p)%nat.
Proof.
  intros (Hm & Hlen & _ & Hrc & Hww & Hl & _) Hi Hb Hc Hcas Hread.
  rewrite Hc in Hrc.
  destruct p; try done.
  1-3: destruct Hread as [Hb0 Hw0]; [done..|]; rewrite Hw0 in Hww; rewrite Hb0 in Hl.
  - eexists _, _. split; [apply (run_rpcs_steps 1 _ _ _ _ _ _ Hi); simpl; by rewrite Hww|simpl; lia].
  - eexists _, _. split; [apply (run_rpcs_steps 1 _ _ _ _ _ _ Hi); simpl; by rewrite Hl|simpl; lia].
  - exists (with_readers (reader_count l +[32] 1) l), RHeld.
    split; [|simpl; lia]. apply (run_rpcs_steps 3 _ _ _ _ _ _ Hi). simpl.
    by rewrite Hrc; simpl; rewrite Hww; simpl; rewrite Hl.
  - rewrite Hcas in Hl by done. eexists _, _.
    split; [apply (run_rpcs_steps 1 _ _ _ _ _ _ Hi); simpl; by rewrite Hl|simpl; lia].
  - eexists _, _. split; [apply (run_rpcs_steps 1 _ _ _ _ _ _ Hi); simpl; by rewrite Hrc|simpl; lia].
Qed.

(** Either some CPU satisfies the test, or the count is zero. *)
Lemma count_cases {A} (P : A → bool) (ps : list A) :
  (∃ i p, ps !! i = Some p ∧ P p = true) ∨ (∀ i p, ps !! i = Some p → P p = false).
Proof.
  induction ps as [|x ps [(i & p & ? & ?)|IH]].
  - by right.
  - left. by exists (S i), p.
  - destruct (P x) eqn:Hx; [left; by exists 0%nat, x|right]. intros [|i] p Hp; simplify_eq/=; eauto.
Qed.

Definition is_idle (p : rpc) : bool := match p with Idle => true | _ => false end.

Lemma progress l ps :
  rinv (l, ps) → (∃ i p, ps !! i = Some p ∧ p ≠ Idle) →
  ∃ l' i p p', ps !! i = Some p ∧ rsteps (l, ps) (l', <[i := p']> ps) ∧ (rrank p' < rrank p)%nat.
Proof.
  intros Hinv (i0 & p0 & Hi0 & Hne0).
  destruct (count_cases (λ p, negb (blocking p || is_idle p)) ps) as [(i & p & Hi & Hp)|Hall].
  { destruct (free_progress l ps i p) as (l' & p' & Hs & Hr); [done..|by intros ->|by destruct p|].
    exists l', i, p, p'. eauto using rsteps. }
  assert (count counted ps = 0%nat) as Hc0.
  { apply count_zero. intros i p Hp%Hall. by destruct p. }
  destruct (count_cases (λ p, if decide (p = WWait) then true else false) ps)
    as [(i & p & Hi & Hp)|Hnw].
  { destruct (decide (p = WWait)) as [->|]; [|done].
    destruct (blocked_progress l ps i WWait) as (l' & p' & ? & ?); [done..|].
    by exists l', i, WWait, p'. }
  assert (count biased ps = 0%nat) as Hb0.
  { apply count_zero. intros i p Hp. specialize (Hall _ _ Hp). specialize (Hnw _ _ Hp).
    by destruct p. }
  destruct (count_cases (λ p, if decide (p = WCas) then true else false) ps)
    as [(i & p & Hi & Hp)|Hnc].
  { destruct (decide (p = WCas)) as [->|]; [|done].
    destruct (blocked_progress l ps i WCas) as (l' & p' & ? & ?); [done..|].
    by exists l', i, WCas, p'. }
  assert (count waiting ps = 0%nat) as Hw0.
  { apply count_zero. intros i p Hp. specialize (Hall _ _ Hp). specialize (Hnw _ _ Hp).
    specialize (Hnc _ _ Hp). by destruct p. }
  destruct (blocked_progress l ps i0 p0) as (l' & p' & ? & ?); try done.
  { specialize (Hall _ _ Hi0). by destruct p0. }
  by exists l', i0, p0, p'.
Qed.

Lemma drain_all l ps :
  rinv (l, ps) → ∃ l', rsteps (l, ps) (l', replicate (length ps) Idle).
Proof.
  remember (total rrank ps) as r eqn:Hr. revert l ps Hr.
  induction (lt_wf r) as [r _ IH]; intros l ps -> Hinv.
  destruct (count_cases (λ p, negb (is_idle p)) ps) as [(i & p & Hi & Hp)|Hall].
  - destruct (progress l ps) as (l1 & j & q & q' & Hj & Hs & Hrank); [done|exists i, p; by destruct p|].
    pose proof (total_insert rrank ps j q q' Hj).
    destruct (IH (total rrank (<[j := q']> ps)) ltac:(lia) l1 _ eq_refl) as (l' & Hs');
      [by eapply rsteps_inv|]. rewrite length_insert in Hs'.
    exists l'. by eapply rsteps_trans.
  - exists l. replace (replicate (length ps) Idle) with ps; [constructor|].
    apply list_eq_same_length with (length ps); [by rewrite length_replicate|done|].
    intros i x y _ Hx [-> _]%lookup_replicate. specialize (Hall _ _ Hx). by destruct x.
Qed.

(** ** The code run alone *)

Lemma writer_present_run l :
  writer_present l = Ret (negb (writer_waiting l =? 0) || write_biased (rlock l), l).
Proof. unfold writer_present, mbind, M_bind. simpl. by destruct (writer_waiting l =? 0). Qed.

Lemma rw_cas_run old new l :
  rw_cas old new l = Ret (rlock l =? old, if rlock l =? old then with_rlock new l else l).
Proof. unfold rw_cas, mbind, M_bind. simpl. by destruct (rlock l =? old). Qed.

Lemma readers_add_run d l :
  readers_add d l = Ret (reader_count l +[32] d, with_readers (reader_count l +[32] d) l).
Proof. done. Qed.

Definition absent (l : rwlock_t) : Prop := writer_waiting l = 0 ∧ rlock l = 0.

Lemma absent_present l : absent l → writer_present l = Ret (false, l).
Proof. intros [Hw Hl]. rewrite writer_present_run, Hw, Hl. done. Qed.

Lemma read_wait_absent fuel l : absent l → read_wait (S fuel) l = Ret (tt, l).
Proof. intros Hl. cbn [read_wait]. by mstep with absent_present. Qed.

Lemma check_rw_magic_run {A} (k : M rwlock_t A) l :
  (check_rw_magic;; k) l = if rmagic l =? RWLOCK_MAGIC then k l else Panic "Bad rwlock magic".
Proof. unfold check_rw_magic, mbind, M_bind. simpl. by destruct (_ =? _). Qed.

Lemma read_lock_run fuel l :
  rmagic l = RWLOCK_MAGIC → absent l → 0 ≤ reader_count l < 2 ^ 32 - 1 →
  read_lock (S (S fuel)) l = Ret (tt, with_readers (reader_count l + 1) l).
Proof.
  intros Hm Hab Hr. unfold read_lock. rewrite check_rw_magic_run, Hm, Z.eqb_refl.
  pose proof Hab as [Hw Hl]. cbn [read_loop].
  mstep with read_wait_absent; [|done].
  mstep with readers_add_run. rewrite (wrap_small 32) by lia.
  destruct (Z.eqb_spec (reader_count l + 1) 0); [lia|].
  by mstep with absent_present.
Qed.

Lemma read_trylock_run l :
  rmagic l = RWLOCK_MAGIC → 0 ≤ reader_count l < 2 ^ 32 - 1 →
  read_trylock l =
    if negb (writer_waiting l =? 0) || write_biased (rlock l) then Ret (0, l)
    else Ret (1, with_readers (reader_count l + 1) l).
Proof.
  intros Hm Hr. unfold read_trylock. rewrite check_rw_magic_run, Hm, Z.eqb_refl.
  mstep with writer_present_run. destruct (_ || _) eqn:E; [done|].
  mstep with readers_add_run. rewrite (wrap_small 32) by lia.
  destruct (Z.eqb_spec (reader_count l + 1) 0); [lia|].
  mstep with writer_present_run. simpl. by rewrite E.
Qed.

Lemma write_loop_run fuel l :
  rlock l = 0 → reader_count l = 0 →
  write_loop (S (S fuel)) l = Ret (tt, with_rlock RWLOCK_WRITE_BIAS l).
Proof.
  intros Hl Hr. cbn [write_loop]. mstep with rw_cas_run. rewrite Hl; simpl.
  unfold mbind, M_bind; simpl. by rewrite Hr.
Qed.

(** The writer's own increment and decrement of [writer_waiting] cancel. *)
Lemma waiting_up_down w l :
  0 ≤ writer_waiting l < 2 ^ 32 - 1 →
  with_waiting ((writer_waiting l +[32] 1) +[32] -1)
    (with_rlock w (with_waiting (writer_waiting l +[32] 1) l)) = with_rlock w l.
Proof.
  intros Hw. rewrite (wrap_small 32 (writer_waiting l + 1)) by lia.
  rewrite (wrap_small 32) by lia. destruct l; unfold with_waiting, with_rlock; simpl in *.
  f_equal. lia.
Qed.

Lemma write_lock_run fuel l :
  rmagic l = RWLOCK_MAGIC → rlock l = 0 → reader_count l = 0 →
  0 ≤ writer_waiting l < 2 ^ 32 - 1 →
  write_lock (S (S fuel)) l = Ret (tt, with_rlock RWLOCK_WRITE_BIAS l).
Proof.
  intros Hm Hl Hr Hw. unfold write_lock. rewrite check_rw_magic_run, Hm, Z.eqb_refl.
  mstep. mstep with write_loop_run; [|done..].
  unfold waiting_add, mbind, M_bind; simpl. rewrite ret_run, waiting_up_down by done. done.
Qed.

(** The variants for bottom halves mask them first and unmask them last. *)
Lemma write_bh_section {B} (disable : B → B) fuel l (b : B) :
  rmagic l = RWLOCK_MAGIC → rlock l = 0 → reader_count l = 0 → 0 ≤ writer_waiting l < 2 ^ 32 - 1 →
  write_lock_bh disable (S (S fuel)) (l, b) = Ret (tt, (with_rlock RWLOCK_WRITE_BIAS l, disable b)).
Proof.
  intros Hm Hl Hr Hw. unfold write_lock_bh, bh_then, zoom, modify, mbind, M_bind; simpl.
  by rewrite write_lock_run.
Qed.

Lemma read_bh_section {B} (disable : B → B) fuel l (b : B) :
  rmagic l = RWLOCK_MAGIC → absent l → 0 ≤ reader_count l < 2 ^ 32 - 1 →
  read_lock_bh disable (S (S fuel)) (l, b) = Ret (tt, (with_readers (reader_count l + 1) l, disable b)).
Proof.
  intros Hm Hl Hr. unfold read_lock_bh, bh_then, zoom, modify, mbind, M_bind; simpl.
  by rewrite read_lock_run.
Qed.

Lemma write_trylock_run l :
  rmagic l = RWLOCK_MAGIC →
  write_trylock l =
    if rlock l =? 0 then
      if 0 <? reader_count l then Ret (0, with_rlock 0 l)
      else Ret (1, with_rlock RWLOCK_WRITE_BIAS l)
    else Ret (0, l).
Proof.
  intros Hm. unfold write_trylock. rewrite check_rw_magic_run, Hm, Z.eqb_refl.
  mstep with rw_cas_run. destruct (rlock l =? 0); [|done].
  unfold mbind, M_bind; simpl. by destruct (0 <? reader_count l).
Qed.

(** * Properties *)

(** C7: reader-writer exclusion.  In every configuration reachable by any
    interleaving of the blocking and trying operations on any number of CPUs
    below 2^32, a CPU that holds the lock for writing (from the moment its
    acquire has seen no readers until its releasing store) excludes every
    reader and every other writer. *)
Theorem rw_exclusion nm n l ps i p :
  Z.of_nat n < 2 ^ 32 → rsteps (rstart nm n) (l, ps) →
  ps !! i = Some p → writing p = true →
  ∀ j q, ps !! j = Some q →
    reading q = false ∧ (writing q = true → j = i).
Proof.
  intros Hn Hs Hi Hp j q Hj.
  destruct (rsteps_inv _ _ Hs (rinv_start nm n Hn)) as (_ & _ & _ & _ & _ & _ & Hb & Hx).
  pose proof (count_pos _ _ _ _ Hi Hp). pose proof (writing_biased ps). split.
  - destruct (reading q) eqn:Hq; [|done]. pose proof (count_pos _ _ _ _ Hj Hq). lia.
  - intros Hq. destruct (decide (j = i)) as [|Hne]; [done|].
    pose proof (count_insert writing _ _ _ Idle Hj) as Hc. rewrite Hq in Hc; simpl in Hc.
    assert (<[j := Idle]> ps !! i = Some p) as Hi' by by rewrite list_lookup_insert_ne.
    pose proof (count_pos _ _ _ _ Hi' Hp). lia.
Qed.

(** C32: the words of the lock are exact whatever the interleaving:
    [reader_count] and [writer_waiting] never wrap and equal the numbers of
    CPUs between the matching increments and decrements, the bias is set
    exactly while one CPU owns it, and no check of the magic ever panics. *)
Theorem rw_counters_exact nm n l ps :
  Z.of_nat n < 2 ^ 32 → rsteps (rstart nm n) (l, ps) →
  reader_count l = Z.of_nat (count counted ps) ∧
  writer_waiting l = Z.of_nat (count waiting ps) ∧
  rlock l = (if (count biased ps =? 0)%nat then 0 else RWLOCK_WRITE_BIAS) ∧
  (∀ i, ps !! i ≠ Some Panicked).
Proof.
  intros Hn Hs.
  destruct (rsteps_inv _ _ Hs (rinv_start nm n Hn)) as (_ & _ & Hpan & Hr & Hw & Hl & Hb & _).
  split_and!; [done..| |].
  - rewrite Hl. destruct (Nat.eqb_spec (count biased ps) 0) as [->|Hne]; [done|].
    replace (count biased ps) with 1%nat by lia. done.
  - intros i Hi. pose proof (count_pos panicked _ _ _ Hi eq_refl). lia.
Qed.

(** C34: no deadlock and no lost state.  From every reachable configuration
    some execution completes every pending acquire and release; it ends with
    all CPUs idle and the lock back in its initial state. *)
Theorem rw_no_deadlock nm n l ps :
  Z.of_nat n < 2 ^ 32 → rsteps (rstart nm n) (l, ps) →
  ∃ l', rsteps (l, ps) (l', replicate n Idle) ∧
        rlock l' = 0 ∧ reader_count l' = 0 ∧ writer_waiting l' = 0.
Proof.
  intros Hn Hs. pose proof (rsteps_inv _ _ Hs (rinv_start nm n Hn)) as Hinv.
  pose proof (rsteps_length _ _ Hs) as Hlen. simpl in Hlen. rewrite length_replicate in Hlen.
  destruct (drain_all l ps Hinv) as [l' Hs']. rewrite Hlen in Hs'. exists l'. split; [done|].
  destruct (rsteps_inv _ _ Hs' Hinv) as (_ & _ & _ & Hr & Hw & Hl & _).
  rewrite !count_replicate in * by done. by split_and!.
Qed.

(** C36: the machine runs the code.  A CPU that starts an operation and runs
    alone is taken by the machine's accesses to the state the code computes,
    for an uncontended blocking acquire and for every outcome of the trying
    ones and of the releases. *)
Theorem rw_code_steps fuel l ps i :
  rmagic l = RWLOCK_MAGIC →
  0 ≤ reader_count l < 2 ^ 32 - 1 → 0 ≤ writer_waiting l < 2 ^ 32 - 1 →
  (ps !! i = Some (RMagic false) → absent l →
     ∃ l', read_lock (S (S fuel)) l = Ret (tt, l') ∧ rsteps (l, ps) (l', <[i := RHeld]> ps)) ∧
  (ps !! i = Some (RMagic true) →
     ∃ ok l', read_trylock l = Ret (ok, l') ∧
       rsteps (l, ps) (l', <[i := if ok =? 1 then RHeld else Idle]> ps)) ∧
  (ps !! i = Some WMagic → rlock l = 0 → reader_count l = 0 →
     ∃ l', write_lock (S (S fuel)) l = Ret (tt, l') ∧ rsteps (l, ps) (l', <[i := WHeld]> ps)) ∧
  (ps !! i = Some TMagic →
     ∃ ok l', write_trylock l = Ret (ok, l') ∧
       rsteps (l, ps) (l', <[i := if ok =? 1 then WHeld else Idle]> ps)) ∧
  (ps !! i = Some RUMagic →
     ∃ l', read_unlock l = Ret (tt, l') ∧ rsteps (l, ps) (l', <[i := Idle]> ps)) ∧
  (ps !! i = Some WUMagic →
     ∃ l', write_unlock l = Ret (tt, l') ∧ rsteps (l, ps) (l', <[i := Idle]> ps)).
Proof.
  intros Hm Hr Hw. split_and!; intros Hi.
  - intros Hab. pose proof Hab as [Hw0 Hl0]. eexists. split; [by apply read_lock_run|].
    apply (run_rpcs_steps 6 _ _ _ _ _ _ Hi). simpl. rewrite Hm; simpl.
    rewrite Hw0; simpl. rewrite Hl0; simpl. rewrite (wrap_small 32) by lia.
    destruct (Z.eqb_spec (reader_count l + 1) 0); [lia|]. simpl. by rewrite Hw0; simpl; rewrite Hl0.
  - rewrite read_trylock_run by done.
    destruct (writer_waiting l =? 0) eqn:Hw0; simpl;
      [destruct (write_biased (rlock l)) eqn:Hl0; simpl|]; do 2 eexists; (split; [done|]).
    + apply (run_rpcs_steps 3 _ _ _ _ _ _ Hi). simpl. rewrite Hm; simpl.
      by rewrite Hw0; simpl; rewrite Hl0.
    + apply (run_rpcs_steps 6 _ _ _ _ _ _ Hi). simpl. rewrite Hm; simpl.
      rewrite Hw0; simpl. rewrite Hl0; simpl. rewrite (wrap_small 32) by lia.
      destruct (Z.eqb_spec (reader_count l + 1) 0); [lia|]. simpl. by rewrite Hw0; simpl; rewrite Hl0.
    + apply (run_rpcs_steps 2 _ _ _ _ _ _ Hi). simpl. rewrite Hm; simpl. by rewrite Hw0.
  - intros Hl0 Hr0. eexists. split; [by apply write_lock_run|].
    apply (run_rpcs_steps 5 _ _ _ _ _ _ Hi). simpl. rewrite Hm; simpl. rewrite Hl0; simpl.
    rewrite Hr0; simpl. rewrite waiting_up_down by done. done.
  - rewrite write_trylock_run by done.
    destruct (rlock l =? 0) eqn:Hl0; [destruct (0 <? reader_count l) eqn:Hr0|];
      do 2 eexists; (split; [done|]).
    + apply (run_rpcs_steps 4 _ _ _ _ _ _ Hi). simpl. rewrite Hm; simpl. rewrite Hl0; simpl.
      by rewrite Hr0.
    + apply (run_rpcs_steps 3 _ _ _ _ _ _ Hi). simpl. rewrite Hm; simpl. rewrite Hl0; simpl.
      by rewrite Hr0.
    + apply (run_rpcs_steps 2 _ _ _ _ _ _ Hi). simpl. rewrite Hm; simpl. by rewrite Hl0.
  - eexists. split; [unfold read_unlock; by rewrite check_rw_magic_run, Hm|].
    apply (run_rpcs_steps 2 _ _ _ _ _ _ Hi). simpl. by rewrite Hm.
  - eexists. split; [unfold write_unlock; by rewrite check_rw_magic_run, Hm|].
    apply (run_rpcs_steps 2 _ _ _ _ _ _ Hi). simpl. by rewrite Hm.
Qed.

(** * Witnesses: three CPUs, the first holding for writing, the second
    waiting to read *)

Definition zrw : rwlock_t := RWLOCK_INIT "tasks".
Definition zheld : rwlock_t := with_rlock RWLOCK_WRITE_BIAS zrw.
Definition zpcs : list rpc := [WHeld; RWaitL false; Idle].

Lemma reach_zheld : rsteps (rstart "tasks" 3) (zheld, zpcs).
Proof.
  eapply rsteps_trans.
  { eapply rsteps_cons; [by apply (rstep_client _ _ 0 Idle WMagic); [|constructor]|].
    by apply (run_rpcs_steps 5 zrw [WMagic; Idle; Idle] 0 WMagic zheld WHeld). }
  eapply rsteps_cons; [by apply (rstep_client _ _ 1 Idle (RMagic false)); [|constructor]|].
  by apply (run_rpcs_steps 2 zheld [WHeld; RMagic false; Idle] 1 (RMagic false) zheld (RWaitL false)).
Qed.

Lemma rw_exclusion_witness :
  zpcs !! 1%nat = Some (RWaitL false) ∧
  reading (RWaitL false) = false ∧ (writing (RWaitL false) = true → 1%nat = 0%nat).
Proof.
  split; [done|].
  apply (rw_exclusion "tasks" 3 zheld zpcs 0 WHeld); [by vm_compute|exact reach_zheld|done..].
Defined.

Lemma rw_counters_exact_witness :
  reader_count zheld = Z.of_nat (count counted zpcs) ∧
  writer_waiting zheld = Z.of_nat (count waiting zpcs) ∧
  rlock zheld = (if (count biased zpcs =? 0)%nat then 0 else RWLOCK_WRITE_BIAS) ∧
  (∀ i, zpcs !! i ≠ Some Panicked).
Proof. apply (rw_counters_exact "tasks" 3); [by vm_compute|exact reach_zheld]. Defined.

Lemma rw_no_deadlock_witness :
  ∃ l', rsteps (zheld, zpcs) (l', [Idle; Idle; Idle]) ∧
        rlock l' = 0 ∧ reader_count l' = 0 ∧ writer_waiting l' = 0.
Proof. apply (rw_no_deadlock "tasks" 3); [by vm_compute|exact reach_zheld]. Defined.

Lemma rw_code_steps_witness :
  ∃ l', write_lock 2 zrw = Ret (tt, l') ∧ rsteps (zrw, [WMagic]) (l', [WHeld]).
Proof.
  destruct (rw_code_steps 0 zrw [WMagic] 0) as (_ & _ & Hw & _); [done|by vm_compute..|].
  by apply Hw.
Defined.
