(* ===== verification/Page.v ===== *)
(** Page descriptors and their flag words: the first half of
    [kernel/include/mm.h].

    [struct page] is a record of the fields the allocator uses; its [lru]
    node lives in the list heap of [Buddy].  The bit primitives the flag
    macros expand to ([test_bit], [set_bit], [clear_bit]) are not defined in
    the sources, so they are the operations of a class with the documented
    behaviour as its laws. *)
From stdpp Require Import base list strings.
From S2P Require Import Prelude CTypes.

(** * Data *)

Inductive page_flag :=
  | PG_locked | PG_error | PG_referenced | PG_uptodate | PG_dirty | PG_lru
  | PG_active | PG_slab | PG_owner_priv_1 | PG_arch_1 | PG_reserved
  | PG_private | PG_private_2 | PG_writeback | PG_head | PG_tail
  | PG_compound | PG_swapcache | PG_mappedtodisk | PG_reclaim
  | PG_swapbacked | PG_unevictable | PG_mlocked | PG_uncached | PG_hwpoison
  | PG_young | PG_idle.

#[export] Instance page_flag_eq_dec : EqDecision page_flag.
Proof. solve_decision. Defined.

(** The bit number of each flag. *)
Definition PG (f : page_flag) : Z :=
  match f with
  | PG_locked => 0 | PG_error => 1 | PG_referenced => 2 | PG_uptodate => 3
  | PG_dirty => 4 | PG_lru => 5 | PG_active => 6 | PG_slab => 7
  | PG_owner_priv_1 => 8 | PG_arch_1 => 9 | PG_reserved => 10
  | PG_private => 11 | PG_private_2 => 12 | PG_writeback => 13
  | PG_head => 14 | PG_tail => 15 | PG_compound => 16 | PG_swapcache => 17
  | PG_mappedtodisk => 18 | PG_reclaim => 19 | PG_swapbacked => 20
  | PG_unevictable => 21 | PG_mlocked => 22 | PG_uncached => 23
  | PG_hwpoison => 24 | PG_young => 25 | PG_idle => 26
  end.

(** [struct page] without its list node.  Pointers are numbers, 0 for NULL. *)
Record page := Page {
  flags : Z;       (* ulong *)
  mapping : Z;
  index : Z;
  private : Z;
  _mapcount : Z;   (* atomic_t *)
  _refcount : Z;   (* atomic_t *)
  virtual : Z;
  waiters : Z;
  pg_zone : Z;
  pgdat : Z
}.

Definition with_flags (v : Z) (p : page) : page :=
  Page v (mapping p) (index p) (private p) (_mapcount p) (_refcount p) (virtual p)
    (waiters p) (pg_zone p) (pgdat p).
Definition with_mapping (v : Z) (p : page) : page :=
  Page (flags p) v (index p) (private p) (_mapcount p) (_refcount p) (virtual p)
    (waiters p) (pg_zone p) (pgdat p).

(** * Flag macros *)

Class BitOps := {
  test_bit : Z → Z → bool;
  set_bit : Z → Z → Z;
  clear_bit : Z → Z → Z
}.

(** The documented meaning of the primitives on bit [n] of a word. *)
Class BitLaws (B : BitOps) := {
  test_bit_spec n w : 0 ≤ n → test_bit n w = Z.testbit w n;
  set_bit_spec n m w : 0 ≤ n → 0 ≤ m →
    Z.testbit (set_bit n w) m = (m =? n) || Z.testbit w m;
  clear_bit_spec n m w : 0 ≤ n → 0 ≤ m →
    Z.testbit (clear_bit n w) m = negb (m =? n) && Z.testbit w m
}.

Section macros.
  Context `{BitOps}.

(** [PageLocked(page)], [PageError(page)], ... *)
Definition PageTest (f : page_flag) (p : page) : bool := test_bit (PG f) (flags p).
(** [SetPageLocked(page)], ... *)
Definition SetPage (f : page_flag) (p : page) : page := with_flags (set_bit (PG f) (flags p)) p.
(** [ClearPageLocked(page)], ... *)
Definition ClearPage (f : page_flag) (p : page) : page :=
  with_flags (clear_bit (PG f) (flags p)) p.
Definition PageCompound : page → bool := PageTest PG_compound.
Definition PageTail : page → bool := PageTest PG_tail.
End macros.

(** The mask of a set of flags, each written [1 << PG_x]. *)
Definition flag_mask (fs : list page_flag) : Z :=
  foldr (λ f m, Z.lor (Z.shiftl 1 (PG f)) m) 0 fs.

(** The flags [clear_page_flags] of [kernel/mm/buddy.c] resets: an [int] mask
    complemented and and-ed into the [ulong] word. *)
Definition CLEARED_FLAGS : list page_flag :=
  [PG_locked; PG_error; PG_referenced; PG_dirty; PG_active; PG_reserved; PG_private; PG_writeback].
Definition clear_page_flags (p : page) : page :=
  with_flags (Z.land (flags p) (wrap 32 (Z.lnot (flag_mask CLEARED_FLAGS)))) p.

(** * Allocation flags *)

Inductive gfp_bit :=
  | __GFP_DMA | __GFP_HIGHMEM | __GFP_DMA32 | __GFP_MOVABLE | __GFP_RECLAIMABLE
  | __GFP_HIGH | __GFP_IO | __GFP_FS | __GFP_COLD | __GFP_NOWARN | __GFP_REPEAT
  | __GFP_NOFAIL | __GFP_NORETRY | __GFP_MEMALLOC | __GFP_COMP | __GFP_ZERO
  | __GFP_NOMEMALLOC | __GFP_HARDWALL | __GFP_THISNODE | __GFP_ATOMIC
  | __GFP_ACCOUNT | __GFP_DIRECT_RECLAIM | __GFP_KSWAPD_RECLAIM | __GFP_WRITE.

#[export] Instance gfp_bit_eq_dec : EqDecision gfp_bit.
Proof. solve_decision. Defined.

Definition gfp (g : gfp_bit) : Z :=
  match g with
  | __GFP_DMA => 0x01 | __GFP_HIGHMEM => 0x02 | __GFP_DMA32 => 0x04
  | __GFP_MOVABLE => 0x08 | __GFP_RECLAIMABLE => 0x10 | __GFP_HIGH => 0x20
  | __GFP_IO => 0x40 | __GFP_FS => 0x80 | __GFP_COLD => 0x100
  | __GFP_NOWARN => 0x200 | __GFP_REPEAT => 0x400 | __GFP_NOFAIL => 0x800
  | __GFP_NORETRY => 0x1000 | __GFP_MEMALLOC => 0x2000 | __GFP_COMP => 0x4000
  | __GFP_ZERO => 0x8000 | __GFP_NOMEMALLOC => 0x10000 | __GFP_HARDWALL => 0x20000
  | __GFP_THISNODE => 0x40000 | __GFP_ATOMIC => 0x80000 | __GFP_ACCOUNT => 0x100000
  | __GFP_DIRECT_RECLAIM => 0x200000 | __GFP_KSWAPD_RECLAIM => 0x400000
  | __GFP_WRITE => 0x800000
  end.

Definition gfp_or (gs : list gfp_bit) : Z := foldr (λ g m, Z.lor (gfp g) m) 0 gs.

Definition __GFP_RECLAIM : Z := Z.lor (gfp __GFP_DIRECT_RECLAIM) (gfp __GFP_KSWAPD_RECLAIM).
Definition GFP_KERNEL : Z := Z.lor (Z.lor __GFP_RECLAIM (gfp __GFP_IO)) (gfp __GFP_FS).
Definition GFP_ATOMIC : Z :=
  Z.lor (Z.lor (gfp __GFP_HIGH) (gfp __GFP_ATOMIC)) (gfp __GFP_KSWAPD_RECLAIM).
Definition GFP_USER : Z := Z.lor GFP_KERNEL (gfp __GFP_HARDWALL).
Definition GFP_HIGHUSER : Z := Z.lor GFP_USER (gfp __GFP_HIGHMEM).
Definition GFP_HIGHUSER_MOVABLE : Z := Z.lor GFP_HIGHUSER (gfp __GFP_MOVABLE).
Definition GFP_DMA : Z := gfp __GFP_DMA.
Definition GFP_DMA32 : Z := gfp __GFP_DMA32.
Definition GFP_NOFS : Z := Z.lor __GFP_RECLAIM (gfp __GFP_IO).
Definition GFP_NOIO : Z := __GFP_RECLAIM.
Definition GFP_NOWAIT : Z := gfp __GFP_KSWAPD_RECLAIM.
Definition GFP_TRANSHUGE_LIGHT : Z :=
  Z.lor (Z.lor GFP_HIGHUSER_MOVABLE (gfp __GFP_COMP)) (gfp __GFP_NOWARN).
Definition GFP_TRANSHUGE : Z :=
  Z.land GFP_TRANSHUGE_LIGHT (wrap 32 (Z.lnot __GFP_RECLAIM)).

(** Whether a request carries a flag: [gfp_flags & __GFP_X]. *)
Definition gfp_has (mask : Z) (g : gfp_bit) : bool := negb (Z.land mask (gfp g) =? 0).

(** * Lemmas *)

Lemma PG_inj f g : PG f = PG g → f = g.
Proof. destruct f, g; simpl; first [done | lia]. Qed.

Lemma PG_range f : 0 ≤ PG f < 27.
Proof. destruct f; simpl; lia. Qed.

Lemma flag_mask_testbit fs n :
  0 ≤ n → Z.testbit (flag_mask fs) n = existsb (λ f, n =? PG f) fs.
Proof.
  intros Hn. induction fs as [|f fs IH]; simpl; [apply Z.bits_0|].
  pose proof (PG_range f). rewrite Z.lor_spec, IH, Z.shiftl_spec by lia. f_equal.
  destruct (Z.eqb_spec n (PG f)) as [->|Hne]; [by rewrite Z.sub_diag|].
  destruct (Z.ltb_spec n (PG f)); [apply Z.testbit_neg_r; lia|].
  change 1 with (2 ^ 0). rewrite Z.pow2_bits_false by lia. done.
Qed.

Lemma existsb_flag f fs : existsb (λ g, PG f =? PG g) fs = bool_decide (f ∈ fs).
Proof.
  induction fs as [|g fs IH]; simpl; [done|]. rewrite IH.
  destruct (Z.eqb_spec (PG f) (PG g)) as [->%PG_inj|Hne]; simpl.
  - symmetry. apply bool_decide_eq_true_2. apply list_elem_of_here.
  - apply bool_decide_ext. rewrite elem_of_cons. naive_solver.
Qed.

(** * Properties *)

Section properties.
  Context `{BitLaws}.

(** The flag macros are independent accessors of one word.  Setting or
    clearing a flag is seen by the test of that flag and by no other test,
    and no other field of the descriptor changes. *)
Theorem page_flags_independent f g p :
  PageTest g (SetPage f p) = (if decide (g = f) then true else PageTest g p) ∧
  PageTest g (ClearPage f p) = (if decide (g = f) then false else PageTest g p) ∧
  with_flags (flags p) (SetPage f p) = p ∧ with_flags (flags p) (ClearPage f p) = p.
Proof.
  pose proof (PG_range f). pose proof (PG_range g).
  unfold PageTest, SetPage, ClearPage; simpl.
  rewrite !test_bit_spec, set_bit_spec, clear_bit_spec by lia.
  replace (PG g =? PG f) with (bool_decide (g = f)).
  - split_and!; [by case_decide; rewrite ?bool_decide_eq_true_2, ?bool_decide_eq_false_2
      by done..|by destruct p|by destruct p].
  - apply eq_bool_prop_intro. rewrite bool_decide_spec, Is_true_true, Z.eqb_eq.
    split; [congruence|apply PG_inj].
Qed.

(** Preparing a page for its new owner clears exactly the eight status
    flags named by [clear_page_flags] and keeps every other flag, whatever
    the 32-bit flag word held. *)
Theorem clear_page_flags_exact f p :
  0 ≤ flags p < 2 ^ 32 →
  PageTest f (clear_page_flags p) =
    if decide (f ∈ CLEARED_FLAGS) then false else PageTest f p.
Proof.
  intros Hp. pose proof (PG_range f). unfold PageTest, clear_page_flags, with_flags; cbn [flags].
  rewrite !test_bit_spec, Z.land_spec, wrap_testbit, Z.lnot_spec, flag_mask_testbit, existsb_flag
    by lia.
  rewrite (proj2 (Z.ltb_lt _ _)) by lia. case_decide as Hf.
  - rewrite bool_decide_eq_true_2 by done. by rewrite andb_false_r.
  - rewrite bool_decide_eq_false_2 by done. by rewrite andb_true_r.
Qed.
End properties.

(** The composite allocation masks carry exactly the flags their
    definitions list, so a mask can be tested flag by flag. *)
Theorem gfp_masks_decode g :
  gfp_has GFP_KERNEL g =
    bool_decide (g ∈ [__GFP_DIRECT_RECLAIM; __GFP_KSWAPD_RECLAIM; __GFP_IO; __GFP_FS]) ∧
  gfp_has GFP_ATOMIC g = bool_decide (g ∈ [__GFP_HIGH; __GFP_ATOMIC; __GFP_KSWAPD_RECLAIM]) ∧
  gfp_has GFP_NOFS g =
    bool_decide (g ∈ [__GFP_DIRECT_RECLAIM; __GFP_KSWAPD_RECLAIM; __GFP_IO]) ∧
  gfp_has GFP_HIGHUSER_MOVABLE g =
    bool_decide (g ∈ [__GFP_DIRECT_RECLAIM; __GFP_KSWAPD_RECLAIM; __GFP_IO; __GFP_FS;
                      __GFP_HARDWALL; __GFP_HIGHMEM; __GFP_MOVABLE]) ∧
  gfp_has GFP_TRANSHUGE g =
    bool_decide (g ∈ [__GFP_IO; __GFP_FS; __GFP_HARDWALL; __GFP_HIGHMEM; __GFP_MOVABLE;
                      __GFP_COMP; __GFP_NOWARN]).
Proof. destruct g; vm_compute; done. Qed.

(** * A concrete instance of the bit primitives *)

#[export] Instance z_bits : BitOps := {|
  test_bit n w := Z.testbit w n;
  set_bit n w := Z.lor w (2 ^ n);
  clear_bit n w := Z.ldiff w (2 ^ n)
|}.

#[export] Instance z_bits_laws : BitLaws z_bits.
Proof.
  split; simpl; intros.
  - done.
  - rewrite Z.lor_spec, Z.pow2_bits_eqb by lia. rewrite orb_comm. f_equal. apply Z.eqb_sym.
  - rewrite Z.ldiff_spec, Z.pow2_bits_eqb by lia. rewrite andb_comm. do 2 f_equal. apply Z.eqb_sym.
Qed.

Definition page0 : page := Page 0x2c01 0 0 0 (-1) 0 0 0 0 0.

Lemma page_flags_independent_witness :
  PageTest PG_dirty (SetPage PG_dirty page0) = true ∧
  PageTest PG_dirty (ClearPage PG_dirty page0) = false ∧
  with_flags (flags page0) (SetPage PG_dirty page0) = page0 ∧
  with_flags (flags page0) (ClearPage PG_dirty page0) = page0.
Proof. exact (page_flags_independent PG_dirty PG_dirty page0). Defined.

Lemma clear_page_flags_exact_witness :
  PageTest PG_reserved (clear_page_flags page0) = false ∧
  PageTest PG_private_2 (clear_page_flags page0) = PageTest PG_private_2 page0.
Proof.
  split; [apply (clear_page_flags_exact PG_reserved page0)
         |apply (clear_page_flags_exact PG_private_2 page0)]; by vm_compute.
Defined.
