(* ===== verification/Buddy.v ===== *)
(** The buddy page allocator: [kernel/mm/buddy.c] on the structures of
    [kernel/include/mm.h].

    The state [mm] is what the C code works on: the page descriptors indexed
    by page frame number, the heap of [struct list_head] nodes (list heads of
    the zones and the [lru] nodes of the pages), the zones, and the file's
    static variables.  A [struct page *] is the index of the descriptor in
    the memory map, so that pointer arithmetic is exact and a pointer outside
    the map faults when it is followed.

    What [buddy.c] calls and nobody in the sources defines ([PageBuddy],
    [page_order], [page_zone_id], ...) is class [PageLib]. *)
From stdpp Require Import base gmap list strings fin_maps.
From S2P Require Import Prelude CTypes ListHead Spinlock Page.

(** * Data *)

(** Every [struct list_head] of the allocator. *)
Inductive node :=
  | FreeHead (z order mt : Z)   (* zone z's free_area[order].free_list[mt] *)
  | PcpHead (z cpu mt : Z)      (* per_cpu_pageset[cpu].lists[mt] *)
  | LruHead (z k : Z)           (* lruvec.lists[k] *)
  | PageLru (pfn : Z).          (* page->lru *)

#[export] Instance node_eq_dec : EqDecision node.
Proof. solve_decision. Defined.
#[export] Instance node_countable : Countable node.
Proof.
  refine (inj_countable'
    (λ n, match n with
          | FreeHead z o m => (0, z, o, m) | PcpHead z c m => (1, z, c, m)
          | LruHead z k => (2, z, k, 0) | PageLru p => (3, p, 0, 0) end)
    (λ t, match t with
          | (0, z, o, m) => FreeHead z o m | (1, z, c, m) => PcpHead z c m
          | (2, z, k, _) => LruHead z k | (_, p, _, _) => PageLru p end) _).
  by intros [].
Defined.

Definition lptr : Type := ptr node.

Record zone_t := Zone {
  watermark : list Z;         (* ulong [NR_WMARK] *)
  zlock : spinlock_t;         (* lock *)
  z_free_pages : Z;           (* ulong free_pages *)
  nr_free : list Z;           (* ulong free_area[order].nr_free *)
  pages_scanned : Z;
  lru_lock : spinlock_t;
  compact_cached_free_pfn : Z;
  compact_cached_migrate_pfn : Z * Z;
  compact_init_migrate_pfn : Z;
  compact_init_free_pfn : Z;
  compact_considered : Z;
  compact_defer_shift : Z;
  compact_order_failed : Z;
  vm_stat : list Z;
  zone_start_pfn : Z;
  managed_pages : Z;
  spanned_pages : Z;
  present_pages : Z;
  wait_table : Z;
  wait_table_hash_nr_entries : Z;
  wait_table_bits : Z
}.

Definition with_zlock (v : spinlock_t) (z : zone_t) : zone_t :=
  Zone (watermark z) v (z_free_pages z) (nr_free z) (pages_scanned z) (lru_lock z)
    (compact_cached_free_pfn z) (compact_cached_migrate_pfn z) (compact_init_migrate_pfn z)
    (compact_init_free_pfn z) (compact_considered z) (compact_defer_shift z)
    (compact_order_failed z) (vm_stat z) (zone_start_pfn z) (managed_pages z) (spanned_pages z)
    (present_pages z) (wait_table z) (wait_table_hash_nr_entries z) (wait_table_bits z).
Definition with_free (fp : Z) (nr : list Z) (z : zone_t) : zone_t :=
  Zone (watermark z) (zlock z) fp nr (pages_scanned z) (lru_lock z)
    (compact_cached_free_pfn z) (compact_cached_migrate_pfn z) (compact_init_migrate_pfn z)
    (compact_init_free_pfn z) (compact_considered z) (compact_defer_shift z)
    (compact_order_failed z) (vm_stat z) (zone_start_pfn z) (managed_pages z) (spanned_pages z)
    (present_pages z) (wait_table z) (wait_table_hash_nr_entries z) (wait_table_bits z).
Definition with_vm_stat (v : list Z) (z : zone_t) : zone_t :=
  Zone (watermark z) (zlock z) (z_free_pages z) (nr_free z) (pages_scanned z) (lru_lock z)
    (compact_cached_free_pfn z) (compact_cached_migrate_pfn z) (compact_init_migrate_pfn z)
    (compact_init_free_pfn z) (compact_considered z) (compact_defer_shift z)
    (compact_order_failed z) v (zone_start_pfn z) (managed_pages z) (spanned_pages z)
    (present_pages z) (wait_table z) (wait_table_hash_nr_entries z) (wait_table_bits z).

(** [struct per_cpu_pages] without its list heads. *)
Record per_cpu_pages := Pcp { pcp_count : Z; pcp_high : Z; pcp_batch : Z }.

Record mm := MM {
  pages : gmap Z page;
  links : gmap node (list_head node);
  zones : gmap Z zone_t;
  pcps : gmap (Z * Z) per_cpu_pages;   (* by zone and CPU *)
  zone_table : list (option Z);        (* static zones[MAX_NR_ZONES] *)
  nr_zones : Z;
  total_pages : Z;
  free_pages_total : Z;                (* static free_pages *)
  reserved_pages : Z;
  zone_lock : spinlock_t;
  vm_events : Z;                       (* the PGFREE counter *)
  irq_on : bool                        (* interrupts enabled *)
}.

Definition with_pages (v : gmap Z page) (s : mm) : mm :=
  MM v (links s) (zones s) (pcps s) (zone_table s) (nr_zones s) (total_pages s)
    (free_pages_total s) (reserved_pages s) (zone_lock s) (vm_events s) (irq_on s).
Definition with_links (v : gmap node (list_head node)) (s : mm) : mm :=
  MM (pages s) v (zones s) (pcps s) (zone_table s) (nr_zones s) (total_pages s)
    (free_pages_total s) (reserved_pages s) (zone_lock s) (vm_events s) (irq_on s).
Definition with_zones (v : gmap Z zone_t) (s : mm) : mm :=
  MM (pages s) (links s) v (pcps s) (zone_table s) (nr_zones s) (total_pages s)
    (free_pages_total s) (reserved_pages s) (zone_lock s) (vm_events s) (irq_on s).
Definition with_pcps (v : gmap (Z * Z) per_cpu_pages) (s : mm) : mm :=
  MM (pages s) (links s) (zones s) v (zone_table s) (nr_zones s) (total_pages s)
    (free_pages_total s) (reserved_pages s) (zone_lock s) (vm_events s) (irq_on s).
Definition with_zone_table (v : list (option Z)) (n : Z) (s : mm) : mm :=
  MM (pages s) (links s) (zones s) (pcps s) v n (total_pages s)
    (free_pages_total s) (reserved_pages s) (zone_lock s) (vm_events s) (irq_on s).
Definition with_free_total (v : Z) (s : mm) : mm :=
  MM (pages s) (links s) (zones s) (pcps s) (zone_table s) (nr_zones s) (total_pages s)
    v (reserved_pages s) (zone_lock s) (vm_events s) (irq_on s).
Definition with_zone_lock (l : spinlock_t) (s : mm) : mm :=
  MM (pages s) (links s) (zones s) (pcps s) (zone_table s) (nr_zones s) (total_pages s)
    (free_pages_total s) (reserved_pages s) l (vm_events s) (irq_on s).
Definition with_events (v : Z) (s : mm) : mm :=
  MM (pages s) (links s) (zones s) (pcps s) (zone_table s) (nr_zones s) (total_pages s)
    (free_pages_total s) (reserved_pages s) (zone_lock s) v (irq_on s).
Definition with_irq (b : bool) (s : mm) : mm :=
  MM (pages s) (links s) (zones s) (pcps s) (zone_table s) (nr_zones s) (total_pages s)
    (free_pages_total s) (reserved_pages s) (zone_lock s) (vm_events s) b.

Definition MIGRATE_UNMOVABLE : Z := 0.
Definition MIGRATE_MOVABLE : Z := 1.
Definition MIGRATE_RECLAIMABLE : Z := 2.
Definition MIGRATE_RESERVE : Z := 3.
Definition MIGRATE_CMA : Z := 4.
Definition MIGRATE_ISOLATE : Z := 5.

(** * Code the sources call but do not define *)

Class PageLib := {
  PageBuddy : page → bool;
  __SetPageBuddy : page → page;
  __ClearPageBuddy : page → page;
  set_page_private : Z → page → page;
  page_order : page → Z;
  set_page_order : Z → page → page;
  page_zone_id : page → Z;
  __SetPageGuard : page → page;
  __ClearPageGuard : page → page;
  get_freepage_migratetype : page → Z;
  set_freepage_migratetype : Z → page → page;
  page_bits :: BitOps;
  PageAnon : page → bool;
  page_mapcount : page → Z;
  page_ref_count : page → Z;
  set_page_count : Z → page → page;
  put_page_testzero : page → bool * page;
  page_zone : page → Z;
  set_page_zone : Z → page → page;
  set_page_node : Z → page → page;
  clear_page : page → page;
  init_page_waiters : page → page;
  page_cpupid_reset_last : page → page;
  bad_page : page → page;
  PAGE_FLAGS_CHECK_AT_PREP : Z;
  PAGE_FLAGS_CHECK_AT_FREE : Z;
  pfn_valid_within : Z → bool;
  DEBUG_GUARDPAGE_MINORDER : Z;
  pageblock_order : Z;
  pageblock_nr_pages : Z;
  NR_FREE_PAGES : Z;
  __mod_zone_page_state : Z → Z → list Z → list Z;   (* item, delta, vm_stat *)
  __count_vm_events : Z → Z → Z;                      (* delta, PGFREE counter *)
  zone_end_pfn : zone_t → Z;
  CONFIG_DEBUG_VM : bool;      (* whether VM_BUG_ON checks *)
  zone_is_initialized : zone_t → bool;
  allocflags_to_migratetype : Z → Z;
  first_zone : Z → option Z;   (* first_zones_zonelist of a gfp mask *)
  zone_idx : Z → Z;
  zone_to_nid : Z → Z;
  virt_addr_valid : Z → bool;
  virt_to_page : Z → Z;
  page_address : Z → Z
}.

(** Moving a batch of pages from a CPU's list to the zone. *)
Class PcpLib := { free_pcppages_bulk : Z → Z → Z → M mm unit }.

(** * Accesses *)

Definition page_at (p : Z) : M mm page := get_some (λ s, pages s !! p).
(** A write through a page pointer. *)
Definition upd_page (p : Z) (f : page → page) : M mm unit := λ s,
  match pages s !! p with
  | Some pg => Ret (tt, with_pages (<[p := f pg]> (pages s)) s)
  | None => Fault
  end.
Definition zone_at (z : Z) : M mm zone_t := get_some (λ s, zones s !! z).
Definition upd_zone (z : Z) (f : zone_t → zone_t) : M mm unit := λ s,
  match zones s !! z with
  | Some zn => Ret (tt, with_zones (<[z := f zn]> (zones s)) s)
  | None => Fault
  end.
Definition on_links {A} (m : M (gmap node (list_head node)) A) : M mm A :=
  zoom links with_links m.
(** [free_area[order].nr_free], out of bounds a fault. *)
Definition rd_nr_free (z order : Z) : M mm Z :=
  zn ← zone_at z; get_some (λ _, if order <? 0 then None else nr_free zn !! Z.to_nat order).
(** [area->nr_free += d; zone->free_pages += d * (1UL << order)], in that
    order in the code; both are [ulong]. *)
Definition count_block (z order d : Z) : M mm unit :=
  n ← rd_nr_free z order;
  upd_zone z (λ zn, with_free (z_free_pages zn) (<[Z.to_nat order := n +[32] d]> (nr_free zn)) zn);;
  upd_zone z (λ zn, with_free (z_free_pages zn +[32] d * Z.shiftl 1 order) (nr_free zn) zn).

(** [list_first_entry(head, struct page, lru)]: the page a node belongs to;
    a node that is not some page's [lru] gives a pointer into no page. *)
Definition page_of (p : lptr) : option Z :=
  match p with Ptr (PageLru pfn) => Some pfn | _ => None end.
Definition list_first_entry (head : lptr) : M mm Z :=
  n ← on_links (rd_next head); get_some (λ _, page_of n).

Section buddy.
  Context `{PageLib}.
  (** The CPU that runs the code, its return address and the bound on its
      spins. *)
  Context (cpu ra : Z) (fuel : nat).

(** * Free lists *)

Definition __del_page_from_free_list (page z order : Z) : M mm unit :=
  upd_page page __ClearPageBuddy;;
  upd_page page (set_page_private 0);;
  on_links (list_del (Ptr (PageLru page)));;
  count_block z order (-1).

Definition __add_page_to_free_list (page z order mt : Z) : M mm unit :=
  on_links (list_add (Ptr (PageLru page)) (Ptr (FreeHead z order mt)));;
  upd_page page __SetPageBuddy;;
  upd_page page (set_page_private order);;
  count_block z order 1.

Definition set_page_guard (page order : Z) : M mm unit :=
  if DEBUG_GUARDPAGE_MINORDER <=? order then
    upd_page page __SetPageGuard;; upd_page page (set_page_private order)
  else mret tt.

Definition clear_page_guard (page order : Z) : M mm unit :=
  if DEBUG_GUARDPAGE_MINORDER <=? order then
    upd_page page __ClearPageGuard;; upd_page page (set_page_private 0)
  else mret tt.

(** * Buddies *)

(** [page_pfn ^ (1 << order)] as a [ulong]. *)
Definition __find_buddy_pfn (page_pfn order : Z) : Z :=
  wrap 32 (Z.lxor page_pfn (Z.shiftl 1 order)).

Definition get_buddy_page (page order : Z) : Z := __find_buddy_pfn (wrap 32 page) order.

(** Both pointers come from arithmetic on the memory map and are not null. *)
Definition page_is_buddy (page buddy order : Z) : M mm bool :=
  b ← page_at buddy;
  if negb (PageBuddy b) then mret false
  else if negb (page_order b =? order) then mret false
  else
    p ← page_at page;
    if negb (page_zone_id p =? page_zone_id b) then mret false else mret true.

(** * Allocation *)

(** The loop of [expand]; [size] halves as [high] comes down to [low]. *)
Fixpoint expand_loop (n : nat) (z page low high size mt : Z) : M mm unit :=
  match n with
  | O => out_of_fuel
  | S n =>
      if low <? high then
        let high := high - 1 in
        let size := Z.shiftr size 1 in
        __add_page_to_free_list (page + size) z high mt;;
        set_page_guard (page + size) high;;
        expand_loop n z page low high size mt
      else mret tt
  end.
Definition expand (z page low high mt : Z) : M mm unit :=
  expand_loop (S (Z.to_nat (high - low))) z page low high (wrap 32 (Z.shiftl 1 high)) mt.

Fixpoint rmqueue_smallest_loop (n : nat) (z order current_order mt : Z) : M mm (option Z) :=
  match n with
  | O => out_of_fuel
  | S n =>
      if current_order <? MAX_ORDER then
        e ← on_links (list_empty (Ptr (FreeHead z current_order mt)));
        if (e : bool) then rmqueue_smallest_loop n z order (current_order +[32] 1) mt
        else
          page ← list_first_entry (Ptr (FreeHead z current_order mt));
          __del_page_from_free_list page z current_order;;
          expand z page order current_order mt;;
          upd_page page (set_freepage_migratetype mt);;
          mret (Some page)
      else mret None
  end.
Definition __rmqueue_smallest (z order mt : Z) : M mm (option Z) :=
  rmqueue_smallest_loop (S (Z.to_nat MAX_ORDER)) z order order mt.

(** ** Falling back to another migrate type *)

(** The table declared in [__rmqueue_fallback] and used in
    [find_suitable_fallback]; C fills the missing entries of a row with 0. *)
Definition fallbacks : list (list Z) :=
  [ [MIGRATE_RECLAIMABLE; MIGRATE_MOVABLE; MIGRATE_TYPES; 0];
    [MIGRATE_RECLAIMABLE; MIGRATE_UNMOVABLE; MIGRATE_TYPES; 0];
    [MIGRATE_UNMOVABLE; MIGRATE_MOVABLE; MIGRATE_TYPES; 0];
    [MIGRATE_RESERVE; 0; 0; 0];
    [MIGRATE_TYPES; 0; 0; 0];
    [MIGRATE_TYPES; 0; 0; 0] ].

Definition can_steal_fallback (order start_mt : Z) : bool :=
  (pageblock_order <=? order) || (start_mt =? MIGRATE_MOVABLE).

(** The loop of [find_suitable_fallback] over one row of the table; running
    off the row is a fault.  It returns the type and [can_steal], or [None]
    for -1. *)
Fixpoint fallback_loop (row : list Z) (z order mt : Z) (only_stealable steal : bool) :
    M mm (option (Z * bool)) :=
  match row with
  | [] => fault
  | fb :: row =>
      if fb =? MIGRATE_TYPES then mret None
      else
        e ← on_links (list_empty (Ptr (FreeHead z order fb)));
        if (e : bool) then fallback_loop row z order mt only_stealable steal
        else
          let steal := can_steal_fallback order mt || steal in
          if negb only_stealable then mret (Some (fb, steal))
          else if steal then mret (Some (fb, steal))
          else fallback_loop row z order mt only_stealable steal
  end.
Definition find_suitable_fallback (z order mt : Z) (only_stealable : bool) :
    M mm (option (Z * bool)) :=
  n ← rd_nr_free z order;
  if n =? 0 then mret None
  else
    row ← get_some (λ _, if mt <? 0 then None else fallbacks !! Z.to_nat mt);
    fallback_loop row z order mt only_stealable false.

(** [page++] or [page += 1 << order] up to [end_page]; the result is the
    number of pages moved, an [int]. *)
Fixpoint move_freepages (n : nat) (z page end_page mt moved : Z) : M mm Z :=
  match n with
  | O => out_of_fuel
  | S n =>
      if end_page <? page then mret moved
      else if negb (pfn_valid_within (wrap 32 page)) then
        move_freepages n z (page + 1) end_page mt moved
      else
        pg ← page_at page;
        if negb (PageBuddy pg) then move_freepages n z (page + 1) end_page mt moved
        else
          let order := page_order pg in
          __del_page_from_free_list page z order;;
          __add_page_to_free_list page z order mt;;
          move_freepages n z (page + Z.shiftl 1 order) end_page mt
            (swrap 32 (moved + Z.shiftl 1 order))
  end.

Definition move_freepages_block (z page mt : Z) : M mm Z :=
  let start_pfn := Z.land (wrap 32 page) (wrap 32 (Z.lnot (pageblock_nr_pages - 1))) in
  let end_page := start_pfn + pageblock_nr_pages - 1 in
  let end_pfn := wrap 32 (start_pfn + pageblock_nr_pages - 1) in
  zn ← zone_at z;
  let start_page := if start_pfn <? zone_start_pfn zn then zone_start_pfn zn else start_pfn in
  if zone_end_pfn zn <=? end_pfn then mret 0
  else move_freepages (S (Z.to_nat pageblock_nr_pages)) z start_page end_page mt 0.

(** [set_pageblock_migratetype] has an empty body and
    [get_pageblock_migratetype] always answers [MIGRATE_UNMOVABLE]. *)
Definition set_pageblock_migratetype (page : option Z) (mt : Z) : M mm unit := mret tt.
Definition get_pageblock_migratetype (page : option Z) : M mm Z :=
  match page with None => mret MIGRATE_UNMOVABLE | Some _ => mret MIGRATE_UNMOVABLE end.

Definition steal_suitable_fallback (z page start_type : Z) : M mm unit :=
  pg ← page_at page;
  let current_order := page_order pg in
  if current_order <? pageblock_order then mret tt
  else
    set_pageblock_migratetype (Some page) start_type;;
    move_freepages_block z page start_type;; mret tt.

(** The unsigned counter: below 0 it wraps to 2^32 - 1. *)
Fixpoint rmqueue_fallback_loop (n : nat) (z order current_order start_mt : Z) :
    M mm (option Z) :=
  match n with
  | O => out_of_fuel
  | S n =>
      if order <=? current_order then
        fb ← find_suitable_fallback z current_order start_mt false;
        match fb with
        | None => rmqueue_fallback_loop n z order (current_order -[32] 1) start_mt
        | Some (fallback_mt, can_steal) =>
            page ← list_first_entry (Ptr (FreeHead z current_order fallback_mt));
            __del_page_from_free_list page z current_order;;
            (if (can_steal : bool) then steal_suitable_fallback z page start_mt else mret tt);;
            expand z page order current_order start_mt;;
            upd_page page (set_freepage_migratetype start_mt);;
            mret (Some page)
        end
      else mret None
  end.
Definition __rmqueue_fallback (z order start_mt : Z) : M mm (option Z) :=
  rmqueue_fallback_loop (S (S (Z.to_nat MAX_ORDER))) z order (MAX_ORDER - 1) start_mt.

(** ** Preparing the pages of a block *)

(** The body of the loop for one page. *)
Definition prep_one (gfp_flags : Z) (p : Z) : M mm unit :=
  upd_page p clear_page_flags;;
  upd_page p (set_page_count 1);;
  (if gfp_has gfp_flags __GFP_ZERO then upd_page p clear_page else mret tt);;
  upd_page p (set_page_private 0);;
  upd_page p init_page_waiters.
Fixpoint prep_loop (n : nat) (page gfp_flags i : Z) : M mm unit :=
  match n with
  | O => mret tt
  | S n => prep_one gfp_flags (page + i);; prep_loop n page gfp_flags (i + 1)
  end.
(** [for (i = 0; i < (1 << order); i++)] *)
Definition prep_new_page (page order gfp_flags : Z) : M mm unit :=
  prep_loop (Z.to_nat (Z.shiftl 1 order)) page gfp_flags 0.

(** ** The zone lock *)

(** Lock operations on [zone->lock] and the interrupt flag. *)
Definition on_zlock {A} (z : Z) (m : M (spinlock_t * bool) A) : M mm A := λ s,
  match zones s !! z with
  | None => Fault
  | Some zn =>
      match m (zlock zn, irq_on s) with
      | Ret (a, (l, b)) =>
          Ret (a, with_irq b (with_zones (<[z := with_zlock l zn]> (zones s)) s))
      | Fault => Fault
      | Panic msg => Panic msg
      | OutOfFuel => OutOfFuel
      end
  end.

Definition rmqueue (z order gfp_flags mt : Z) : M mm (option Z) :=
  flags ← on_zlock z (spin_lock_irqsave cpu ra fuel);
  page ← __rmqueue_smallest z order mt;
  page ← (match page with Some p => mret (Some p) | None => __rmqueue_fallback z order mt end);
  on_zlock z (spin_unlock_irqrestore cpu flags);;
  match page with
  | Some p =>
      prep_new_page p order gfp_flags;;
      upd_zone z (λ zn, with_vm_stat
        (__mod_zone_page_state NR_FREE_PAGES (- Z.shiftl 1 order) (vm_stat zn)) zn);;
      mret (Some p)
  | None => mret None
  end.

Definition alloc_pages (gfp_mask order : Z) : M mm (option Z) :=
  let migratetype := allocflags_to_migratetype gfp_mask in
  match first_zone gfp_mask with
  | None => mret None
  | Some z =>
      page ← rmqueue z order gfp_mask migratetype;
      match page with
      | Some p =>
          modify (λ s, with_free_total (free_pages_total s -[32] Z.shiftl 1 order) s);;
          upd_page p (set_page_zone (zone_idx z));;
          upd_page p (set_page_node (zone_to_nid z));;
          mret (Some p)
      | None => mret None
      end
  end.

Definition alloc_page (gfp_mask : Z) : M mm (option Z) := alloc_pages gfp_mask 0.

(** The page's address as a [ulong], 0 on failure. *)
Definition __get_free_pages (gfp_mask order : Z) : M mm Z :=
  page ← alloc_pages gfp_mask order;
  match page with
  | None => mret 0
  | Some p => mret (wrap 32 (page_address p))
  end.
Definition __get_free_page (gfp_mask : Z) : M mm Z := __get_free_pages gfp_mask 0.
Definition get_zeroed_page (gfp_mask : Z) : M mm Z :=
  __get_free_pages (Z.lor gfp_mask (gfp __GFP_ZERO)) 0.

(** * Freeing *)

Definition VM_BUG_ON (b : bool) : M mm unit :=
  if CONFIG_DEBUG_VM && b then panic_with "VM_BUG_ON" else mret tt.

(** The merge loop.  [buddy_pfn - pfn] and [combined_pfn - pfn] are [ulong]
    differences, added to a page pointer. *)
Fixpoint merge_loop (n : nat) (page pfn z order mt : Z) : M mm unit :=
  match n with
  | O => out_of_fuel
  | S n =>
      let done :=
        upd_page page (set_page_order order);;
        __add_page_to_free_list page z order mt in
      if order <? MAX_ORDER - 1 then
        let buddy_pfn := __find_buddy_pfn pfn order in
        let buddy := page + (buddy_pfn -[32] pfn) in
        b ← page_is_buddy page buddy order;
        if negb b then done
        else
          __del_page_from_free_list buddy z order;;
          let combined_pfn := Z.land buddy_pfn pfn in
          let combined_page := page + (combined_pfn -[32] pfn) in
          merge_loop n combined_page combined_pfn z (order + 1) mt
      else done
  end.
Definition __free_one_page (page pfn z order mt : Z) : M mm unit :=
  zn ← zone_at z;
  VM_BUG_ON (negb (zone_is_initialized zn));;
  pg ← page_at page;
  VM_BUG_ON (negb (Z.land (flags pg) PAGE_FLAGS_CHECK_AT_PREP =? 0));;
  VM_BUG_ON (mt =? -1);;
  merge_loop (S (Z.to_nat MAX_ORDER)) page pfn z order mt.

(** Plain [spin_lock]/[spin_unlock] of [zone->lock]. *)
Definition free_one_page (z page pfn order mt : Z) : M mm unit :=
  on_zlock z (on_lock (spin_lock cpu ra fuel));;
  __free_one_page page pfn z order mt;;
  on_zlock z (on_lock (spin_unlock cpu)).

(** The checks of [free_page_check], in order; the last one that holds names
    the reason, any of them makes the page bad. *)
Definition page_is_bad (pg : page) : bool :=
  negb (page_mapcount pg =? 0) || negb (mapping pg =? 0) || negb (page_ref_count pg =? 0) ||
  negb (Z.land (flags pg) PAGE_FLAGS_CHECK_AT_FREE =? 0).
Definition clear_prep_flags (pg : page) : page :=
  with_flags (Z.land (flags pg) (wrap 32 (Z.lnot PAGE_FLAGS_CHECK_AT_PREP))) pg.
Definition free_page_check (p : Z) : M mm Z :=
  pg ← page_at p;
  if page_is_bad pg then upd_page p bad_page;; mret 1
  else
    upd_page p page_cpupid_reset_last;;
    pg ← page_at p;
    (if negb (Z.land (flags pg) PAGE_FLAGS_CHECK_AT_PREP =? 0)
     then upd_page p clear_prep_flags else mret tt);;
    mret 0.

Fixpoint free_check_loop (n : nat) (page i bad : Z) : M mm Z :=
  match n with
  | O => mret bad
  | S n =>
      pg ← page_at (page + i);
      (if PageAnon pg then upd_page (page + i) (with_mapping 0) else mret tt);;
      b ← free_page_check (page + i);
      free_check_loop n page (i + 1) (bad + b)
  end.
(** [compound_order], the tracing and debugging hooks of the function have no
    effect on the allocator; [PageCompound] pages are checked through
    [PageTail] and the order the caller passes. *)
Definition free_page_prepare (compound_order : page → Z) (page order : Z) : M mm bool :=
  pg ← page_at page;
  VM_BUG_ON (PageTail pg);;
  VM_BUG_ON (PageCompound pg && negb (compound_order pg =? order));;
  bad ← free_check_loop (Z.to_nat (Z.shiftl 1 order)) page 0 0;
  if negb (bad =? 0) then mret false
  else
    upd_page page page_cpupid_reset_last;;
    upd_page page clear_prep_flags;;
    mret true.

Section free.
  Context (compound_order : page → Z) `{PcpLib}.

(** [local_irq_save(flags)] and [local_irq_restore(flags)]. *)
Definition irq_save : M mm bool := b ← gets irq_on; modify (with_irq false);; mret b.
Definition irq_restore (b : bool) : M mm unit := modify (with_irq b).

Definition __free_pages_ok (page order : Z) : M mm unit :=
  ok ← free_page_prepare compound_order page order;
  if negb ok then mret tt
  else
    pg ← page_at page;
    let migratetype := get_freepage_migratetype pg in
    flags ← irq_save;
    modify (λ s, with_events (__count_vm_events (Z.shiftl 1 order) (vm_events s)) s);;
    pg ← page_at page;
    free_one_page (page_zone pg) page (wrap 32 page) order migratetype;;
    irq_restore flags.

Definition upd_pcp (z c : Z) (f : per_cpu_pages → per_cpu_pages) : M mm unit := λ s,
  match pcps s !! (z, c) with
  | Some p => Ret (tt, with_pcps (<[(z, c) := f p]> (pcps s)) s)
  | None => Fault
  end.

Definition free_hot_cold_page (page : Z) (cold : bool) : M mm unit :=
  pg ← page_at page;
  let z := page_zone pg in
  ok ← free_page_prepare compound_order page 0;
  if negb ok then mret tt
  else
    pg ← page_at page;
    let migratetype := get_freepage_migratetype pg in
    flags ← irq_save;
    modify (λ s, with_events (__count_vm_events 1 (vm_events s)) s);;
    (if cold
     then on_links (list_add_tail (Ptr (PageLru page)) (Ptr (PcpHead z cpu migratetype)))
     else on_links (list_add (Ptr (PageLru page)) (Ptr (PcpHead z cpu migratetype))));;
    upd_pcp z cpu (λ p, Pcp (swrap 32 (pcp_count p + 1)) (pcp_high p) (pcp_batch p));;
    pcp ← get_some (λ s, pcps s !! (z, cpu));
    (if pcp_high pcp <=? pcp_count pcp then
       let batch := wrap 32 (pcp_batch pcp) in
       free_pcppages_bulk z batch cpu;;
       upd_pcp z cpu (λ p, Pcp (swrap 32 (pcp_count p - batch)) (pcp_high p) (pcp_batch p))
     else mret tt);;
    irq_restore flags.

Definition __free_pages (page order : Z) : M mm unit :=
  pg ← page_at page;
  let (zero, pg') := put_page_testzero pg in
  upd_page page (λ _, pg');;
  if zero then
    if order =? 0 then free_hot_cold_page page false else __free_pages_ok page order
  else mret tt.

(** The function [free_pages]; the static variable of the same name is
    [free_pages_total]. *)
Definition free_pages (addr order : Z) : M mm unit :=
  if negb (addr =? 0) then
    VM_BUG_ON (negb (virt_addr_valid addr));;
    __free_pages (virt_to_page addr) order
  else mret tt.
Definition free_page (addr : Z) : M mm unit := free_pages addr 0.
End free.
End buddy.

(** * Set-up and statistics *)

Definition buddy_init : M mm unit :=
  modify (with_zone_lock (SpinLock SPINLOCK_UNLOCKED NO_CPU 0 "unknown" SPINLOCK_MAGIC));;
  modify (λ s, with_zone_table (replicate (Z.to_nat MAX_NR_ZONES) None) (nr_zones s) s).

(** The two nested loops of [init_zone], as the sequence of (order, migrate
    type) pairs they visit. *)
Fixpoint init_free_lists (z : Z) (todo : list (Z * Z)) : M mm unit :=
  match todo with
  | [] => mret tt
  | (order, mt) :: todo =>
      on_links (INIT_LIST_HEAD (Ptr (FreeHead z order mt)));; init_free_lists z todo
  end.
Fixpoint init_lru_lists (z : Z) (todo : list Z) : M mm unit :=
  match todo with
  | [] => mret tt
  | k :: todo => on_links (INIT_LIST_HEAD (Ptr (LruHead z k)));; init_lru_lists z todo
  end.
Definition orders_and_types : list (Z * Z) :=
  flat_map (λ o, (λ mt, (o, mt)) <$> seqZ 0 MIGRATE_TYPES) (seqZ 0 MAX_ORDER).

Definition fresh_spinlock : spinlock_t :=
  SpinLock SPINLOCK_UNLOCKED NO_CPU 0 "unknown" SPINLOCK_MAGIC.

(** The zone's fields as [init_zone] leaves them. *)
Definition init_zone_fields (start_pfn size : Z) (zn : zone_t) : zone_t :=
  Zone [size / 256; size / 128; size / 64] fresh_spinlock 0
    (replicate (Z.to_nat MAX_ORDER) 0) 0 fresh_spinlock
    start_pfn (start_pfn, start_pfn) start_pfn (start_pfn +[32] size) 0 0 (-1)
    (vm_stat zn) start_pfn size size size 0 0 0.

(** [zone_lock] with the interrupt flag. *)
Definition on_zone_lock {A} (m : M (spinlock_t * bool) A) : M mm A :=
  zoom (λ s, (zone_lock s, irq_on s)) (λ t s, with_irq (snd t) (with_zone_lock (fst t) s)) m.

(** [return -EINVAL] with [EINVAL = -3]. *)
Definition init_zone (cpu ra : Z) (fuel : nat) (zone : option Z) (start_pfn size : Z) : M mm Z :=
  match zone with
  | None => mret (- error_value EINVAL)
  | Some z =>
      init_free_lists z orders_and_types;;
      upd_zone z (init_zone_fields start_pfn size);;
      init_lru_lists z (seqZ 0 NR_LRU_LISTS);;
      flags ← on_zone_lock (spin_lock_irqsave cpu ra fuel);
      n ← gets nr_zones;
      (if n <? MAX_NR_ZONES then
         modify (λ s, with_zone_table (<[Z.to_nat n := Some z]> (zone_table s)) (n + 1) s)
       else mret tt);;
      on_zone_lock (spin_unlock_irqrestore cpu flags);;
      mret 0
  end.

(** [get_order]: shifting a 32-bit size to 0 takes at most 33 rounds. *)
Fixpoint get_order_loop (n : nat) (size order : Z) : option Z :=
  match n with
  | O => None
  | S n => if size =? 0 then Some order else get_order_loop n (Z.shiftr size 1) (order + 1)
  end.
Definition get_order (size : Z) : option Z :=
  get_order_loop 33 (Z.shiftr (size -[32] 1) PAGE_SHIFT) 0.

Record sysinfo := SysInfo {
  totalram : Z; freeram : Z; sharedram : Z; bufferram : Z; totalswap : Z;
  freeswap : Z; totalhigh : Z; freehigh : Z; mem_unit : Z
}.
Definition si_meminfo : M mm sysinfo :=
  t ← gets total_pages;
  f ← gets free_pages_total;
  mret (SysInfo t f 0 0 0 0 0 0 PAGE_SIZE).

(** The totals [show_mem] accumulates over the registered zones. *)
Fixpoint show_mem_loop (n : nat) (i total free reserved : Z) : M mm (Z * Z * Z) :=
  match n with
  | O => mret (total, free, reserved)
  | S n =>
      zo ← get_some (λ s, zone_table s !! Z.to_nat i);
      match zo with
      | None => show_mem_loop n (i + 1) total free reserved
      | Some z =>
          zn ← zone_at z;
          show_mem_loop n (i + 1) (total +[32] present_pages zn) (free +[32] z_free_pages zn)
            (reserved +[32] (present_pages zn - managed_pages zn))
      end
  end.
Definition show_mem : M mm (Z * Z * Z) :=
  n ← gets nr_zones; show_mem_loop (Z.to_nat n) 0 0 0 0.
