(* ===== verification/BuddyTheory.v ===== *)
(** The invariant of a zone of the buddy allocator and what the free-list
    primitives, splitting and merging do to it.

    The contents of a zone are described by its free lists [fl], a map from
    (order, migrate type) to the first frames of the free blocks.  [zone_ok]
    says that the C state represents them: list heads, counters, page flags
    and orders agree, and the blocks are aligned and disjoint.  [avail] is the
    state of a block outside the free lists, between its removal and its
    return. *)
From stdpp Require Import base gmap list strings fin_maps.
From S2P Require Import Prelude CTypes ListHead ListTheory Spinlock Page Buddy.

(** * What the allocator relies on of the page primitives *)

Section observations.
  Context `{PageLib}.
(** A field update the allocator does not observe. *)
Definition neutral (f : page → page) : Prop :=
  ∀ pg, PageBuddy (f pg) = PageBuddy pg ∧ page_zone_id (f pg) = page_zone_id pg.
End observations.

Class PageLaws (P : PageLib) := {
  buddy_set pg : PageBuddy (__SetPageBuddy pg) = true;
  buddy_clear pg : PageBuddy (__ClearPageBuddy pg) = false;
  zone_set_buddy pg : page_zone_id (__SetPageBuddy pg) = page_zone_id pg;
  zone_clear_buddy pg : page_zone_id (__ClearPageBuddy pg) = page_zone_id pg;
  zone_set_order o pg : page_zone_id (set_page_order o pg) = page_zone_id pg;
  private_neutral v : neutral (set_page_private v);
  private_order v pg : 0 ≤ v → page_order (set_page_private v pg) = v;
  guard_neutral : neutral __SetPageGuard;
  migratetype_neutral mt : neutral (set_freepage_migratetype mt);
  page_count_neutral n : neutral (set_page_count n);
  clear_page_neutral : neutral clear_page;
  waiters_neutral : neutral init_page_waiters;
  flags_neutral : neutral clear_page_flags;
  set_page_node_neutral n : neutral (set_page_node n);
  pageblock_order_pos : 0 < pageblock_order
}.

(** * Free lists *)

Abbreviation flists := (gmap (Z * Z) (list Z)).
Definition fblocks (fl : flists) (o mt : Z) : list Z := default [] (fl !! (o, mt)).
Definition fl_del (p o mt : Z) (fl : flists) : flists :=
  alter (filter (λ x, x ≠ p)) (o, mt) fl.
Definition fl_add (p o mt : Z) (fl : flists) : flists := alter (cons p) (o, mt) fl.

(** The abstract contents of the list heap. *)
Abbreviation ghost := (astore (A := node)).

Definition order_ok (o : Z) : Prop := 0 ≤ o < MAX_ORDER.
Definition type_ok (mt : Z) : Prop := 0 ≤ mt < MIGRATE_TYPES.

Definition nblocks (fl : flists) (o : Z) : Z :=
  sumZ (λ mt, Z.of_nat (length (fblocks fl o mt))) (seqZ 0 MIGRATE_TYPES).
Definition npages (fl : flists) : Z := sumZ (λ o, nblocks fl o * 2 ^ o) (seqZ 0 MAX_ORDER).

Lemma fblocks_alter f fl o mt o' mt' :
  is_Some (fl !! (o, mt)) →
  fblocks (alter f (o, mt) fl) o' mt' =
    if decide ((o, mt) = (o', mt')) then f (fblocks fl o mt) else fblocks fl o' mt'.
Proof.
  intros [l Hl]. unfold fblocks. destruct (decide ((o, mt) = (o', mt'))) as [<-|Hne].
  - by rewrite lookup_alter_eq, Hl.
  - by rewrite lookup_alter_ne.
Qed.

Lemma elem_fl_add fl p o mt q o' mt' :
  is_Some (fl !! (o, mt)) →
  q ∈ fblocks (fl_add p o mt fl) o' mt' ↔
    (q, o', mt') = (p, o, mt) ∨ q ∈ fblocks fl o' mt'.
Proof.
  intros Hfl. unfold fl_add. rewrite fblocks_alter by done.
  case_decide as Heq; [|naive_solver]. simplify_eq. rewrite elem_of_cons. naive_solver.
Qed.

Lemma elem_fl_del fl p o mt q o' mt' :
  is_Some (fl !! (o, mt)) →
  q ∈ fblocks (fl_del p o mt fl) o' mt' ↔
    (q, o', mt') ≠ (p, o, mt) ∧ q ∈ fblocks fl o' mt'.
Proof.
  intros Hfl. unfold fl_del. rewrite fblocks_alter by done.
  case_decide as Heq; [|naive_solver]. simplify_eq. rewrite list_elem_of_filter. naive_solver.
Qed.

Lemma filter_id (p : Z) (l : list Z) : p ∉ l → filter (λ x, x ≠ p) l = l.
Proof.
  induction l as [|x l IH]; intros Hp; [done|].
  apply not_elem_of_cons in Hp as [Hx Hp]. rewrite filter_cons_True by auto. by rewrite IH.
Qed.

Lemma filter_ne_split (p : Z) (l1 l2 : list Z) :
  NoDup (l1 ++ p :: l2) → filter (λ x, x ≠ p) (l1 ++ p :: l2) = l1 ++ l2.
Proof.
  intros Hnd. rewrite filter_app, filter_cons_False by (intros []; done).
  apply NoDup_app in Hnd as (_ & H1 & [H2 _]%NoDup_cons).
  rewrite !filter_id; [done..|]. intros Hx. apply (H1 p Hx). left.
Qed.

(** How an update of one list changes the counts. *)
Lemma nblocks_alter f fl o mt o' :
  is_Some (fl !! (o, mt)) → type_ok mt →
  nblocks (alter f (o, mt) fl) o' =
    nblocks fl o' + (if decide (o' = o) then
      Z.of_nat (length (f (fblocks fl o mt))) - Z.of_nat (length (fblocks fl o mt)) else 0).
Proof.
  intros Hfl Hmt. unfold nblocks. case_decide as Ho.
  - subst o'. rewrite (sumZ_update (λ mt, Z.of_nat (length (fblocks fl o mt))) _ _ mt).
    + rewrite fblocks_alter, decide_True by done. lia.
    + apply NoDup_seqZ.
    + apply elem_of_seqZ. unfold type_ok in Hmt. lia.
    + intros j _ Hj. rewrite fblocks_alter, decide_False by (done || congruence). done.
  - rewrite Z.add_0_r. apply sumZ_ext. intros j _.
    rewrite fblocks_alter, decide_False by (done || congruence). done.
Qed.

Lemma npages_change fl fl' o d :
  order_ok o → (∀ o', nblocks fl' o' = nblocks fl o' + if decide (o' = o) then d else 0) →
  npages fl' = npages fl + d * 2 ^ o.
Proof.
  intros Ho Hn. unfold npages.
  rewrite (sumZ_update (λ o, nblocks fl o * 2 ^ o) _ _ o).
  - rewrite Hn, decide_True by done. lia.
  - apply NoDup_seqZ.
  - apply elem_of_seqZ. unfold order_ok in Ho. lia.
  - intros j _ Hj. rewrite Hn, decide_False by done. lia.
Qed.

(** * The invariant *)

Definition block_shape (p o : Z) : Prop :=
  order_ok o ∧ 0 ≤ p ∧ p + 2 ^ o ≤ 2 ^ 32 ∧ (2 ^ o | p).

(** [zn]'s counters count [fl]. *)
Definition counted (zn : zone_t) (fl : flists) : Prop :=
  length (nr_free zn) = Z.to_nat MAX_ORDER ∧
  (∀ o, order_ok o → nr_free zn !! Z.to_nat o = Some (wrap 32 (nblocks fl o))) ∧
  z_free_pages zn = wrap 32 (npages fl).

Section invariant.
  Context `{PageLib} (z zid : Z).

(** A page that is not the head of a free block. *)
Definition idle_page (st : mm) (s : ghost) (q : Z) : Prop :=
  PageLru q ∈ detached s ∧
  ∃ pg, pages st !! q = Some pg ∧ page_zone_id pg = zid ∧ PageBuddy pg = false.

Definition head_page (st : mm) (p o : Z) : Prop :=
  ∃ pg, pages st !! p = Some pg ∧ page_zone_id pg = zid ∧ PageBuddy pg = true ∧
        page_order pg = o.

Definition block_ok (st : mm) (s : ghost) (p o : Z) : Prop :=
  block_shape p o ∧ head_page st p o ∧ ∀ q, p < q < p + 2 ^ o → idle_page st s q.

Record zone_ok (st : mm) (fl : flists) (s : ghost) : Prop := {
  zk_rep : rep (links st) s;
  zk_zone : ∃ zn, zones st !! z = Some zn ∧ counted zn fl;
  zk_dom o mt : is_Some (fl !! (o, mt)) ↔ order_ok o ∧ type_ok mt;
  zk_lists o mt l :
    fl !! (o, mt) = Some l → lists s !! FreeHead z o mt = Some (PageLru <$> l);
  zk_block p o mt : p ∈ fblocks fl o mt → block_ok st s p o;
  zk_buddy p pg :
    pages st !! p = Some pg → PageBuddy pg = true → page_zone_id pg = zid →
    ∃ mt, p ∈ fblocks fl (page_order pg) mt;
  zk_disj p o mt p' o' mt' :
    p ∈ fblocks fl o mt → p' ∈ fblocks fl o' mt' →
    (p, o, mt) = (p', o', mt') ∨ p + 2 ^ o ≤ p' ∨ p' + 2 ^ o' ≤ p
}.

(** A block whose pages are in no free list. *)
Definition avail (st : mm) (fl : flists) (s : ghost) (p o : Z) : Prop :=
  block_shape p o ∧ (∀ q, p ≤ q < p + 2 ^ o → idle_page st s q) ∧
  ∀ p' o' mt', p' ∈ fblocks fl o' mt' → p' + 2 ^ o' ≤ p ∨ p + 2 ^ o ≤ p'.

(** Everything but the contents of pages, the links and the zone's counters
    is kept. *)
Definition frame (st st' : mm) : Prop :=
  dom (pages st') = dom (pages st) ∧
  ∃ zn fp nr, zones st !! z = Some zn ∧
    st' = with_pages (pages st') (with_links (links st')
            (with_zones (<[z := with_free fp nr zn]> (zones st)) st)).
End invariant.

Lemma frame_trans z st1 st2 st3 : frame z st1 st2 → frame z st2 st3 → frame z st1 st3.
Proof.
  intros [Hd2 (zn & fp & nr & Hz & H2)] [Hd3 (zn' & fp' & nr' & Hz' & H3)].
  split; [congruence|]. rewrite H2 in Hz'. simpl in Hz'. rewrite lookup_insert_eq in Hz'. simplify_eq.
  exists zn, fp', nr'. split; [done|]. rewrite H3, H2; simpl.
  by rewrite insert_insert_eq.
Qed.

Lemma frame_zone z st st' zn' :
  frame z st st' → zones st' !! z = Some zn' →
  ∃ zn, zones st !! z = Some zn ∧ zlock zn' = zlock zn ∧ irq_on st' = irq_on st.
Proof.
  intros [_ (zn & fp & nr & Hz & ->)]. simpl. rewrite lookup_insert_eq. intros [= <-].
  by exists zn.
Qed.

(** * The primitives *)

Section primitives.
  Context `{PL : PageLib} {HL : PageLaws PL} (z zid : Z).

Lemma on_links_run {A} (m : M (gmap node (list_head node)) A) st s b s' :
  runs_to m s b s' → rep (links st) s →
  ∃ h', on_links m st = Ret (b, with_links h' st) ∧ rep h' s'.
Proof.
  intros Hm Hr. destruct (Hm _ Hr) as (h' & Hrun & Hr'). exists h'. split; [|done].
  unfold on_links, zoom. by rewrite Hrun.
Qed.

Lemma on_links_reads {A} (m : M (gmap node (list_head node)) A) st s b :
  reads_to m s b → rep (links st) s → on_links m st = Ret (b, st).
Proof.
  intros Hm Hr. unfold on_links, zoom. rewrite (Hm _ Hr). by destruct st.
Qed.

Lemma upd_page_run st p f pg :
  pages st !! p = Some pg → upd_page p f st = Ret (tt, with_pages (<[p := f pg]> (pages st)) st).
Proof. unfold upd_page. by intros ->. Qed.

Lemma zone_at_run st zn : zones st !! z = Some zn → zone_at z st = Ret (zn, st).
Proof. intros Hz. by apply get_some_run. Qed.

Lemma rd_nr_free_run st zn o n :
  zones st !! z = Some zn → 0 ≤ o → nr_free zn !! Z.to_nat o = Some n →
  rd_nr_free z o st = Ret (n, st).
Proof.
  intros Hz Ho Hn. unfold rd_nr_free. mstep with zone_at_run; [|done].
  apply get_some_run. by rewrite (proj2 (Z.ltb_ge _ _)).
Qed.

Lemma upd_zone_run st f zn :
  zones st !! z = Some zn → upd_zone z f st = Ret (tt, with_zones (<[z := f zn]> (zones st)) st).
Proof. unfold upd_zone. by intros ->. Qed.

Lemma counted_change zn fl fl' o d fp nr :
  counted zn fl → order_ok o →
  (∀ o', nblocks fl' o' = nblocks fl o' + if decide (o' = o) then d else 0) →
  fp = z_free_pages zn +[32] d * Z.shiftl 1 o →
  nr = <[Z.to_nat o := wrap 32 (nblocks fl o) +[32] d]> (nr_free zn) →
  counted (with_free fp nr zn) fl'.
Proof.
  intros (Hlen & Hnr & Hfp) Ho Hn -> ->. unfold order_ok in *. split_and!; simpl.
  - by rewrite length_insert.
  - intros o' Ho'. destruct (decide (o' = o)) as [->|Hne].
    + rewrite list_lookup_insert_eq by (eapply lookup_lt_Some, Hnr; done).
      by rewrite Hn, decide_True, wrap_add_l.
    + rewrite list_lookup_insert_ne by (unfold order_ok in *; lia).
      by rewrite Hnr, Hn, decide_False, Z.add_0_r.
  - rewrite Hfp, wrap_add_l, Z.shiftl_1_l. f_equal. symmetry. by apply npages_change.
Qed.

Lemma count_block_run st zn fl fl' o d :
  zones st !! z = Some zn → counted zn fl → order_ok o →
  (∀ o', nblocks fl' o' = nblocks fl o' + if decide (o' = o) then d else 0) →
  ∃ fp nr, count_block z o d st =
      Ret (tt, with_zones (<[z := with_free fp nr zn]> (zones st)) st) ∧
    counted (with_free fp nr zn) fl'.
Proof.
  intros Hz Hc Ho Hn. do 2 eexists. split; [|by eapply counted_change].
  unfold count_block. mstep with rd_nr_free_run; [|done|by destruct Ho|by apply Hc].
  mstep with upd_zone_run; [|done].
  rewrite (upd_zone_run _ _ (with_free (z_free_pages zn)
    (<[Z.to_nat o := wrap 32 (nblocks fl o) +[32] d]> (nr_free zn)) zn)) by apply lookup_insert_eq.
  simpl. by rewrite insert_insert_eq.
Qed.

(** ** Consequences of the invariant *)

Lemma pow2_order o : order_ok o → 0 < 2 ^ o.
Proof. unfold order_ok. intros. apply Z.pow_pos_nonneg; lia. Qed.

Lemma fblocks_some fl o mt p : p ∈ fblocks fl o mt → ∃ l, fl !! (o, mt) = Some l ∧ p ∈ l.
Proof.
  unfold fblocks. destruct (fl !! (o, mt)) as [l|]; simpl; [by exists l|by intros ?%elem_of_nil].
Qed.

Lemma fblocks_ok st fl s o mt p :
  zone_ok z zid st fl s → p ∈ fblocks fl o mt →
  is_Some (fl !! (o, mt)) ∧ order_ok o ∧ type_ok mt.
Proof.
  intros Hok (l & Hl & _)%fblocks_some. assert (is_Some (fl !! (o, mt))) as Hs by eauto.
  split; [done|]. by apply (zk_dom _ _ _ _ _ Hok).
Qed.

(** A frame starts at most one free block. *)
Lemma block_unique st fl s p o mt o' mt' :
  zone_ok z zid st fl s → p ∈ fblocks fl o mt → p ∈ fblocks fl o' mt' → o = o' ∧ mt = mt'.
Proof.
  intros Hok Hp Hp'. destruct (fblocks_ok _ _ _ _ _ _ Hok Hp) as (_ & Ho & _).
  destruct (fblocks_ok _ _ _ _ _ _ Hok Hp') as (_ & Ho' & _).
  pose proof (pow2_order _ Ho). pose proof (pow2_order _ Ho').
  destruct (zk_disj _ _ _ _ _ Hok _ _ _ _ _ _ Hp Hp') as [Heq|Hd]; [by simplify_eq|lia].
Qed.

Lemma head_not_idle st s p o q : head_page zid st p o → idle_page zid st s q → q ≠ p.
Proof. intros (pg & Hp & _ & Hb & _) (_ & pg' & Hp' & _ & Hb') ->. congruence. Qed.

Lemma idle_keep st s st' s' q :
  idle_page zid st s q → PageLru q ∈ detached s' → pages st' !! q = pages st !! q →
  idle_page zid st' s' q.
Proof. intros (_ & pg & Hp & ?) Hd Heq. split; [done|]. exists pg. by rewrite Heq. Qed.

(** The list of a free block, split at it. *)
Lemma block_list st fl s p o mt :
  zone_ok z zid st fl s → p ∈ fblocks fl o mt →
  ∃ l1 l2, fl !! (o, mt) = Some (l1 ++ p :: l2) ∧ NoDup (l1 ++ p :: l2) ∧
    lists s !! FreeHead z o mt = Some ((PageLru <$> l1) ++ PageLru p :: (PageLru <$> l2)).
Proof.
  intros Hok (l & Hl & (l1 & l2 & ->)%list_elem_of_split)%fblocks_some.
  pose proof (zk_lists _ _ _ _ _ Hok _ _ _ Hl) as Hls.
  exists l1, l2. split_and!; [done| |by rewrite fmap_app in Hls].
  destruct (rep_dll _ _ (zk_rep _ _ _ _ _ Hok) _ _ Hls) as [_ [_ Hnd]%NoDup_cons].
  by apply NoDup_fmap_1 in Hnd.
Qed.

Lemma length_filter_ne (p : Z) (l1 l2 : list Z) :
  NoDup (l1 ++ p :: l2) →
  Z.of_nat (length (filter (λ x, x ≠ p) (l1 ++ p :: l2))) -
    Z.of_nat (length (l1 ++ p :: l2)) = -1.
Proof. intros. rewrite filter_ne_split by done. rewrite !length_app. simpl. lia. Qed.

(** ** Removing a block *)

Lemma del_zone_ok st fl s p o mt pg h' zn fp nr l1 l2 :
  zone_ok z zid st fl s → p ∈ fblocks fl o mt →
  fl !! (o, mt) = Some (l1 ++ p :: l2) → NoDup (l1 ++ p :: l2) →
  PageBuddy pg = false → page_zone_id pg = zid →
  let fl' := fl_del p o mt fl in
  let s' := AStore (<[FreeHead z o mt := (PageLru <$> l1) ++ (PageLru <$> l2)]> (lists s))
              ({[PageLru p]} ∪ detached s) in
  let st' := with_zones (<[z := with_free fp nr zn]> (zones st))
               (with_links h' (with_pages (<[p := pg]> (pages st)) st)) in
  rep h' s' → counted (with_free fp nr zn) fl' →
  zone_ok z zid st' fl' s' ∧ avail zid st' fl' s' p o ∧
  ∀ q k, avail zid st fl s q k → avail zid st' fl' s' q k.
Proof.
  intros Hok Hp Hl Hnd Hpb Hpz fl' s' st' Hr Hc.
  destruct (fblocks_ok _ _ _ _ _ _ Hok Hp) as (Hsome & Ho & Hmt).
  destruct (zk_block _ _ _ _ _ Hok _ _ _ Hp) as (Hshape & Hhead & Hin).
  assert (∀ q o' mt', q ∈ fblocks fl' o' mt' ↔ (q, o', mt') ≠ (p, o, mt) ∧ q ∈ fblocks fl o' mt') as Hel.
  { intros. by apply elem_fl_del. }
  assert (∀ q o' mt', q ∈ fblocks fl' o' mt' → q ≠ p) as Hne.
  { intros q o' mt' [Hq Hq']%Hel ->. destruct (block_unique _ _ _ _ _ _ _ _ Hok Hp Hq'); congruence. }
  assert (∀ q, idle_page zid st s q → idle_page zid st' s' q) as Hidle.
  { intros q Hq. eapply idle_keep; [done|apply elem_of_union_r, Hq|].
    simpl. by rewrite lookup_insert_ne by (symmetry; by eapply head_not_idle). }
  split_and!.
  - split.
    + done.
    + eexists. split; [apply lookup_insert_eq|done].
    + intros o' mt'. unfold fl', fl_del. rewrite lookup_alter_is_Some. apply (zk_dom _ _ _ _ _ Hok).
    + intros o' mt' l'. unfold fl', fl_del; simpl. destruct (decide ((o, mt) = (o', mt'))) as [[= <- <-]|Hneq].
      * rewrite lookup_alter_eq, Hl; simpl. intros [= <-].
        by rewrite lookup_insert_eq, filter_ne_split, fmap_app by done.
      * rewrite lookup_alter_ne, lookup_insert_ne by congruence. apply (zk_lists _ _ _ _ _ Hok).
    + intros q o' mt' Hq. pose proof (Hne _ _ _ Hq). apply Hel in Hq as [_ Hq].
      destruct (zk_block _ _ _ _ _ Hok _ _ _ Hq) as (Hsh & (pq & Hpq & ?) & Hinq).
      split_and!; [done| |by auto]. exists pq. simpl. by rewrite lookup_insert_ne.
    + intros q pq Hq Hb Hz. simpl in Hq. destruct (decide (p = q)) as [->|?].
      * rewrite lookup_insert_eq in Hq. congruence.
      * rewrite lookup_insert_ne in Hq by done.
        destruct (zk_buddy _ _ _ _ _ Hok _ _ Hq Hb Hz) as [mt' Hmt']. exists mt'.
        apply Hel. split; [congruence|done].
    + intros q1 o1 m1 q2 o2 m2 [_ H1]%Hel [_ H2]%Hel. by apply (zk_disj _ _ _ _ _ Hok).
  - split_and!; [done| |].
    + intros q Hq. destruct (decide (q = p)) as [->|?].
      * split; [simpl; set_solver|]. exists pg. simpl. by rewrite lookup_insert_eq.
      * apply Hidle, Hin. lia.
    + intros q o' mt' [Hq Hq']%Hel.
      destruct (zk_disj _ _ _ _ _ Hok _ _ _ _ _ _ Hq' Hp) as [?|?]; [done|lia].
  - intros q k (Hsh & Hid & Hd). split_and!; [done|by auto|].
    intros q' o' mt' [_ Hq']%Hel. by eapply Hd.
Qed.

Lemma del_ok st fl s p o mt :
  zone_ok z zid st fl s → p ∈ fblocks fl o mt →
  ∃ st' s', __del_page_from_free_list p z o st = Ret (tt, st') ∧ frame z st st' ∧
    (∃ pg, pages st' !! p = Some pg ∧ page_order pg = 0) ∧
    zone_ok z zid st' (fl_del p o mt fl) s' ∧ avail zid st' (fl_del p o mt fl) s' p o ∧
    ∀ q k, avail zid st fl s q k → avail zid st' (fl_del p o mt fl) s' q k.
Proof.
  intros Hok Hp. destruct (block_list _ _ _ _ _ _ Hok Hp) as (l1 & l2 & Hl & Hnd & Hls).
  destruct (fblocks_ok _ _ _ _ _ _ Hok Hp) as (Hsome & Ho & Hmt).
  destruct (zk_block _ _ _ _ _ Hok _ _ _ Hp) as (_ & (pg & Hpg & Hpz & _) & _).
  destruct (zk_zone _ _ _ _ _ Hok) as (zn & Hz & Hc).
  set (pg' := set_page_private 0 (__ClearPageBuddy pg)).
  set (st1 := with_pages (<[p := pg']> (pages st)) st).
  destruct (on_links_run _ st1 _ _ _ (runs_list_del _ _ _ _ _ Hls) (zk_rep _ _ _ _ _ Hok))
    as (h' & Hlinks & Hr').
  destruct (count_block_run (with_links h' st1) zn fl (fl_del p o mt fl) o (-1) Hz Hc Ho)
    as (fp & nr & Hcount & Hc').
  { intros o'. unfold fl_del. rewrite nblocks_alter by done. unfold fblocks. rewrite Hl; simpl.
    case_decide; [|done]. by rewrite length_filter_ne. }
  assert (PageBuddy pg' = false) as Hb
    by by unfold pg'; rewrite (proj1 (private_neutral _ _)), buddy_clear.
  assert (page_zone_id pg' = zid) as Hz'
    by by unfold pg'; rewrite (proj2 (private_neutral _ _)), zone_clear_buddy.
  destruct (del_zone_ok _ _ _ _ _ _ _ _ zn fp nr _ _ Hok Hp Hl Hnd Hb Hz' Hr' Hc') as (? & ? & ?).
  eexists _, _. split_and!; [| | |done..].
  - unfold __del_page_from_free_list. mstep with upd_page_run; [|done].
    mstep with upd_page_run; [|apply lookup_insert_eq]. simpl. rewrite insert_insert_eq.
    mstep with Hlinks. exact Hcount.
  - split; [by apply dom_insert_lookup_L|]. exists zn, fp, nr. done.
  - exists pg'. split; [by apply lookup_insert_eq|by apply private_order].
Qed.

(** ** Adding a block *)

Lemma add_zone_ok st fl s p o mt pg h' zn fp nr l :
  zone_ok z zid st fl s → avail zid st fl s p o → type_ok mt → fl !! (o, mt) = Some l →
  PageBuddy pg = true → page_zone_id pg = zid → page_order pg = o →
  let fl' := fl_add p o mt fl in
  let s' := AStore (<[FreeHead z o mt := PageLru p :: (PageLru <$> l)]> (lists s))
              (detached s ∖ {[PageLru p]}) in
  let st' := with_zones (<[z := with_free fp nr zn]> (zones st))
               (with_pages (<[p := pg]> (pages st)) (with_links h' st)) in
  rep h' s' → counted (with_free fp nr zn) fl' →
  zone_ok z zid st' fl' s' ∧
  ∀ q k, avail zid st fl s q k → q + 2 ^ k ≤ p ∨ p + 2 ^ o ≤ q → avail zid st' fl' s' q k.
Proof.
  intros Hok (Hshape & Hidp & Hdisj) Hmt Hl Hpb Hpz Hpo fl' s' st' Hr Hc.
  assert (is_Some (fl !! (o, mt))) as Hsome by eauto.
  pose proof Hshape as (Ho & Hp0 & Hp1 & Hdiv). pose proof (pow2_order _ Ho) as Hpow.
  assert (∀ q o' mt', q ∈ fblocks fl' o' mt' ↔ (q, o', mt') = (p, o, mt) ∨ q ∈ fblocks fl o' mt') as Hel.
  { intros. by apply elem_fl_add. }
  assert (∀ q, idle_page zid st s q → q ≠ p → idle_page zid st' s' q) as Hidle.
  { intros q Hq Hqp. eapply idle_keep; [done| |simpl; by rewrite lookup_insert_ne].
    destruct Hq as [Hd _]. simpl. apply elem_of_difference. split; [done|set_solver]. }
  split.
  - split.
    + done.
    + eexists. split; [apply lookup_insert_eq|done].
    + intros o' mt'. unfold fl', fl_add. rewrite lookup_alter_is_Some. apply (zk_dom _ _ _ _ _ Hok).
    + intros o' mt' l'. unfold fl', fl_add; simpl. destruct (decide ((o, mt) = (o', mt'))) as [[= <- <-]|Hneq].
      * rewrite lookup_alter_eq, Hl; simpl. intros [= <-]. by rewrite lookup_insert_eq.
      * rewrite lookup_alter_ne, lookup_insert_ne by congruence. apply (zk_lists _ _ _ _ _ Hok).
    + intros q o' mt' [Heq|Hq]%Hel.
      * simplify_eq. split_and!; [done|exists pg; simpl; by rewrite lookup_insert_eq|].
        intros q Hq. apply Hidle; [apply Hidp; lia|lia].
      * destruct (zk_block _ _ _ _ _ Hok _ _ _ Hq) as (Hsh & Hhq & Hinq).
        destruct Hhq as (pq & Hpq & Hrest). pose proof (Hdisj _ _ _ Hq) as Hd.
        assert (q ≠ p) as Hqp. { intros ->. pose proof (pow2_order _ (proj1 Hsh)). lia. }
        split_and!; [done|exists pq; simpl; by rewrite lookup_insert_ne|].
        intros q' Hq'. apply Hidle; [by auto|]. intros ->. lia.
    + intros q pq Hq Hb Hzq. simpl in Hq. destruct (decide (p = q)) as [->|?].
      * rewrite lookup_insert_eq in Hq. simplify_eq. exists mt. apply Hel. by left.
      * rewrite lookup_insert_ne in Hq by done.
        destruct (zk_buddy _ _ _ _ _ Hok _ _ Hq Hb Hzq) as [mt' Hmt']. exists mt'.
        apply Hel. by right.
    + intros q1 o1 m1 q2 o2 m2 [?|H1]%Hel [?|H2]%Hel; simplify_eq.
      * by left.
      * right. destruct (Hdisj _ _ _ H2); [by right|by left].
      * right. destruct (Hdisj _ _ _ H1); [by left|by right].
      * by apply (zk_disj _ _ _ _ _ Hok).
  - intros q k (Hsh & Hid & Hd) Hqd. pose proof (pow2_order _ (proj1 Hsh)). split_and!; [done| |].
    + intros q' Hq'. apply Hidle; [by auto|]. intros ->. lia.
    + intros q' o' mt' [?|Hq']%Hel; [simplify_eq; lia|by eapply Hd].
Qed.

Lemma fl_some st fl s o mt :
  zone_ok z zid st fl s → order_ok o → type_ok mt → ∃ l, fl !! (o, mt) = Some l.
Proof. intros Hok Ho Hmt. by apply (zk_dom _ _ _ _ _ Hok). Qed.

(** The code may have touched the page first: [pg0] is what it finds. *)
Lemma add_core st fl s p o mt pg0 :
  zone_ok z zid st fl s → avail zid st fl s p o → type_ok mt → page_zone_id pg0 = zid →
  ∃ st' s', __add_page_to_free_list p z o mt (with_pages (<[p := pg0]> (pages st)) st) =
      Ret (tt, st') ∧ frame z st st' ∧
    zone_ok z zid st' (fl_add p o mt fl) s' ∧
    ∀ q k, avail zid st fl s q k → q + 2 ^ k ≤ p ∨ p + 2 ^ o ≤ q →
      avail zid st' (fl_add p o mt fl) s' q k.
Proof.
  intros Hok Hav Hmt Hz0. pose proof Hav as ((Ho & Hp0 & Hp1 & _) & Hid & _).
  destruct (fl_some _ _ _ _ _ Hok Ho Hmt) as [l Hl].
  pose proof (zk_lists _ _ _ _ _ Hok _ _ _ Hl) as Hls.
  destruct (Hid p) as (Hdet & pg & Hpg & _ & _); [pose proof (pow2_order _ Ho); lia|].
  destruct (zk_zone _ _ _ _ _ Hok) as (zn & Hz & Hc).
  destruct (on_links_run _ (with_pages (<[p := pg0]> (pages st)) st) _ _ _
    (runs_list_add _ _ _ _ Hls Hdet) (zk_rep _ _ _ _ _ Hok)) as (h' & Hlinks & Hr').
  set (pg' := set_page_private o (__SetPageBuddy pg0)).
  destruct (count_block_run (with_pages (<[p := pg']> (pages st)) (with_links h' st))
    zn fl (fl_add p o mt fl) o 1 Hz Hc Ho) as (fp & nr & Hcount & Hc').
  { intros o'. unfold fl_add. rewrite nblocks_alter by eauto. case_decide; [simpl; lia|done]. }
  assert (PageBuddy pg' = true) as Hb
    by by unfold pg'; rewrite (proj1 (private_neutral _ _)), buddy_set.
  assert (page_zone_id pg' = zid) as Hz'
    by by unfold pg'; rewrite (proj2 (private_neutral _ _)), zone_set_buddy.
  assert (page_order pg' = o) as Ho' by by apply private_order; destruct Ho.
  destruct (add_zone_ok _ _ _ _ _ _ _ _ zn fp nr _ Hok Hav Hmt Hl Hb Hz' Ho' Hr' Hc') as (? & ?).
  eexists _, _. split_and!; [| |done..].
  - unfold __add_page_to_free_list. mstep with Hlinks.
    mstep with upd_page_run; [|apply lookup_insert_eq].
    mstep with upd_page_run; [|apply lookup_insert_eq].
    simpl. rewrite !insert_insert_eq. exact Hcount.
  - split; [by apply dom_insert_lookup_L|]. exists zn, fp, nr. done.
Qed.

Lemma with_pages_same st p pg :
  pages st !! p = Some pg → with_pages (<[p := pg]> (pages st)) st = st.
Proof. intros Hp. rewrite insert_id by done. by destruct st. Qed.

Lemma add_ok st fl s p o mt :
  zone_ok z zid st fl s → avail zid st fl s p o → type_ok mt →
  ∃ st' s', __add_page_to_free_list p z o mt st = Ret (tt, st') ∧ frame z st st' ∧
    zone_ok z zid st' (fl_add p o mt fl) s' ∧
    ∀ q k, avail zid st fl s q k → q + 2 ^ k ≤ p ∨ p + 2 ^ o ≤ q →
      avail zid st' (fl_add p o mt fl) s' q k.
Proof.
  intros Hok Hav Hmt. pose proof Hav as ((Ho & _) & Hid & _).
  destruct (Hid p) as (_ & pg & Hpg & Hz & _); [pose proof (pow2_order _ Ho); lia|].
  pose proof (add_core _ _ _ _ _ _ pg Hok Hav Hmt Hz) as Hadd. by rewrite with_pages_same in Hadd.
Qed.

(** ** Updates the invariant does not see *)

(** What the invariant reads of a descriptor. *)
Definition obs (pg : page) : bool * Z * Z :=
  (PageBuddy pg, page_zone_id pg, if PageBuddy pg then page_order pg else 0).

Lemma obs_lookup (P P' : gmap Z page) q pg :
  obs <$> P' = obs <$> P → P !! q = Some pg → ∃ pg', P' !! q = Some pg' ∧ obs pg' = obs pg.
Proof.
  intros Heq Hq. assert ((obs <$> P') !! q = Some (obs pg)) as Ho by by rewrite Heq, lookup_fmap, Hq.
  rewrite lookup_fmap in Ho. apply fmap_Some in Ho as (pg' & ? & ?). eauto.
Qed.

Lemma obs_insert (P : gmap Z page) q pg pg' :
  P !! q = Some pg → obs pg' = obs pg → obs <$> <[q := pg']> P = obs <$> P.
Proof. intros Hq Ho. rewrite fmap_insert, Ho. apply insert_id. by rewrite lookup_fmap, Hq. Qed.

Lemma obs_neutral f pg : neutral f → PageBuddy pg = false → obs (f pg) = obs pg.
Proof. intros Hf Hb. destruct (Hf pg) as [H1 H2]. unfold obs. by rewrite H1, H2, Hb. Qed.

(** Two states with the same links, counters and observations. *)
Definition same_view (st st' : mm) : Prop :=
  links st' = links st ∧ obs <$> pages st' = obs <$> pages st ∧
  ∀ zn, zones st !! z = Some zn →
    ∃ zn', zones st' !! z = Some zn' ∧ nr_free zn' = nr_free zn ∧
           z_free_pages zn' = z_free_pages zn.

Lemma idle_view st st' s q : same_view st st' → idle_page zid st s q → idle_page zid st' s q.
Proof.
  intros (_ & Ho & _) (Hd & pg & Hpg & Hz & Hb). split; [done|].
  destruct (obs_lookup _ _ _ _ Ho Hpg) as (pg' & Hpg' & [= H1 H2 _]).
  exists pg'. split_and!; [done|congruence..].
Qed.

Lemma avail_view st st' fl s p o : same_view st st' → avail zid st fl s p o → avail zid st' fl s p o.
Proof. intros Hv (? & Hi & ?). split_and!; eauto using idle_view. Qed.

Lemma zone_ok_view st st' fl s : same_view st st' → zone_ok z zid st fl s → zone_ok z zid st' fl s.
Proof.
  intros Hv Hok. pose proof Hv as (Hlk & Ho & Hzn). destruct Hok as [Hr Hz Hd Hl Hb Hbd Hdj]. split.
  - by rewrite Hlk.
  - destruct Hz as (zn & Hz & Hlen & Hc & Hf). destruct (Hzn _ Hz) as (zn' & Hz' & Hn' & Hf').
    exists zn'. split; [done|]. unfold counted. by rewrite Hn', Hf'.
  - done.
  - done.
  - intros p o mt Hp. destruct (Hb _ _ _ Hp) as (Hs & (pg & Hpg & H1 & H2 & H3) & Hi).
    split_and!; [done| |eauto using idle_view].
    destruct (obs_lookup _ _ _ _ Ho Hpg) as (pg' & Hpg' & Hobs). unfold obs in Hobs.
    rewrite H2 in Hobs. injection Hobs as H4 H5 H6. rewrite H4 in H6.
    exists pg'. split_and!; [done|congruence..].
  - intros p pg Hpg H1 H2. destruct (obs_lookup _ _ _ _ (eq_sym Ho) Hpg) as (pg' & Hpg' & Hobs).
    unfold obs in Hobs. rewrite H1 in Hobs. injection Hobs as H4 H5 H6. rewrite H4 in H6.
    rewrite <-H6. apply (Hbd _ _ Hpg'); congruence.
  - done.
Qed.

Lemma same_view_pages st P : obs <$> P = obs <$> pages st → same_view st (with_pages P st).
Proof. intros HP. split_and!; [done..|]. intros zn ?. by exists zn. Qed.

Lemma same_view_trans st1 st2 st3 : same_view st1 st2 → same_view st2 st3 → same_view st1 st3.
Proof.
  intros (L1 & O1 & Z1) (L2 & O2 & Z2). split_and!; [congruence..|].
  intros zn (zn' & Hz & ? & ?)%Z1. destruct (Z2 _ Hz) as (zn'' & ? & ? & ?).
  exists zn''. split_and!; [done|congruence..].
Qed.

Lemma frame_pages st P :
  (∃ zn, zones st !! z = Some zn) → dom P = dom (pages st) → frame z st (with_pages P st).
Proof.
  intros [zn Hz] Hd. split; [done|]. exists zn, (z_free_pages zn), (nr_free zn). split; [done|].
  assert (with_free (z_free_pages zn) (nr_free zn) zn = zn) as -> by by destruct zn.
  rewrite insert_id by done. by destruct st.
Qed.

(** ** Splitting and merging blocks *)

Lemma pow2_succ k : 0 ≤ k → 2 ^ (k + 1) = 2 ^ k + 2 ^ k.
Proof. intros. rewrite Z.pow_add_r by lia. lia. Qed.

Lemma avail_split st fl s p k :
  0 ≤ k → avail zid st fl s p (k + 1) → avail zid st fl s p k ∧ avail zid st fl s (p + 2 ^ k) k.
Proof.
  intros Hk ((Ho & Hp0 & Hp1 & Hdiv) & Hid & Hd). unfold order_ok in Ho.
  pose proof (pow2_succ k Hk) as Hpow. assert (0 < 2 ^ k) by (apply Z.pow_pos_nonneg; lia).
  assert ((2 ^ k | p)) as Hdk.
  { eapply Z.divide_trans; [|done]. rewrite Hpow. exists 2. lia. }
  split; (split_and!; [split_and!; [unfold order_ok; lia|lia|lia|]| |]).
  - done.
  - intros q Hq. apply Hid. lia.
  - intros p' o' mt' Hin. destruct (Hd _ _ _ Hin); lia.
  - apply Z.divide_add_r; [done|reflexivity].
  - intros q Hq. apply Hid. lia.
  - intros p' o' mt' Hin. destruct (Hd _ _ _ Hin); lia.
Qed.

Lemma avail_merge st fl s p k :
  order_ok (k + 1) → 0 ≤ k → (2 ^ (k + 1) | p) →
  avail zid st fl s p k → avail zid st fl s (p + 2 ^ k) k → zone_ok z zid st fl s →
  avail zid st fl s p (k + 1).
Proof.
  intros Ho Hk Hdiv ((_ & Hp0 & _) & Hid1 & Hd1) ((_ & _ & Hp1 & _) & Hid2 & Hd2) Hok.
  pose proof (pow2_succ k Hk) as Hpow. split_and!; [split_and!; [done..|lia|done]| |].
  - intros q Hq. destruct (decide (q < p + 2 ^ k)); [apply Hid1|apply Hid2]; lia.
  - intros p' o' mt' Hin. specialize (Hd1 _ _ _ Hin). specialize (Hd2 _ _ _ Hin).
    destruct (zk_block _ _ _ _ _ Hok _ _ _ Hin) as ((Ho' & _) & _). pose proof (pow2_order _ Ho').
    assert (0 < 2 ^ k) by (apply Z.pow_pos_nonneg; lia). lia.
Qed.

(** ** [expand] *)

Lemma guard_ok st fl s p o mt :
  zone_ok z zid st fl s → p ∈ fblocks fl o mt →
  ∃ st', set_page_guard p o st = Ret (tt, st') ∧ frame z st st' ∧ same_view st st'.
Proof.
  intros Hok Hp. destruct (zk_block _ _ _ _ _ Hok _ _ _ Hp) as ((Ho & _) & (pg & Hpg & Hz & Hb & Hord) & _).
  destruct (zk_zone _ _ _ _ _ Hok) as (zn & Hzn & _).
  unfold set_page_guard. destruct (_ <=? _).
  - eexists (with_pages (<[p := set_page_private o (__SetPageGuard pg)]> (<[p := __SetPageGuard pg]> (pages st))) st).
    split_and!.
    + mstep with upd_page_run; [|done]. 
      by rewrite (upd_page_run _ _ _ (__SetPageGuard pg)) by apply lookup_insert_eq.
    + simpl. rewrite insert_insert_eq. apply frame_pages; [eauto|by apply dom_insert_lookup_L].
    + simpl. rewrite insert_insert_eq. apply same_view_pages, (obs_insert _ _ pg); [done|].
      unfold obs. destruct Ho. rewrite private_order by done.
      rewrite (proj1 (private_neutral _ _)), (proj2 (private_neutral _ _)).
      by rewrite (proj1 (guard_neutral _)), (proj2 (guard_neutral _)), Hb, Hord.
  - exists st. split_and!; [done| |split_and!; eauto].
    pose proof (frame_pages st (pages st)) as Hf.
    replace (with_pages (pages st) st) with st in Hf by by destruct st. eauto.
Qed.

(** The blocks [expand] puts back: the upper halves of the successive
    splits, from order [high - 1] down to order [high - n]. *)
Fixpoint fl_expand (n : nat) (p high mt : Z) (fl : flists) : flists :=
  match n with
  | O => fl
  | S n => fl_expand n p (high - 1) mt (fl_add (p + 2 ^ (high - 1)) (high - 1) mt fl)
  end.

Lemma shiftr_pow2 k : 0 ≤ k → Z.shiftr (2 ^ (k + 1)) 1 = 2 ^ k.
Proof.
  intros. rewrite Z.shiftr_div_pow2, Z.pow_1_r, pow2_succ by lia.
  replace (2 ^ k + 2 ^ k) with (2 ^ k * 2) by lia. apply Z.div_mul. lia.
Qed.

Lemma expand_ok n st fl s p high mt :
  zone_ok z zid st fl s → avail zid st fl s p high → type_ok mt → Z.of_nat n ≤ high →
  ∃ st' s', expand_loop (S n) z p (high - Z.of_nat n) high (2 ^ high) mt st = Ret (tt, st') ∧
    frame z st st' ∧ zone_ok z zid st' (fl_expand n p high mt fl) s' ∧
    avail zid st' (fl_expand n p high mt fl) s' p (high - Z.of_nat n) ∧
    ∀ q k, avail zid st fl s q k → q + 2 ^ k ≤ p ∨ p + 2 ^ high ≤ q →
      avail zid st' (fl_expand n p high mt fl) s' q k.
Proof.
  revert st fl s high. induction n as [|n IH]; intros st fl s high Hok Hav Hmt Hn.
  - exists st, s. rewrite Z.sub_0_r. cbn [expand_loop]. rewrite Z.ltb_irrefl.
    split_and!; try done. destruct (zk_zone _ _ _ _ _ Hok) as (zn & Hz & _).
    pose proof (frame_pages st (pages st)) as Hf.
    replace (with_pages (pages st) st) with st in Hf by by destruct st. eauto.
  - set (k := high - 1). assert (high = k + 1) as Hhigh by lia. assert (0 ≤ k) by lia.
    rewrite Hhigh in Hav. destruct (avail_split _ _ _ _ _ ltac:(done) Hav) as [Hlo Hhi].
    assert (0 < 2 ^ k) by (apply Z.pow_pos_nonneg; lia).
    destruct (add_ok _ _ _ _ _ _ Hok Hhi Hmt) as (st1 & s1 & Hadd & Hf1 & Hok1 & Hkeep1).
    destruct (guard_ok st1 (fl_add (p + 2 ^ k) k mt fl) s1 (p + 2 ^ k) k mt) as (st2 & Hg & Hf2 & Hv2);
      [done| |].
    { apply elem_fl_add; [|by left]. apply (zk_dom _ _ _ _ _ Hok). by destruct Hhi as [[] _]. }
    pose proof (zone_ok_view _ _ _ _ Hv2 Hok1) as Hok2.
    assert (avail zid st2 (fl_add (p + 2 ^ k) k mt fl) s1 p k) as Hlo2.
    { eapply avail_view; [done|]. apply Hkeep1; [done|lia]. }
    destruct (IH _ _ _ k Hok2 Hlo2 Hmt) as (st3 & s3 & Hrun & Hf3 & Hok3 & Hav3 & Hkeep3); [lia|].
    exists st3, s3. replace (high - Z.of_nat (S n)) with (k - Z.of_nat n) by lia. split_and!.
    + cbn [expand_loop]. rewrite (proj2 (Z.ltb_lt _ _)) by lia. fold k.
      rewrite Hhigh, shiftr_pow2 by done. mstep with Hadd. mstep with Hg. exact Hrun.
    + eauto using frame_trans.
    + exact Hok3.
    + exact Hav3.
    + intros q j Hq Hd. pose proof (pow2_succ k ltac:(done)). rewrite Hhigh in Hd. apply Hkeep3; [|lia].
      eapply avail_view; [done|]. apply Hkeep1; [done|lia].
Qed.

Lemma expand_run st fl s p low high mt :
  zone_ok z zid st fl s → avail zid st fl s p high → type_ok mt → 0 ≤ low ≤ high →
  let fl' := fl_expand (Z.to_nat (high - low)) p high mt fl in
  ∃ st' s', expand z p low high mt st = Ret (tt, st') ∧
    frame z st st' ∧ zone_ok z zid st' fl' s' ∧ avail zid st' fl' s' p low ∧
    ∀ q k, avail zid st fl s q k → q + 2 ^ k ≤ p ∨ p + 2 ^ high ≤ q → avail zid st' fl' s' q k.
Proof.
  intros Hok Hav Hmt Hlow fl'.
  destruct (expand_ok (Z.to_nat (high - low)) st fl s p high mt) as (st' & s' & Hrun & ? & ? & Hav' & ?);
    [done..|lia|].
  replace (high - Z.of_nat (Z.to_nat (high - low))) with low in * by lia.
  exists st', s'. split_and!; [|done..]. unfold expand. rewrite Z.shiftl_1_l, wrap_small; [done|].
  destruct Hav as ((Ho & _) & _). unfold order_ok, MAX_ORDER in Ho.
  split; [apply Z.pow_nonneg; lia|]. apply Z.pow_lt_mono_r; lia.
Qed.

(** ** Counting pages *)

Lemma npages_add fl p o mt :
  is_Some (fl !! (o, mt)) → order_ok o → type_ok mt → npages (fl_add p o mt fl) = npages fl + 2 ^ o.
Proof.
  intros Hfl Ho Hmt. rewrite (npages_change fl _ o 1); [lia|done|].
  intros o'. unfold fl_add. rewrite nblocks_alter by done. case_decide; [simpl; lia|done].
Qed.

Lemma npages_del st fl s p o mt :
  zone_ok z zid st fl s → p ∈ fblocks fl o mt → npages (fl_del p o mt fl) = npages fl - 2 ^ o.
Proof.
  intros Hok Hp. destruct (block_list _ _ _ _ _ _ Hok Hp) as (l1 & l2 & Hl & Hnd & _).
  destruct (fblocks_ok _ _ _ _ _ _ Hok Hp) as (Hsome & Ho & Hmt).
  rewrite (npages_change fl _ o (-1)); [lia|done|].
  intros o'. unfold fl_del. rewrite nblocks_alter by done. unfold fblocks. rewrite Hl; simpl.
  case_decide; [|done]. by rewrite length_filter_ne.
Qed.

Lemma fl_add_is_Some fl p o mt k : is_Some (fl_add p o mt fl !! k) ↔ is_Some (fl !! k).
Proof. unfold fl_add. by rewrite lookup_alter_is_Some. Qed.
Lemma fl_del_is_Some fl p o mt k : is_Some (fl_del p o mt fl !! k) ↔ is_Some (fl !! k).
Proof. unfold fl_del. by rewrite lookup_alter_is_Some. Qed.

Lemma npages_expand n fl p high mt :
  (∀ o mt, order_ok o → type_ok mt → is_Some (fl !! (o, mt))) →
  type_ok mt → Z.of_nat n ≤ high < MAX_ORDER →
  npages (fl_expand n p high mt fl) = npages fl + 2 ^ high - 2 ^ (high - Z.of_nat n).
Proof.
  revert fl high. induction n as [|n IH]; intros fl high Hfl Hmt Hn.
  - simpl. rewrite Z.sub_0_r. lia.
  - cbn [fl_expand]. rewrite IH; [| |done|lia].
    + rewrite npages_add; [|apply Hfl; [unfold order_ok; lia|done]|unfold order_ok; lia|done].
      replace (high - Z.of_nat (S n)) with (high - 1 - Z.of_nat n) by lia.
      pose proof (pow2_succ (high - 1) ltac:(lia)) as Hh.
      replace (high - 1 + 1) with high in Hh by lia. lia.
    + intros o' mt' Ho' Hmt'. apply fl_add_is_Some. by apply Hfl.
Qed.

(** ** Taking a block and splitting it down *)

(** Removing [p] from the list of order [o], type [from], and giving back
    the upper halves to type [mt]: the common part of both [__rmqueue]s. *)
Definition fl_take (p o from order mt : Z) (fl : flists) : flists :=
  fl_expand (Z.to_nat (o - order)) p o mt (fl_del p o from fl).

Lemma npages_take st fl s p o from order mt :
  zone_ok z zid st fl s → p ∈ fblocks fl o from → 0 ≤ order ≤ o → type_ok mt →
  npages (fl_take p o from order mt fl) = npages fl - 2 ^ order.
Proof.
  intros Hok Hp Ho Hmt. destruct (fblocks_ok _ _ _ _ _ _ Hok Hp) as (_ & Hoo & _). unfold order_ok in Hoo.
  unfold fl_take. rewrite npages_expand; [| |done|lia].
  - rewrite (npages_del _ _ _ _ _ _ Hok Hp).
    replace (o - Z.of_nat (Z.to_nat (o - order))) with order by lia. lia.
  - intros o' mt' Ho' Hmt'. apply fl_del_is_Some. by apply (zk_dom _ _ _ _ _ Hok).
Qed.

(** What a successful allocation of [2 ^ order] pages at [p] leaves: the
    block is outside the free lists, and so is every block that was. *)
Definition allocated (st : mm) (fl : flists) (s : ghost) (fl' : flists) (p order : Z)
    (st' : mm) : Prop :=
  frame z st st' ∧
  ∃ s', zone_ok z zid st' fl' s' ∧ avail zid st' fl' s' p order ∧
    ∀ q k, avail zid st fl s q k → avail zid st' fl' s' q k.

Lemma set_migratetype_ok st fl s p order mt :
  zone_ok z zid st fl s → avail zid st fl s p order →
  ∃ st', upd_page p (set_freepage_migratetype mt) st = Ret (tt, st') ∧
    frame z st st' ∧ same_view st st'.
Proof.
  intros Hok Hav. pose proof Hav as ((Ho & _) & Hid & _).
  destruct (Hid p) as (_ & pg & Hpg & Hz & Hb); [pose proof (pow2_order _ Ho); lia|].
  destruct (zk_zone _ _ _ _ _ Hok) as (zn & Hzn & _).
  eexists. split; [by apply upd_page_run|]. split.
  - apply frame_pages; [eauto|by apply dom_insert_lookup_L].
  - apply same_view_pages, (obs_insert _ _ pg); [done|].
    apply obs_neutral; [apply migratetype_neutral|done].
Qed.

(** The page an unlinked block starts with has its order forgotten. *)
Definition unordered (st : mm) (p : Z) : Prop := ∃ pg, pages st !! p = Some pg ∧ page_order pg = 0.

Lemma take_ok (mid : M mm unit) st fl s p o from order mt :
  zone_ok z zid st fl s → p ∈ fblocks fl o from → type_ok mt → 0 ≤ order ≤ o →
  (∀ st1, unordered st1 p → mid st1 = Ret (tt, st1)) →
  ∃ st', (__del_page_from_free_list p z o;; mid;; expand z p order o mt;;
          upd_page p (set_freepage_migratetype mt);; mret (Some p)) st = Ret (Some p, st') ∧
    allocated st fl s (fl_take p o from order mt fl) p order st'.
Proof.
  intros Hok Hp Hmt Ho Hmid.
  destruct (del_ok _ _ _ _ _ _ Hok Hp) as (st1 & s1 & Hdel & Hf1 & Hun & Hok1 & Hav1 & Hk1).
  destruct (expand_run _ _ _ _ order o mt Hok1 Hav1 Hmt Ho) as (st2 & s2 & Hexp & Hf2 & Hok2 & Hav2 & Hk2).
  destruct (set_migratetype_ok _ _ _ _ _ mt Hok2 Hav2) as (st3 & Hset & Hf3 & Hv3).
  exists st3. split.
  - mstep with Hdel. mstep with Hmid; [|done]. mstep with Hexp. by mstep with Hset.
  - split; [eapply frame_trans; [|done]; by eapply frame_trans|]. exists s2.
    split_and!; [by eapply zone_ok_view|by eapply avail_view|].
    intros q k Hq. eapply avail_view; [done|]. apply Hk2; [by apply Hk1|].
    destruct Hq as (_ & _ & Hd). destruct (Hd _ _ _ Hp); [by right|by left].
Qed.

(** ** The two searches *)

Lemma list_empty_run st fl s o mt :
  zone_ok z zid st fl s → order_ok o → type_ok mt →
  on_links (list_empty (Ptr (FreeHead z o mt))) st = Ret (bool_decide (fblocks fl o mt = []), st).
Proof.
  intros Hok Ho Hmt. destruct (fl_some _ _ _ _ _ Hok Ho Hmt) as [l Hl].
  rewrite (on_links_reads _ _ s _ (reads_list_empty _ _ _ (zk_lists _ _ _ _ _ Hok _ _ _ Hl)))
    by apply Hok.
  do 2 f_equal. apply bool_decide_ext. unfold fblocks. rewrite Hl; simpl. by destruct l.
Qed.

Lemma list_first_run st fl s o mt p l :
  zone_ok z zid st fl s → fblocks fl o mt = p :: l →
  list_first_entry (Ptr (FreeHead z o mt)) st = Ret (p, st).
Proof.
  intros Hok Hl. assert (p ∈ fblocks fl o mt) as Hp by (rewrite Hl; left).
  apply fblocks_some in Hp as (l' & Hl' & _). unfold fblocks in Hl. rewrite Hl' in Hl. simplify_eq/=.
  unfold list_first_entry. erewrite bind_Ret.
  2: { apply (on_links_reads _ _ s).
       - apply reads_next_head. by apply (zk_lists _ _ _ _ _ Hok).
       - apply Hok. }
  done.
Qed.

Lemma smallest_none n st fl s order c mt :
  zone_ok z zid st fl s → type_ok mt → 0 ≤ c ≤ MAX_ORDER → MAX_ORDER - c < Z.of_nat n →
  (∀ o, c ≤ o < MAX_ORDER → fblocks fl o mt = []) →
  rmqueue_smallest_loop n z order c mt st = Ret (None, st).
Proof.
  unfold MAX_ORDER. intros Hok Hmt. revert c. induction n as [|n IH]; intros c Hc Hn Hall; [lia|].
  cbn [rmqueue_smallest_loop]. unfold MAX_ORDER. destruct (Z.ltb_spec c 11); [|done].
  erewrite bind_Ret; [|eapply list_empty_run; [done|unfold order_ok, MAX_ORDER; lia|done]].
  cbv beta. rewrite bool_decide_eq_true_2 by (apply Hall; lia).
  rewrite wrap_small by lia. apply IH; [lia|lia|]. intros. apply Hall. lia.
Qed.

Lemma smallest_some n st fl s order c o mt p l :
  zone_ok z zid st fl s → type_ok mt → 0 ≤ order ≤ c → c ≤ o < MAX_ORDER →
  MAX_ORDER - c < Z.of_nat n →
  (∀ o', c ≤ o' < o → fblocks fl o' mt = []) → fblocks fl o mt = p :: l →
  ∃ st', rmqueue_smallest_loop n z order c mt st = Ret (Some p, st') ∧
    allocated st fl s (fl_take p o mt order mt fl) p order st'.
Proof.
  unfold MAX_ORDER. intros Hok Hmt Hord. revert c Hord.
  induction n as [|n IH]; intros c Hord Hc Hn Hall Hl; [lia|].
  cbn [rmqueue_smallest_loop]. unfold MAX_ORDER. rewrite (proj2 (Z.ltb_lt _ _)) by lia.
  destruct (decide (c = o)) as [->|Hne].
  - destruct (take_ok (mret tt) st fl s p o mt order mt) as (st' & Hrun & Hal);
      [done|rewrite Hl; left|done|lia|done|].
    exists st'. split; [|done].
    erewrite bind_Ret; [|eapply list_empty_run; [done|unfold order_ok, MAX_ORDER; lia|done]].
    cbv beta. rewrite bool_decide_eq_false_2 by (by rewrite Hl).
    erewrite bind_Ret; [|by eapply list_first_run]. exact Hrun.
  - destruct (IH (c + 1)) as (st' & Hrun & Hal); [lia..|intros; apply Hall; lia|done|].
    exists st'. split; [|done].
    erewrite bind_Ret; [|eapply list_empty_run; [done|unfold order_ok, MAX_ORDER; lia|done]].
    cbv beta. rewrite bool_decide_eq_true_2 by (apply Hall; lia).
    rewrite wrap_small by lia. exact Hrun.
Qed.

(** The first entry of a table row with a block of this order. *)
Fixpoint fallback_type (fl : flists) (o : Z) (row : list Z) : option Z :=
  match row with
  | [] => None
  | fb :: row =>
      if fb =? MIGRATE_TYPES then None
      else if bool_decide (fblocks fl o fb = []) then fallback_type fl o row else Some fb
  end.

(** A row that ends with the sentinel and names valid types before it. *)
Fixpoint row_ok (row : list Z) : bool :=
  match row with
  | [] => false
  | fb :: row => (fb =? MIGRATE_TYPES) || ((0 <=? fb) && (fb <? MIGRATE_TYPES) && row_ok row)
  end.

Lemma fallback_loop_run row st fl s o mt :
  zone_ok z zid st fl s → order_ok o → row_ok row = true →
  fallback_loop row z o mt false false st =
    Ret ((λ fb, (fb, can_steal_fallback o mt)) <$> fallback_type fl o row, st).
Proof.
  intros Hok Ho. induction row as [|fb row IH]; intros Hrow; [done|].
  cbn [fallback_loop fallback_type]. cbn [row_ok] in Hrow.
  destruct (fb =? MIGRATE_TYPES); [done|]. simpl in Hrow.
  apply andb_prop in Hrow as [[H1 H2]%andb_prop H3].
  apply Z.leb_le in H1. apply Z.ltb_lt in H2.
  erewrite bind_Ret; [|by eapply list_empty_run]. cbv beta.
  case_bool_decide; [by apply IH|]. by rewrite orb_false_r.
Qed.

Lemma nblocks_zero fl o :
  nblocks fl o = 0 → ∀ mt, type_ok mt → fblocks fl o mt = [].
Proof.
  intros Hn mt Hmt. assert (Z.of_nat (length (fblocks fl o mt)) = 0) as Hz.
  { apply (sumZ_zero_inv (λ mt, Z.of_nat (length (fblocks fl o mt))) (seqZ 0 MIGRATE_TYPES));
      [lia|done|]. apply elem_of_seqZ. unfold type_ok in Hmt. lia. }
  destruct (fblocks fl o mt); [done|]. simpl in Hz. lia.
Qed.

Lemma fallback_type_empty fl o row :
  (∀ mt, type_ok mt → fblocks fl o mt = []) → row_ok row = true → fallback_type fl o row = None.
Proof.
  intros Hall. induction row as [|fb row IH]; intros Hrow; [done|]. cbn [row_ok fallback_type] in *.
  destruct (fb =? MIGRATE_TYPES); [done|]. simpl in Hrow.
  apply andb_prop in Hrow as [[H1 H2]%andb_prop H3].
  apply Z.leb_le in H1. apply Z.ltb_lt in H2.
  rewrite bool_decide_eq_true_2 by (apply Hall; split; lia). by apply IH.
Qed.

(** The type [find_suitable_fallback] settles on for order [o]. *)
Definition fb_choice (fl : flists) (mt o : Z) : option Z :=
  row ← fallbacks !! Z.to_nat mt; fallback_type fl o row.

Lemma fallback_row mt :
  type_ok mt → mt ≠ MIGRATE_RESERVE → ∃ row, fallbacks !! Z.to_nat mt = Some row ∧ row_ok row = true.
Proof.
  unfold type_ok, MIGRATE_TYPES, MIGRATE_RESERVE. intros Hmt Hne.
  assert (mt = 0 ∨ mt = 1 ∨ mt = 2 ∨ mt = 4 ∨ mt = 5) as Hc by lia.
  destruct Hc as [->|[->|[->|[->| ->]]]]; by eexists.
Qed.

Lemma fallback_type_some fl o row fb :
  row_ok row = true → fallback_type fl o row = Some fb → type_ok fb ∧ fblocks fl o fb ≠ [].
Proof.
  induction row as [|f row IH]; [done|]. cbn [row_ok fallback_type]. intros Hrow.
  destruct (f =? MIGRATE_TYPES); [done|]. simpl in Hrow.
  apply andb_prop in Hrow as [[H1 H2]%andb_prop H3].
  apply Z.leb_le in H1. apply Z.ltb_lt in H2.
  case_bool_decide; [by auto|]. intros [= <-]. split; [split; lia|done].
Qed.

Lemma nblocks_bound fl o : order_ok o → 0 ≤ nblocks fl o ≤ npages fl.
Proof.
  intros Ho. assert (∀ o', 0 ≤ nblocks fl o') as Hnn by (intros; apply sumZ_nonneg; lia).
  split; [done|]. unfold npages.
  assert (∀ l, o ∈ l → nblocks fl o ≤ sumZ (λ o, nblocks fl o * 2 ^ o) l) as Hs.
  { induction l as [|x l IH]; intros Hx; [by apply elem_of_nil in Hx|]. simpl.
    assert (0 ≤ sumZ (λ o, nblocks fl o * 2 ^ o) l).
    { apply sumZ_nonneg. intros y _. pose proof (Hnn y). pose proof (Z.pow_nonneg 2 y). nia. }
    pose proof (Hnn x). pose proof (Z.pow_nonneg 2 x).
    apply elem_of_cons in Hx as [->|Hx]; [|specialize (IH Hx); nia].
    pose proof (pow2_order _ Ho). nia. }
  apply Hs, elem_of_seqZ. unfold order_ok in Ho. lia.
Qed.

Lemma find_fallback_run st fl s o mt :
  zone_ok z zid st fl s → npages fl < 2 ^ 32 → order_ok o → type_ok mt → mt ≠ MIGRATE_RESERVE →
  find_suitable_fallback z o mt false st =
    Ret ((λ fb, (fb, can_steal_fallback o mt)) <$> fb_choice fl mt o, st).
Proof.
  intros Hok Hb Ho Hmt Hne. destruct (zk_zone _ _ _ _ _ Hok) as (zn & Hz & _ & Hnr & _).
  destruct (fallback_row _ Hmt Hne) as (row & Hrow & Hro). pose proof (nblocks_bound fl o Ho) as Hnb.
  unfold find_suitable_fallback, fb_choice. rewrite Hrow.
  mstep with rd_nr_free_run; [|done|by destruct Ho|by apply Hnr].
  rewrite (wrap_small 32) by lia. destruct (Z.eqb_spec (nblocks fl o) 0) as [H0|H0].
  - simpl. rewrite fallback_type_empty; [done|by apply nblocks_zero|done].
  - rewrite (proj2 (Z.ltb_ge mt 0)) by (destruct Hmt; done). mstep.
    simpl. by eapply fallback_loop_run.
Qed.

Lemma steal_unordered st p mt :
  unordered st p → steal_suitable_fallback z p mt st = Ret (tt, st).
Proof.
  intros (pg & Hpg & Ho). unfold steal_suitable_fallback.
  erewrite bind_Ret; [|by apply get_some_run]. cbv beta. rewrite Ho.
  by rewrite (proj2 (Z.ltb_lt 0 _)) by apply pageblock_order_pos.
Qed.

Lemma fb_choice_block fl mt o fb :
  type_ok mt → mt ≠ MIGRATE_RESERVE → fb_choice fl mt o = Some fb →
  type_ok fb ∧ ∃ p l, fblocks fl o fb = p :: l.
Proof.
  intros Hmt Hne Hc. destruct (fallback_row _ Hmt Hne) as (row & Hrow & Hro).
  unfold fb_choice in Hc. rewrite Hrow in Hc.
  destruct (fallback_type_some _ _ _ _ Hro Hc) as [? Hnil]. split; [done|].
  destruct (fblocks fl o fb) as [|p l]; [done|eauto].
Qed.

Lemma fallback_found n st fl s order c o fb mt p l :
  zone_ok z zid st fl s → npages fl < 2 ^ 32 → type_ok mt → mt ≠ MIGRATE_RESERVE →
  0 ≤ order ≤ o → o ≤ c < MAX_ORDER → c - o < Z.of_nat n →
  (∀ o', o < o' ≤ c → fb_choice fl mt o' = None) →
  fb_choice fl mt o = Some fb → fblocks fl o fb = p :: l →
  ∃ st', rmqueue_fallback_loop n z order c mt st = Ret (Some p, st') ∧
    allocated st fl s (fl_take p o fb order mt fl) p order st'.
Proof.
  unfold MAX_ORDER. intros Hok Hb Hmt Hne Hord. revert c.
  induction n as [|n IH]; intros c Hc Hn Hall Hfb Hl; [lia|].
  cbn [rmqueue_fallback_loop]. rewrite (proj2 (Z.leb_le _ _)) by lia.
  destruct (decide (c = o)) as [->|Hco].
  - destruct (take_ok (if can_steal_fallback o mt then steal_suitable_fallback z p mt else mret tt)
      st fl s p o fb order mt) as (st' & Hrun & Hal); [done|rewrite Hl; left|done|lia| |].
    { intros st1 Hun. destruct (can_steal_fallback o mt); [by apply steal_unordered|done]. }
    exists st'. split; [|done].
    erewrite bind_Ret; [|eapply find_fallback_run; try done; unfold order_ok, MAX_ORDER; lia].
    cbv beta. rewrite Hfb. simpl.
    erewrite bind_Ret; [|by eapply list_first_run]. exact Hrun.
  - destruct (IH (c - 1)) as (st' & Hrun & Hal); [lia..|intros; apply Hall; lia|done|done|].
    exists st'. split; [|done].
    erewrite bind_Ret; [|eapply find_fallback_run; try done; unfold order_ok, MAX_ORDER; lia].
    cbv beta. rewrite Hall by lia. simpl. rewrite wrap_small by lia. exact Hrun.
Qed.

(** The part of the search common to both ways it ends without a block. *)
Lemma fallback_skip n m st fl s order c mt :
  zone_ok z zid st fl s → npages fl < 2 ^ 32 → type_ok mt → mt ≠ MIGRATE_RESERVE →
  0 ≤ order → order ≤ c < MAX_ORDER → Z.of_nat m = c - order →
  (∀ o, order ≤ o < MAX_ORDER → fb_choice fl mt o = None) →
  rmqueue_fallback_loop (S m + n) z order c mt st =
    rmqueue_fallback_loop n z order (order -[32] 1) mt st.
Proof.
  unfold MAX_ORDER. intros Hok Hb Hmt Hne Hord. revert c.
  induction m as [|m IH]; intros c Hc Hm Hall.
  - replace c with order by lia. cbn [rmqueue_fallback_loop Nat.add]. rewrite Z.leb_refl.
    erewrite bind_Ret; [|eapply find_fallback_run; try done; unfold order_ok, MAX_ORDER; lia].
    cbv beta. by rewrite Hall by lia.
  - replace (S (S m) + n)%nat with (S (S m + n)) by lia.
    cbn [rmqueue_fallback_loop]. rewrite (proj2 (Z.leb_le _ _)) by lia.
    erewrite bind_Ret; [|eapply find_fallback_run; try done; unfold order_ok, MAX_ORDER; lia].
    cbv beta. rewrite Hall by lia. simpl. rewrite (wrap_small 32) by lia. apply IH; [lia..|done].
Qed.

Lemma fallback_none st fl s order mt :
  zone_ok z zid st fl s → npages fl < 2 ^ 32 → type_ok mt → mt ≠ MIGRATE_RESERVE →
  0 < order < MAX_ORDER → (∀ o, order ≤ o < MAX_ORDER → fb_choice fl mt o = None) →
  __rmqueue_fallback z order mt st = Ret (None, st).
Proof.
  intros Hok Hb Hmt Hne Hord Hall. unfold __rmqueue_fallback.
  assert (S (S (Z.to_nat MAX_ORDER)) =
    (S (Z.to_nat (MAX_ORDER - 1 - order)) + S (S (Z.to_nat order)))%nat) as ->
    by (unfold MAX_ORDER in *; lia).
  rewrite (fallback_skip _ _ _ _ _ _ _ _ Hok Hb Hmt Hne) by (done || unfold MAX_ORDER in *; lia).
  cbn [rmqueue_fallback_loop]. rewrite (wrap_small 32) by (unfold MAX_ORDER in *; lia).
  by rewrite (proj2 (Z.leb_gt _ _)) by lia.
Qed.

(** For order 0 the unsigned counter never goes below the bound. *)
Lemma fallback_underflow st fl s mt :
  zone_ok z zid st fl s → npages fl < 2 ^ 32 → type_ok mt → mt ≠ MIGRATE_RESERVE →
  (∀ o, order_ok o → fb_choice fl mt o = None) →
  __rmqueue_fallback z 0 mt st = Fault.
Proof.
  intros Hok Hb Hmt Hne Hall. unfold __rmqueue_fallback.
  change (S (S (Z.to_nat MAX_ORDER))) with (S (Z.to_nat (MAX_ORDER - 1)) + 2)%nat.
  rewrite (fallback_skip _ _ _ _ _ _ _ _ Hok Hb Hmt Hne) by (done || unfold MAX_ORDER in *; lia).
  cbn [rmqueue_fallback_loop]. change (0 -[32] 1) with 4294967295. simpl.
  apply bind_Fault. unfold find_suitable_fallback. apply bind_Fault.
  destruct (zk_zone _ _ _ _ _ Hok) as (zn & Hz & Hlen & _).
  unfold rd_nr_free. mstep with zone_at_run; [|done]. unfold get_some. simpl.
  rewrite (proj2 (lookup_ge_None (nr_free zn) _)); [done|].
  rewrite Hlen. unfold MAX_ORDER. lia.
Qed.

(** ** Buddies *)

Lemma land_pow2_clear p o : 0 ≤ o → Z.testbit p o = false → Z.land p (2 ^ o) = 0.
Proof.
  intros Ho Hb. apply Z.bits_inj'. intros n Hn. rewrite Z.land_spec, Z.bits_0, Z.pow2_bits_eqb by lia.
  destruct (Z.eqb_spec o n) as [<-|]; [by rewrite Hb|by rewrite andb_false_r].
Qed.

Lemma lxor_clear p o : 0 ≤ o → Z.testbit p o = false → Z.lxor p (2 ^ o) = p + 2 ^ o.
Proof. intros Ho Hb. symmetry. apply Z.add_nocarry_lxor. by apply land_pow2_clear. Qed.

Lemma lxor_set p o : 0 ≤ o → Z.testbit p o = true → Z.lxor p (2 ^ o) = p - 2 ^ o.
Proof.
  intros Ho Hb. assert (Z.testbit (Z.lxor p (2 ^ o)) o = false) as Hc.
  { by rewrite Z.lxor_spec, Hb, Z.pow2_bits_true by lia. }
  pose proof (lxor_clear _ _ Ho Hc) as Hx.
  rewrite Z.lxor_assoc, Z.lxor_nilpotent, Z.lxor_0_r in Hx. lia.
Qed.

Lemma land_buddy p o :
  0 ≤ o → Z.land (Z.lxor p (2 ^ o)) p = if Z.testbit p o then p - 2 ^ o else p.
Proof.
  intros Ho. destruct (Z.testbit p o) eqn:Hb.
  - rewrite <-(lxor_set p o) by done. apply Z.bits_inj'. intros n Hn.
    rewrite Z.land_spec, Z.lxor_spec, Z.pow2_bits_eqb by lia.
    destruct (Z.eqb_spec o n) as [<-|]; [by rewrite Hb|]. rewrite xorb_false_r. by destruct (Z.testbit p n).
  - apply Z.bits_inj'. intros n Hn. rewrite Z.land_spec, Z.lxor_spec, Z.pow2_bits_eqb by lia.
    destruct (Z.eqb_spec o n) as [<-|]; [by rewrite Hb|]. rewrite xorb_false_r. by destruct (Z.testbit p n).
Qed.

Lemma divide_testbit p o : 0 ≤ o → (2 ^ o | p) → (2 ^ (o + 1) | p) ↔ Z.testbit p o = false.
Proof.
  intros Ho [k ->]. assert (0 < 2 ^ o) by (apply Z.pow_pos_nonneg; lia).
  rewrite <-Z.shiftl_mul_pow2, Z.shiftl_spec, Z.sub_diag by lia.
  rewrite Z.shiftl_mul_pow2, pow2_succ by lia. split.
  - intros [j Hj]. assert (k = 2 * j) as -> by nia. apply Z.testbit_even_0.
  - intros Hk. rewrite Z.bit0_odd in Hk. apply (f_equal negb) in Hk. rewrite Z.negb_odd in Hk.
    apply Z.even_spec in Hk as [j ->]. exists j. lia.
Qed.

Lemma find_buddy p o :
  block_shape p o → __find_buddy_pfn p o = if Z.testbit p o then p - 2 ^ o else p + 2 ^ o.
Proof.
  intros (Ho & Hp0 & Hp1 & Hd). unfold __find_buddy_pfn, order_ok, MAX_ORDER in *.
  rewrite Z.shiftl_1_l. assert (0 < 2 ^ o) by (apply Z.pow_pos_nonneg; lia).
  destruct (Z.testbit p o) eqn:Hb.
  - rewrite lxor_set by (done || lia). apply wrap_small.
    destruct (decide (p < 2 ^ o)); [|lia]. exfalso.
    rewrite (Z.bits_above_log2 p o) in Hb; [done|lia|].
    destruct (decide (p = 0)) as [->|]; [by rewrite Z.bits_0 in Hb|]. apply Z.log2_lt_pow2; lia.
  - rewrite lxor_clear by (done || lia). apply wrap_small. split; [lia|].
    assert ((2 ^ (o + 1) | p)) as [k Hk] by (apply divide_testbit; (done || lia)).
    assert (2 ^ 32 = 2 ^ (31 - o) * 2 ^ (o + 1)) as H32
      by (rewrite <-Z.pow_add_r by lia; f_equal; lia).
    assert (0 < 2 ^ (31 - o)) by (apply Z.pow_pos_nonneg; lia).
    rewrite (pow2_succ o) in * by lia. rewrite H32 in *. generalize dependent (2 ^ (31 - o)).
    intros b H32 Hp1 Hb0. assert (k < b) by nia. nia.
Qed.

(** The memory map: frames below [N], in whole blocks of the largest order. *)
Definition memmap (N : Z) (st : mm) : Prop :=
  (2 ^ (MAX_ORDER - 1) | N) ∧ N ≤ 2 ^ 32 ∧ ∀ q, is_Some (pages st !! q) ↔ 0 ≤ q < N.

Lemma memmap_frame N st st' : frame z st st' → memmap N st → memmap N st'.
Proof.
  intros [Hd _] (HN & HN' & Hq). split_and!; [done..|]. intros q.
  by rewrite <-Hq, <-!elem_of_dom, Hd.
Qed.

(** Which list holds the buddy of [p]. *)
Definition buddy_type (fl : flists) (p o : Z) : option Z :=
  head (filter (λ mt, p ∈ fblocks fl o mt) (seqZ 0 MIGRATE_TYPES)).

Lemma buddy_type_Some fl p o mt : buddy_type fl p o = Some mt → p ∈ fblocks fl o mt.
Proof.
  unfold buddy_type. intros Hh. apply head_Some in Hh as [l Hl].
  assert (mt ∈ filter (λ mt, p ∈ fblocks fl o mt) (seqZ 0 MIGRATE_TYPES)) as Hin
    by (rewrite Hl; left).
  by apply list_elem_of_filter in Hin as [? _].
Qed.

Lemma buddy_type_None fl p o mt :
  type_ok mt → p ∈ fblocks fl o mt → buddy_type fl p o ≠ None.
Proof.
  unfold buddy_type. intros Hmt Hp Hh. apply head_None in Hh.
  assert (mt ∈ filter (λ mt, p ∈ fblocks fl o mt) (seqZ 0 MIGRATE_TYPES)) as Hin.
  { apply list_elem_of_filter. split; [done|]. apply elem_of_seqZ. unfold type_ok in Hmt. lia. }
  rewrite Hh in Hin. by apply elem_of_nil in Hin.
Qed.

(** [page_is_buddy] recognises exactly the free blocks of that order. *)
Lemma page_is_buddy_run st fl s p b o :
  zone_ok z zid st fl s → idle_page zid st s p → is_Some (pages st !! b) →
  page_is_buddy p b o st = Ret (bool_decide (is_Some (buddy_type fl b o)), st).
Proof.
  intros Hok (_ & pg & Hpg & Hz & _) [bg Hbg]. unfold page_is_buddy, page_at.
  erewrite bind_Ret; [|by apply get_some_run]. cbv beta.
  assert (bool_decide (is_Some (buddy_type fl b o)) =
    PageBuddy bg && (page_order bg =? o) && (page_zone_id pg =? page_zone_id bg)) as ->.
  { apply eq_bool_prop_intro. rewrite bool_decide_spec, Is_true_true, !andb_true_iff, !Z.eqb_eq. split.
    - intros [mt Hmt%buddy_type_Some].
      destruct (zk_block _ _ _ _ _ Hok _ _ _ Hmt) as (_ & (bg' & Hbg' & ? & ? & ?) & _).
      simplify_eq. split_and!; congruence.
    - intros [[H1 <-] H3]. destruct (zk_buddy _ _ _ _ _ Hok _ _ Hbg H1 ltac:(congruence)) as [mt Hmt].
      destruct (fblocks_ok _ _ _ _ _ _ Hok Hmt) as (_ & _ & Ht).
      apply not_eq_None_Some. by apply (buddy_type_None _ _ _ mt). }
  destruct (PageBuddy bg); [|done]. simpl. destruct (page_order bg =? o); [|done]. simpl.
  erewrite bind_Ret; [|by apply get_some_run]. cbv beta.
  by destruct (page_zone_id pg =? page_zone_id bg).
Qed.

(** ** Merging *)

(** What [__free_one_page] does to the free lists, [None] for the merge with
    a lower buddy, whose 32-bit pointer difference leaves the memory map. *)
Fixpoint fl_merge (n : nat) (p o mt : Z) (fl : flists) : option flists :=
  match n with
  | O => None
  | S n =>
      if o <? MAX_ORDER - 1 then
        if Z.testbit p o then None
        else match buddy_type fl (p + 2 ^ o) o with
             | Some mt' => fl_merge n p (o + 1) mt (fl_del (p + 2 ^ o) o mt' fl)
             | None => Some (fl_add p o mt fl)
             end
      else Some (fl_add p o mt fl)
  end.

Lemma put_block_ok st fl s p o mt :
  zone_ok z zid st fl s → avail zid st fl s p o → type_ok mt →
  ∃ st' s', (upd_page p (set_page_order o);; __add_page_to_free_list p z o mt) st = Ret (tt, st') ∧
    frame z st st' ∧ zone_ok z zid st' (fl_add p o mt fl) s' ∧
    ∀ q k, avail zid st fl s q k → q + 2 ^ k ≤ p ∨ p + 2 ^ o ≤ q →
      avail zid st' (fl_add p o mt fl) s' q k.
Proof.
  intros Hok Hav Hmt. pose proof Hav as ((Ho & _) & Hid & _).
  destruct (Hid p) as (_ & pg & Hpg & Hz & _); [pose proof (pow2_order _ Ho); lia|].
  destruct (add_core _ _ _ _ _ _ (set_page_order o pg) Hok Hav Hmt) as (st' & s' & Hrun & ? & ? & ?);
    [by rewrite zone_set_order|].
  exists st', s'. split_and!; [|done..]. by mstep with upd_page_run.
Qed.

Lemma upper_buddy_mapped N st p o :
  memmap N st → 0 ≤ o < MAX_ORDER - 1 → 0 ≤ p < N → (2 ^ o | p) → Z.testbit p o = false →
  is_Some (pages st !! (p + 2 ^ o)).
Proof.
  intros (HN & _ & Hq) Ho Hp Hd Hb. apply Hq. unfold MAX_ORDER in *.
  assert (0 < 2 ^ o) by (apply Z.pow_pos_nonneg; lia). split; [lia|].
  apply (divide_testbit _ _ (proj1 Ho) Hd) in Hb as [k Hk].
  assert ((2 ^ (o + 1) | N)) as [j Hj].
  { eapply Z.divide_trans; [|done]. exists (2 ^ (10 - (o + 1))). rewrite <-Z.pow_add_r by lia.
    f_equal. lia. }
  rewrite (pow2_succ o) in * by lia. assert (k < j) by nia. nia.
Qed.

(** The lower buddy's address, computed in 32 bits, is outside the map. *)
Lemma lower_buddy_faults N st p o :
  memmap N st → block_shape p o → Z.testbit p o = true →
  page_is_buddy p (p + (__find_buddy_pfn p o -[32] p)) o st = Fault.
Proof.
  intros (_ & HN & Hq) Hsh Hb. rewrite (find_buddy _ _ Hsh), Hb.
  destruct Hsh as (Ho & Hp0 & Hp1 & Hd). unfold order_ok, MAX_ORDER in Ho.
  assert (0 < 2 ^ o) by (apply Z.pow_pos_nonneg; lia).
  assert (2 ^ o < 2 ^ 32) by (apply Z.pow_lt_mono_r; lia).
  assert (2 ^ o ≤ p) as Hge.
  { destruct (decide (p < 2 ^ o)); [|lia]. rewrite (Z.bits_above_log2 p o) in Hb; [done|lia|].
    destruct (decide (p = 0)) as [->|]; [by rewrite Z.bits_0 in Hb|]. apply Z.log2_lt_pow2; lia. }
  assert ((p - 2 ^ o -[32] p) = 2 ^ 32 - 2 ^ o) as ->.
  { unfold wrap. replace (p - 2 ^ o - p) with ((2 ^ 32 - 2 ^ o) + (-1) * 2 ^ 32) by lia.
    rewrite Z.mod_add by lia. apply Z.mod_small. lia. }
  unfold page_is_buddy. apply bind_Fault. unfold page_at, get_some.
  destruct (pages st !! _) eqn:Hl; [|done].
  apply mk_is_Some, Hq in Hl. lia.
Qed.

Lemma merge_ok n N st fl s p o mt :
  zone_ok z zid st fl s → avail zid st fl s p o → memmap N st → type_ok mt →
  MAX_ORDER - o ≤ Z.of_nat n →
  match fl_merge n p o mt fl with
  | Some fl' => ∃ st' s', merge_loop n p p z o mt st = Ret (tt, st') ∧ frame z st st' ∧
      zone_ok z zid st' fl' s' ∧
      ∀ q k, avail zid st fl s q k → q + 2 ^ k ≤ p ∨ p + 2 ^ o ≤ q → avail zid st' fl' s' q k
  | None => merge_loop n p p z o mt st = Fault
  end.
Proof.
  revert st fl s o. induction n as [|n IH]; intros st fl s o Hok Hav Hmap Hmt Hn;
    pose proof Hav as (Hsh & Hid & _); pose proof Hsh as (Ho & Hp0 & Hp1 & Hd); unfold order_ok in Ho; [lia|].
  pose proof (pow2_order _ (proj1 Hsh)) as Hpow.
  cbn [fl_merge merge_loop]. destruct (Z.ltb_spec o (MAX_ORDER - 1)); [|by eapply put_block_ok].
  destruct (Z.testbit p o) eqn:Hb.
  { apply bind_Fault. by apply (lower_buddy_faults N). }
  assert (is_Some (pages st !! (p + 2 ^ o))) as Hm.
  { apply (upper_buddy_mapped N); [done|lia| |done..].
    apply Hmap. destruct (Hid p) as (_ & pg & ? & _); [lia|eauto]. }
  rewrite (find_buddy _ _ Hsh), Hb.
  assert (p + 2 ^ o -[32] p = 2 ^ o) as ->.
  { replace (p + 2 ^ o - p) with (2 ^ o) by lia. apply wrap_small. unfold MAX_ORDER in *.
    split; [lia|]. apply Z.pow_lt_mono_r; lia. }
  assert (∀ k : bool → M mm unit, (page_is_buddy p (p + 2 ^ o) o ≫= k) st =
    k (bool_decide (is_Some (buddy_type fl (p + 2 ^ o) o))) st) as Hbud.
  { intros k. erewrite bind_Ret; [done|]. eapply page_is_buddy_run; [done|apply Hid; lia|done]. }
  rewrite Hbud. clear Hbud.
  destruct (buddy_type fl (p + 2 ^ o) o) as [mt'|] eqn:Hbt; simpl; [|by eapply put_block_ok].
  apply buddy_type_Some in Hbt as Hin.
  destruct (del_ok _ _ _ _ _ _ Hok Hin) as (st1 & s1 & Hdel & Hf1 & _ & Hok1 & Hav1 & Hkeep1).
  assert (avail zid st1 (fl_del (p + 2 ^ o) o mt' fl) s1 p (o + 1)) as Hav'.
  { apply avail_merge; [unfold order_ok, MAX_ORDER in *; lia|lia| |by apply Hkeep1|done..].
    apply divide_testbit; (done || lia). }
  assert (Z.land (p + 2 ^ o) p = p) as Hland.
  { rewrite <-lxor_clear by (done || lia). rewrite land_buddy by lia. by rewrite Hb. }
  specialize (IH _ _ _ _ Hok1 Hav' (memmap_frame _ _ _ Hf1 Hmap) Hmt ltac:(lia)).
  assert (∀ k : unit → M mm unit, (__del_page_from_free_list (p + 2 ^ o) z o ≫= k) st = k tt st1) as Hd1.
  { intros k. by rewrite (bind_Ret _ _ _ _ _ Hdel). }
  rewrite Hd1, Hland, Z.sub_diag, wrap_small, Z.add_0_r by lia.
  destruct (fl_merge n p (o + 1) mt _) as [fl'|]; [|done].
  destruct IH as (st' & s' & ? & ? & ? & Hkeep). exists st', s'. split_and!; [done| |done|].
  - by eapply frame_trans.
  - intros q k Hq Hd'. apply Hkeep; [by apply Hkeep1|]. pose proof (pow2_succ o ltac:(lia)).
    destruct Hq as ((Hk & _) & _ & Hdq). pose proof (pow2_order _ Hk).
    destruct (Hdq _ _ _ Hin); lia.
Qed.

(** ** Splitting and merging cancel *)

Lemma fl_expand_snoc n p high mt fl :
  fl_expand (S n) p high mt fl =
    fl_add (p + 2 ^ (high - 1 - Z.of_nat n)) (high - 1 - Z.of_nat n) mt (fl_expand n p high mt fl).
Proof.
  revert high fl. induction n as [|n IH]; intros high fl.
  - cbn [fl_expand]. by rewrite Z.sub_0_r.
  - change (fl_expand (S (S n)) p high mt fl) with
      (fl_expand (S n) p (high - 1) mt (fl_add (p + 2 ^ (high - 1)) (high - 1) mt fl)).
    rewrite IH. by replace (high - 1 - 1 - Z.of_nat n) with (high - 1 - Z.of_nat (S n)) by lia.
Qed.

Lemma fl_expand_is_Some n p high mt fl k :
  is_Some (fl_expand n p high mt fl !! k) ↔ is_Some (fl !! k).
Proof.
  revert high fl. induction n as [|n IH]; intros high fl; [done|].
  cbn [fl_expand]. by rewrite IH, fl_add_is_Some.
Qed.

Lemma elem_fl_expand n p high mt fl q o mt' :
  (∀ o, high - Z.of_nat n ≤ o < high → is_Some (fl !! (o, mt))) →
  q ∈ fblocks (fl_expand n p high mt fl) o mt' ↔
    (high - Z.of_nat n ≤ o < high ∧ q = p + 2 ^ o ∧ mt' = mt) ∨ q ∈ fblocks fl o mt'.
Proof.
  induction n as [|n IH]; intros Hfl; [simpl; split; [by right|intros [?|?]; [lia|done]]|].
  rewrite fl_expand_snoc, elem_fl_add, IH.
  - split.
    + intros [Heq|[(? & ? & ?)|?]]; [left; simplify_eq; split_and!; [lia..|done|done]| |by right].
      left. split_and!; [lia..|done|done].
    + intros [(? & -> & ->)|?]; [|by right; right].
      destruct (decide (o = high - 1 - Z.of_nat n)) as [->|]; [by left|right; left].
      split_and!; [lia..|done|done].
  - intros. apply Hfl. lia.
  - apply fl_expand_is_Some, Hfl. lia.
Qed.

Lemma fl_del_add fl p o mt : p ∉ fblocks fl o mt → fl_del p o mt (fl_add p o mt fl) = fl.
Proof.
  intros Hp. unfold fl_del, fl_add. apply map_eq. intros k.
  destruct (decide (k = (o, mt))) as [->|]; [|by rewrite !lookup_alter_ne].
  rewrite !lookup_alter_eq. destruct (fl !! (o, mt)) as [l|] eqn:Hl; [|done]. simpl.
  rewrite filter_cons_False by (intros []; done). f_equal. apply filter_id.
  unfold fblocks in Hp. by rewrite Hl in Hp.
Qed.

Lemma fl_add_del fl p o mt l :
  fblocks fl o mt = p :: l → NoDup (p :: l) → fl_add p o mt (fl_del p o mt fl) = fl.
Proof.
  intros Hl Hnd. unfold fl_del, fl_add. apply map_eq. intros k.
  destruct (decide (k = (o, mt))) as [->|]; [|by rewrite !lookup_alter_ne].
  rewrite !lookup_alter_eq. unfold fblocks in Hl. destruct (fl !! (o, mt)) as [l'|]; [|done].
  simplify_eq/=. rewrite filter_cons_False by (intros []; done).
  rewrite filter_id; [done|]. by apply NoDup_cons in Hnd as [? _].
Qed.

Lemma buddy_type_unique fl p o mt :
  type_ok mt → p ∈ fblocks fl o mt → (∀ mt', p ∈ fblocks fl o mt' → mt' = mt) →
  buddy_type fl p o = Some mt.
Proof.
  intros Hmt Hp Hu. destruct (buddy_type fl p o) as [mt'|] eqn:Hb.
  - f_equal. by apply Hu, buddy_type_Some.
  - by destruct (buddy_type_None _ _ _ _ Hmt Hp Hb).
Qed.

(** Freeing what [expand] left merges back up to the original order. *)
Lemma fl_merge_expand n m fl p mt :
  type_ok mt → Z.of_nat n ≤ MAX_ORDER - 1 → (n < m)%nat → (2 ^ (MAX_ORDER - 1) | p) →
  (∀ o mt, order_ok o → type_ok mt → is_Some (fl !! (o, mt))) →
  (∀ q o mt', p ≤ q < p + 2 ^ (MAX_ORDER - 1) → q ∉ fblocks fl o mt') →
  fl_merge m p (MAX_ORDER - 1 - Z.of_nat n) mt (fl_expand n p (MAX_ORDER - 1) mt fl) =
    Some (fl_add p (MAX_ORDER - 1) mt fl).
Proof.
  unfold MAX_ORDER. change (11 - 1) with 10. intros Hmt Hn. revert m.
  induction n as [|n IH]; intros [|m] Hnm Hdiv Hfl Hfree; try lia.
  - cbn [fl_merge fl_expand]. by rewrite Z.sub_0_r.
  - set (k := 10 - 1 - Z.of_nat n). replace (10 - Z.of_nat (S n)) with k by lia.
    assert (0 < 2 ^ k) by (apply Z.pow_pos_nonneg; lia).
    assert (2 ^ k < 2 ^ 10) by (apply Z.pow_lt_mono_r; lia).
    assert (Z.testbit p k = false) as Hb.
    { apply divide_testbit; [lia| |].
      - eapply Z.divide_trans; [|done]. exists (2 ^ (10 - k)). rewrite <-Z.pow_add_r by lia. f_equal. lia.
      - eapply Z.divide_trans; [|done]. exists (2 ^ (10 - (k + 1))). rewrite <-Z.pow_add_r by lia.
        f_equal. lia. }
    assert (∀ mt', p + 2 ^ k ∉ fblocks (fl_expand n p 10 mt fl) k mt') as Hno.
    { intros mt' [(? & _ & _)|Hin]%elem_fl_expand; [lia|by apply (Hfree _ _ _) in Hin; [|lia]|].
      intros. apply Hfl; [unfold order_ok, MAX_ORDER; lia|done]. }
    assert (is_Some (fl_expand n p 10 mt fl !! (k, mt))) as Hs.
    { apply fl_expand_is_Some, Hfl; [unfold order_ok, MAX_ORDER; lia|done]. }
    rewrite fl_expand_snoc. fold k. cbn [fl_merge]. unfold MAX_ORDER.
    rewrite (proj2 (Z.ltb_lt k (11 - 1))) by lia. rewrite Hb.
    rewrite (buddy_type_unique _ _ _ mt Hmt).
    + rewrite fl_del_add by apply Hno. replace (k + 1) with (10 - Z.of_nat n) by lia.
      apply IH; [lia|lia|done..].
    + apply elem_fl_add; [done|by left].
    + intros mt' [?|Hin]%elem_fl_add; [by simplify_eq|by apply Hno in Hin|done].
Qed.

(** ** Preparing pages *)

Lemma upd_neutral_ok st s q f :
  (∃ zn, zones st !! z = Some zn) → idle_page zid st s q → neutral f →
  ∃ st', upd_page q f st = Ret (tt, st') ∧ frame z st st' ∧ same_view st st'.
Proof.
  intros Hz (_ & pg & Hpg & _ & Hb) Hf. eexists. split; [by apply upd_page_run|]. split.
  - apply frame_pages; [done|by apply dom_insert_lookup_L].
  - apply same_view_pages, (obs_insert _ _ pg); [done|by apply obs_neutral].
Qed.

Lemma frame_refl st : (∃ zn, zones st !! z = Some zn) → frame z st st.
Proof.
  intros Hz. pose proof (frame_pages st (pages st) Hz eq_refl) as Hf.
  by replace (with_pages (pages st) st) with st in Hf by by destruct st.
Qed.

Lemma frame_zone_some st st' : frame z st st' → ∃ zn, zones st' !! z = Some zn.
Proof. intros [_ (zn & fp & nr & Hz & ->)]. simpl. rewrite lookup_insert_eq. eauto. Qed.

(** A sequence of neutral updates of one idle page. *)
Lemma upd_neutral_bind {A} (k : unit → M mm A) st s q f :
  (∃ zn, zones st !! z = Some zn) → idle_page zid st s q → neutral f →
  ∃ st', (upd_page q f ≫= k) st = k tt st' ∧ frame z st st' ∧ same_view st st' ∧
    (∃ zn, zones st' !! z = Some zn).
Proof.
  intros Hz Hid Hf. destruct (upd_neutral_ok _ _ _ _ Hz Hid Hf) as (st' & Hrun & Hfr & Hv).
  exists st'. split_and!; [by rewrite (bind_Ret _ _ _ _ _ Hrun)|done|done|by eapply frame_zone_some].
Qed.

Lemma prep_one_ok st s q gfp_flags :
  (∃ zn, zones st !! z = Some zn) → idle_page zid st s q →
  ∃ st', prep_one gfp_flags q st = Ret (tt, st') ∧ frame z st st' ∧ same_view st st'.
Proof.
  intros Hz Hid. unfold prep_one.
  destruct (upd_neutral_bind (λ _, upd_page q (set_page_count 1);;
    (if gfp_has gfp_flags __GFP_ZERO then upd_page q clear_page else mret tt);;
    upd_page q (set_page_private 0);; upd_page q init_page_waiters) st s q clear_page_flags)
    as (st1 & -> & F1 & V1 & Z1); [done..|apply flags_neutral|].
  destruct (upd_neutral_bind (λ _,
    (if gfp_has gfp_flags __GFP_ZERO then upd_page q clear_page else mret tt);;
    upd_page q (set_page_private 0);; upd_page q init_page_waiters) st1 s q (set_page_count 1))
    as (st2 & -> & F2 & V2 & Z2); [done|by eapply idle_view|apply page_count_neutral|].
  pose proof (frame_trans _ _ _ _ F1 F2) as F12. pose proof (same_view_trans _ _ _ V1 V2) as V12.
  assert (∃ st3, (if gfp_has gfp_flags __GFP_ZERO then upd_page q clear_page else mret tt) st2 =
    Ret (tt, st3) ∧ frame z st2 st3 ∧ same_view st2 st3) as (st3 & H3 & F3 & V3).
  { destruct (gfp_has _ _).
    - apply (upd_neutral_ok _ s); [done|by eapply idle_view|apply clear_page_neutral].
    - exists st2. split_and!; [done|by apply frame_refl|split_and!; eauto]. }
  pose proof (frame_trans _ _ _ _ F12 F3) as F13. pose proof (same_view_trans _ _ _ V12 V3) as V13.
  rewrite (bind_Ret _ _ _ _ _ H3).
  destruct (upd_neutral_bind (λ _, upd_page q init_page_waiters) st3 s q (set_page_private 0))
    as (st4 & -> & F4 & V4 & Z4);
    [by eapply frame_zone_some|by eapply idle_view|apply private_neutral|].
  pose proof (frame_trans _ _ _ _ F13 F4) as F14. pose proof (same_view_trans _ _ _ V13 V4) as V14.
  destruct (upd_neutral_ok st4 s q init_page_waiters) as (st5 & -> & F5 & V5);
    [done|by eapply idle_view|apply waiters_neutral|].
  exists st5. split_and!; [done|by eapply frame_trans|by eapply same_view_trans].
Qed.

Lemma prep_loop_ok n st s p gfp_flags i :
  (∃ zn, zones st !! z = Some zn) →
  (∀ q, p + i ≤ q < p + i + Z.of_nat n → idle_page zid st s q) →
  ∃ st', prep_loop n p gfp_flags i st = Ret (tt, st') ∧ frame z st st' ∧ same_view st st'.
Proof.
  revert st i. induction n as [|n IH]; intros st i Hz Hid.
  - exists st. split_and!; [done|by apply frame_refl|split_and!; eauto].
  - destruct (prep_one_ok st s (p + i) gfp_flags Hz) as (st1 & H1 & F1 & V1); [apply Hid; lia|].
    destruct (IH st1 (i + 1)) as (st2 & H2 & F2 & V2); [by eapply frame_zone_some| |].
    + intros q Hq. eapply idle_view; [done|]. apply Hid. lia.
    + exists st2. cbn [prep_loop]. rewrite (bind_Ret _ _ _ _ _ H1).
      split_and!; [done|by eapply frame_trans|by eapply same_view_trans].
Qed.
End primitives.
