(* ===== verification/BuddySpec.v ===== *)
(** What the buddy allocator promises: an abstract allocator on free lists,
    and theorems that [rmqueue], [__free_one_page] and their parts implement
    it or fault exactly where they are described to. *)
From stdpp Require Import base gmap list strings fin_maps.
From S2P Require Import Prelude CTypes ListHead ListTheory Spinlock Page Buddy BuddyTheory.

(** * The abstract allocator *)

(** [alloc_spec fl order mt r fl']: a request for [2 ^ order] pages of type
    [mt] answers [r] and leaves the free lists [fl'].  It takes the first
    block of the smallest sufficient order of its own type, else the first
    block of the largest order of a fallback type, else it fails. *)
Inductive alloc_spec (fl : flists) (order mt : Z) : option Z → flists → Prop :=
  | spec_own o p l :
      order ≤ o < MAX_ORDER → (∀ o', order ≤ o' < o → fblocks fl o' mt = []) →
      fblocks fl o mt = p :: l →
      alloc_spec fl order mt (Some p) (fl_take p o mt order mt fl)
  | spec_fallback o p fb l :
      (∀ o', order ≤ o' < MAX_ORDER → fblocks fl o' mt = []) →
      order ≤ o < MAX_ORDER → (∀ o', o < o' < MAX_ORDER → fb_choice fl mt o' = None) →
      fb_choice fl mt o = Some fb → fblocks fl o fb = p :: l →
      alloc_spec fl order mt (Some p) (fl_take p o fb order mt fl)
  | spec_fail :
      (∀ o', order ≤ o' < MAX_ORDER → fblocks fl o' mt = []) →
      (∀ o', order ≤ o' < MAX_ORDER → fb_choice fl mt o' = None) →
      alloc_spec fl order mt None fl.

Lemma alloc_spec_total fl order mt :
  type_ok mt → mt ≠ MIGRATE_RESERVE → ∃ r fl', alloc_spec fl order mt r fl'.
Proof.
  intros Hmt Hne.
  destruct (least_or_none (λ o, fblocks fl o mt ≠ []) order MAX_ORDER) as [(o & Ho & HP & Hlt)|Hnone].
  - destruct (fblocks fl o mt) as [|p l] eqn:Hl; [done|].
    do 2 eexists. eapply spec_own; [done| |done]. intros o' Ho'. apply dec_stable. by apply Hlt.
  - assert (∀ o', order ≤ o' < MAX_ORDER → fblocks fl o' mt = []) as Hempty.
    { intros o' Ho'. apply dec_stable. by apply Hnone. }
    destruct (greatest_or_none (λ o, fb_choice fl mt o ≠ None) order MAX_ORDER)
      as [(o & Ho & HP & Hgt)|Hnone'].
    + destruct (fb_choice fl mt o) as [fb|] eqn:Hfb; [|done].
      destruct (fb_choice_block _ _ _ _ Hmt Hne Hfb) as (_ & p & l & Hl).
      do 2 eexists. eapply spec_fallback; try done. intros o' Ho'. apply dec_stable. by apply Hgt.
    + do 2 eexists. apply spec_fail; [done|]. intros o' Ho'. apply dec_stable. by apply Hnone'.
Qed.

Section spec.
  Context `{PL : PageLib} {HL : PageLaws PL} (z zid : Z).

(** * Allocation *)

(** The two searches of [rmqueue]. *)
Definition search (order mt : Z) : M mm (option Z) :=
  page ← __rmqueue_smallest z order mt;
  match page with Some p => mret (Some p) | None => __rmqueue_fallback z order mt end.

Lemma search_run st fl s order mt r fl' :
  zone_ok z zid st fl s → npages fl < 2 ^ 32 → order_ok order → type_ok mt →
  mt ≠ MIGRATE_RESERVE → alloc_spec fl order mt r fl' → (r = None → 0 < order) →
  ∃ st' s', search order mt st = Ret (r, st') ∧ frame z st st' ∧ zone_ok z zid st' fl' s' ∧
    (∀ p, r = Some p → avail zid st' fl' s' p order) ∧
    ∀ q k, avail zid st fl s q k → avail zid st' fl' s' q k.
Proof.
  intros Hok Hb Ho Hmt Hne Hspec Hr. unfold order_ok in Ho. unfold search, __rmqueue_smallest.
  destruct Hspec as [o p l Ho' Hlt Hl|o p fb l Hempty Ho' Hgt Hfb Hl|Hempty Hnone].
  - destruct (smallest_some z zid (S (Z.to_nat MAX_ORDER)) st fl s order order o mt p l)
      as (st' & Hrun & Hf & s' & Hok' & Hav & Hk); [done|done|lia|lia|lia|done|done|].
    exists st', s'. rewrite (bind_Ret _ _ _ _ _ Hrun). split_and!; [done..| |done].
    by intros ? [= <-].
  - pose proof (smallest_none z zid (S (Z.to_nat MAX_ORDER)) st fl s order order mt) as Hnone.
    rewrite (bind_Ret _ _ _ _ _ (Hnone Hok Hmt ltac:(lia) ltac:(lia) Hempty)).
    destruct (fallback_found z zid (S (S (Z.to_nat MAX_ORDER))) st fl s order (MAX_ORDER - 1) o fb mt p l)
      as (st' & Hrun & Hf & s' & Hok' & Hav & Hk); [done|done|done|done|lia|lia|lia| |done|done|].
    { intros. apply Hgt. lia. }
    exists st', s'. split_and!; [done..| |done]. by intros ? [= <-].
  - pose proof (smallest_none z zid (S (Z.to_nat MAX_ORDER)) st fl s order order mt) as Hno.
    rewrite (bind_Ret _ _ _ _ _ (Hno Hok Hmt ltac:(lia) ltac:(lia) Hempty)).
    pose proof (fallback_none z zid st fl s order mt Hok Hb Hmt Hne ltac:(specialize (Hr eq_refl); lia) Hnone)
      as Hrun.
    exists st, s. destruct (zk_zone _ _ _ _ _ Hok) as (zn & Hz & _).
    split_and!; [done|apply frame_refl; eauto|done|done|done].
Qed.

(** The zone lock, free for this CPU. *)
Definition free_lock (cpu : Z) (l : spinlock_t) : Prop :=
  magic l = SPINLOCK_MAGIC ∧ owner_cpu l ≠ cpu ∧ lock l = SPINLOCK_UNLOCKED.

Definition set_lock (l : spinlock_t) (b : bool) (zn : zone_t) (st : mm) : mm :=
  with_irq b (with_zones (<[z := with_zlock l zn]> (zones st)) st).

Lemma lock_irqsave_run cpu ra fuel st zn :
  zones st !! z = Some zn → free_lock cpu (zlock zn) →
  on_zlock z (spin_lock_irqsave cpu ra (S fuel)) st =
    Ret (irq_on st, set_lock (acquired cpu ra (zlock zn)) false zn st).
Proof.
  intros Hz (Hm & Ho & Hl). unfold on_zlock. rewrite Hz.
  unfold spin_lock_irqsave, local_irq_save, on_lock, zoom, gets, modify, mbind, M_bind; simpl.
  by rewrite spin_lock_run, Hm, Hl, Z.eqb_refl, (proj2 (Z.eqb_neq _ _) Ho).
Qed.

Lemma unlock_irqrestore_run cpu ra b st zn l :
  zones st !! z = Some zn → zlock zn = acquired cpu ra l → magic l = SPINLOCK_MAGIC →
  on_zlock z (spin_unlock_irqrestore cpu b) st = Ret (tt, set_lock (released l) b zn st).
Proof.
  intros Hz Hl Hm. unfold on_zlock. rewrite Hz, Hl.
  unfold spin_unlock_irqrestore, local_irq_restore, on_lock, zoom, modify, mbind, M_bind; simpl.
  rewrite spin_unlock_run; simpl. by rewrite Hm, !Z.eqb_refl.
Qed.

Lemma view_set_lock st zn l b :
  zones st !! z = Some zn → same_view z st (set_lock l b zn st).
Proof.
  intros Hz. split_and!; [done..|]. intros zn' Hz'. simplify_eq. exists (with_zlock l zn).
  split_and!; [apply lookup_insert_eq|done..].
Qed.

(** Everything outside the pages, the links, zone [z] and the interrupt flag. *)
Definition globals (st : mm) :=
  (delete z (zones st), pcps st, (zone_table st, nr_zones st),
   (total_pages st, free_pages_total st, reserved_pages st), zone_lock st, vm_events st).

Lemma globals_frame st st' : frame z st st' → globals st' = globals st.
Proof. intros [_ (zn & fp & nr & _ & ->)]. unfold globals; simpl. by rewrite delete_insert_eq. Qed.

Lemma globals_lock st l b zn : globals (set_lock l b zn st) = globals st.
Proof. unfold globals; simpl. by rewrite delete_insert_eq. Qed.

(** Locking, searching and unlocking. *)
Lemma locked_search_run cpu ra fuel st fl s zn order mt r fl' :
  zone_ok z zid st fl s → npages fl < 2 ^ 32 → order_ok order → type_ok mt →
  mt ≠ MIGRATE_RESERVE → alloc_spec fl order mt r fl' → (r = None → 0 < order) →
  zones st !! z = Some zn → free_lock cpu (zlock zn) →
  ∃ st0 st1 st2 s' zn', on_zlock z (spin_lock_irqsave cpu ra (S fuel)) st = Ret (irq_on st, st0) ∧
    search order mt st0 = Ret (r, st1) ∧
    on_zlock z (spin_unlock_irqrestore cpu (irq_on st)) st1 = Ret (tt, st2) ∧
    zone_ok z zid st2 fl' s' ∧ (∀ p, r = Some p → avail zid st2 fl' s' p order) ∧
    (∀ q k, avail zid st fl s q k → avail zid st2 fl' s' q k) ∧
    zones st2 !! z = Some zn' ∧ zlock zn' = released (zlock zn) ∧
    irq_on st2 = irq_on st ∧ globals st2 = globals st ∧ dom (pages st2) = dom (pages st).
Proof.
  intros Hok Hb Ho Hmt Hne Hspec Hr Hz Hfl.
  pose proof (lock_irqsave_run cpu ra fuel st zn Hz Hfl) as Hlock.
  set (st0 := set_lock (acquired cpu ra (zlock zn)) false zn st) in *.
  pose proof (view_set_lock st zn (acquired cpu ra (zlock zn)) false Hz) as Hv0. fold st0 in Hv0.
  destruct (search_run st0 fl s order mt r fl') as (st1 & s' & Hs & Hf & Hok1 & Hav & Hk);
    [by eapply zone_ok_view|done..|].
  destruct (frame_zone_some z _ _ Hf) as (zn1 & Hz1).
  destruct (frame_zone _ _ _ _ Hf Hz1) as (zn0 & Hz0 & Hlk & Hirq).
  unfold st0 in Hz0; simpl in Hz0. rewrite lookup_insert_eq in Hz0. simplify_eq. simpl in Hlk.
  destruct Hfl as (Hmg & _).
  pose proof (unlock_irqrestore_run cpu ra (irq_on st) st1 zn1 (zlock zn) Hz1 Hlk Hmg) as Hun.
  set (st2 := set_lock (released (zlock zn)) (irq_on st) zn1 st1) in *.
  pose proof (view_set_lock st1 zn1 (released (zlock zn)) (irq_on st) Hz1) as Hv2. fold st2 in Hv2.
  exists st0, st1, st2, s', (with_zlock (released (zlock zn)) zn1).
  split_and!; try done.
  - by eapply zone_ok_view.
  - apply lookup_insert_eq.
  - unfold st2. rewrite globals_lock, (globals_frame _ _ Hf). apply globals_lock.
  - destruct Hf as [Hd _]. exact Hd.
Qed.

Lemma vm_stat_view st zn v :
  zones st !! z = Some zn → same_view z st (with_zones (<[z := with_vm_stat v zn]> (zones st)) st).
Proof.
  intros Hz. split_and!; [done..|]. intros zn' Hz'. simplify_eq. exists (with_vm_stat v zn).
  split_and!; [apply lookup_insert_eq|done..].
Qed.

Lemma locked_rmqueue_run cpu ra fuel st fl s zn order gfp_flags mt r fl' :
  zone_ok z zid st fl s → npages fl < 2 ^ 32 → order_ok order → type_ok mt →
  mt ≠ MIGRATE_RESERVE → zones st !! z = Some zn → free_lock cpu (zlock zn) →
  alloc_spec fl order mt r fl' → (r = None → 0 < order) →
  ∃ st' s' zn', rmqueue cpu ra (S fuel) z order gfp_flags mt st = Ret (r, st') ∧
    zone_ok z zid st' fl' s' ∧
    (∀ p, r = Some p → avail zid st' fl' s' p order) ∧
    (∀ q k, avail zid st fl s q k → avail zid st' fl' s' q k) ∧
    zones st' !! z = Some zn' ∧ zlock zn' = released (zlock zn) ∧
    irq_on st' = irq_on st ∧ globals st' = globals st ∧ dom (pages st') = dom (pages st).
Proof.
  intros Hok Hb Ho Hmt Hne Hz Hfl Hspec Hr.
  destruct (locked_search_run cpu ra fuel st fl s zn order mt r fl')
    as (st0 & st1 & st2 & s' & zn2 & H0 & H1 & H2 & Hok2 & Hav2 & Hk2 & Hz2 & Hl2 & Hi2 & Hg2 & Hd2);
    [done..|].
  unfold rmqueue. rewrite (bind_Ret _ _ _ _ _ H0). rewrite <-bind_assoc.
  change (∃ st' s' zn', (search order mt ≫= λ page, on_zlock z (spin_unlock_irqrestore cpu (irq_on st));;
    match page with
    | Some p => prep_new_page p order gfp_flags;;
        upd_zone z (λ zn, with_vm_stat
          (__mod_zone_page_state NR_FREE_PAGES (- Z.shiftl 1 order) (vm_stat zn)) zn);;
        mret (Some p)
    | None => mret None
    end) st0 = Ret (r, st') ∧
    zone_ok z zid st' fl' s' ∧
    (∀ p, r = Some p → avail zid st' fl' s' p order) ∧
    (∀ q k, avail zid st fl s q k → avail zid st' fl' s' q k) ∧
    zones st' !! z = Some zn' ∧ zlock zn' = released (zlock zn) ∧
    irq_on st' = irq_on st ∧ globals st' = globals st ∧ dom (pages st') = dom (pages st)).
  rewrite (bind_Ret _ _ _ _ _ H1), (bind_Ret _ _ _ _ _ H2).
  destruct r as [p|]; [|by exists st2, s', zn2].
  specialize (Hav2 p eq_refl). pose proof Hav2 as ((Ho' & _) & Hid & _). pose proof (pow2_order _ Ho').
  destruct (prep_loop_ok z zid (Z.to_nat (Z.shiftl 1 order)) st2 s' p gfp_flags 0)
    as (st3 & H3 & F3 & V3); [eauto| |].
  { intros q Hq. apply Hid. rewrite Z.shiftl_1_l in Hq. lia. }
  destruct (frame_zone_some z _ _ F3) as (zn3 & Hz3).
  destruct (frame_zone _ _ _ _ F3 Hz3) as (zn2' & Hz2' & Hl3 & Hi3).
  rewrite Hz2 in Hz2'. injection Hz2' as <-.
  set (v := __mod_zone_page_state NR_FREE_PAGES (- Z.shiftl 1 order) (vm_stat zn3)).
  pose proof (vm_stat_view st3 zn3 v Hz3) as V4. pose proof (same_view_trans _ _ _ _ V3 V4) as V.
  exists (with_zones (<[z := with_vm_stat v zn3]> (zones st3)) st3), s', (with_vm_stat v zn3).
  split_and!.
  - unfold prep_new_page. rewrite (bind_Ret _ _ _ _ _ H3).
    by rewrite (bind_Ret _ _ _ _ _ (upd_zone_run _ _ _ _ Hz3)).
  - by eapply zone_ok_view.
  - intros ? [= <-]. by eapply avail_view.
  - intros q k Hq. eapply avail_view; [done|by apply Hk2].
  - apply lookup_insert_eq.
  - simpl. congruence.
  - simpl. congruence.
  - rewrite <-Hg2, <-(globals_frame _ _ F3). unfold globals. cbn. by rewrite delete_insert_eq.
  - simpl. destruct F3 as [Hd3 _]. congruence.
Qed.

(** C2: [rmqueue] implements the abstract allocator.  With the zone lock
    free for the CPU, for every request of a valid order and of a type other
    than the reserve, and whatever the free lists contain, it returns what
    the specification answers and leaves a zone that represents the
    specification's free lists (list structure, page flags and orders,
    counters), the block it hands out outside the free lists and disjoint
    from every block handed out before, the lock released, the interrupt
    flag restored and everything else untouched.  The exception is a failing
    request of order 0, see [fallback_order0_faults]. *)
Theorem rmqueue_refines cpu ra fuel st fl s zn order gfp_flags mt r fl' :
  zone_ok z zid st fl s → npages fl < 2 ^ 32 → order_ok order → type_ok mt →
  mt ≠ MIGRATE_RESERVE → zones st !! z = Some zn → free_lock cpu (zlock zn) →
  alloc_spec fl order mt r fl' → (r = None → 0 < order) →
  ∃ st' s' zn', rmqueue cpu ra (S fuel) z order gfp_flags mt st = Ret (r, st') ∧
    zone_ok z zid st' fl' s' ∧
    (∀ p, r = Some p → avail zid st' fl' s' p order) ∧
    (∀ q k, avail zid st fl s q k → avail zid st' fl' s' q k) ∧
    zones st' !! z = Some zn' ∧ zlock zn' = released (zlock zn) ∧
    irq_on st' = irq_on st ∧ globals st' = globals st ∧ dom (pages st') = dom (pages st).
Proof. apply locked_rmqueue_run. Qed.

Lemma exhausted_order0_run cpu ra fuel st fl s zn gfp_flags mt fl' :
  zone_ok z zid st fl s → npages fl < 2 ^ 32 → type_ok mt → mt ≠ MIGRATE_RESERVE →
  zones st !! z = Some zn → free_lock cpu (zlock zn) → alloc_spec fl 0 mt None fl' →
  rmqueue cpu ra (S fuel) z 0 gfp_flags mt st = Fault.
Proof.
  intros Hok Hb Hmt Hne Hz Hfl Hspec. inversion Hspec as [| |Hempty Hnone]; subst.
  pose proof (lock_irqsave_run cpu ra fuel st zn Hz Hfl) as Hlock.
  pose proof (view_set_lock st zn (acquired cpu ra (zlock zn)) false Hz) as Hv.
  pose proof (zone_ok_view _ _ _ _ _ _ Hv Hok) as Hok0.
  unfold rmqueue. rewrite (bind_Ret _ _ _ _ _ Hlock).
  pose proof (smallest_none z zid (S (Z.to_nat MAX_ORDER)) _ fl' s 0 0 mt Hok0 Hmt) as Hno.
  unfold __rmqueue_smallest. erewrite bind_Ret; [|apply Hno; [unfold MAX_ORDER; lia..|done]].
  cbv beta iota. apply bind_Fault. by eapply fallback_underflow.
Qed.

(** C28: a defect.  When no block of any order is left for an order-0
    request, neither of its own type nor of a fallback type, the unsigned
    loop counter of [__rmqueue_fallback] passes below zero and the search
    reads [zone->free_area] out of bounds: instead of returning NULL, an
    allocation of a single page from an exhausted zone is a wild access. *)
Theorem fallback_order0_faults cpu ra fuel st fl s zn gfp_flags mt fl' :
  zone_ok z zid st fl s → npages fl < 2 ^ 32 → type_ok mt → mt ≠ MIGRATE_RESERVE →
  zones st !! z = Some zn → free_lock cpu (zlock zn) → alloc_spec fl 0 mt None fl' →
  rmqueue cpu ra (S fuel) z 0 gfp_flags mt st = Fault.
Proof. apply exhausted_order0_run. Qed.

(** * Freeing *)

(** No [VM_BUG_ON] of [__free_one_page] fires. *)
Definition no_bug (st : mm) (zn : zone_t) (p : Z) : Prop :=
  CONFIG_DEBUG_VM = false ∨
  (∀ l, zone_is_initialized (with_zlock l zn) = true) ∧
  ∀ pg, pages st !! p = Some pg → Z.land (Page.flags pg) PAGE_FLAGS_CHECK_AT_PREP = 0.

Lemma vm_bug_on_run b st : CONFIG_DEBUG_VM = false ∨ b = false → VM_BUG_ON b st = Ret (tt, st).
Proof. unfold VM_BUG_ON. by intros [-> | ->]; rewrite ?andb_false_r. Qed.

Definition merge_fuel : nat := S (Z.to_nat MAX_ORDER).

Lemma no_bug_merge st fl s zn p o mt :
  avail zid st fl s p o → type_ok mt → zones st !! z = Some zn → no_bug st zn p →
  __free_one_page p p z o mt st = merge_loop merge_fuel p p z o mt st.
Proof.
  intros Hav Hmt Hz Hnb. pose proof Hav as ((Ho & _) & Hid & _). pose proof (pow2_order _ Ho).
  destruct (Hid p ltac:(lia)) as (_ & pg & Hpg & _).
  unfold __free_one_page. mstep with zone_at_run; [|done].
  rewrite (bind_Ret _ _ _ _ _ (vm_bug_on_run (negb (zone_is_initialized zn)) st ltac:(
    destruct Hnb as [?|[Hi _]]; [by left|right]; specialize (Hi (zlock zn));
    by replace (with_zlock (zlock zn) zn) with zn in Hi by (by destruct zn); rewrite Hi))).
  rewrite (bind_Ret _ _ _ _ _ (get_some_run (λ s, pages s !! p) st pg Hpg)).
  rewrite (bind_Ret _ _ _ _ _ (vm_bug_on_run
    (negb (Z.land (Page.flags pg) PAGE_FLAGS_CHECK_AT_PREP =? 0)) st
    ltac:(destruct Hnb as [?|[_ Hf]]; [by left|right]; by rewrite (Hf _ Hpg)))).
  rewrite (bind_Ret _ _ _ _ _ (vm_bug_on_run (mt =? -1) st
    ltac:(right; unfold type_ok in Hmt; apply Z.eqb_neq; lia))). done.
Qed.

Lemma vm_bug_on_inv b st u st' : VM_BUG_ON b st = Ret (u, st') → st' = st.
Proof. unfold VM_BUG_ON. by destruct (_ && _); intros [=]. Qed.

Lemma get_some_inv {A} (f : mm → option A) st a st' : get_some f st = Ret (a, st') → st' = st.
Proof. unfold get_some. by destruct (f st); intros [=]. Qed.

(** A call that returned met no [VM_BUG_ON]. *)
Lemma returned_merge st p o mt x :
  __free_one_page p p z o mt st = Ret x → merge_loop merge_fuel p p z o mt st = Ret x.
Proof.
  destruct x as [u st']. unfold __free_one_page, zone_at, page_at. intros H.
  minv H as (zn & s1 & ->%get_some_inv & H). minv H as (? & s2 & ->%vm_bug_on_inv & H).
  minv H as (pg & s3 & ->%get_some_inv & H). minv H as (? & s4 & ->%vm_bug_on_inv & H).
  by minv H as (? & s5 & ->%vm_bug_on_inv & H).
Qed.

Lemma merge_run N st fl s p o mt :
  zone_ok z zid st fl s → avail zid st fl s p o → memmap N st → type_ok mt →
  match fl_merge merge_fuel p o mt fl with
  | Some fl' => ∃ st' s', merge_loop merge_fuel p p z o mt st = Ret (tt, st') ∧ frame z st st' ∧
      zone_ok z zid st' fl' s' ∧
      ∀ q k, avail zid st fl s q k → q + 2 ^ k ≤ p ∨ p + 2 ^ o ≤ q → avail zid st' fl' s' q k
  | None => merge_loop merge_fuel p p z o mt st = Fault
  end.
Proof.
  intros Hok Hav Hmap Hmt. apply (merge_ok z zid merge_fuel N); try done.
  destruct Hav as (([? ?] & _) & _). unfold merge_fuel, MAX_ORDER in *. lia.
Qed.

Lemma npages_merge n st fl s p o mt fl' :
  zone_ok z zid st fl s → order_ok o → type_ok mt → fl_merge n p o mt fl = Some fl' →
  npages fl' = npages fl + 2 ^ o.
Proof.
  intros Hok Ho Hmt.
  assert (∀ k, is_Some (fl !! k) ↔ order_ok (fst k) ∧ type_ok (snd k)) as Hdom.
  { intros [??]. apply (zk_dom _ _ _ _ _ Hok). }
  assert (∀ o mt, NoDup (fblocks fl o mt)) as Hnd.
  { intros o' mt'. destruct (fblocks fl o' mt') as [|q l] eqn:Hl; [constructor|].
    destruct (block_list z zid st fl s q o' mt' Hok) as (l1 & l2 & Hls & Hnd & _); [rewrite Hl; left|].
    unfold fblocks in Hl. rewrite Hls in Hl. simpl in Hl. by rewrite <-Hl. }
  clear Hok. revert fl o Ho Hdom Hnd. induction n as [|n IH]; intros fl o Ho Hdom Hnd; [done|].
  cbn [fl_merge]. assert (npages (fl_add p o mt fl) = npages fl + 2 ^ o) as Hadd.
  { apply npages_add; [by apply Hdom|done..]. }
  destruct (Z.ltb_spec o (MAX_ORDER - 1)); [|by intros [= <-]].
  destruct (Z.testbit p o); [done|]. destruct (buddy_type fl (p + 2 ^ o) o) as [mt'|] eqn:Hb; [|by intros [= <-]].
  apply buddy_type_Some in Hb. intros Hm. apply IH in Hm.
  - rewrite Hm, pow2_succ by (destruct Ho; lia).
    destruct (fblocks_some _ _ _ _ Hb) as (l & Hl & (l1 & l2 & ->)%list_elem_of_split).
    pose proof (Hnd o mt') as Hndl. unfold fblocks in Hndl. rewrite Hl in Hndl. simpl in Hndl.
    rewrite (npages_change fl (fl_del (p + 2 ^ o) o mt' fl) o (-1)); [lia|done|].
    intros o'. unfold fl_del. rewrite nblocks_alter; [|eauto|by apply (Hdom (o, mt')); eauto].
    unfold fblocks. rewrite Hl; simpl. case_decide; [|done]. by rewrite length_filter_ne.
  - unfold order_ok in *. lia.
  - intros k. rewrite <-Hdom. apply fl_del_is_Some.
  - intros o' m'. unfold fl_del. destruct (fblocks_some _ _ _ _ Hb) as (l & Hl & _).
    rewrite fblocks_alter by eauto. case_decide; [|done]. apply NoDup_filter, Hnd.
Qed.

Lemma lock_run cpu ra fuel st zn :
  zones st !! z = Some zn → free_lock cpu (zlock zn) →
  on_zlock z (on_lock (spin_lock cpu ra (S fuel))) st =
    Ret (tt, set_lock (acquired cpu ra (zlock zn)) (irq_on st) zn st).
Proof.
  intros Hz (Hm & Ho & Hl). unfold on_zlock, on_lock, zoom; simpl. rewrite Hz; simpl.
  by rewrite spin_lock_run, Hm, Hl, Z.eqb_refl, (proj2 (Z.eqb_neq _ _) Ho).
Qed.

Lemma unlock_run cpu ra st zn l :
  zones st !! z = Some zn → zlock zn = acquired cpu ra l → magic l = SPINLOCK_MAGIC →
  on_zlock z (on_lock (spin_unlock cpu)) st = Ret (tt, set_lock (released l) (irq_on st) zn st).
Proof.
  intros Hz Hl Hm. unfold on_zlock, on_lock, zoom; simpl. rewrite Hz; simpl. rewrite Hl.
  rewrite spin_unlock_run; simpl. by rewrite Hm, !Z.eqb_refl.
Qed.

(** [free_one_page] once the checks of [__free_one_page] have passed. *)
Lemma free_one_page_core cpu ra fuel N st fl s zn p o mt :
  let st0 := set_lock (acquired cpu ra (zlock zn)) (irq_on st) zn st in
  __free_one_page p p z o mt st0 = merge_loop merge_fuel p p z o mt st0 →
  zone_ok z zid st fl s → avail zid st fl s p o → memmap N st → type_ok mt →
  zones st !! z = Some zn → free_lock cpu (zlock zn) →
  match fl_merge merge_fuel p o mt fl with
  | Some fl' =>
      npages fl' = npages fl + 2 ^ o ∧
      ∃ st' s' zn', free_one_page cpu ra (S fuel) z p p o mt st = Ret (tt, st') ∧
        zone_ok z zid st' fl' s' ∧
        (∀ q k, avail zid st fl s q k → q + 2 ^ k ≤ p ∨ p + 2 ^ o ≤ q → avail zid st' fl' s' q k) ∧
        zones st' !! z = Some zn' ∧ zlock zn' = released (zlock zn) ∧
        irq_on st' = irq_on st ∧ globals st' = globals st ∧ dom (pages st') = dom (pages st)
  | None => free_one_page cpu ra (S fuel) z p p o mt st = Fault
  end.
Proof.
  intros st0 Heq Hok Hav Hmap Hmt Hz Hfl. pose proof (lock_run cpu ra fuel st zn Hz Hfl) as Hlock.
  fold st0 in Hlock.
  pose proof (view_set_lock st zn (acquired cpu ra (zlock zn)) (irq_on st) Hz) as Hv0. fold st0 in Hv0.
  assert (zones st0 !! z = Some (with_zlock (acquired cpu ra (zlock zn)) zn)) as Hz0
    by apply lookup_insert_eq.
  pose proof (merge_run N st0 fl s p o mt (zone_ok_view _ _ _ _ _ _ Hv0 Hok)
    (avail_view _ _ _ _ _ _ _ _ Hv0 Hav) Hmap Hmt) as Hfree.
  unfold free_one_page. rewrite (bind_Ret _ _ _ _ _ Hlock).
  destruct (fl_merge _ p o mt fl) as [fl'|] eqn:Hm; [|apply bind_Fault; by rewrite Heq].
  destruct Hfree as (st1 & s' & Hrun & Hf & Hok1 & Hk). rewrite <-Heq in Hrun.
  split; [eapply npages_merge; try done; by destruct Hav as [[] _]|].
  rewrite (bind_Ret _ _ _ _ _ Hrun).
  destruct (frame_zone_some z _ _ Hf) as (zn1 & Hz1).
  destruct (frame_zone _ _ _ _ Hf Hz1) as (zn0 & Hz0' & Hlk & Hirq).
  rewrite Hz0 in Hz0'. injection Hz0' as <-. simpl in Hlk.
  pose proof (unlock_run cpu ra st1 zn1 (zlock zn) Hz1 Hlk (proj1 Hfl)) as Hun.
  pose proof (view_set_lock st1 zn1 (released (zlock zn)) (irq_on st1) Hz1) as Hv2.
  exists (set_lock (released (zlock zn)) (irq_on st1) zn1 st1), s', (with_zlock (released (zlock zn)) zn1).
  split_and!; try done.
  - by eapply zone_ok_view.
  - apply lookup_insert_eq.
  - rewrite globals_lock, (globals_frame _ _ Hf). apply globals_lock.
  - destruct Hf as [Hd _]. exact Hd.
Qed.

(** C8: [free_one_page] on a block that was handed out, with the zone lock
    free.  If every merge it meets is with an upper buddy, it returns: the
    zone represents the free lists of [fl_merge] (each free buddy of the
    growing block removed, the merged block added to the type's list), the
    zone's page count grows by exactly [2 ^ o], blocks still in use stay in
    use and the lock is released.  Otherwise, when the block it has grown is
    the upper half of a pair below the largest order, it faults: [buddy_pfn -
    pfn] is a 32-bit difference and the buddy pointer leaves the memory
    map. *)
Theorem free_one_page_refines cpu ra fuel N st fl s zn p o mt :
  zone_ok z zid st fl s → avail zid st fl s p o → memmap N st → type_ok mt →
  zones st !! z = Some zn → free_lock cpu (zlock zn) → no_bug st zn p →
  match fl_merge merge_fuel p o mt fl with
  | Some fl' =>
      npages fl' = npages fl + 2 ^ o ∧
      ∃ st' s' zn', free_one_page cpu ra (S fuel) z p p o mt st = Ret (tt, st') ∧
        zone_ok z zid st' fl' s' ∧
        (∀ q k, avail zid st fl s q k → q + 2 ^ k ≤ p ∨ p + 2 ^ o ≤ q → avail zid st' fl' s' q k) ∧
        zones st' !! z = Some zn' ∧ zlock zn' = released (zlock zn) ∧
        irq_on st' = irq_on st ∧ globals st' = globals st ∧ dom (pages st') = dom (pages st)
  | None => free_one_page cpu ra (S fuel) z p p o mt st = Fault
  end.
Proof.
  intros Hok Hav Hmap Hmt Hz Hfl Hnb. apply (free_one_page_core cpu ra fuel N st fl s); try done.
  apply (no_bug_merge _ fl s (with_zlock (acquired cpu ra (zlock zn)) zn)); [done..|apply lookup_insert_eq|].
  destruct Hnb as [?|[Hi ?]]; [by left|right]. split; [|done]. intros l. apply Hi.
Qed.

(** C24: allocation and release are inverse.  Taking [2 ^ order] pages out of
    a block of the largest order splits it all the way down, and freeing them
    merges the halves back: the free lists are exactly those before, for
    every order.  The debugging checks of the release ([no_bug]) must pass:
    the zone is initialised and the first page has none of the flags checked. *)
Theorem alloc_free_roundtrip N st fl s order mt p l zn :
  zone_ok z zid st fl s → memmap N st → order_ok order → type_ok mt →
  (∀ o, order ≤ o < MAX_ORDER - 1 → fblocks fl o mt = []) →
  fblocks fl (MAX_ORDER - 1) mt = p :: l → zones st !! z = Some zn →
  ∃ st1 zn1, __rmqueue_smallest z order mt st = Ret (Some p, st1) ∧ zones st1 !! z = Some zn1 ∧
    (no_bug st1 zn1 p →
     ∃ st2 s2, __free_one_page p p z order mt st1 = Ret (tt, st2) ∧ zone_ok z zid st2 fl s2).
Proof.
  intros Hok Hmap Ho Hmt Hempty Hl Hz. unfold order_ok in Ho.
  destruct (smallest_some z zid (S (Z.to_nat MAX_ORDER)) st fl s order order (MAX_ORDER - 1) mt p l)
    as (st1 & Hrun & Hf & s1 & Hok1 & Hav1 & _); [done|done|lia|lia|lia|done|done|].
  destruct (frame_zone_some z _ _ Hf) as (zn1 & Hz1). exists st1, zn1. split_and!; [done..|].
  intros Hnb. assert (p ∈ fblocks fl (MAX_ORDER - 1) mt) as Hp by (rewrite Hl; left).
  destruct (zk_block _ _ _ _ _ Hok _ _ _ Hp) as ((_ & _ & _ & Hdiv) & _).
  assert (fl_merge merge_fuel p order mt (fl_take p (MAX_ORDER - 1) mt order mt fl) = Some fl) as Hm.
  { unfold fl_take. pose proof (fl_merge_expand (Z.to_nat (MAX_ORDER - 1 - order)) merge_fuel
      (fl_del p (MAX_ORDER - 1) mt fl) p mt Hmt) as Hme.
    replace (MAX_ORDER - 1 - Z.of_nat (Z.to_nat (MAX_ORDER - 1 - order))) with order in Hme by lia.
    rewrite Hme; [|lia|unfold merge_fuel; lia|done|..].
    - f_equal. apply (fl_add_del _ _ _ _ l); [done|].
      destruct (block_list z zid st fl s p _ mt Hok Hp) as (l1 & l2 & Hls & Hnd & _).
      unfold fblocks in Hl. rewrite Hls in Hl. simpl in Hl. by rewrite Hl in Hnd.
    - intros o m Hoo Hm. apply fl_del_is_Some. by apply (zk_dom _ _ _ _ _ Hok).
    - intros q o m Hq [Hne Hin]%elem_fl_del; [|apply (zk_dom _ _ _ _ _ Hok); split; [|done];
        unfold order_ok, MAX_ORDER; lia].
      destruct (zk_block _ _ _ _ _ Hok _ _ _ Hin) as ((Hoo & _) & _). pose proof (pow2_order _ Hoo).
      destruct (zk_disj _ _ _ _ _ Hok _ _ _ _ _ _ Hin Hp) as [?|?]; [done|lia]. }
  pose proof (merge_run N st1 _ s1 p order mt Hok1 Hav1 (memmap_frame _ _ _ _ Hf Hmap) Hmt) as Hfree.
  rewrite Hm in Hfree. destruct Hfree as (st2 & s2 & ? & _ & ? & _). exists st2, s2.
  by rewrite (no_bug_merge _ _ _ _ _ _ _ Hav1 Hmt Hz1 Hnb).
Qed.

(** * Histories of calls *)

(** A configuration: the allocator's state and the blocks in use. *)
Definition bconfig : Type := mm * list (Z * Z).

(** One completed call by any CPU: an allocation that succeeds or fails, or
    the release of a block in use. *)
Inductive bstep : bconfig → bconfig → Prop :=
  | bstep_alloc cpu ra fuel gfp_flags order mt st st' owned p :
      cpu ≠ NO_CPU → order_ok order → type_ok mt → mt ≠ MIGRATE_RESERVE →
      rmqueue cpu ra (S fuel) z order gfp_flags mt st = Ret (Some p, st') →
      bstep (st, owned) (st', (p, order) :: owned)
  | bstep_none cpu ra fuel gfp_flags order mt st st' owned :
      cpu ≠ NO_CPU → order_ok order → type_ok mt → mt ≠ MIGRATE_RESERVE →
      rmqueue cpu ra (S fuel) z order gfp_flags mt st = Ret (None, st') →
      bstep (st, owned) (st', owned)
  | bstep_free cpu ra fuel mt st st' owned i p order :
      cpu ≠ NO_CPU → type_ok mt → owned !! i = Some (p, order) →
      free_one_page cpu ra (S fuel) z p p order mt st = Ret (tt, st') →
      bstep (st, owned) (st', delete i owned).

Inductive bsteps : bconfig → bconfig → Prop :=
  | bsteps_refl c : bsteps c c
  | bsteps_cons c1 c2 c3 : bstep c1 c2 → bsteps c2 c3 → bsteps c1 c3.

Definition apart (b1 b2 : Z * Z) : Prop :=
  fst b1 + 2 ^ snd b1 ≤ fst b2 ∨ fst b2 + 2 ^ snd b2 ≤ fst b1.
Definition all_apart (owned : list (Z * Z)) : Prop :=
  ∀ (i j : nat) b1 b2, owned !! i = Some b1 → owned !! j = Some b2 → i ≠ j → apart b1 b2.
Definition pages_of (owned : list (Z * Z)) : Z := sumZ (λ b, 2 ^ snd b) owned.

Definition idle_lock (l : spinlock_t) : Prop :=
  magic l = SPINLOCK_MAGIC ∧ owner_cpu l = NO_CPU ∧ lock l = SPINLOCK_UNLOCKED.

(** The zone represents some free lists; the blocks in use are outside them
    and apart; free and used pages add up to [total]. *)
Definition binv (N total : Z) (c : bconfig) : Prop :=
  let (st, owned) := c in
  ∃ fl s zn, zone_ok z zid st fl s ∧ memmap N st ∧ zones st !! z = Some zn ∧ idle_lock (zlock zn) ∧
    (∀ p o, (p, o) ∈ owned → avail zid st fl s p o) ∧ all_apart owned ∧
    npages fl + pages_of owned = total ∧ total < 2 ^ 32.

Lemma pages_of_nonneg owned : 0 ≤ pages_of owned.
Proof. apply sumZ_nonneg. intros x _. apply Z.pow_nonneg. lia. Qed.

Lemma pages_of_delete owned i b :
  owned !! i = Some b → pages_of (delete i owned) = pages_of owned - 2 ^ snd b.
Proof.
  revert i. induction owned as [|x owned IH]; intros [|i] Hi; simplify_eq/=; [unfold pages_of; simpl; lia|].
  specialize (IH _ Hi). unfold pages_of in *; simpl. lia.
Qed.

Lemma idle_free cpu l : cpu ≠ NO_CPU → idle_lock l → free_lock cpu l.
Proof. intros Hc (? & Ho & ?). split_and!; [done|congruence|done]. Qed.

Lemma idle_released cpu l : free_lock cpu l → idle_lock (released l).
Proof. by intros (? & _ & _). Qed.

Lemma all_apart_cons b owned :
  all_apart owned → (∀ b', b' ∈ owned → apart b b') → all_apart (b :: owned).
Proof.
  intros Ha Hb [|i] [|j] b1 b2 H1 H2 Hij; simplify_eq/=; [| |by eapply (Ha i j); [..|lia]].
  - apply Hb. by eapply list_elem_of_lookup_2.
  - destruct (Hb b1); [by eapply list_elem_of_lookup_2|by right|by left].
Qed.

Lemma delete_lookup_back {A} (l : list A) i j x :
  delete i l !! j = Some x → ∃ j', l !! j' = Some x ∧ j' ≠ i ∧ (j < i → j' = j)%nat ∧ (i ≤ j → j' = S j)%nat.
Proof.
  intros Hj. destruct (decide (j < i)%nat).
  - rewrite list_lookup_delete_lt in Hj by done. exists j. split_and!; [done|lia..].
  - rewrite list_lookup_delete_ge in Hj by lia. exists (S j). split_and!; [done|lia..].
Qed.

Lemma all_apart_delete owned i : all_apart owned → all_apart (delete i owned).
Proof.
  intros Ha j k b1 b2 (j' & Hj & _ & ? & ?)%delete_lookup_back (k' & Hk & _ & ? & ?)%delete_lookup_back Hjk.
  apply (Ha j' k'); [done..|]. destruct (decide (j < i)%nat), (decide (k < i)%nat); lia.
Qed.

Lemma alloc_pages_spent fl s st order mt p fl' :
  zone_ok z zid st fl s → type_ok mt → mt ≠ MIGRATE_RESERVE → order_ok order →
  alloc_spec fl order mt (Some p) fl' →
  npages fl' = npages fl - 2 ^ order ∧
  ∃ q o mt', q ∈ fblocks fl o mt' ∧ p = q ∧ order ≤ o.
Proof.
  intros Hok Hmt Hne Ho Hspec. unfold order_ok in Ho.
  inversion Hspec as [o q l Ho' _ Hl|o q fb l _ Ho' _ Hfb Hl|]; subst.
  - assert (p ∈ fblocks fl o mt) as Hp by (rewrite Hl; left).
    split; [apply (npages_take z zid st fl s); try done; lia|]. exists p, o, mt. split_and!; [done..|lia].
  - assert (p ∈ fblocks fl o fb) as Hp by (rewrite Hl; left).
    split; [apply (npages_take z zid st fl s); try done; lia|]. exists p, o, fb. split_and!; [done..|lia].
Qed.

Lemma memmap_dom N st st' : dom (pages st') = dom (pages st) → memmap N st → memmap N st'.
Proof.
  intros Hd (H1 & H2 & Hq). split_and!; [done..|]. intros q. by rewrite <-Hq, <-!elem_of_dom, Hd.
Qed.

(** A call on a state with the invariant, in terms of the specification. *)
Lemma rmqueue_returns N total cpu ra fuel gfp_flags order mt st owned r st' :
  binv N total (st, owned) → cpu ≠ NO_CPU → order_ok order → type_ok mt → mt ≠ MIGRATE_RESERVE →
  rmqueue cpu ra (S fuel) z order gfp_flags mt st = Ret (r, st') →
  ∃ fl s fl' s' zn', zone_ok z zid st fl s ∧ alloc_spec fl order mt r fl' ∧ zone_ok z zid st' fl' s' ∧
    (∀ p, r = Some p → avail zid st' fl' s' p order) ∧
    (∀ p o, (p, o) ∈ owned → avail zid st fl s p o ∧ avail zid st' fl' s' p o) ∧
    zones st' !! z = Some zn' ∧ idle_lock (zlock zn') ∧ memmap N st' ∧
    npages fl + pages_of owned = total ∧ total < 2 ^ 32 ∧ all_apart owned.
Proof.
  intros (fl & s & zn & Hok & Hmap & Hz & Hl & Hav & Hap & Htot & Hb) Hc Ho Hmt Hne Hrun.
  pose proof (pages_of_nonneg owned).
  destruct (alloc_spec_total fl order mt Hmt Hne) as (r' & fl' & Hspec).
  destruct (decide (r' = None ∧ order = 0)) as [[-> ->]|Hr].
  { rewrite (exhausted_order0_run cpu ra fuel st fl s zn gfp_flags mt fl') in Hrun; try done;
      [lia|by apply idle_free]. }
  destruct (locked_rmqueue_run cpu ra fuel st fl s zn order gfp_flags mt r' fl')
    as (st2 & s' & zn' & Hrun' & Hok' & Hav' & Hk & Hz' & Hl' & _ & _ & Hd);
    try done; [lia|by apply idle_free| |].
  { intros ->. unfold order_ok in Ho. destruct (decide (order = 0)) as [->|]; [by destruct Hr|lia]. }
  rewrite Hrun' in Hrun. injection Hrun as -> ->. exists fl, s, fl', s', zn'.
  split_and!; try done.
  - intros p o Hp. split; [by apply Hav|by apply Hk, Hav].
  - rewrite Hl'. by eapply idle_released, idle_free.
  - by eapply memmap_dom.
Qed.

(** A release that returned, in terms of the free lists. *)
Lemma free_returned cpu ra fuel N st fl s zn p o mt st' :
  zone_ok z zid st fl s → avail zid st fl s p o → memmap N st → type_ok mt →
  zones st !! z = Some zn → free_lock cpu (zlock zn) →
  free_one_page cpu ra (S fuel) z p p o mt st = Ret (tt, st') →
  ∃ fl' s' zn', npages fl' = npages fl + 2 ^ o ∧ zone_ok z zid st' fl' s' ∧
    (∀ q k, avail zid st fl s q k → q + 2 ^ k ≤ p ∨ p + 2 ^ o ≤ q → avail zid st' fl' s' q k) ∧
    zones st' !! z = Some zn' ∧ zlock zn' = released (zlock zn) ∧
    irq_on st' = irq_on st ∧ globals st' = globals st ∧ dom (pages st') = dom (pages st).
Proof.
  intros Hok Hp Hmap Hmt Hz Hfl Hrun.
  assert (__free_one_page p p z o mt (set_lock (acquired cpu ra (zlock zn)) (irq_on st) zn st) =
          merge_loop merge_fuel p p z o mt (set_lock (acquired cpu ra (zlock zn)) (irq_on st) zn st)) as Heq.
  { pose proof Hrun as Hr. unfold free_one_page in Hr.
    rewrite (bind_Ret _ _ _ _ _ (lock_run cpu ra fuel st zn Hz Hfl)) in Hr.
    minv Hr as ([] & s2 & Hfree & _). rewrite Hfree. symmetry. by apply returned_merge. }
  pose proof (free_one_page_core cpu ra fuel N st fl s zn p o mt Heq Hok Hp Hmap Hmt Hz Hfl) as Hcore.
  destruct (fl_merge merge_fuel p o mt fl) as [fl'|]; [|congruence].
  destruct Hcore as (Hn & st2 & s' & zn' & Hrun' & Hrest).
  rewrite Hrun' in Hrun. injection Hrun as ->. by exists fl', s', zn'.
Qed.

Lemma bstep_inv N total c c' : bstep c c' → binv N total c → binv N total c'.
Proof.
  destruct 1 as [cpu ra fuel g order mt st st' owned p Hc Ho Hmt Hne Hrun
                |cpu ra fuel g order mt st st' owned Hc Ho Hmt Hne Hrun
                |cpu ra fuel mt st st' owned i p order Hc Hmt Hi Hrun]; intros Hinv.
  - destruct (rmqueue_returns _ _ _ _ _ _ _ _ _ _ _ _ Hinv Hc Ho Hmt Hne Hrun)
      as (fl & s & fl' & s' & zn' & Hok & Hspec & Hok' & Hnew & Hold & Hz & Hl & Hmap & Htot & Hb & Hap).
    destruct (alloc_pages_spent fl s st order mt p fl') as (Hn & q & o & mt' & Hq & <- & Hoo); [done..|].
    exists fl', s', zn'. split_and!; try done.
    + intros p' o' [[= -> ->]|Hp]%elem_of_cons; [by apply Hnew|by apply Hold].
    + apply all_apart_cons; [done|]. intros [p' o'] Hp. destruct (Hold _ _ Hp) as [(_ & _ & Hd) _].
      unfold apart; simpl. unfold order_ok in Ho.
      pose proof (Z.pow_le_mono_r 2 order o ltac:(lia) Hoo). destruct (Hd _ _ _ Hq); lia.
    + unfold pages_of in *; simpl. lia.
  - destruct (rmqueue_returns _ _ _ _ _ _ _ _ _ _ _ _ Hinv Hc Ho Hmt Hne Hrun)
      as (fl & s & fl' & s' & zn' & Hok & Hspec & Hok' & _ & Hold & Hz & Hl & Hmap & Htot & Hb & Hap).
    inversion Hspec; subst. exists fl', s', zn'. split_and!; try done. intros p o Hp. by apply Hold.
  - destruct Hinv as (fl & s & zn & Hok & Hmap & Hz & Hl & Hav & Hap & Htot & Hb).
    assert ((p, order) ∈ owned) as Hin by by eapply list_elem_of_lookup_2.
    pose proof (idle_free cpu _ Hc Hl) as Hfl. pose proof (Hav _ _ Hin) as Hp.
    destruct (free_returned cpu ra fuel N st fl s zn p order mt st' Hok Hp Hmap Hmt Hz Hfl Hrun)
      as (fl' & s' & zn' & Hn & Hok' & Hk & Hz' & Hl' & _ & _ & Hd).
    exists fl', s', zn'. split_and!; try done.
    + by eapply memmap_dom.
    + rewrite Hl'. by eapply idle_released.
    + intros q k (j & Hj)%list_elem_of_lookup. apply delete_lookup_back in Hj as (j' & Hj & Hne & _).
      apply Hk; [apply Hav; by eapply list_elem_of_lookup_2|].
      destruct (Hap _ _ _ _ Hj Hi Hne); simpl in *; [by left|by right].
    + by apply all_apart_delete.
    + rewrite (pages_of_delete _ _ _ Hi); simpl. lia.
Qed.

Lemma bsteps_inv N total c c' : bsteps c c' → binv N total c → binv N total c'.
Proof. induction 1; eauto using bstep_inv. Qed.

(** C1: no double allocation, over any history of calls by any CPUs.  From
    a state whose zone is well formed, after any sequence of allocations and
    releases that returned, the blocks in use are pairwise disjoint, disjoint
    from every free block, and free plus used pages are as many as at the
    start (so nothing leaks and the counters never wrap). *)
Theorem no_double_allocation N total c st owned :
  binv N total c → bsteps c (st, owned) →
  all_apart owned ∧
  ∃ fl s zn, zone_ok z zid st fl s ∧ zones st !! z = Some zn ∧
    (∀ p o q k mt, (p, o) ∈ owned → q ∈ fblocks fl k mt → apart (p, o) (q, k)) ∧
    z_free_pages zn = npages fl ∧ z_free_pages zn + pages_of owned = total.
Proof.
  intros Hinv Hs. destruct (bsteps_inv _ _ _ _ Hs Hinv) as
    (fl & s & zn & Hok & Hmap & Hz & Hl & Hav & Hap & Htot & Hb).
  split; [done|]. exists fl, s, zn. destruct (zk_zone _ _ _ _ _ Hok) as (zn' & Hz' & _ & _ & Hf).
  rewrite Hz in Hz'. injection Hz' as <-. pose proof (pages_of_nonneg owned).
  assert (0 ≤ npages fl).
  { assert (order_ok 0) as Ho0 by (unfold order_ok, MAX_ORDER; lia).
    pose proof (nblocks_bound fl 0 Ho0). lia. }
  rewrite wrap_small in Hf by lia.
  split_and!; [done|done| |done|lia].
  intros p o q k mt Hp Hq. destruct (Hav _ _ Hp) as (_ & _ & Hd).
  unfold apart; simpl. destruct (Hd _ _ _ Hq); [by right|by left].
Qed.
End spec.
