(* ===== verification/BuddyInit.v ===== *)
(** Bringing a zone up ([init_zone]), and the smaller functions of
    [kernel/mm/buddy.c]: buddy frame numbers, [get_order], the checks of
    [free_page_prepare] and the accounting of [alloc_pages]. *)
From stdpp Require Import base gmap list strings fin_maps.
From S2P Require Import Prelude CTypes ListHead ListTheory Spinlock Page Buddy BuddyTheory BuddySpec.

(** * Initialising list heads *)

Fixpoint init_nodes (hs : list node) : M mm unit :=
  match hs with
  | [] => mret tt
  | x :: hs => on_links (INIT_LIST_HEAD (Ptr x));; init_nodes hs
  end.

Lemma init_free_lists_nodes z todo st :
  init_free_lists z todo st = init_nodes ((λ k, FreeHead z (fst k) (snd k)) <$> todo) st.
Proof.
  revert st. induction todo as [|[o mt] todo IH]; intros st; [done|]. simpl.
  unfold mbind, M_bind. destruct (on_links _ st) as [[? ?]| | |]; [apply IH|done..].
Qed.

Lemma init_lru_lists_nodes z todo st :
  init_lru_lists z todo st = init_nodes (LruHead z <$> todo) st.
Proof.
  revert st. induction todo as [|k todo IH]; intros st; [done|]. simpl.
  unfold mbind, M_bind. destruct (on_links _ st) as [[? ?]| | |]; [apply IH|done..].
Qed.

(** Each head becomes an empty list; nothing else changes. *)
Lemma init_nodes_ok hs st s :
  rep (links st) s → NoDup hs → (∀ x, x ∈ hs → x ∈ detached s) →
  ∃ h' s', init_nodes hs st = Ret (tt, with_links h' st) ∧ rep h' s' ∧
    (∀ x, x ∈ detached s' ↔ x ∈ detached s ∧ x ∉ hs) ∧
    (∀ x, x ∈ hs → lists s' !! x = Some []) ∧
    (∀ x, x ∉ hs → lists s' !! x = lists s !! x).
Proof.
  intros Hr Hnd. revert st s Hr. induction Hnd as [|x hs Hx Hnd IH]; intros st s Hr Hin.
  - exists (links st), s. split_and!; [by destruct st|done|set_solver|set_solver|done].
  - destruct (on_links_run _ st _ _ _ (runs_INIT s x (Hin x ltac:(left))) Hr) as (h1 & H1 & Hr1).
    destruct (IH (with_links h1 st) _ Hr1) as (h2 & s2 & H2 & Hr2 & Hd & Hl & Hk).
    { intros y Hy. simpl. apply elem_of_difference. split; [apply Hin; by right|].
      intros ->%elem_of_singleton. done. }
    exists h2, s2. split_and!; [| done |..].
    + simpl. by rewrite (bind_Ret _ _ _ _ _ H1).
    + intros y. rewrite Hd; simpl. set_solver.
    + intros y [->|Hy]%elem_of_cons; [|by apply Hl].
      rewrite Hk by done. simpl. by rewrite lookup_insert_eq.
    + intros y [? ?]%not_elem_of_cons. rewrite Hk by done. simpl. by rewrite lookup_insert_ne.
Qed.

(** * [init_zone] *)

Definition empty_fl : gmap (Z * Z) (list Z) :=
  list_to_map ((λ k, (k, [])) <$> orders_and_types).

Lemma elem_orders_and_types o mt : (o, mt) ∈ orders_and_types ↔ order_ok o ∧ type_ok mt.
Proof.
  unfold orders_and_types, order_ok, type_ok. rewrite list_elem_of_In, in_flat_map. split.
  - intros (o' & Ho' & Hin). apply list_elem_of_In, elem_of_seqZ in Ho'. apply list_elem_of_In in Hin.
    apply list_elem_of_fmap in Hin as (mt' & [= -> ->] & Hmt%elem_of_seqZ). lia.
  - intros [Ho Hmt]. exists o. rewrite <-!list_elem_of_In. split; [apply elem_of_seqZ; lia|].
    apply list_elem_of_fmap. exists mt. split; [done|apply elem_of_seqZ; lia].
Qed.

Lemma NoDup_orders_and_types : NoDup orders_and_types.
Proof. by_decide. Qed.

Lemma lookup_empty_fl o mt l : empty_fl !! (o, mt) = Some l → l = [].
Proof. apply lookup_const_map. Qed.

Lemma empty_fl_is_Some o mt : is_Some (empty_fl !! (o, mt)) ↔ order_ok o ∧ type_ok mt.
Proof. unfold empty_fl. by rewrite const_map_is_Some, elem_orders_and_types. Qed.

Lemma fblocks_empty o mt : fblocks empty_fl o mt = [].
Proof.
  unfold fblocks. destruct (empty_fl !! (o, mt)) as [l|] eqn:Hl; [|done]. simpl.
  by eapply lookup_empty_fl.
Qed.

Lemma nblocks_empty o : nblocks empty_fl o = 0.
Proof.
  unfold nblocks. rewrite (sumZ_ext _ (λ _, 0)); [by vm_compute|].
  intros mt _. by rewrite fblocks_empty.
Qed.

Lemma npages_empty : npages empty_fl = 0.
Proof.
  unfold npages. rewrite (sumZ_ext _ (λ _, 0)); [by vm_compute|].
  intros o _. by rewrite nblocks_empty.
Qed.

Lemma on_zone_lock_irqsave cpu ra fuel st :
  free_lock cpu (zone_lock st) →
  on_zone_lock (spin_lock_irqsave cpu ra (S fuel)) st =
    Ret (irq_on st, with_irq false (with_zone_lock (acquired cpu ra (zone_lock st)) st)).
Proof.
  intros (Hm & Ho & Hl). unfold on_zone_lock, zoom at 1.
  unfold spin_lock_irqsave, local_irq_save, on_lock, zoom, gets, modify, mbind, M_bind; simpl.
  by rewrite spin_lock_run, Hm, Hl, Z.eqb_refl, (proj2 (Z.eqb_neq _ _) Ho).
Qed.

Lemma on_zone_lock_irqrestore cpu ra b st l :
  zone_lock st = acquired cpu ra l → magic l = SPINLOCK_MAGIC →
  on_zone_lock (spin_unlock_irqrestore cpu b) st =
    Ret (tt, with_irq b (with_zone_lock (released l) st)).
Proof.
  intros Hl Hm. unfold on_zone_lock, zoom at 1. simpl. rewrite Hl.
  unfold spin_unlock_irqrestore, local_irq_restore, on_lock, zoom, modify, mbind, M_bind; simpl.
  rewrite spin_unlock_run; simpl. by rewrite Hm, !Z.eqb_refl.
Qed.

(** The table of zones after registering one more. *)
Definition registered (z : Z) (st : mm) : list (option Z) * Z :=
  if nr_zones st <? MAX_NR_ZONES
  then (<[Z.to_nat (nr_zones st) := Some z]> (zone_table st), nr_zones st + 1)
  else (zone_table st, nr_zones st).

Lemma init_zone_run cpu ra fuel st s z zn start_pfn size :
  rep (links st) s → zones st !! z = Some zn → free_lock cpu (zone_lock st) →
  (∀ o mt, order_ok o → type_ok mt → FreeHead z o mt ∈ detached s) →
  (∀ k, 0 ≤ k < NR_LRU_LISTS → LruHead z k ∈ detached s) →
  ∃ h' s', init_zone cpu ra (S fuel) (Some z) start_pfn size st =
      Ret (0, with_irq (irq_on st) (with_zone_lock (released (zone_lock st))
        (with_zone_table (fst (registered z st)) (snd (registered z st))
          (with_links h' (with_zones (<[z := init_zone_fields start_pfn size zn]> (zones st)) st))))) ∧
    rep h' s' ∧
    (∀ o mt, order_ok o → type_ok mt → lists s' !! FreeHead z o mt = Some []) ∧
    (∀ p, PageLru p ∈ detached s → PageLru p ∈ detached s').
Proof.
  intros Hr Hz Hfl Hfree Hlru.
  destruct (init_nodes_ok ((λ k, FreeHead z (fst k) (snd k)) <$> orders_and_types) st s Hr)
    as (h1 & s1 & H1 & Hr1 & Hd1 & Hl1 & _).
  { apply NoDup_fmap_2_strong; [|apply NoDup_orders_and_types]. intros [??] [??] _ _ [= -> ->]. done. }
  { intros x ([o mt] & -> & [??]%elem_orders_and_types)%list_elem_of_fmap. by apply Hfree. }
  set (st2 := with_links h1 (with_zones (<[z := init_zone_fields start_pfn size zn]> (zones st)) st)).
  destruct (init_nodes_ok (LruHead z <$> seqZ 0 NR_LRU_LISTS) st2 s1 Hr1)
    as (h2 & s2 & H2 & Hr2 & Hd2 & _ & Hk2).
  { apply NoDup_fmap_2_strong; [|apply NoDup_seqZ]. intros ?? _ _ [= ->]. done. }
  { intros x (k & -> & Hk%elem_of_seqZ)%list_elem_of_fmap. apply Hd1. split; [apply Hlru; lia|].
    intros (k' & ? & _)%list_elem_of_fmap. done. }
  exists h2, s2. split_and!; [|done|..].
  - unfold init_zone.
    rewrite (bind_Ret _ _ _ _ _ (eq_trans (init_free_lists_nodes _ _ _) H1)).
    rewrite (bind_Ret _ _ _ _ _ (upd_zone_run z (with_links h1 st) _ zn Hz)).
    rewrite (bind_Ret _ _ _ _ _ (eq_trans (init_lru_lists_nodes _ _ _) H2)).
    rewrite (bind_Ret _ _ _ _ _ (on_zone_lock_irqsave cpu ra fuel (with_links h2 st2) Hfl)).
    mstep. unfold registered. destruct (_ <? _); mstep;
      (erewrite bind_Ret; [|eapply on_zone_lock_irqrestore; [done|by destruct Hfl]]); done.
  - intros o mt Ho Hmt. rewrite Hk2 by (intros (? & ? & _)%list_elem_of_fmap; done).
    apply Hl1. apply list_elem_of_fmap. exists (o, mt). split; [done|]. by apply elem_orders_and_types.
  - intros p Hp. apply Hd2. split; [apply Hd1; split; [done|]|];
      intros (? & ? & _)%list_elem_of_fmap; done.
Qed.

Section init.
  Context `{PL : PageLib}.

Lemma init_zone_ok cpu ra fuel st s z zid zn start_pfn size :
  rep (links st) s → zones st !! z = Some zn → free_lock cpu (zone_lock st) →
  (∀ o mt, order_ok o → type_ok mt → FreeHead z o mt ∈ detached s) →
  (∀ k, 0 ≤ k < NR_LRU_LISTS → LruHead z k ∈ detached s) →
  (∀ p pg, pages st !! p = Some pg → page_zone_id pg = zid → PageBuddy pg = false) →
  ∃ st' s' zn', init_zone cpu ra (S fuel) (Some z) start_pfn size st = Ret (0, st') ∧
    zone_ok z zid st' empty_fl s' ∧
    (∀ p o, block_shape p o → (∀ q, p ≤ q < p + 2 ^ o → idle_page zid st s q) →
       avail zid st' empty_fl s' p o) ∧
    zones st' !! z = Some zn' ∧ idle_lock (zlock zn') ∧ idle_lock (lru_lock zn') ∧
    watermark zn' = [size / 256; size / 128; size / 64] ∧ zone_start_pfn zn' = start_pfn ∧
    present_pages zn' = size ∧ managed_pages zn' = size ∧
    (zone_table st', nr_zones st') = registered z st ∧ irq_on st' = irq_on st ∧
    pages st' = pages st ∧
    init_zone cpu ra (S fuel) None start_pfn size st = Ret (3, st).
Proof.
  intros Hr Hz Hfl Hfree Hlru Hbuddy.
  destruct (init_zone_run cpu ra fuel st s z zn start_pfn size) as (h' & s' & Hrun & Hr' & Hl' & Hd');
    [done..|].
  do 2 eexists. exists (init_zone_fields start_pfn size zn). split_and!; [exact Hrun|..]; try done.
  - split.
    + done.
    + eexists. split; [apply lookup_insert_eq|]. split_and!; [done|..].
      * intros o Ho. rewrite nblocks_empty. unfold init_zone_fields; cbn [nr_free].
        apply lookup_replicate. unfold order_ok in Ho. split; [done|lia].
      * by rewrite npages_empty.
    + apply empty_fl_is_Some.
    + intros o mt l Hl. pose proof (lookup_empty_fl _ _ _ Hl) as ->.
      assert (is_Some (empty_fl !! (o, mt))) as [Ho Hmt]%empty_fl_is_Some by eauto.
      by apply Hl'.
    + intros p o mt. rewrite fblocks_empty. by intros ?%elem_of_nil.
    + intros p pg Hp Hb Hzp. by rewrite (Hbuddy _ _ Hp Hzp) in Hb.
    + intros p o mt p' o' mt'. rewrite fblocks_empty. by intros ?%elem_of_nil.
  - intros p o Hsh Hid. split_and!; [done| |].
    + intros q Hq. destruct (Hid q Hq) as (Hdq & pg & ?). split; [by apply Hd'|]. by exists pg.
    + intros p' o' mt'. rewrite fblocks_empty. by intros ?%elem_of_nil.
  - apply lookup_insert_eq.
  - simpl. by destruct (registered z st).
Qed.

(** C16: [init_zone] on raw memory (every list head of the zone allocated but
    not initialised, no page of the zone marked free) returns 0 and
    establishes the allocator's invariant with no free block: all 66 lists
    are empty, all counters zero, the watermarks 1/256, 1/128 and 1/64 of the
    size, the locks unlocked; it registers the zone if there is room and
    keeps the interrupt flag.  Pages stay as they were, so any aligned block
    of them can be released to the zone next.  A NULL zone is answered with
    +3: the source negates an error code that is already negative. *)
Theorem init_zone_establishes cpu ra fuel st s z zid zn start_pfn size :
  rep (links st) s → zones st !! z = Some zn → free_lock cpu (zone_lock st) →
  (∀ o mt, order_ok o → type_ok mt → FreeHead z o mt ∈ detached s) →
  (∀ k, 0 ≤ k < NR_LRU_LISTS → LruHead z k ∈ detached s) →
  (∀ p pg, pages st !! p = Some pg → page_zone_id pg = zid → PageBuddy pg = false) →
  ∃ st' s' zn', init_zone cpu ra (S fuel) (Some z) start_pfn size st = Ret (0, st') ∧
    zone_ok z zid st' empty_fl s' ∧
    (∀ p o, block_shape p o → (∀ q, p ≤ q < p + 2 ^ o → idle_page zid st s q) →
       avail zid st' empty_fl s' p o) ∧
    zones st' !! z = Some zn' ∧ idle_lock (zlock zn') ∧ idle_lock (lru_lock zn') ∧
    watermark zn' = [size / 256; size / 128; size / 64] ∧ zone_start_pfn zn' = start_pfn ∧
    present_pages zn' = size ∧ managed_pages zn' = size ∧
    (zone_table st', nr_zones st') = registered z st ∧ irq_on st' = irq_on st ∧
    pages st' = pages st ∧
    init_zone cpu ra (S fuel) None start_pfn size st = Ret (3, st).
Proof. apply init_zone_ok. Qed.
End init.

(** * [get_order] and buddy frame numbers *)

(** The number of significant bits. *)
Definition width (x : Z) : Z := if x =? 0 then 0 else Z.log2 x + 1.

Lemma width_spec x : 0 ≤ x → 0 ≤ width x ∧ x < 2 ^ width x ∧ (x ≠ 0 → 2 ^ (width x - 1) ≤ x).
Proof.
  intros Hx. unfold width. destruct (Z.eqb_spec x 0) as [->|Hne]; [by split_and!|].
  pose proof (Z.log2_spec x ltac:(lia)) as [Hlo Hhi]. pose proof (Z.log2_nonneg x).
  rewrite Z.add_simpl_r. split_and!; [lia|done|done].
Qed.

Lemma get_order_loop_S n x order :
  get_order_loop (S n) x order =
    if x =? 0 then Some order else get_order_loop n (Z.shiftr x 1) (order + 1).
Proof. done. Qed.

Lemma get_order_loop_run n x order :
  0 ≤ x < 2 ^ Z.of_nat n → get_order_loop (S n) x order = Some (order + width x).
Proof.
  revert x order. induction n as [|n IH]; intros x order Hx; rewrite get_order_loop_S.
  - assert (x = 0) as -> by lia. f_equal. unfold width. simpl. lia.
  - unfold width at 1. destruct (Z.eqb_spec x 0) as [->|Hne]; [f_equal; lia|].
    rewrite Z.shiftr_div_pow2, Z.pow_1_r by lia.
    rewrite Nat2Z.inj_succ, Z.pow_succ_r in Hx by lia.
    rewrite IH by (split; [apply Z.div_pos; lia|apply Z.div_lt_upper_bound; lia]).
    f_equal. unfold width. destruct (Z.eqb_spec (x / 2) 0) as [H0|H0].
    + assert (x = 1) as -> by (pose proof (Z.mul_succ_div_gt x 2); lia).
      change (Z.log2 1) with 0. lia.
    + assert (Z.log2 x = Z.log2 (x / 2) + 1); [|lia].
      replace (x / 2) with (Z.shiftr x 1) by (by rewrite Z.shiftr_div_pow2).
      rewrite Z.log2_shiftr by lia. rewrite Z.max_r; [lia|].
      assert (1 ≤ Z.log2 x); [|lia]. apply Z.log2_le_pow2; [lia|]. simpl.
      destruct (decide (x < 2)); [|lia]. rewrite Z.div_small in H0; lia.
Qed.

(** C40: [get_order] terminates on every 32-bit size and computes the least
    order whose block covers the size.  A size of 0 wraps around and asks for
    order 20. *)
Theorem get_order_least size :
  0 ≤ size < 2 ^ 32 →
  ∃ n, get_order size = Some n ∧
    (size = 0 → n = 20) ∧
    (0 < size → 0 ≤ n ≤ 20 ∧ size ≤ PAGE_SIZE * 2 ^ n ∧ (0 < n → PAGE_SIZE * 2 ^ (n - 1) < size)).
Proof.
  intros Hs. unfold get_order. set (x := Z.shiftr (size -[32] 1) PAGE_SHIFT).
  assert (0 ≤ x < 2 ^ 20) as Hx.
  { unfold x, PAGE_SHIFT. rewrite Z.shiftr_div_pow2 by lia.
    pose proof (wrap_range 32 (size - 1) ltac:(lia)).
    split; [apply Z.div_pos; lia|apply Z.div_lt_upper_bound; lia]. }
  exists (width x). split_and!.
  - rewrite (get_order_loop_run 32); [done|]. split; [lia|]. eapply Z.lt_trans; [apply Hx|]. by vm_compute.
  - intros ->. by vm_compute.
  - intros Hpos. assert (x = (size - 1) / 4096) as Hxe.
    { unfold x, PAGE_SHIFT. rewrite wrap_small, Z.shiftr_div_pow2 by lia. done. }
    pose proof (width_spec x ltac:(lia)) as (H0 & H1 & H2). unfold PAGE_SIZE.
    pose proof (Z.mul_div_le (size - 1) 4096 ltac:(lia)).
    pose proof (Z.mul_succ_div_gt (size - 1) 4096 ltac:(lia)).
    split_and!; [done| |lia|].
    + destruct (decide (x = 0)) as [->|Hne]; [by vm_compute|].
      specialize (H2 Hne). destruct (decide (width x ≤ 20)); [done|].
      assert (2 ^ 20 ≤ 2 ^ (width x - 1)) by (apply Z.pow_le_mono_r; lia). lia.
    + intros Hw. assert (x ≠ 0) as Hne by (intros Heq; unfold width in Hw; by rewrite Heq in Hw).
      specialize (H2 Hne). lia.
Qed.

(** The buddy of an aligned block is the other half of the aligned pair
    that contains it: [__find_buddy_pfn] is an involution, never answers the
    block itself, keeps alignment and stays within 32 bits; and the frame
    number [__free_one_page] goes on with ([buddy_pfn & pfn]) is the lower of
    the two and aligned to the next order. *)
Theorem buddy_pfn_pair p o :
  block_shape p o →
  let b := __find_buddy_pfn p o in
  b ≠ p ∧ 0 ≤ b < 2 ^ 32 ∧ (2 ^ o | b) ∧ __find_buddy_pfn b o = p ∧
  Z.land b p = Z.min b p ∧ Z.max b p = Z.min b p + 2 ^ o ∧ (2 ^ (o + 1) | Z.land b p).
Proof.
  intros Hsh b. pose proof Hsh as (Ho & Hp0 & Hp1 & Hd). unfold order_ok in Ho.
  pose proof (pow2_order o Ho) as Hpow.
  assert (b = Z.lxor p (2 ^ o)) as Hb.
  { unfold b. rewrite (find_buddy _ _ Hsh). destruct (Z.testbit p o) eqn:Ht;
      [by rewrite lxor_set by (done || lia)|by rewrite lxor_clear by (done || lia)]. }
  assert (0 ≤ b < 2 ^ 32) as Hr by (unfold b, __find_buddy_pfn; apply wrap_range; lia).
  assert (b = if Z.testbit p o then p - 2 ^ o else p + 2 ^ o) as Hc by apply (find_buddy _ _ Hsh).
  assert (Z.testbit b o = negb (Z.testbit p o)) as Htb.
  { rewrite Hb, Z.lxor_spec, Z.pow2_bits_true by lia. by destruct (Z.testbit p o). }
  assert (2 ^ o | b) as Hdb.
  { rewrite Hc. destruct (Z.testbit p o); [by apply Z.divide_sub_r|by apply Z.divide_add_r]. }
  assert (Z.land b p = Z.min b p) as Hland.
  { rewrite Hb, land_buddy by lia. rewrite <-Hb, Hc. destruct (Z.testbit p o); lia. }
  split_and!; [destruct (Z.testbit p o); lia|lia|lia|done| |done|destruct (Z.testbit p o); lia|].
  - unfold __find_buddy_pfn at 1. rewrite Z.shiftl_1_l, Hb, Z.lxor_assoc, Z.lxor_nilpotent, Z.lxor_0_r.
    apply wrap_small. lia.
  - rewrite Hland. destruct (Z.testbit p o) eqn:Ht; rewrite ?Ht in *; simpl in Htb.
    + rewrite Z.min_l by lia. apply divide_testbit; (done || lia).
    + rewrite Z.min_r by lia. apply divide_testbit; (done || lia).
Qed.

(** * The checks before freeing *)

Section prepare.
  Context `{PL : PageLib}.

(** A descriptor as [free_page_check] sees it, after [PageAnon] cleared its
    mapping. *)
Definition unmapped (pg : page) : page := if PageAnon pg then with_mapping 0 pg else pg.
Definition bad_before (pg : page) : bool := page_is_bad (unmapped pg).

(** No flag that must be clear on an allocation is left. *)
Definition prep_clear (pg : page) : Prop := Z.land (flags pg) PAGE_FLAGS_CHECK_AT_PREP = 0.

Lemma clear_prep_flags_clear pg :
  0 ≤ PAGE_FLAGS_CHECK_AT_PREP < 2 ^ 32 → prep_clear (clear_prep_flags pg).
Proof.
  intros Hm. unfold prep_clear, clear_prep_flags, with_flags; cbn [flags].
  apply Z.bits_inj'. intros n Hn. rewrite !Z.land_spec, wrap_testbit, Z.lnot_spec, Z.bits_0 by lia.
  destruct (Z.ltb_spec n 32).
  - destruct (Z.testbit PAGE_FLAGS_CHECK_AT_PREP n); simpl; by rewrite ?andb_false_r.
  - by rewrite !andb_false_r.
Qed.

Lemma upd_page_total st q f :
  is_Some (pages st !! q) →
  ∃ pg, pages st !! q = Some pg ∧
    upd_page q f st = Ret (tt, with_pages (<[q := f pg]> (pages st)) st).
Proof. intros [pg Hpg]. exists pg. split; [done|by apply upd_page_run]. Qed.

Lemma with_pages_twice st P P' : with_pages P' (with_pages P st) = with_pages P' st.
Proof. done. Qed.

(** One iteration of the loop, on its page alone. *)
Lemma check_page_run st q pg :
  0 ≤ PAGE_FLAGS_CHECK_AT_PREP < 2 ^ 32 → pages st !! q = Some pg →
  ∃ pg', ((pg ← page_at q; (if PageAnon pg then upd_page q (with_mapping 0) else mret tt);;
           free_page_check q) st =
      Ret (if bad_before pg then 1 else 0, with_pages (<[q := pg']> (pages st)) st)) ∧
    (bad_before pg = false → prep_clear pg').
Proof.
  intros Hm Hpg. unfold page_at. rewrite (bind_Ret _ _ _ _ _ (get_some_run (λ s, pages s !! q) st pg Hpg)).
  assert ((if PageAnon pg then upd_page q (with_mapping 0) else mret tt) st =
    Ret (tt, with_pages (<[q := unmapped pg]> (pages st)) st)) as H1.
  { unfold unmapped. destruct (PageAnon pg); [by apply upd_page_run|]. by rewrite with_pages_same. }
  rewrite (bind_Ret _ _ _ _ _ H1). set (st1 := with_pages (<[q := unmapped pg]> (pages st)) st).
  assert (pages st1 !! q = Some (unmapped pg)) as Hp1 by apply lookup_insert_eq.
  unfold free_page_check, page_at, bad_before.
  rewrite (bind_Ret _ _ _ _ _ (get_some_run (λ s, pages s !! q) st1 _ Hp1)).
  destruct (page_is_bad (unmapped pg)).
  - rewrite (bind_Ret _ _ _ _ _ (upd_page_run st1 q bad_page _ Hp1)).
    exists (bad_page (unmapped pg)). split; [|done]. unfold st1; simpl. by rewrite insert_insert_eq.
  - rewrite (bind_Ret _ _ _ _ _ (upd_page_run st1 q page_cpupid_reset_last _ Hp1)).
    set (pg2 := page_cpupid_reset_last (unmapped pg)).
    assert (with_pages (<[q := pg2]> (pages st1)) st1 = with_pages (<[q := pg2]> (pages st)) st) as ->
      by by unfold st1; simpl; rewrite insert_insert_eq.
    set (st2 := with_pages (<[q := pg2]> (pages st)) st).
    assert (pages st2 !! q = Some pg2) as Hp2 by apply lookup_insert_eq.
    rewrite (bind_Ret _ _ _ _ _ (get_some_run (λ s, pages s !! q) st2 _ Hp2)).
    destruct (Z.eqb_spec (Z.land (flags pg2) PAGE_FLAGS_CHECK_AT_PREP) 0) as [H0|H0]; simpl.
    + exists pg2. done.
    + rewrite (bind_Ret _ _ _ _ _ (upd_page_run st2 q clear_prep_flags _ Hp2)).
      exists (clear_prep_flags pg2). split; [|intros _; by apply clear_prep_flags_clear].
      unfold st2; simpl. by rewrite insert_insert_eq.
Qed.

Lemma check_page_bind {A} (k : Z → M mm A) st q b st' :
  (pg ← page_at q; (if PageAnon pg then upd_page q (with_mapping 0) else mret tt);;
   free_page_check q) st = Ret (b, st') →
  (pg ← page_at q; (if PageAnon pg then upd_page q (with_mapping 0) else mret tt);;
   b ← free_page_check q; k b) st = k b st'.
Proof.
  intros Hrun. minv Hrun as (pg & s1 & H1 & Hrun). minv Hrun as (u & s2 & H2 & H3).
  by rewrite (bind_Ret _ _ _ _ _ H1), (bind_Ret _ _ _ _ _ H2), (bind_Ret _ _ _ _ _ H3).
Qed.

Definition in_block (p : Z) (n : Z) (q : Z) : Prop := p ≤ q < p + n.

Lemma free_check_loop_run n st p i bad :
  0 ≤ PAGE_FLAGS_CHECK_AT_PREP < 2 ^ 32 →
  (∀ q, in_block (p + i) (Z.of_nat n) q → is_Some (pages st !! q)) →
  ∃ P k, free_check_loop n p i bad st = Ret (bad + k, with_pages P st) ∧ 0 ≤ k ∧
    (k = 0 ↔ ∀ q pg, in_block (p + i) (Z.of_nat n) q → pages st !! q = Some pg → bad_before pg = false) ∧
    (∀ q, ¬ in_block (p + i) (Z.of_nat n) q → P !! q = pages st !! q) ∧
    (∀ q pg, in_block (p + i) (Z.of_nat n) q → pages st !! q = Some pg →
       ∃ pg', P !! q = Some pg' ∧ (bad_before pg = false → prep_clear pg')).
Proof.
  unfold in_block. intros Hm. revert st i bad. induction n as [|n IH]; intros st i bad Hex.
  - exists (pages st), 0. cbn [free_check_loop]. replace (with_pages (pages st) st) with st by by destruct st.
    rewrite Z.add_0_r. split_and!; [done|done|split; [lia|done]|done|lia].
  - destruct (Hex (p + i)) as [pg Hpg]; [lia|].
    destruct (check_page_run st (p + i) pg Hm Hpg) as (pg' & Hrun & Hclear).
    set (st1 := with_pages (<[p + i := pg']> (pages st)) st) in *.
    assert (∀ q, q ≠ p + i → pages st1 !! q = pages st !! q) as Hst1.
    { intros q Hq. unfold st1; simpl. by rewrite lookup_insert_ne. }
    destruct (IH st1 (i + 1) (bad + if bad_before pg then 1 else 0)) as (P & k & Hl & Hk & Hk0 & Hout & Hin).
    { intros q Hq. rewrite Hst1 by lia. apply Hex. lia. }
    exists P, ((if bad_before pg then 1 else 0) + k). split_and!.
    + cbn [free_check_loop]. rewrite (check_page_bind _ _ _ _ _ Hrun), Hl. do 2 f_equal. lia.
    + destruct (bad_before pg); lia.
    + split.
      * intros Hsum q pgq Hq Hpgq. destruct (bad_before pg) eqn:Hb; [lia|].
        destruct (decide (q = p + i)) as [->|Hne]; [congruence|].
        apply (proj1 Hk0 ltac:(lia) q); [lia|by rewrite Hst1].
      * intros Hall. rewrite (Hall (p + i) pg ltac:(lia) Hpg). rewrite Z.add_0_l. apply Hk0.
        intros q pgq Hq Hpgq. rewrite Hst1 in Hpgq by lia. by apply (Hall q); [lia|].
    + intros q Hq. rewrite Hout by lia. apply Hst1. lia.
    + intros q pgq Hq Hpgq. destruct (decide (q = p + i)) as [->|Hne].
      * rewrite Hpg in Hpgq. injection Hpgq as <-. exists pg'. split; [|done].
        rewrite Hout by lia. apply lookup_insert_eq.
      * apply Hin; [lia|by rewrite Hst1].
Qed.

(** [free_page_prepare] refuses exactly the blocks with a page that is
    still mapped, still referenced or carries a flag no free page may have;
    a block it accepts has every [PAGE_FLAGS_CHECK_AT_PREP] flag cleared on
    every page, which is what [__free_one_page] asserts next.  It touches no
    page outside the block. *)
Theorem free_page_prepare_checks (compound_order : page → Z) st p order head :
  0 ≤ order → 0 ≤ PAGE_FLAGS_CHECK_AT_PREP < 2 ^ 32 →
  (∀ q, in_block p (2 ^ order) q → is_Some (pages st !! q)) →
  pages st !! p = Some head →
  CONFIG_DEBUG_VM = false ∨
    PageTail head = false ∧ (PageCompound head = true → compound_order head = order) →
  ∃ ok P, free_page_prepare compound_order p order st = Ret (ok, with_pages P st) ∧
    (ok = true ↔ ∀ q pg, in_block p (2 ^ order) q → pages st !! q = Some pg → bad_before pg = false) ∧
    (∀ q, ¬ in_block p (2 ^ order) q → P !! q = pages st !! q) ∧
    (ok = true → ∀ q pg, in_block p (2 ^ order) q → P !! q = Some pg → prep_clear pg).
Proof.
  intros Ho Hm Hex Hhead Hbug.
  assert (0 < 2 ^ order) as Hpow by (apply Z.pow_pos_nonneg; lia).
  assert (Z.of_nat (Z.to_nat (Z.shiftl 1 order)) = 2 ^ order) as Hn by (rewrite Z.shiftl_1_l; lia).
  destruct (free_check_loop_run (Z.to_nat (Z.shiftl 1 order)) st p 0 0 Hm) as (P & k & Hl & Hk & Hk0 & Hout & Hin).
  { rewrite Hn, Z.add_0_r. done. }
  rewrite Hn, Z.add_0_r in *. rewrite Z.add_0_l in Hl.
  unfold free_page_prepare, page_at.
  rewrite (bind_Ret _ _ _ _ _ (get_some_run (λ s, pages s !! p) st _ Hhead)).
  rewrite (bind_Ret _ _ _ _ _ (vm_bug_on_run (PageTail head) st ltac:(naive_solver))).
  rewrite (bind_Ret _ _ _ _ _ (vm_bug_on_run
    (PageCompound head && negb (compound_order head =? order)) st ltac:(
      destruct Hbug as [?|[_ Hc]]; [by left|right]; destruct (PageCompound head); [|done];
      rewrite (Hc eq_refl), Z.eqb_refl; done))).
  rewrite (bind_Ret _ _ _ _ _ Hl). destruct (Z.eqb_spec k 0) as [->|Hne]; simpl.
  - destruct (Hin p head) as (hd1 & Hhd1 & _); [unfold in_block; lia|done|].
    rewrite (bind_Ret _ _ _ _ _ (upd_page_run (with_pages P st) p page_cpupid_reset_last _ Hhd1)).
    set (hd2 := page_cpupid_reset_last hd1).
    assert (pages (with_pages (<[p := hd2]> P) (with_pages P st)) !! p = Some hd2) as Hp2
      by apply lookup_insert_eq.
    change (with_pages (<[p := page_cpupid_reset_last hd1]> (pages (with_pages P st))) (with_pages P st))
      with (with_pages (<[p := hd2]> P) (with_pages P st)).
    rewrite (bind_Ret _ _ _ _ _ (upd_page_run _ p clear_prep_flags _ Hp2)).
    exists true, (<[p := clear_prep_flags hd2]> P). split_and!.
    + unfold mret, M_ret. simpl. by rewrite insert_insert_eq.
    + split; [intros _; by apply Hk0|done].
    + intros q Hq. rewrite lookup_insert_ne; [by apply Hout|]. intros ->. apply Hq. unfold in_block. lia.
    + intros _ q pg Hq Hpg. destruct (decide (p = q)) as [->|].
      * rewrite lookup_insert_eq in Hpg. injection Hpg as <-. by apply clear_prep_flags_clear.
      * rewrite lookup_insert_ne in Hpg by done. destruct (Hex q Hq) as [pg0 Hpg0].
        destruct (Hin q pg0 Hq Hpg0) as (pg' & Hpg' & Hc). rewrite Hpg in Hpg'. injection Hpg' as <-.
        apply Hc. by apply (proj1 Hk0 eq_refl q).
  - exists false, P. split_and!; [done| |done|done].
    split; [done|]. intros Hall. by apply Hk0 in Hall.
Qed.
End prepare.

(** * The callers *)

Section callers.
  Context `{PL : PageLib} {HL : PageLaws PL} (z zid : Z).

(** Stamping a page of the zone with the zone's own number. *)
Definition stamps_zone : Prop := ∀ pg, page_zone_id pg = zid →
  PageBuddy (set_page_zone (zone_idx z) pg) = PageBuddy pg ∧
  page_zone_id (set_page_zone (zone_idx z) pg) = zid.

Lemma stamp_ok st fl s p o :
  stamps_zone → zone_ok z zid st fl s → avail zid st fl s p o →
  ∃ st', upd_page p (set_page_zone (zone_idx z)) st = Ret (tt, st') ∧ frame z st st' ∧
    same_view z st st'.
Proof.
  intros Hst Hok Hav. pose proof Hav as ((Ho & _) & Hid & _). pose proof (pow2_order _ Ho).
  destruct (Hid p ltac:(lia)) as (_ & pg & Hpg & Hzp & Hb).
  destruct (zk_zone _ _ _ _ _ Hok) as (zn & Hz & _).
  eexists. split; [by apply upd_page_run|]. split.
  - apply frame_pages; [eauto|by apply dom_insert_lookup_L].
  - apply same_view_pages, (obs_insert _ _ pg); [done|].
    destruct (Hst pg Hzp) as [H1 H2]. unfold obs. by rewrite H1, H2, Hb, Hzp.
Qed.

(** C27: [alloc_pages] on the zone the request selects: it answers what the
    abstract allocator answers, the block it returns is outside the free
    lists, and the global [free_pages] that [si_meminfo] reports as
    [freeram] goes down by [2 ^ order].  Nothing ever adds to that counter:
    when the block is freed again the zone's own count recovers and
    [freeram] does not. *)
Theorem alloc_pages_freeram cpu ra fuel N st fl s zn order gfp_mask r fl' :
  first_zone gfp_mask = Some z → stamps_zone → memmap N st →
  zone_ok z zid st fl s → npages fl < 2 ^ 32 → order_ok order →
  type_ok (allocflags_to_migratetype gfp_mask) →
  allocflags_to_migratetype gfp_mask ≠ MIGRATE_RESERVE →
  zones st !! z = Some zn → free_lock cpu (zlock zn) → cpu ≠ NO_CPU →
  alloc_spec fl order (allocflags_to_migratetype gfp_mask) r fl' → (r = None → 0 < order) →
  ∃ st' s', alloc_pages cpu ra (S fuel) gfp_mask order st = Ret (r, st') ∧
    zone_ok z zid st' fl' s' ∧
    (∀ p, r = Some p → avail zid st' fl' s' p order) ∧
    free_pages_total st' =
      match r with Some _ => free_pages_total st -[32] 2 ^ order | None => free_pages_total st end ∧
    ∀ p fuel' mt st'', r = Some p → type_ok mt →
      free_one_page cpu ra (S fuel') z p p order mt st' = Ret (tt, st'') →
      (∃ zn'', zones st'' !! z = Some zn'' ∧ z_free_pages zn'' = z_free_pages zn) ∧
      ∃ info, si_meminfo st'' = Ret (info, st'') ∧
        freeram info = free_pages_total st -[32] 2 ^ order.
Proof.
  intros Hfz Hstamp Hmap Hok Hb Ho Hmt Hne Hz Hfl Hcpu Hspec Hr.
  set (mt := allocflags_to_migratetype gfp_mask) in *.
  destruct (locked_rmqueue_run z zid cpu ra fuel st fl s zn order gfp_mask mt r fl')
    as (st1 & s1 & zn1 & Hrun & Hok1 & Hav1 & _ & Hz1 & Hl1 & Hi1 & Hg1 & Hd1); [done..|].
  unfold alloc_pages. rewrite Hfz. fold mt. rewrite (bind_Ret _ _ _ _ _ Hrun).
  injection Hg1 as _ _ _ _ _ Htot _ _ _.
  destruct r as [p|].
  - specialize (Hav1 p eq_refl).
    set (st2 := with_free_total (free_pages_total st1 -[32] Z.shiftl 1 order) st1).
    assert (same_view z st1 st2) as V2 by (split_and!; eauto).
    destruct (stamp_ok st2 fl' s1 p order) as (st3 & H3 & F3 & V3);
      [done|by eapply zone_ok_view|by eapply avail_view|].
    pose proof (same_view_trans _ _ _ _ V2 V3) as V23.
    destruct (upd_neutral_ok z zid st3 s1 p (set_page_node (zone_to_nid z))) as (st4 & H4 & F4 & V4);
      [by eapply frame_zone_some| |apply set_page_node_neutral|].
    { eapply idle_view; [done|]. destruct Hav1 as ((Hoo & _) & Hid & _).
      apply Hid. pose proof (pow2_order _ Hoo). lia. }
    pose proof (same_view_trans _ _ _ _ V23 V4) as V. pose proof (frame_trans _ _ _ _ F3 F4) as F.
    assert (zone_ok z zid st4 fl' s1) as Hok4 by by eapply zone_ok_view.
    assert (avail zid st4 fl' s1 p order) as Hav4 by by eapply avail_view.
    assert (free_pages_total st4 = free_pages_total st -[32] 2 ^ order) as Ht4.
    { pose proof (globals_frame z _ _ F) as Hgf. injection Hgf as _ _ _ _ _ Ht _ _ _.
      rewrite Ht. unfold st2; simpl. by rewrite Htot, Z.shiftl_1_l. }
    exists st4, s1. split_and!; [|done|by intros ? [= <-]|done|].
    + erewrite (bind_Ret (modify _) _ st1 tt st2); [|done].
      rewrite (bind_Ret _ _ _ _ _ H3). by rewrite (bind_Ret _ _ _ _ _ H4).
    + intros p' fuel' mt' st'' [= <-] Hmt' Hfree.
      destruct (frame_zone_some z _ _ F) as (zn4 & Hz4).
      destruct (frame_zone _ _ _ _ F Hz4) as (zn1' & Hz1' & Hl4 & _).
      unfold st2 in Hz1'; simpl in Hz1'. rewrite Hz1 in Hz1'. injection Hz1' as <-.
      destruct (free_returned z zid cpu ra fuel' N st4 fl' s1 zn4 p order mt' st'')
        as (fl2 & s2 & zn2 & Hn2 & Hok2 & _ & Hz2 & _ & _ & Hg2 & _); try done.
      { eapply memmap_frame; [done|]. by apply (memmap_dom N st1 st2), (memmap_dom N st st1). }
      { rewrite Hl4, Hl1. by apply idle_free; [|eapply idle_released]. }
      split.
      * exists zn2. split; [done|].
        destruct (zk_zone _ _ _ _ _ Hok2) as (? & Hz2' & _ & _ & Hf2).
        rewrite Hz2 in Hz2'. injection Hz2' as <-.
        destruct (zk_zone _ _ _ _ _ Hok) as (? & Hz' & _ & _ & Hf). rewrite Hz in Hz'. injection Hz' as <-.
        destruct (alloc_pages_spent z zid fl s st order mt p fl') as (Hn' & _); [done..|].
        rewrite Hf2, Hf, Hn2, Hn'. f_equal. lia.
      * eexists. split; [done|]. simpl. injection Hg2 as _ _ _ _ _ Ht _ _ _. congruence.
  - exists st1, s1. split_and!; [done|done|done|done|]. by intros p fuel' mt' st'' [=].
Qed.
End callers.
