(* ===== verification/BuddyFree.v ===== *)
(** The public path of a release: [put_page_testzero], the checks, and the
    block's way to the zone ([__free_pages_ok]) or, for a single page, to the
    list of the CPU ([free_hot_cold_page]). *)
From stdpp Require Import base gmap list strings fin_maps.
From S2P Require Import Prelude CTypes ListHead ListTheory Spinlock Page Buddy BuddyTheory.
From S2P Require Import BuddySpec BuddyInit.

(** * What the release relies on of the page primitives *)

Section observed.
  Context `{PageLib}.
(** An update that neither the allocator's invariant nor the choice of a list
    sees. *)
Definition quiet (f : page → page) : Prop :=
  neutral f ∧ ∀ pg, get_freepage_migratetype (f pg) = get_freepage_migratetype pg.

Definition seen (pg : page) : (bool * Z * Z) * Z := (obs pg, get_freepage_migratetype pg).

(** Only descriptors changed, and nothing of them that is seen. *)
Definition kept (st st' : mm) : Prop :=
  ∃ P, st' = with_pages P st ∧ seen <$> P = seen <$> pages st.
End observed.

Class FreeLaws (P : PageLib) := {
  bad_page_quiet : quiet bad_page;
  cpupid_quiet : quiet page_cpupid_reset_last;
  prep_flags_quiet : quiet clear_prep_flags;
  unmap_quiet : quiet (with_mapping 0);
  testzero_quiet : quiet (λ pg, snd (put_page_testzero pg))
}.

Section free.
  Context `{PL : PageLib} {HL : PageLaws PL} {FL : FreeLaws PL}.

(** ** Quiet updates *)

Lemma kept_refl st : kept st st.
Proof. exists (pages st). split; [by destruct st|done]. Qed.

Lemma kept_trans st1 st2 st3 : kept st1 st2 → kept st2 st3 → kept st1 st3.
Proof. intros (P & -> & HP) (P' & -> & HP'). exists P'. split; [done|]. simpl in HP'. congruence. Qed.

Lemma kept_lookup st st' q pg : kept st st' → pages st !! q = Some pg →
  ∃ pg', pages st' !! q = Some pg' ∧ seen pg' = seen pg.
Proof.
  intros (P & -> & HP) Hq. simpl.
  assert ((seen <$> P) !! q = Some (seen pg)) as Ho by by rewrite HP, lookup_fmap, Hq.
  rewrite lookup_fmap in Ho. apply fmap_Some in Ho as (pg' & ? & ?). eauto.
Qed.

Lemma kept_view z st st' : kept st st' → same_view z st st'.
Proof.
  intros (P & -> & HP). apply same_view_pages.
  assert (∀ Q : gmap Z page, obs <$> Q = fst <$> (seen <$> Q)) as Hfst.
  { intros Q. by rewrite <-map_fmap_compose. }
  by rewrite !Hfst, HP.
Qed.

Definition no_buddy (st : mm) (p n : Z) : Prop :=
  ∀ q pg, in_block p n q → pages st !! q = Some pg → PageBuddy pg = false.

Lemma no_buddy_kept st st' p n : kept st st' → no_buddy st p n → no_buddy st' p n.
Proof.
  intros Hk Hn q pg' Hq Hpg'.
  assert (kept st' st) as Hk' by (destruct Hk as (P & -> & HP); exists (pages st); by destruct st).
  destruct (kept_lookup _ _ _ _ Hk' Hpg') as (pg & Hpg & [= Hb _ _ _]).
  rewrite <-Hb. by apply (Hn q).
Qed.

Lemma seen_quiet f pg : quiet f → PageBuddy pg = false → seen (f pg) = seen pg.
Proof. intros [Hf Ht] Hb. unfold seen. by rewrite obs_neutral, Ht by done. Qed.

Lemma upd_kept f q p n st u st' : quiet f → no_buddy st p n → in_block p n q →
  upd_page q f st = Ret (u, st') → kept st st'.
Proof.
  intros Hf Hn Hq. unfold upd_page. destruct (pages st !! q) as [pg|] eqn:Hpg; [|done].
  intros [= _ <-]. eexists. split; [done|]. rewrite fmap_insert, seen_quiet by (done || by apply (Hn q)).
  apply insert_id. by rewrite lookup_fmap, Hpg.
Qed.

(** The same for the updates one after the other, each on a page of the
    block. *)
Ltac kept_step :=
  match goal with
  | H : get_some _ ?s = Ret (_, ?s') |- _ => apply get_some_inv in H; subst s'
  | H : VM_BUG_ON _ ?s = Ret (_, ?s') |- _ => apply vm_bug_on_inv in H; subst s'
  | H : mret _ ?s = Ret (_, ?s') |- _ => injection H as _ ->
  end.

Lemma check_kept q p n st r st' : no_buddy st p n → in_block p n q →
  free_page_check q st = Ret (r, st') → kept st st'.
Proof.
  intros Hn Hq H. unfold free_page_check, page_at in H. minv H as (pg & s1 & H1 & H). kept_step.
  destruct (page_is_bad pg); minv H as (? & s2 & H2 & H).
  - kept_step. by eapply upd_kept; [apply bad_page_quiet|..].
  - assert (kept st s2) as K by by eapply upd_kept; [apply cpupid_quiet|..].
    minv H as (pg2 & s3 & H3 & H). kept_step. minv H as (? & s4 & H4 & H). kept_step.
    eapply kept_trans; [exact K|]. destruct (negb _); [|kept_step; apply kept_refl].
    eapply upd_kept; [apply prep_flags_quiet|by eapply no_buddy_kept|done..].
Qed.

Lemma check_loop_kept k : ∀ i p n bad st r st', no_buddy st p n →
  0 ≤ i → i + Z.of_nat k ≤ n → free_check_loop k p i bad st = Ret (r, st') → kept st st'.
Proof.
  induction k as [|k IH]; intros i p n bad st r st' Hn Hi Hle H; cbn [free_check_loop] in H.
  - kept_step. apply kept_refl.
  - assert (in_block p n (p + i)) as Hq by (unfold in_block; lia).
    minv H as (pg & s1 & H1 & H). unfold page_at in H1. kept_step.
    minv H as (? & s2 & H2 & H). minv H as (b & s3 & H3 & H).
    assert (kept st s2) as K2.
    { destruct (PageAnon pg); [|kept_step; apply kept_refl]. by eapply upd_kept; [apply unmap_quiet|..]. }
    assert (no_buddy s2 p n) as Hn2 by by eapply no_buddy_kept.
    assert (kept s2 s3) as K3 by by eapply check_kept.
    eapply kept_trans; [exact K2|]. eapply kept_trans; [exact K3|].
    eapply (IH (i + 1) p n); [by eapply no_buddy_kept|lia|lia|exact H].
Qed.

Lemma prepare_kept co p o st ok st' : 0 ≤ o → no_buddy st p (2 ^ o) →
  free_page_prepare co p o st = Ret (ok, st') → kept st st'.
Proof.
  intros Ho Hn H. assert (0 < 2 ^ o) by (apply Z.pow_pos_nonneg; lia).
  unfold free_page_prepare, page_at in H. minv H as (pg & s1 & H1 & H). kept_step.
  minv H as (? & s2 & H2 & H). kept_step. minv H as (? & s3 & H3 & H). kept_step.
  minv H as (bad & s4 & H4 & H).
  assert (kept st s4) as K4.
  { eapply (check_loop_kept (Z.to_nat (Z.shiftl 1 o)) 0 p (2 ^ o)); [done|lia|rewrite Z.shiftl_1_l; lia|exact H4]. }
  destruct (negb _); [kept_step; done|]. assert (in_block p (2 ^ o) p) as Hp by (unfold in_block; lia).
  minv H as (? & s5 & H5 & H). minv H as (? & s6 & H6 & H). kept_step.
  assert (no_buddy s4 p (2 ^ o)) as Hn4 by by eapply no_buddy_kept.
  assert (kept s4 s5) as K5 by by eapply upd_kept; [apply cpupid_quiet|..].
  assert (no_buddy s5 p (2 ^ o)) as Hn5 by by eapply no_buddy_kept.
  assert (kept s5 st') as K6 by by eapply upd_kept; [apply prep_flags_quiet|..].
  eapply kept_trans; [exact K4|]. by eapply kept_trans.
Qed.

(** ** The zone's part *)

(** No page of the block is one [free_page_check] refuses. *)
Definition fine (st : mm) (p o : Z) : Prop :=
  ∀ q pg, in_block p (2 ^ o) q → pages st !! q = Some pg → bad_before pg = false.

(** The [VM_BUG_ON]s of the path hold their peace on the block's head [pg]. *)
Definition vm_quiet (co : page → Z) (zn : zone_t) (pg : page) (o : Z) : Prop :=
  CONFIG_DEBUG_VM = false ∨
  (∀ l, zone_is_initialized (with_zlock l zn) = true) ∧
  PageTail pg = false ∧ (PageCompound pg = true → co pg = o).

Context (z zid : Z) (Hzone : ∀ pg, page_zone_id pg = zid → page_zone pg = z).
Context (Hmask : 0 ≤ PAGE_FLAGS_CHECK_AT_PREP < 2 ^ 32).

Lemma avail_no_buddy st fl s p o : avail zid st fl s p o → no_buddy st p (2 ^ o).
Proof.
  intros (_ & Hid & _) q pg Hq Hpg. destruct (Hid q Hq) as (_ & pg' & Hpg' & _ & Hb). congruence.
Qed.

Lemma prepare_cases co st fl s zn p o pg : avail zid st fl s p o → pages st !! p = Some pg →
  vm_quiet co zn pg o →
  ∃ ok st1, free_page_prepare co p o st = Ret (ok, st1) ∧ kept st st1 ∧
    (ok = true ↔ fine st p o) ∧ (ok = true → ∀ pg', pages st1 !! p = Some pg' → prep_clear pg').
Proof.
  intros Hav Hpg Hvm. pose proof Hav as ((Ho & _) & Hid & _).
  assert (0 < 2 ^ o) by (apply pow2_order; done).
  destruct (free_page_prepare_checks co st p o pg) as (ok & P & Hrun & Hok & _ & Hclear);
    [apply Ho|done| |done|destruct Hvm as [?|(_ & ?)]; [by left|by right]|].
  { intros q Hq. destruct (Hid q Hq) as (_ & pg' & Hpg' & _). eauto. }
  exists ok, (with_pages P st). split_and!; [done| |done|].
  - eapply prepare_kept; [apply Ho|by eapply avail_no_buddy|exact Hrun].
  - intros Hok' pg'. apply (Hclear Hok' p). unfold in_block. lia.
Qed.

(** The state in which the pages are handed on: interrupts off and the event
    counted. *)
Definition counted_off (n : Z) (st : mm) : mm :=
  with_events (__count_vm_events n (vm_events st)) (with_irq false st).

Lemma counted_off_view n st : same_view z st (counted_off n st).
Proof. split_and!; [done..|]. intros zn ?. by exists zn. Qed.

Lemma head_kept st st1 fl s p o pg : avail zid st fl s p o → kept st st1 → pages st !! p = Some pg →
  ∃ pg', pages st1 !! p = Some pg' ∧ page_zone pg' = z ∧
    get_freepage_migratetype pg' = get_freepage_migratetype pg.
Proof.
  intros ((Ho & _) & Hid & _) Hk Hpg. pose proof (pow2_order _ Ho).
  destruct (Hid p ltac:(lia)) as (_ & pg0 & Hpg0 & Hz & _).
  destruct (kept_lookup _ _ _ _ Hk Hpg) as (pg' & Hpg' & [= _ Hz' _ Ht]).
  exists pg'. split_and!; [done| |done]. apply Hzone. congruence.
Qed.

(** [__free_pages_ok] on a block the checks accept is [free_one_page] with
    interrupts off. *)
Lemma pages_ok_run co cpu ra fuel st fl s zn p o pg : avail zid st fl s p o →
  pages st !! p = Some pg → vm_quiet co zn pg o → fine st p o →
  ∃ st1, kept st st1 ∧ (∀ pg', pages st1 !! p = Some pg' → prep_clear pg') ∧
    __free_pages_ok cpu ra fuel co p o st =
      (free_one_page cpu ra fuel z p p o (get_freepage_migratetype pg);;
       irq_restore (irq_on st)) (counted_off (2 ^ o) st1).
Proof.
  intros Hav Hpg Hvm Hfine. pose proof Hav as ((Ho & Hp0 & Hp1 & _) & _). pose proof (pow2_order _ Ho).
  destruct (prepare_cases co st fl s zn p o pg Hav Hpg Hvm) as (ok & st1 & Hrun & Hk & Hok & Hclear).
  assert (ok = true) as -> by by apply Hok.
  exists st1. split_and!; [done|by apply Hclear|].
  destruct (head_kept st st1 fl s p o pg Hav Hk Hpg) as (pg' & Hpg' & Hz & Ht).
  unfold __free_pages_ok, page_at. mstep with Hrun. cbn [negb].
  mstep with (get_some_run (λ s, pages s !! p) st1 _ Hpg').
  assert (irq_on st1 = irq_on st) as <- by by destruct Hk as (P & -> & _).
  assert (irq_save st1 = Ret (irq_on st1, with_irq false st1)) as Hs by done. mstep with Hs.
  assert (modify (λ s, with_events (__count_vm_events (Z.shiftl 1 o) (vm_events s)) s)
    (with_irq false st1) = Ret (tt, counted_off (2 ^ o) st1)) as Hm.
  { unfold modify, counted_off. simpl. by rewrite Z.shiftl_1_l. }
  mstep with Hm. mstep with (get_some_run (λ s, pages s !! p) (counted_off (2 ^ o) st1) _ Hpg').
  by rewrite Hz, Ht, (wrap_small 32 p) by lia.
Qed.

(** ** The CPU's part *)

(** Moving an available page's node onto a list that is none of the zone's
    free lists leaves the zone as it was. *)
Lemma zone_ok_park st fl s p hd l h' :
  zone_ok z zid st fl s → avail zid st fl s p 0 → (∀ o mt, hd ≠ FreeHead z o mt) →
  rep h' (AStore (<[hd := PageLru p :: l]> (lists s)) (detached s ∖ {[PageLru p]})) →
  zone_ok z zid (with_links h' st) fl
    (AStore (<[hd := PageLru p :: l]> (lists s)) (detached s ∖ {[PageLru p]})).
Proof.
  intros [Hr Hz Hd Hl Hb Hbd Hdj] (_ & _ & Hap) Hne Hr'. split; simpl; try done.
  - intros o mt m Hm. rewrite lookup_insert_ne by done. by apply Hl.
  - intros q o mt Hq. destruct (Hb q o mt Hq) as (Hs & Hh & Hi). split_and!; [done|done|].
    intros x Hx. destruct (Hi x Hx) as (Hdx & Hpx). split; [|done]. simpl.
    apply elem_of_difference. split; [done|]. intros [= ->]%elem_of_singleton.
    specialize (Hap q o mt Hq). rewrite Z.pow_0_r in Hap. lia.
Qed.

Context `{PCP : PcpLib}.

(** What happens when the CPU's list has grown to its high mark. *)
Definition drained (cpu : Z) (pcp : per_cpu_pages) (irq : bool) : M mm unit :=
  free_pcppages_bulk z (wrap 32 (pcp_batch pcp)) cpu;;
  upd_pcp z cpu (λ p, Pcp (swrap 32 (pcp_count p - wrap 32 (pcp_batch pcp))) (pcp_high p) (pcp_batch p));;
  irq_restore irq.

Lemma hot_page_run co cpu st fl s zn p pg l pcp :
  let mt := get_freepage_migratetype pg in
  let pcp' := Pcp (swrap 32 (pcp_count pcp + 1)) (pcp_high pcp) (pcp_batch pcp) in
  zone_ok z zid st fl s → avail zid st fl s p 0 → pages st !! p = Some pg →
  vm_quiet co zn pg 0 → fine st p 0 → lists s !! PcpHead z cpu mt = Some l →
  pcps st !! (z, cpu) = Some pcp →
  ∃ st1 s1, zone_ok z zid st1 fl s1 ∧
    s1 = AStore (<[PcpHead z cpu mt := PageLru p :: l]> (lists s)) (detached s ∖ {[PageLru p]}) ∧
    zones st1 = zones st ∧ pcps st1 = <[(z, cpu) := pcp']> (pcps st) ∧
    vm_events st1 = __count_vm_events 1 (vm_events st) ∧ irq_on st1 = false ∧
    free_hot_cold_page cpu co p false st =
      if pcp_high pcp' <=? pcp_count pcp' then drained cpu pcp' (irq_on st) st1
      else Ret (tt, with_irq (irq_on st) st1).
Proof.
  intros mt pcp' Hok Hav Hpg Hvm Hfine Hl Hpcp.
  destruct (prepare_cases co st fl s zn p 0 pg Hav Hpg Hvm) as (ok & st1 & Hrun & Hk & Hpre & _).
  assert (ok = true) as -> by by apply Hpre.
  destruct (head_kept st st1 fl s p 0 pg Hav Hk Hpg) as (pg1 & Hpg1 & _ & Ht).
  destruct (head_kept st st fl s p 0 pg Hav (kept_refl st) Hpg) as (pg0 & Hpg0 & Hz0 & _).
  rewrite Hpg in Hpg0. injection Hpg0 as <-.
  assert (same_view z st (counted_off 1 st1)) as Hv.
  { eapply same_view_trans; [by apply kept_view|apply counted_off_view]. }
  pose proof (zone_ok_view _ _ _ _ _ _ Hv Hok) as Hok1.
  pose proof (avail_view _ _ _ _ _ _ _ _ Hv Hav) as Hav1.
  assert (PageLru p ∈ detached s) as Hdet.
  { destruct Hav as (_ & Hid & _). apply (Hid p). simpl. lia. }
  destruct (on_links_run (list_add (Ptr (PageLru p)) (Ptr (PcpHead z cpu mt))) (counted_off 1 st1) s tt _
    (runs_list_add s (PcpHead z cpu mt) l (PageLru p) Hl Hdet) (zk_rep _ _ _ _ _ Hok1)) as (h' & Hadd & Hr').
  destruct Hk as (P & -> & HP). simpl in Hpg1.
  set (st2 := with_pcps (<[(z, cpu) := pcp']> (pcps st)) (with_links h' (counted_off 1 (with_pages P st)))).
  exists st2, (AStore (<[PcpHead z cpu mt := PageLru p :: l]> (lists s)) (detached s ∖ {[PageLru p]})).
  split_and!; try done.
  { eapply zone_ok_view; [|by apply (zone_ok_park (counted_off 1 (with_pages P st)) fl s p (PcpHead z cpu mt) l h')].
    split_and!; [done..|]. intros zn' ?. by exists zn'. }
  unfold free_hot_cold_page, page_at. mstep with (get_some_run (λ s, pages s !! p) st _ Hpg).
  mstep with Hrun. cbn [negb]. rewrite Hz0.
  mstep with (get_some_run (λ s, pages s !! p) (with_pages P st) _ Hpg1). rewrite Ht.
  assert (irq_save (with_pages P st) = Ret (irq_on st, with_irq false (with_pages P st))) as Hs by done.
  mstep with Hs.
  assert (modify (λ s, with_events (__count_vm_events 1 (vm_events s)) s) (with_irq false (with_pages P st)) =
    Ret (tt, counted_off 1 (with_pages P st))) as Hm by done. mstep with Hm.
  mstep with Hadd.
  assert (upd_pcp z cpu (λ p, Pcp (swrap 32 (pcp_count p + 1)) (pcp_high p) (pcp_batch p))
    (with_links h' (counted_off 1 (with_pages P st))) = Ret (tt, st2)) as Hup.
  { unfold upd_pcp. simpl. by rewrite Hpcp. }
  mstep with Hup.
  assert (pcps st2 !! (z, cpu) = Some pcp') as Hp2 by apply lookup_insert_eq.
  mstep with (get_some_run (λ s, pcps s !! (z, cpu)) st2 _ Hp2).
  destruct (pcp_high pcp' <=? pcp_count pcp'); [|done]. unfold drained. by rewrite bind_assoc.
Qed.

(** ** The public function *)

(** What became of a block given to [__free_pages] when its last reference is
    gone and the checks accept it: a single page is first on the CPU's list of
    its type, a larger block is merged into the free lists, or the merge runs
    into a lower buddy and faults. *)
Definition handed_back (cpu N p o mt : Z) (st : mm) (fl : flists) (s : ghost) (zn : zone_t)
    (r : outcome (unit * mm)) : Prop :=
  if o =? 0 then
    ∀ l pcp, lists s !! PcpHead z cpu mt = Some l → pcps st !! (z, cpu) = Some pcp →
      let pcp' := Pcp (swrap 32 (pcp_count pcp + 1)) (pcp_high pcp) (pcp_batch pcp) in
      ∃ st1 s1, zone_ok z zid st1 fl s1 ∧
        lists s1 !! PcpHead z cpu mt = Some (PageLru p :: l) ∧ (PageLru p ∉ detached s1) ∧
        pcps st1 = <[(z, cpu) := pcp']> (pcps st) ∧ zones st1 = zones st ∧ irq_on st1 = false ∧
        r = (if pcp_high pcp' <=? pcp_count pcp' then drained cpu pcp' (irq_on st) st1
             else Ret (tt, with_irq (irq_on st) st1))
  else
    match fl_merge merge_fuel p o mt fl with
    | Some fl' => ∃ st' s' zn', r = Ret (tt, st') ∧ zone_ok z zid st' fl' s' ∧ memmap N st' ∧
        npages fl' = npages fl + 2 ^ o ∧
        (∀ q k, avail zid st fl s q k → q + 2 ^ k ≤ p ∨ p + 2 ^ o ≤ q → avail zid st' fl' s' q k) ∧
        zones st' !! z = Some zn' ∧ zlock zn' = released (zlock zn) ∧
        irq_on st' = irq_on st ∧ pcps st' = pcps st ∧ free_pages_total st' = free_pages_total st
    | None => r = Fault
    end.

(** Dropping a reference changes the head's descriptor, unseen. *)
Lemma testzero_kept st fl s p o pg pg' zero : avail zid st fl s p o → pages st !! p = Some pg →
  put_page_testzero pg = (zero, pg') → kept st (with_pages (<[p := pg']> (pages st)) st).
Proof.
  intros Hav Hpg Ht. assert (quiet (λ pg, snd (put_page_testzero pg))) as Hq by apply testzero_quiet.
  eapply (upd_kept (λ pg, snd (put_page_testzero pg)) p p (2 ^ o) st tt); [done|by eapply avail_no_buddy| |].
  - destruct Hav as ((Ho & _) & _). pose proof (pow2_order _ Ho). unfold in_block. lia.
  - unfold upd_page. by rewrite Hpg, Ht.
Qed.

Lemma handed_back_run co cpu ra fuel N st fl s zn p o pg :
  let mt := get_freepage_migratetype pg in
  zone_ok z zid st fl s → avail zid st fl s p o → memmap N st →
  zones st !! z = Some zn → free_lock cpu (zlock zn) → type_ok mt →
  pages st !! p = Some pg → vm_quiet co zn pg o → fine st p o →
  handed_back cpu N p o mt st fl s zn
    ((if o =? 0 then free_hot_cold_page cpu co p false else __free_pages_ok cpu ra (S fuel) co p o) st).
Proof.
  intros mt Hok Hav Hmap Hz Hlk Hmt Hpg Hvm Hfine. unfold handed_back.
  destruct (Z.eqb_spec o 0) as [->|Hne].
  - intros l pcp Hl Hpcp.
    destruct (hot_page_run co cpu st fl s zn p pg l pcp Hok Hav Hpg Hvm Hfine Hl Hpcp)
      as (st1 & s1 & Hok1 & -> & Hz1 & Hp1 & _ & Hi1 & Hrun).
    exists st1, (AStore (<[PcpHead z cpu mt := PageLru p :: l]> (lists s)) (detached s ∖ {[PageLru p]})).
    split_and!; try done; simpl; [apply lookup_insert_eq|set_solver].
  - destruct (pages_ok_run co cpu ra (S fuel) st fl s zn p o pg Hav Hpg Hvm Hfine)
      as (st1 & Hk & Hclear & Hrun). rewrite Hrun. clear Hrun. set (st2 := counted_off (2 ^ o) st1).
    assert (same_view z st st2) as Hv.
    { eapply same_view_trans; [by apply kept_view|apply counted_off_view]. }
    pose proof Hk as (P & HP & Hseen).
    assert (memmap N st2) as Hmap2.
    { apply (memmap_dom N st); [|done]. unfold st2. rewrite HP. simpl.
      by rewrite <-(dom_fmap_L seen P), Hseen, dom_fmap_L. }
    assert (zones st2 !! z = Some zn) as Hz2 by by (unfold st2; rewrite HP).
    pose proof (free_one_page_refines z zid cpu ra fuel N st2 fl s zn p o mt
      (zone_ok_view _ _ _ _ _ _ Hv Hok) (avail_view _ _ _ _ _ _ _ _ Hv Hav) Hmap2 Hmt Hz2 Hlk) as Hfree.
    assert (no_bug st2 zn p) as Hnb.
    { destruct Hvm as [?|(Hi & _)]; [by left|right]. split; [done|]. intros pg' Hpg'. by apply Hclear. }
    specialize (Hfree Hnb).
    destruct (fl_merge _ p o mt fl) as [fl'|]; [|by apply bind_Fault].
    destruct Hfree as (Hn & st3 & s3 & zn3 & Hrun & Hok3 & Hkeep & Hz3 & Hl3 & Hi3 & Hg3 & Hd3).
    exists (with_irq (irq_on st) st3), s3, zn3. injection Hg3 as _ Hpc _ _ _ Hft _ _ _.
    split_and!; try done.
    + by mstep with Hrun.
    + eapply zone_ok_view; [|exact Hok3]. split_and!; [done..|]. intros zn' ?. by exists zn'.
    + by apply (memmap_dom N st2).
    + intros q k Hq Hqp. eapply (avail_view z); [|apply Hkeep; [by eapply avail_view|done]].
      split_and!; [done..|]. intros zn' ?. by exists zn'.
    + simpl. rewrite Hpc. unfold st2. by rewrite HP.
    + simpl. rewrite Hft. unfold st2. by rewrite HP.
Qed.

(** C9: [__free_pages] on a block in use.  While references remain only the
    count of the head changes.  When the last one goes, a block with a page the
    checks refuse is kept out of the free lists for good; otherwise a larger
    block is merged into the free lists of its type as the specification says
    and a single page becomes the first of the CPU's list, with the zone's
    free lists as they were, and the CPU's list is drained at its high mark.
    The interrupt flag and the zone's lock are as before. *)
Theorem free_pages_releases co cpu ra fuel N st fl s zn p o pg pg' zero :
  zone_ok z zid st fl s → avail zid st fl s p o → memmap N st →
  zones st !! z = Some zn → free_lock cpu (zlock zn) → pages st !! p = Some pg →
  type_ok (get_freepage_migratetype pg) → put_page_testzero pg = (zero, pg') → vm_quiet co zn pg' o →
  let st0 := with_pages (<[p := pg']> (pages st)) st in
  let r := __free_pages cpu ra (S fuel) co p o st in
  (zero = false → r = Ret (tt, st0) ∧ zone_ok z zid st0 fl s ∧ avail zid st0 fl s p o) ∧
  (zero = true → ¬ fine st0 p o →
     ∃ st', r = Ret (tt, st') ∧ kept st st' ∧ zone_ok z zid st' fl s ∧ avail zid st' fl s p o) ∧
  (zero = true → fine st0 p o →
     handed_back cpu N p o (get_freepage_migratetype pg) st0 fl s zn r).
Proof.
  intros Hok Hav Hmap Hz Hlk Hpg Hmt Ht Hvm st0 r.
  pose proof (testzero_kept st fl s p o pg pg' zero Hav Hpg Ht) as Hk0. fold st0 in Hk0.
  pose proof (kept_view z _ _ Hk0) as Hv0.
  pose proof (zone_ok_view _ _ _ _ _ _ Hv0 Hok) as Hok0.
  pose proof (avail_view _ _ _ _ _ _ _ _ Hv0 Hav) as Hav0.
  assert (pages st0 !! p = Some pg') as Hpg' by apply lookup_insert_eq.
  assert (r = (if zero then if o =? 0 then free_hot_cold_page cpu co p false
      else __free_pages_ok cpu ra (S fuel) co p o else mret tt) st0) as Hr.
  { unfold r, __free_pages, page_at. mstep with (get_some_run (λ s, pages s !! p) st _ Hpg). rewrite Ht.
    mstep with (upd_page_run st p (λ _, pg') pg Hpg). done. }
  rewrite Hr. clear Hr r. split_and!.
  - intros ->. done.
  - intros -> Hbad.
    destruct (prepare_cases co st0 fl s zn p o pg' Hav0 Hpg' Hvm) as (ok & st1 & Hrun & Hk1 & Hpre & _).
    assert (ok = false) as -> by (destruct ok; [by destruct Hbad; apply Hpre|done]).
    exists st1. split_and!; [|by eapply kept_trans| |].
    + destruct (Z.eqb_spec o 0) as [->|].
      * unfold free_hot_cold_page, page_at. mstep with (get_some_run (λ s, pages s !! p) st0 _ Hpg').
        by mstep with Hrun.
      * unfold __free_pages_ok. by mstep with Hrun.
    + eapply zone_ok_view; [by apply kept_view|done].
    + eapply (avail_view z); [by apply kept_view|done].
  - intros -> Hfine.
    assert (get_freepage_migratetype pg = get_freepage_migratetype pg') as ->.
    { destruct (testzero_quiet (P := PL)) as [_ Hq]. specialize (Hq pg). rewrite Ht in Hq. done. }
    apply (handed_back_run co cpu ra fuel N); try done.
    + by apply (memmap_dom N st); [simpl; apply dom_insert_lookup_L|].
    + destruct (testzero_quiet (P := PL)) as [_ Hq]. specialize (Hq pg). rewrite Ht in Hq. simpl in Hq.
      by rewrite Hq.
Qed.
End free.
