(* ===== verification/BuddyWitness.v ===== *)
(** A concrete machine for the buddy allocator's theorems: page primitives in
    the style of the Linux ones, one zone of 1024 pages brought up by
    [init_zone], and the same zone after its only block of order 10 has been
    added.  Each theorem of [BuddySpec], [BuddyInit] and [BuddyFree] is applied
    here. *)
From stdpp Require Import base gmap list strings fin_maps.
From S2P Require Import Prelude CTypes ListHead ListTheory Spinlock Page Buddy BuddyTheory.
From S2P Require Import BuddySpec BuddyInit BuddyFree.

(** * Page primitives *)

Definition with_private (v : Z) (p : page) : page :=
  Page (flags p) (mapping p) (index p) v (_mapcount p) (_refcount p) (virtual p)
    (waiters p) (pg_zone p) (pgdat p).
Definition with_index (v : Z) (p : page) : page :=
  Page (flags p) (mapping p) v (private p) (_mapcount p) (_refcount p) (virtual p)
    (waiters p) (pg_zone p) (pgdat p).
Definition with_mapcount (v : Z) (p : page) : page :=
  Page (flags p) (mapping p) (index p) (private p) v (_refcount p) (virtual p)
    (waiters p) (pg_zone p) (pgdat p).
Definition with_refcount (v : Z) (p : page) : page :=
  Page (flags p) (mapping p) (index p) (private p) (_mapcount p) v (virtual p)
    (waiters p) (pg_zone p) (pgdat p).
Definition with_waiters (v : Z) (p : page) : page :=
  Page (flags p) (mapping p) (index p) (private p) (_mapcount p) (_refcount p) (virtual p)
    v (pg_zone p) (pgdat p).
Definition with_pg_zone (v : Z) (p : page) : page :=
  Page (flags p) (mapping p) (index p) (private p) (_mapcount p) (_refcount p) (virtual p)
    (waiters p) v (pgdat p).
Definition with_pgdat (v : Z) (p : page) : page :=
  Page (flags p) (mapping p) (index p) (private p) (_mapcount p) (_refcount p) (virtual p)
    (waiters p) (pg_zone p) v.

#[export] Instance linux_pages : PageLib := {|
  PageBuddy p := _mapcount p =? -128;
  __SetPageBuddy := with_mapcount (-128);
  __ClearPageBuddy := with_mapcount (-1);
  set_page_private := with_private;
  page_order := private;
  set_page_order o p := with_mapcount (-128) (with_private o p);
  page_zone_id := pg_zone;
  __SetPageGuard p := p;
  __ClearPageGuard p := p;
  get_freepage_migratetype := index;
  set_freepage_migratetype := with_index;
  page_bits := z_bits;
  PageAnon p := Z.odd (mapping p);
  page_mapcount p := if _mapcount p <? 0 then 0 else _mapcount p + 1;
  page_ref_count := _refcount;
  set_page_count := with_refcount;
  put_page_testzero p := (_refcount p =? 1, with_refcount (_refcount p - 1) p);
  page_zone := pg_zone;
  set_page_zone := with_pg_zone;
  set_page_node := with_pgdat;
  clear_page p := p;
  init_page_waiters := with_waiters 0;
  page_cpupid_reset_last p := p;
  bad_page p := p;
  PAGE_FLAGS_CHECK_AT_PREP := 0x7ffffff;
  PAGE_FLAGS_CHECK_AT_FREE := 0x2cb1;
  pfn_valid_within _ := true;
  DEBUG_GUARDPAGE_MINORDER := 11;
  pageblock_order := 9;
  pageblock_nr_pages := 512;
  NR_FREE_PAGES := 0;
  __mod_zone_page_state item d l := alter (Z.add d) (Z.to_nat item) l;
  __count_vm_events := Z.add;
  zone_end_pfn zn := zone_start_pfn zn + spanned_pages zn;
  CONFIG_DEBUG_VM := true;
  zone_is_initialized _ := true;
  allocflags_to_migratetype g :=
    if gfp_has g __GFP_MOVABLE then MIGRATE_MOVABLE
    else if gfp_has g __GFP_RECLAIMABLE then MIGRATE_RECLAIMABLE else MIGRATE_UNMOVABLE;
  first_zone _ := Some 0;
  zone_idx z := z;
  zone_to_nid _ := 0;
  virt_addr_valid _ := true;
  virt_to_page a := a / 4096;
  page_address p := p * 4096
|}.

#[export] Instance linux_pages_laws : PageLaws linux_pages.
Proof. split; try done; intros; by split. Qed.

(** * One zone *)

Definition bare_page : page := Page 0 0 0 0 (-1) 0 0 0 0 0.
Definition zone_nodes : list node :=
  ((λ k, FreeHead 0 (fst k) (snd k)) <$> orders_and_types) ++ (LruHead 0 <$> seqZ 0 NR_LRU_LISTS)
  ++ (PageLru <$> seqZ 0 1024).
Definition raw_links : gmap node (list_head node) :=
  list_to_map ((λ x, (x, ListNode Null Null)) <$> zone_nodes).
Definition raw_pages : gmap Z page := list_to_map ((λ q, (q, bare_page)) <$> seqZ 0 1024).

Lemma raw_node x : x ∈ zone_nodes → x ∈ dom raw_links.
Proof. intros Hx. apply elem_of_dom. unfold raw_links. by apply const_map_is_Some. Qed.

Lemma raw_free_head o mt : order_ok o → type_ok mt → FreeHead 0 o mt ∈ dom raw_links.
Proof.
  intros Ho Hmt. apply raw_node. unfold zone_nodes. apply elem_of_app; left.
  apply list_elem_of_fmap. exists (o, mt). split; [done|]. by apply elem_orders_and_types.
Qed.

Lemma raw_lru_head k : 0 ≤ k < NR_LRU_LISTS → LruHead 0 k ∈ dom raw_links.
Proof.
  intros Hk. apply raw_node. unfold zone_nodes. apply elem_of_app; right. apply elem_of_app; left.
  apply list_elem_of_fmap_2, elem_of_seqZ. lia.
Qed.

Lemma raw_page_node q : 0 ≤ q < 1024 → PageLru q ∈ dom raw_links.
Proof.
  intros Hq. apply raw_node. unfold zone_nodes. apply elem_of_app; right. apply elem_of_app; right.
  apply list_elem_of_fmap_2, elem_of_seqZ. lia.
Qed.

Lemma raw_page_at q : 0 ≤ q < 1024 → raw_pages !! q = Some bare_page.
Proof. intros Hq. apply lookup_const_map_elem, elem_of_seqZ. lia. Qed.

Lemma raw_page_inv q pg : raw_pages !! q = Some pg → pg = bare_page.
Proof. apply lookup_const_map. Qed.

Lemma raw_page_dom q : is_Some (raw_pages !! q) ↔ 0 ≤ q < 1024.
Proof. unfold raw_pages. rewrite const_map_is_Some, elem_of_seqZ. lia. Qed.

#[local] Opaque raw_links raw_pages.

Definition raw_zone : zone_t :=
  Zone [] fresh_spinlock 0 [] 0 fresh_spinlock 0 (0, 0) 0 0 0 0 0 [0] 0 0 0 0 0 0 0.
Definition raw : mm :=
  MM raw_pages raw_links {[0 := raw_zone]} ∅ (replicate 4 None) 0 1024 1024 0 fresh_spinlock 0 true.

(** After [init_zone], and after the zone's 1024 pages were added. *)
Definition boot : mm :=
  match init_zone 0 7 1 (Some 0) 0 1024 raw with Ret (_, st) => st | _ => raw end.
Definition filled : mm :=
  match __add_page_to_free_list 0 0 10 0 boot with Ret (_, st) => st | _ => raw end.
Definition fl_filled : gmap (Z * Z) (list Z) := fl_add 0 10 0 empty_fl.

Lemma raw_idle q : 0 ≤ q < 1024 → idle_page 0 raw (AStore ∅ (dom raw_links)) q.
Proof.
  intros Hq. split; [by apply raw_page_node|].
  exists bare_page. split; [by apply raw_page_at|by split].
Qed.

Lemma raw_not_buddy p pg : pages raw !! p = Some pg → page_zone_id pg = 0 → PageBuddy pg = false.
Proof. by intros ->%raw_page_inv _. Qed.

Lemma fresh_free_lock : free_lock 0 fresh_spinlock.
Proof. by split_and!. Qed.

Lemma boot_facts :
  ∃ s zn, zone_ok 0 0 boot empty_fl s ∧
    (∀ p o, block_shape p o → p + 2 ^ o ≤ 1024 → avail 0 boot empty_fl s p o) ∧
    zones boot !! 0 = Some zn ∧ idle_lock (zlock zn) ∧ pages boot = raw_pages.
Proof.
  destruct (init_zone_ok 0 7 0 raw (AStore ∅ (dom raw_links)) 0 0 raw_zone 0 1024)
    as (st & s & zn & Hrun & Hok & Hav & Hz & Hl & _ & _ & _ & _ & _ & _ & _ & Hp & _).
  - apply rep_fresh.
  - by apply lookup_singleton_Some.
  - apply fresh_free_lock.
  - apply raw_free_head.
  - apply raw_lru_head.
  - apply raw_not_buddy.
  - assert (boot = st) as -> by (unfold boot; by rewrite Hrun). exists s, zn.
    split_and!; [exact Hok| |exact Hz|exact Hl|exact Hp].
    intros p o Hsh Hle. apply Hav; [exact Hsh|]. intros q Hq. apply raw_idle.
    destruct Hsh as (_ & ? & _). lia.
Qed.

#[local] Opaque boot.

Lemma shape_whole : block_shape 0 10.
Proof. split_and!; [by split|done|by vm_compute|by exists 0]. Qed.

Lemma filled_facts :
  ∃ s zn, zone_ok 0 0 filled fl_filled s ∧ zones filled !! 0 = Some zn ∧ idle_lock (zlock zn) ∧
    memmap 1024 filled.
Proof.
  destruct boot_facts as (s & zn & Hok & Hav & Hz & Hl & Hp).
  destruct (add_ok 0 0 boot empty_fl s 0 10 0 Hok) as (st & s' & Hrun & Hf & Hok' & _);
    [apply Hav; [apply shape_whole|by vm_compute]|by split|].
  assert (filled = st) as -> by (unfold filled; by rewrite Hrun).
  destruct (frame_zone_some 0 _ _ Hf) as (zn' & Hz').
  destruct (frame_zone _ _ _ _ Hf Hz') as (zn0 & Hz0 & Hlk & _).
  rewrite Hz in Hz0. injection Hz0 as <-.
  exists s', zn'. split_and!; [done..|by rewrite Hlk|].
  apply (memmap_frame 0 1024 boot); [done|]. split_and!; [by exists 1|by vm_compute|].
  intros q. rewrite Hp. apply raw_page_dom.
Qed.

#[local] Opaque filled.

Lemma fl_filled_whole mt : mt = 0 → fblocks fl_filled 10 mt = [0].
Proof. intros ->. by vm_compute. Qed.

Lemma fl_filled_below o : 0 ≤ o < 10 → fblocks fl_filled o 0 = [].
Proof.
  intros Ho. unfold fl_filled, fl_add. rewrite fblocks_alter by (by apply empty_fl_is_Some).
  case_decide as Heq; [injection Heq; lia|]. apply fblocks_empty.
Qed.

Lemma alloc_filled : alloc_spec fl_filled 0 0 (Some 0) (fl_take 0 10 0 0 0 fl_filled).
Proof.
  apply (spec_own fl_filled 0 0 10 0 []); [by split|apply fl_filled_below|by apply fl_filled_whole].
Qed.

Lemma npages_filled : npages fl_filled < 2 ^ 32.
Proof. by vm_compute. Qed.

(** * The theorems at work *)

Lemma rmqueue_refines_witness :
  ∃ st' s', rmqueue 0 7 1 0 0 GFP_KERNEL 0 filled = Ret (Some 0, st') ∧
    zone_ok 0 0 st' (fl_take 0 10 0 0 0 fl_filled) s' ∧
    avail 0 st' (fl_take 0 10 0 0 0 fl_filled) s' 0 0 ∧ irq_on st' = irq_on filled.
Proof.
  destruct filled_facts as (s & zn & Hok & Hz & Hl & Hmap).
  destruct (rmqueue_refines 0 0 0 7 0 filled fl_filled s zn 0 GFP_KERNEL 0 (Some 0)
    (fl_take 0 10 0 0 0 fl_filled)) as (st' & s' & zn' & Hrun & Hok' & Hav & _ & _ & _ & Hi & _);
    [exact Hok|exact npages_filled|by split|by split|by vm_compute|exact Hz|by apply idle_free
    |exact alloc_filled|done|].
  exists st', s'. split_and!; [exact Hrun|exact Hok'|by apply Hav|exact Hi].
Defined.

Lemma fallback_order0_faults_witness : rmqueue 0 7 1 0 0 GFP_KERNEL 0 boot = Fault.
Proof.
  destruct boot_facts as (s & zn & Hok & _ & Hz & Hl & _).
  apply (fallback_order0_faults 0 0 0 7 0 boot empty_fl s zn GFP_KERNEL 0 empty_fl);
    [exact Hok|by rewrite npages_empty|by split|by vm_compute|exact Hz|by apply idle_free|].
  apply spec_fail; intros o Ho; [apply fblocks_empty|].
  change (fallback_type empty_fl o [2; 1; 6; 0] = None).
  apply fallback_type_empty; [intros mt _; apply fblocks_empty|reflexivity].
Defined.

Lemma shape_lower : block_shape 0 9.
Proof. split_and!; [by split|done|by vm_compute|by exists 0]. Qed.
Lemma shape_upper : block_shape 512 9.
Proof. split_and!; [by split|done|by vm_compute|by exists 1]. Qed.
Lemma type_0 : type_ok 0.
Proof. by split. Qed.
Lemma cpu_0 : 0 ≠ NO_CPU.
Proof. by vm_compute. Qed.
Lemma merge_lower : fl_merge merge_fuel 0 9 0 empty_fl = Some (fl_add 0 9 0 empty_fl).
Proof. by vm_compute. Qed.
Lemma merge_upper : fl_merge merge_fuel 512 9 0 empty_fl = None.
Proof. by vm_compute. Qed.

(** Both outcomes of a release: the lower half of the zone goes back, the
    upper half faults on its lower buddy. *)
Lemma free_one_page_refines_witness :
  (∃ st', free_one_page 0 7 1 0 0 0 9 0 boot = Ret (tt, st')) ∧
  free_one_page 0 7 1 0 512 512 9 0 boot = Fault.
Proof.
  destruct boot_facts as (s & zn & Hok & Hav & Hz & Hl & Hp).
  assert (memmap 1024 boot) as Hmap.
  { split_and!; [by exists 1|by vm_compute|]. intros q. rewrite Hp. apply raw_page_dom. }
  assert (∀ p, 0 ≤ p < 1024 → no_bug boot zn p) as Hnb.
  { intros p Hpp. right. split; [intros l; reflexivity|]. rewrite Hp. intros pg ->%raw_page_inv. reflexivity. }
  pose proof (idle_free 0 _ cpu_0 Hl) as Hfl.
  split.
  - pose proof (free_one_page_refines 0 0 0 7 0 1024 boot empty_fl s zn 0 9 0 Hok
      (Hav 0 9 shape_lower ltac:(by vm_compute)) Hmap type_0 Hz Hfl (Hnb 0 ltac:(lia))) as Hfree.
    rewrite merge_lower in Hfree. destruct Hfree as (_ & st' & _ & _ & Hrun & _).
    exists st'. exact Hrun.
  - pose proof (free_one_page_refines 0 0 0 7 0 1024 boot empty_fl s zn 512 9 0 Hok
      (Hav 512 9 shape_upper ltac:(by vm_compute)) Hmap type_0 Hz Hfl (Hnb 512 ltac:(lia))) as Hfree.
    rewrite merge_upper in Hfree. exact Hfree.
Defined.

(** The first page of the block still passes the flag check after the split. *)
Lemma split_flags st1 pg : __rmqueue_smallest 0 3 0 filled = Ret (Some 0, st1) → pages st1 !! 0 = Some pg →
  Z.land (Page.flags pg) PAGE_FLAGS_CHECK_AT_PREP = 0.
Proof.
  intros Hrun Hp. enough ((match __rmqueue_smallest 0 3 0 filled with
    | Ret (_, st) => match pages st !! 0 with
                     | Some pg => Z.land (Page.flags pg) PAGE_FLAGS_CHECK_AT_PREP =? 0 | None => false end
    | _ => false end) = true) as Hck by (rewrite Hrun, Hp in Hck; by apply Z.eqb_eq).
  vm_compute. reflexivity.
Qed.

Lemma alloc_free_roundtrip_witness :
  ∃ st1 st2 s2, __rmqueue_smallest 0 3 0 filled = Ret (Some 0, st1) ∧
    __free_one_page 0 0 0 3 0 st1 = Ret (tt, st2) ∧ zone_ok 0 0 st2 fl_filled s2.
Proof.
  destruct filled_facts as (s & zn & Hok & Hz & Hl & Hmap).
  destruct (alloc_free_roundtrip 0 0 1024 filled fl_filled s 3 0 0 [] zn) as (st1 & zn1 & Hrun & _ & Hback);
    [exact Hok|exact Hmap|by split|by split| |by apply fl_filled_whole|exact Hz|].
  - intros o Ho. apply fl_filled_below. unfold MAX_ORDER in Ho. lia.
  - destruct Hback as (st2 & s2 & Hfree & Hok2).
    { right. split; [intros l; reflexivity|]. intros pg. exact (split_flags st1 pg Hrun). }
    exists st1, st2, s2. split; [exact Hrun|]. split; [exact Hfree|exact Hok2].
Defined.

Lemma no_double_allocation_witness :
  ∃ st, bsteps 0 (filled, []) (st, [(0, 0)]) ∧ all_apart [(0, 0)] ∧
    ∃ fl s zn, zone_ok 0 0 st fl s ∧ zones st !! 0 = Some zn ∧
      (∀ p o q k mt, (p, o) ∈ [(0, 0)] → q ∈ fblocks fl k mt → apart (p, o) (q, k)) ∧
      z_free_pages zn = npages fl ∧ z_free_pages zn + pages_of [(0, 0)] = 1024.
Proof.
  destruct filled_facts as (s & zn & Hok & Hz & Hl & Hmap).
  destruct (locked_rmqueue_run 0 0 0 7 0 filled fl_filled s zn 0 GFP_KERNEL 0 (Some 0)
    (fl_take 0 10 0 0 0 fl_filled)) as (st' & s' & zn' & Hrun & _);
    [exact Hok|exact npages_filled|by split|by split|by vm_compute|exact Hz|by apply idle_free
    |exact alloc_filled|done|].
  assert (bsteps 0 (filled, []) (st', [(0, 0)])) as Hs.
  { eapply bsteps_cons; [|apply bsteps_refl].
    by eapply (bstep_alloc 0 0 7 0 GFP_KERNEL 0 0); [by vm_compute|by split|by split|by vm_compute|exact Hrun]. }
  exists st'. split; [exact Hs|].
  apply (no_double_allocation 0 0 1024 1024 (filled, []) st' [(0, 0)]); [|exact Hs].
  exists fl_filled, s, zn. split_and!; [exact Hok|exact Hmap|exact Hz|exact Hl| | |by vm_compute|by vm_compute].
  - intros p o Hin. exfalso. exact (not_elem_of_nil _ Hin).
  - intros i j b1 b2 Hi. destruct i; discriminate Hi.
Defined.

Lemma init_zone_establishes_witness :
  ∃ st' s' zn', init_zone 0 7 1 (Some 0) 0 1024 raw = Ret (0, st') ∧
    zone_ok 0 0 st' empty_fl s' ∧ zones st' !! 0 = Some zn' ∧ watermark zn' = [4; 8; 16].
Proof.
  destruct (init_zone_establishes 0 7 0 raw (AStore ∅ (dom raw_links)) 0 0 raw_zone 0 1024)
    as (st & s & zn & Hrun & Hok & _ & Hz & _ & _ & Hw & _);
    [apply rep_fresh|by apply lookup_singleton_Some|apply fresh_free_lock|apply raw_free_head
    |apply raw_lru_head|apply raw_not_buddy|].
  exists st, s, zn. split_and!; [exact Hrun|exact Hok|exact Hz|exact Hw].
Defined.

Lemma get_order_least_witness :
  ∃ n, get_order 20000 = Some n ∧ (20000 = 0 → n = 20) ∧
    (0 < 20000 → 0 ≤ n ≤ 20 ∧ 20000 ≤ PAGE_SIZE * 2 ^ n ∧ (0 < n → PAGE_SIZE * 2 ^ (n - 1) < 20000)).
Proof. apply (get_order_least 20000). by split. Defined.

Lemma buddy_pfn_pair_witness :
  __find_buddy_pfn 24 3 ≠ 24 ∧ __find_buddy_pfn (__find_buddy_pfn 24 3) 3 = 24.
Proof.
  destruct (buddy_pfn_pair 24 3) as (H1 & _ & _ & H2 & _);
    [split_and!; [by split|done|by vm_compute|by exists 3]|by split].
Defined.

Lemma free_page_prepare_checks_witness :
  ∃ ok P, free_page_prepare (λ _, 0) 8 3 raw = Ret (ok, with_pages P raw) ∧ ok = true.
Proof.
  destruct (free_page_prepare_checks (λ _, 0) raw 8 3 bare_page) as (ok & P & Hrun & Hok & _).
  - done.
  - by split.
  - intros q [? ?]. apply raw_page_dom. change (2 ^ 3) with 8 in *. lia.
  - by apply raw_page_at.
  - right. by split.
  - exists ok, P. split; [exact Hrun|]. apply Hok. by intros q pg _ ->%raw_page_inv.
Defined.

Lemma alloc_pages_freeram_witness :
  ∃ st', alloc_pages 0 7 1 GFP_KERNEL 0 filled = Ret (Some 0, st') ∧
    free_pages_total st' = free_pages_total filled -[32] 1.
Proof.
  destruct filled_facts as (s & zn & Hok & Hz & Hl & Hmap).
  destruct (alloc_pages_freeram 0 0 0 7 0 1024 filled fl_filled s zn 0 GFP_KERNEL (Some 0)
    (fl_take 0 10 0 0 0 fl_filled)) as (st' & s' & Hrun & _ & _ & Ht & _);
    [done| |exact Hmap|exact Hok|exact npages_filled|by split|by split|by vm_compute|exact Hz
    |by apply idle_free|by vm_compute|exact alloc_filled|done|].
  - intros pg Hpg. by split.
  - exists st'. split; [exact Hrun|exact Ht].
Defined.

#[export] Instance linux_pages_free : FreeLaws linux_pages.
Proof. split; split; [done|done..| | |done|done|done|done]; done. Qed.

(** No batch ever leaves the list of a CPU here. *)
#[local] Instance no_drain : PcpLib := {| free_pcppages_bulk _ _ _ := mret tt |}.

(** The zone with its lower half in use, one reference on it. *)
Definition referenced (p : Z) : mm :=
  with_pages (<[p := with_refcount 1 bare_page]> raw_pages) boot.

Lemma referenced_facts p : 0 ≤ p < 1024 →
  ∃ s zn, zone_ok 0 0 (referenced p) empty_fl s ∧
    (∀ q o, block_shape q o → q + 2 ^ o ≤ 1024 → avail 0 (referenced p) empty_fl s q o) ∧
    zones (referenced p) !! 0 = Some zn ∧ idle_lock (zlock zn) ∧ memmap 1024 (referenced p).
Proof.
  intros Hp. destruct boot_facts as (s & zn & Hok & Hav & Hz & Hl & Hpages).
  assert (same_view 0 boot (referenced p)) as Hv.
  { apply same_view_pages. rewrite Hpages.
    apply (obs_insert _ _ bare_page); [by apply raw_page_at|reflexivity]. }
  exists s, zn. split_and!; [by eapply zone_ok_view| |exact Hz|exact Hl|].
  - intros q o Hq Hle. eapply avail_view; [exact Hv|by apply Hav].
  - split_and!; [by exists 1|by vm_compute|]. intros q. simpl. rewrite <-raw_page_dom.
    destruct (decide (q = p)) as [->|Hne].
    + rewrite lookup_insert_eq, raw_page_dom. split; [done|by eexists].
    + by rewrite lookup_insert_ne.
Qed.

(** Dropping the last reference of the lower half gives it back, of the upper
    half faults on its lower buddy. *)
Lemma free_pages_releases_witness :
  (∃ st' s', __free_pages 0 7 1 (λ _, 9) 0 9 (referenced 0) = Ret (tt, st') ∧
     zone_ok 0 0 st' (fl_add 0 9 0 empty_fl) s') ∧
  __free_pages 0 7 1 (λ _, 9) 512 9 (referenced 512) = Fault.
Proof.
  assert (∀ p, block_shape p 9 → p + 2 ^ 9 ≤ 1024 → ∃ s zn st0,
    handed_back 0 0 0 1024 p 9 0 st0 empty_fl s zn (__free_pages 0 7 1 (λ _, 9) p 9 (referenced p))) as Hback.
  { intros p Hsh Hle. assert (0 ≤ p < 1024) as Hp by (destruct Hsh as (_ & ? & _); lia).
    destruct (referenced_facts p Hp) as (s & zn & Hok & Hav & Hz & Hl & Hmap).
    assert (pages (referenced p) !! p = Some (with_refcount 1 bare_page)) as Hpg by apply lookup_insert_eq.
    assert (put_page_testzero (with_refcount 1 bare_page) = (true, bare_page)) as Hput by done.
    assert (∀ pg, page_zone_id pg = 0 → page_zone pg = 0) as Hzone by done.
    assert (0 ≤ PAGE_FLAGS_CHECK_AT_PREP < 2 ^ 32) as Hmask by by split.
    assert (vm_quiet (λ _, 9) zn bare_page 9) as Hvm by (right; by split_and!).
    pose proof (free_pages_releases 0 0 Hzone Hmask (λ _, 9) 0 7 0 1024 (referenced p) empty_fl s zn p 9
      _ _ true Hok (Hav p 9 Hsh Hle) Hmap Hz (idle_free 0 _ cpu_0 Hl) Hpg type_0 Hput Hvm) as (_ & _ & Hr).
    exists s, zn, (with_pages (<[p := bare_page]> (pages (referenced p))) (referenced p)).
    apply Hr; [done|]. intros q pg _. simpl. rewrite insert_insert_eq.
    destruct (decide (q = p)) as [->|Hne].
    - rewrite lookup_insert_eq. by intros [= <-].
    - rewrite lookup_insert_ne by done. by intros ->%raw_page_inv. }
  split.
  - destruct (Hback 0 shape_lower ltac:(by vm_compute)) as (s & zn & st0 & Hr).
    unfold handed_back in Hr. rewrite merge_lower in Hr. cbn [Z.eqb] in Hr.
    destruct Hr as (st' & s' & _ & Hrun & Hok' & _). exists st', s'. split; [exact Hrun|exact Hok'].
  - destruct (Hback 512 shape_upper ltac:(by vm_compute)) as (s & zn & st0 & Hr).
    unfold handed_back in Hr. rewrite merge_upper in Hr. exact Hr.
Defined.
