(* ===== verification/SchedData.v ===== *)
(** The scheduler's data: the structures of [kernel/include/sched.h] and of
    the top of [kernel/core/sched/sched_fair.c], and the state the scheduler
    files work on.

    [struct task_struct] and [struct rq] are flat blocks of scalar and
    pointer fields: they are modelled as the function from their field names
    to their values, so that [memset] and the whole-struct assignment of
    [dup_task_struct] are what they are in C.  The embedded [struct
    list_head]s live in a heap of their own (file [ListHead]).  A [struct
    sched_entity] embedded in a task has the address of its task (what
    [task_of] undoes); the entities of task groups have addresses of their
    own.  The address of [runqueues[cpu]] and of its [cfs] member is [cpu].
    Zero is [NULL]. *)
From stdpp Require Import base gmap list strings fin_maps.
From S2P Require Import Prelude CTypes ListHead Spinlock.

(** * Structures as functions of their fields *)

Lemma eq_dec_by_id {A} (id : A → nat) (all : list A) :
  (∀ x, all !! id x = Some x) → EqDecision A.
Proof.
  intros Hid x y. destruct (decide (id x = id y)) as [He|He]; [left|right; congruence].
  pose proof (Hid x) as Hx. rewrite He, Hid in Hx. congruence.
Defined.

Definition upd {F} `{EqDecision F} (f : F) (v : Z) (s : F → Z) : F → Z :=
  λ g, if decide (g = f) then v else s g.

Lemma upd_same {F} `{EqDecision F} (f : F) v s : upd f v s f = v.
Proof. unfold upd. by rewrite decide_True. Qed.

Lemma upd_other {F} `{EqDecision F} (f g : F) v s : g ≠ f → upd f v s g = s g.
Proof. intros. unfold upd. by rewrite decide_False. Qed.

(** Assign a list of fields, in order. *)
Definition assign {F} `{EqDecision F} (l : list (F * Z)) (s : F → Z) : F → Z :=
  foldl (λ s fv, upd (fst fv) (snd fv) s) s l.

Definition NULL : Z := 0.

(** * struct task_struct, struct rq *)

Inductive task_field :=
  | t_stack | t_stack_size | t_state | t_exit_state | t_exit_code | t_exit_signal | t_flags
  | t_ptrace | t_pid | t_tgid | t_ppid | t_pgrp | t_session | t_uid | t_gid | t_euid | t_egid
  | t_suid | t_sgid | t_fsuid | t_fsgid | t_prio | t_static_prio | t_normal_prio | t_policy
  | t_rt_timeout | t_rt_watchdog_stamp | t_rt_time_slice | t_rt_back | t_rt_parent | t_rt_rt_rq
  | t_rt_my_q | t_cpus_allowed | t_nr_cpus_allowed | t_real_parent | t_parent | t_group_leader
  | t_run_node | t_mm | t_active_mm | t_fs | t_files | t_signal | t_sighand | t_blocked
  | t_real_blocked | t_saved_sigmask | t_regs | t_utime | t_stime | t_gtime | t_start_time
  | t_real_start_time | t_min_flt | t_maj_flt | t_nvcsw | t_nivcsw | t_thread_fn | t_thread_data
  | t_nsproxy | t_audit_context | t_perf_event_ctxp | t_sched_task_group | t_cgroups
  | t_personality | t_did_exec | t_in_execve | t_in_iowait | t_no_new_privs
  | t_sched_reset_on_fork | t_sched_contributes_to_load | t_sched_migrated | t_preempt_count
  | t_security | t_trace | t_trace_recursion | t_delays | t_make_it_fail | t_scm_work_list
  | t_usage | t_wait_chldexit | t_task_exit_notifier | t_sched_info | t_stats | t_mempolicy
  | t_il_next | t_pref_node_fork | t_bio_list | t_plug | t_blocked_on | t_tracer | t_socket
  | t_net_ns | t_last_cpu | t_wake_cpu | t_migrate_disable | t_rcu_read_lock_nesting
  | t_rcu_read_unlock_special | t_rcu_blocked_node | t_rcu_tasks_holdout | t_rcu_tasks_idle_cpu
  | t_sched_class.

Definition task_field_id (f : task_field) : nat :=
  match f with
  | t_stack => 0 | t_stack_size => 1 | t_state => 2 | t_exit_state => 3 | t_exit_code => 4
  | t_exit_signal => 5 | t_flags => 6 | t_ptrace => 7 | t_pid => 8 | t_tgid => 9 | t_ppid => 10
  | t_pgrp => 11 | t_session => 12 | t_uid => 13 | t_gid => 14 | t_euid => 15 | t_egid => 16
  | t_suid => 17 | t_sgid => 18 | t_fsuid => 19 | t_fsgid => 20 | t_prio => 21
  | t_static_prio => 22 | t_normal_prio => 23 | t_policy => 24 | t_rt_timeout => 25
  | t_rt_watchdog_stamp => 26 | t_rt_time_slice => 27 | t_rt_back => 28 | t_rt_parent => 29
  | t_rt_rt_rq => 30 | t_rt_my_q => 31 | t_cpus_allowed => 32 | t_nr_cpus_allowed => 33
  | t_real_parent => 34 | t_parent => 35 | t_group_leader => 36 | t_run_node => 37 | t_mm => 38
  | t_active_mm => 39 | t_fs => 40 | t_files => 41 | t_signal => 42 | t_sighand => 43
  | t_blocked => 44 | t_real_blocked => 45 | t_saved_sigmask => 46 | t_regs => 47 | t_utime => 48
  | t_stime => 49 | t_gtime => 50 | t_start_time => 51 | t_real_start_time => 52 | t_min_flt => 53
  | t_maj_flt => 54 | t_nvcsw => 55 | t_nivcsw => 56 | t_thread_fn => 57 | t_thread_data => 58
  | t_nsproxy => 59 | t_audit_context => 60 | t_perf_event_ctxp => 61 | t_sched_task_group => 62
  | t_cgroups => 63 | t_personality => 64 | t_did_exec => 65 | t_in_execve => 66
  | t_in_iowait => 67 | t_no_new_privs => 68 | t_sched_reset_on_fork => 69
  | t_sched_contributes_to_load => 70 | t_sched_migrated => 71 | t_preempt_count => 72
  | t_security => 73 | t_trace => 74 | t_trace_recursion => 75 | t_delays => 76
  | t_make_it_fail => 77 | t_scm_work_list => 78 | t_usage => 79 | t_wait_chldexit => 80
  | t_task_exit_notifier => 81 | t_sched_info => 82 | t_stats => 83 | t_mempolicy => 84
  | t_il_next => 85 | t_pref_node_fork => 86 | t_bio_list => 87 | t_plug => 88
  | t_blocked_on => 89 | t_tracer => 90 | t_socket => 91 | t_net_ns => 92 | t_last_cpu => 93
  | t_wake_cpu => 94 | t_migrate_disable => 95 | t_rcu_read_lock_nesting => 96
  | t_rcu_read_unlock_special => 97 | t_rcu_blocked_node => 98 | t_rcu_tasks_holdout => 99
  | t_rcu_tasks_idle_cpu => 100 | t_sched_class => 101
  end.

Definition all_task_fields : list task_field :=
  [t_stack; t_stack_size; t_state; t_exit_state; t_exit_code; t_exit_signal; t_flags; t_ptrace;
  t_pid; t_tgid; t_ppid; t_pgrp; t_session; t_uid; t_gid; t_euid; t_egid; t_suid; t_sgid; t_fsuid;
  t_fsgid; t_prio; t_static_prio; t_normal_prio; t_policy; t_rt_timeout; t_rt_watchdog_stamp;
  t_rt_time_slice; t_rt_back; t_rt_parent; t_rt_rt_rq; t_rt_my_q; t_cpus_allowed;
  t_nr_cpus_allowed; t_real_parent; t_parent; t_group_leader; t_run_node; t_mm; t_active_mm; t_fs;
  t_files; t_signal; t_sighand; t_blocked; t_real_blocked; t_saved_sigmask; t_regs; t_utime;
  t_stime; t_gtime; t_start_time; t_real_start_time; t_min_flt; t_maj_flt; t_nvcsw; t_nivcsw;
  t_thread_fn; t_thread_data; t_nsproxy; t_audit_context; t_perf_event_ctxp; t_sched_task_group;
  t_cgroups; t_personality; t_did_exec; t_in_execve; t_in_iowait; t_no_new_privs;
  t_sched_reset_on_fork; t_sched_contributes_to_load; t_sched_migrated; t_preempt_count;
  t_security; t_trace; t_trace_recursion; t_delays; t_make_it_fail; t_scm_work_list; t_usage;
  t_wait_chldexit; t_task_exit_notifier; t_sched_info; t_stats; t_mempolicy; t_il_next;
  t_pref_node_fork; t_bio_list; t_plug; t_blocked_on; t_tracer; t_socket; t_net_ns; t_last_cpu;
  t_wake_cpu; t_migrate_disable; t_rcu_read_lock_nesting; t_rcu_read_unlock_special;
  t_rcu_blocked_node; t_rcu_tasks_holdout; t_rcu_tasks_idle_cpu; t_sched_class].

#[export] Instance task_field_eq_dec : EqDecision task_field.
Proof. refine (eq_dec_by_id task_field_id all_task_fields _). by intros []. Defined.

Inductive rq_field :=
  | rq_nr_running | rq_load_weight | rq_load_inv_weight | rq_curr | rq_idle | rq_stop | rq_cpu
  | rq_online | rq_rt_nr_running | rq_rt_highest_prio_curr | rq_rt_highest_prio_next
  | rq_dl_nr_running | rq_dl_time | rq_dl_bw | rq_clock | rq_clock_task | rq_next_balance
  | rq_balance_callback | rq_idle_balance | rq_active_balance | rq_push_cpu | rq_nr_switches
  | rq_nr_load_updates | rq_avg_idle | rq_idle_stamp | rq_age_stamp | rq_rt_avg | rq_prev_irq_time
  | rq_prev_steal_time | rq_prev_steal_time_rq | rq_nohz_tick_stopped | rq_nohz_flags
  | rq_nohz_stamp | rq_last_load_update_tick | rq_last_blocked_load_update_tick
  | rq_has_blocked_load | rq_max_idle_balance_cost | rq_wake_stamp | rq_wake_avg_idle
  | rq_balance_cpu | rq_ttwu_count | rq_ttwu_local | rq_rq_sched_info | rq_prev_mm
  | rq_nr_uninterruptible.

Definition rq_field_id (f : rq_field) : nat :=
  match f with
  | rq_nr_running => 0 | rq_load_weight => 1 | rq_load_inv_weight => 2 | rq_curr => 3
  | rq_idle => 4 | rq_stop => 5 | rq_cpu => 6 | rq_online => 7 | rq_rt_nr_running => 8
  | rq_rt_highest_prio_curr => 9 | rq_rt_highest_prio_next => 10 | rq_dl_nr_running => 11
  | rq_dl_time => 12 | rq_dl_bw => 13 | rq_clock => 14 | rq_clock_task => 15
  | rq_next_balance => 16 | rq_balance_callback => 17 | rq_idle_balance => 18
  | rq_active_balance => 19 | rq_push_cpu => 20 | rq_nr_switches => 21 | rq_nr_load_updates => 22
  | rq_avg_idle => 23 | rq_idle_stamp => 24 | rq_age_stamp => 25 | rq_rt_avg => 26
  | rq_prev_irq_time => 27 | rq_prev_steal_time => 28 | rq_prev_steal_time_rq => 29
  | rq_nohz_tick_stopped => 30 | rq_nohz_flags => 31 | rq_nohz_stamp => 32
  | rq_last_load_update_tick => 33 | rq_last_blocked_load_update_tick => 34
  | rq_has_blocked_load => 35 | rq_max_idle_balance_cost => 36 | rq_wake_stamp => 37
  | rq_wake_avg_idle => 38 | rq_balance_cpu => 39 | rq_ttwu_count => 40 | rq_ttwu_local => 41
  | rq_rq_sched_info => 42 | rq_prev_mm => 43 | rq_nr_uninterruptible => 44
  end.

Definition all_rq_fields : list rq_field :=
  [rq_nr_running; rq_load_weight; rq_load_inv_weight; rq_curr; rq_idle; rq_stop; rq_cpu;
  rq_online; rq_rt_nr_running; rq_rt_highest_prio_curr; rq_rt_highest_prio_next; rq_dl_nr_running;
  rq_dl_time; rq_dl_bw; rq_clock; rq_clock_task; rq_next_balance; rq_balance_callback;
  rq_idle_balance; rq_active_balance; rq_push_cpu; rq_nr_switches; rq_nr_load_updates;
  rq_avg_idle; rq_idle_stamp; rq_age_stamp; rq_rt_avg; rq_prev_irq_time; rq_prev_steal_time;
  rq_prev_steal_time_rq; rq_nohz_tick_stopped; rq_nohz_flags; rq_nohz_stamp;
  rq_last_load_update_tick; rq_last_blocked_load_update_tick; rq_has_blocked_load;
  rq_max_idle_balance_cost; rq_wake_stamp; rq_wake_avg_idle; rq_balance_cpu; rq_ttwu_count;
  rq_ttwu_local; rq_rq_sched_info; rq_prev_mm; rq_nr_uninterruptible].

#[export] Instance rq_field_eq_dec : EqDecision rq_field.
Proof. refine (eq_dec_by_id rq_field_id all_rq_fields _). by intros []. Defined.

(** The [struct list_head]s of the scheduler. *)
Inductive task_list_field :=
  | rt_run_list | children | sibling | tasks_node | ptraced | ptrace_entry
  | rcu_tasks_holdout_list.

#[export] Instance task_list_field_eq_dec : EqDecision task_list_field.
Proof. solve_decision. Defined.

Inductive lnode :=
  | task_list                                    (* static task_list *)
  | in_task (task : Z) (f : task_list_field)
  | cfs_tasks (cpu : Z).                         (* runqueues[cpu].cfs_tasks *)

#[export] Instance task_list_field_countable : Countable task_list_field.
Proof.
  refine (inj_countable'
    (λ f, match f with rt_run_list => 0 | children => 1 | sibling => 2 | tasks_node => 3
          | ptraced => 4 | ptrace_entry => 5 | rcu_tasks_holdout_list => 6 end)
    (λ z, match z with 0 => rt_run_list | 1 => children | 2 => sibling | 3 => tasks_node
          | 4 => ptraced | 5 => ptrace_entry | _ => rcu_tasks_holdout_list end) _).
  by intros [].
Defined.
#[export] Instance lnode_eq_dec : EqDecision lnode.
Proof. solve_decision. Defined.
#[export] Instance lnode_countable : Countable lnode.
Proof.
  refine (inj_countable'
    (λ n, match n with
          | task_list => (0, 0, rt_run_list) | in_task t f => (1, t, f)
          | cfs_tasks c => (2, c, rt_run_list) end)
    (λ t, match t with
          | (0, _, _) => task_list | (1, t, f) => in_task t f
          | (_, c, _) => cfs_tasks c end) _).
  by intros [].
Defined.

Record task_struct := Task {
  tfields : task_field → Z;
  comm : string;
  alloc_lock : spinlock_t
}.

Record rq := Rq { rq_lock : spinlock_t; rqfields : rq_field → Z }.

(** * struct load_weight, struct sched_entity, struct cfs_rq *)

Record load_weight := LoadWeight { weight : Z; inv_weight : Z }.   (* u64, u64 *)

(** The fields the scheduler files use; the remaining ones are statistics.
    [on_rq] is used by [sched_fair.c]. *)
Record sched_entity := Entity {
  se_load : load_weight;
  exec_start : Z;             (* u64 *)
  sum_exec_runtime : Z;       (* u64 *)
  vruntime : Z;               (* u64 *)
  prev_sum_exec_runtime : Z;  (* u64 *)
  nr_migrations : Z;          (* u64 *)
  on_rq : Z
}.

Definition with_load (v : load_weight) (e : sched_entity) : sched_entity :=
  Entity v (exec_start e) (sum_exec_runtime e) (vruntime e) (prev_sum_exec_runtime e)
    (nr_migrations e) (on_rq e).
Definition with_exec_start (v : Z) (e : sched_entity) : sched_entity :=
  Entity (se_load e) v (sum_exec_runtime e) (vruntime e) (prev_sum_exec_runtime e)
    (nr_migrations e) (on_rq e).
Definition with_sum_exec (v : Z) (e : sched_entity) : sched_entity :=
  Entity (se_load e) (exec_start e) v (vruntime e) (prev_sum_exec_runtime e)
    (nr_migrations e) (on_rq e).
Definition with_vruntime (v : Z) (e : sched_entity) : sched_entity :=
  Entity (se_load e) (exec_start e) (sum_exec_runtime e) v (prev_sum_exec_runtime e)
    (nr_migrations e) (on_rq e).
Definition with_prev_sum (v : Z) (e : sched_entity) : sched_entity :=
  Entity (se_load e) (exec_start e) (sum_exec_runtime e) (vruntime e) v
    (nr_migrations e) (on_rq e).
Definition with_migrations (v : Z) (e : sched_entity) : sched_entity :=
  Entity (se_load e) (exec_start e) (sum_exec_runtime e) (vruntime e)
    (prev_sum_exec_runtime e) v (on_rq e).
Definition with_on_rq (v : Z) (e : sched_entity) : sched_entity :=
  Entity (se_load e) (exec_start e) (sum_exec_runtime e) (vruntime e)
    (prev_sum_exec_runtime e) (nr_migrations e) v.

(** A red-black tree of [run_node]s: the pointers [rb_left] and [rb_right]
    the code follows, and the colour the tree library keeps.  A node is named
    by the entity it is embedded in. *)
Inductive rb_tree :=
  | rb_null
  | rb_node (red : bool) (rb_left : rb_tree) (se : Z) (rb_right : rb_tree).

Fixpoint inorder (t : rb_tree) : list Z :=
  match t with
  | rb_null => []
  | rb_node _ l e r => inorder l ++ e :: inorder r
  end.

Record cfs_rq := CfsRq {
  load : load_weight;
  nr_running : Z;             (* unsigned int *)
  h_nr_running : Z;           (* unsigned int *)
  min_vruntime : Z;           (* u64 *)
  tasks_timeline : rb_tree;
  rb_leftmost : Z;            (* the entity of the leftmost node, or NULL *)
  curr : Z                    (* struct sched_entity * *)
}.

(** The buddy hints of a [cfs_rq]. *)
Record buddy_hints := Buddies { next : Z; last : Z; skip : Z }.

Definition with_cfs_load (v : load_weight) (n : Z) (q : cfs_rq) : cfs_rq :=
  CfsRq v n (h_nr_running q) (min_vruntime q) (tasks_timeline q) (rb_leftmost q) (curr q).
Definition with_h_nr (v : Z) (q : cfs_rq) : cfs_rq :=
  CfsRq (load q) (nr_running q) v (min_vruntime q) (tasks_timeline q) (rb_leftmost q) (curr q).
Definition with_min_vruntime (v : Z) (q : cfs_rq) : cfs_rq :=
  CfsRq (load q) (nr_running q) (h_nr_running q) v (tasks_timeline q) (rb_leftmost q) (curr q).
Definition with_timeline (v : rb_tree) (q : cfs_rq) : cfs_rq :=
  CfsRq (load q) (nr_running q) (h_nr_running q) (min_vruntime q) v (rb_leftmost q) (curr q).
Definition with_leftmost (v : Z) (q : cfs_rq) : cfs_rq :=
  CfsRq (load q) (nr_running q) (h_nr_running q) (min_vruntime q) (tasks_timeline q) v (curr q).
Definition with_curr (v : Z) (q : cfs_rq) : cfs_rq :=
  CfsRq (load q) (nr_running q) (h_nr_running q) (min_vruntime q) (tasks_timeline q)
    (rb_leftmost q) v.

(** * The state *)

(** [world] is the state of the code that is not in the sources: clocks,
    statistics, bandwidth control, the resched flags, the page tables. *)
Record sched (W : Type) := Sched {
  rqs : gmap Z rq;                        (* static runqueues[NR_CPUS] *)
  cfs : gmap Z cfs_rq;
  hints : gmap Z buddy_hints;             (* next, last and skip of each cfs_rq *)
  ses : gmap Z sched_entity;
  tasks : gmap Z task_struct;
  stacks : gset Z;                        (* kernel stacks *)
  lists : gmap lnode (list_head lnode);
  task_list_lock : spinlock_t;
  next_pid : Z;                           (* static pid_t next_pid *)
  current_task : Z;
  irqs_on : bool;
  jiffies : Z;                            (* static u64 jiffies of get_jiffies_64 *)
  world : W
}.
Arguments Sched {W}.
Arguments rqs {W}. Arguments cfs {W}. Arguments hints {W}. Arguments ses {W}.
Arguments tasks {W}. Arguments stacks {W}. Arguments lists {W}. Arguments task_list_lock {W}.
Arguments next_pid {W}. Arguments current_task {W}. Arguments irqs_on {W}.
Arguments jiffies {W}. Arguments world {W}.

Section state.
  Context {W : Type}.
  Abbreviation st := (sched W).
  Implicit Types (s : st).

Definition with_rqs v s : st :=
  Sched v (cfs s) (hints s) (ses s) (tasks s) (stacks s) (lists s) (task_list_lock s)
    (next_pid s) (current_task s) (irqs_on s) (jiffies s) (world s).
Definition with_cfs v s : st :=
  Sched (rqs s) v (hints s) (ses s) (tasks s) (stacks s) (lists s) (task_list_lock s)
    (next_pid s) (current_task s) (irqs_on s) (jiffies s) (world s).
Definition with_hints v s : st :=
  Sched (rqs s) (cfs s) v (ses s) (tasks s) (stacks s) (lists s) (task_list_lock s)
    (next_pid s) (current_task s) (irqs_on s) (jiffies s) (world s).
Definition with_ses v s : st :=
  Sched (rqs s) (cfs s) (hints s) v (tasks s) (stacks s) (lists s) (task_list_lock s)
    (next_pid s) (current_task s) (irqs_on s) (jiffies s) (world s).
Definition with_tasks v s : st :=
  Sched (rqs s) (cfs s) (hints s) (ses s) v (stacks s) (lists s) (task_list_lock s)
    (next_pid s) (current_task s) (irqs_on s) (jiffies s) (world s).
Definition with_stacks v s : st :=
  Sched (rqs s) (cfs s) (hints s) (ses s) (tasks s) v (lists s) (task_list_lock s)
    (next_pid s) (current_task s) (irqs_on s) (jiffies s) (world s).
Definition with_lists v s : st :=
  Sched (rqs s) (cfs s) (hints s) (ses s) (tasks s) (stacks s) v (task_list_lock s)
    (next_pid s) (current_task s) (irqs_on s) (jiffies s) (world s).
Definition with_list_lock v s : st :=
  Sched (rqs s) (cfs s) (hints s) (ses s) (tasks s) (stacks s) (lists s) v
    (next_pid s) (current_task s) (irqs_on s) (jiffies s) (world s).
Definition with_next_pid v s : st :=
  Sched (rqs s) (cfs s) (hints s) (ses s) (tasks s) (stacks s) (lists s) (task_list_lock s)
    v (current_task s) (irqs_on s) (jiffies s) (world s).
Definition with_current v s : st :=
  Sched (rqs s) (cfs s) (hints s) (ses s) (tasks s) (stacks s) (lists s) (task_list_lock s)
    (next_pid s) v (irqs_on s) (jiffies s) (world s).
Definition with_irqs v s : st :=
  Sched (rqs s) (cfs s) (hints s) (ses s) (tasks s) (stacks s) (lists s) (task_list_lock s)
    (next_pid s) (current_task s) v (jiffies s) (world s).
Definition with_jiffies v s : st :=
  Sched (rqs s) (cfs s) (hints s) (ses s) (tasks s) (stacks s) (lists s) (task_list_lock s)
    (next_pid s) (current_task s) (irqs_on s) v (world s).
Definition with_world v s : st :=
  Sched (rqs s) (cfs s) (hints s) (ses s) (tasks s) (stacks s) (lists s) (task_list_lock s)
    (next_pid s) (current_task s) (irqs_on s) (jiffies s) v.

(** Accesses through a pointer: following one that points to no object is a
    [Fault]. *)
Definition get_se (e : Z) : M st sched_entity := get_some (λ s, ses s !! e).
Definition mod_se (e : Z) (f : sched_entity → sched_entity) : M st unit :=
  x ← get_se e; modify (λ s, with_ses (<[e := f x]> (ses s)) s).
Definition get_cfs (q : Z) : M st cfs_rq := get_some (λ s, cfs s !! q).
Definition mod_cfs (q : Z) (f : cfs_rq → cfs_rq) : M st unit :=
  x ← get_cfs q; modify (λ s, with_cfs (<[q := f x]> (cfs s)) s).
Definition get_hints (q : Z) : M st buddy_hints := get_some (λ s, hints s !! q).
Definition get_task (p : Z) : M st task_struct := get_some (λ s, tasks s !! p).
Definition mod_task (p : Z) (f : task_struct → task_struct) : M st unit :=
  x ← get_task p; modify (λ s, with_tasks (<[p := f x]> (tasks s)) s).
Definition task_get (p : Z) (f : task_field) : M st Z := t ← get_task p; mret (tfields t f).
Definition task_set (p : Z) (f : task_field) (v : Z) : M st unit :=
  mod_task p (λ t, Task (upd f v (tfields t)) (comm t) (alloc_lock t)).
Definition get_rq (r : Z) : M st rq := get_some (λ s, rqs s !! r).
Definition mod_rq (r : Z) (f : rq → rq) : M st unit :=
  x ← get_rq r; modify (λ s, with_rqs (<[r := f x]> (rqs s)) s).
Definition rq_get (r : Z) (f : rq_field) : M st Z := x ← get_rq r; mret (rqfields x f).
Definition rq_set (r : Z) (f : rq_field) (v : Z) : M st unit :=
  mod_rq r (λ x, Rq (rq_lock x) (upd f v (rqfields x))).
End state.
