(* ===== verification/Cfs.v ===== *)
(** The completely fair scheduler: [kernel/core/sched/sched_fair.c], and the
    runqueue clock of [kernel/core/sched/sched.c] it calls.

    What the file calls and nobody in the sources defines (the red-black
    tree, the clocks, load accounting, bandwidth control, the buddy marks) is
    class [SchedLib]: calls that only account for something are [acct_call]s,
    which change nothing but the [world]; the others are functions of exactly
    the data they may change. *)
From stdpp Require Import base gmap list strings fin_maps.
From S2P Require Import Prelude CTypes SchedData.

(** * Code outside the sources *)

(** The link a descent of the tree ends at. *)
Inductive rb_dir := to_left | to_right.

Inductive sched_feature :=
  | START_DEBIT | GENTLE_FAIR_SLEEPERS | NEXT_BUDDY | LAST_BUDDY | WAKEUP_PREEMPTION.

Inductive acct_call :=
  | schedstat_exec_max (se delta : Z) | schedstat_exec_clock (q delta : Z)
  | schedstat_slice_max (se slice : Z) | schedstat_inc_yld_count (r : Z)
  | trace_sched_stat_runtime (p delta vr : Z) | cpuacct_charge (p delta : Z)
  | account_group_exec_runtime (p delta : Z) | account_cfs_rq_runtime (q delta : Z)
  | update_stats_wait_start (q se : Z) | update_stats_wait_end (q se : Z)
  | update_stats_curr_start (q se : Z) | update_stats_enqueue (q se : Z)
  | update_stats_dequeue (q se : Z) | set_sleep_start (se now : Z) | set_block_start (se now : Z)
  | enqueue_sleeper (q se : Z) | check_spread (q se : Z) | check_cfs_rq_runtime (q : Z)
  | return_cfs_rq_runtime (q : Z) | check_enqueue_throttle (q : Z) | list_add_leaf_cfs_rq (q : Z)
  | enqueue_entity_load_avg (q se : Z) | dequeue_entity_load_avg (q se : Z)
  | update_load_avg (se update_tg : Z) | update_cfs_shares (q : Z) | hrtick_update (r : Z)
  | resched_curr (r : Z) | rq_clock_skip_update (r : Z) (skip : bool)
  | clear_tsk_need_resched (p : Z) | sched_info_queued (r p : Z) | sched_info_dequeued (r p : Z)
  | sched_info_switch (r prev next : Z) | perf_event_task_sched_out (prev next : Z)
  | perf_event_task_sched_in (prev cur : Z) | fire_sched_out_preempt_notifiers (prev next : Z)
  | fire_sched_in_preempt_notifiers (cur : Z) | prepare_lock_switch (r next : Z)
  | prepare_arch_switch (next : Z) | finish_arch_switch (prev : Z) | arch_start_context_switch (prev : Z)
  | enter_lazy_tlb (mm next : Z) | switch_mm (oldmm mm next : Z) | atomic_inc_mm_count (mm : Z)
  | mmdrop (mm : Z) | preempt_disable | preempt_enable.

Class SchedLib := {
  env : Type;
  acct_effect : acct_call → env → env;
  (* clocks *)
  sched_clock_cpu : Z → env → Z * env;
  irq_time_read : Z → env → Z;
  steal_account_process_tick : Z → env → Z * env;
  (* from one object to another *)
  cpu_of : Z → Z;                  (* rq to CPU *)
  rq_of : Z → Z;                   (* cfs_rq to rq *)
  cfs_rq_of : Z → Z;               (* entity to the cfs_rq it queues on *)
  task_cfs_rq : Z → Z;             (* task to its cfs_rq *)
  parent_entity : Z → Z;           (* se->parent *)
  entity_is_task : Z → bool;
  find_matching_se : Z → Z → Z * Z;
  (* load arithmetic *)
  scale_load_down : Z → Z;
  WMULT_SHIFT : Z;
  WMULT_CONST : Z;
  mul_u64_u32_shr : Z → Z → Z → Z;
  max_vruntime_of : Z → Z → Z;     (* max_vruntime *)
  min_vruntime_of : Z → Z → Z;     (* min_vruntime *)
  entity_before : sched_entity → sched_entity → bool;
  wakeup_preempt_entity : env → sched_entity → sched_entity → Z;
  account_entity_enqueue : load_weight * Z → load_weight → load_weight * Z;
  account_entity_dequeue : load_weight * Z → load_weight → load_weight * Z;
  add_nr_running : Z → Z → Z;
  sub_nr_running : Z → Z → Z;
  (* the red-black tree *)
  rb_link_node : rb_tree → list rb_dir → Z → rb_tree;
  rb_insert_color : rb_tree → Z → rb_tree;
  rb_erase : rb_tree → Z → rb_tree;
  rb_next : rb_tree → Z → Z;
  (* buddies *)
  clear_buddies : Z → Z → gmap Z buddy_hints → gmap Z buddy_hints;
  set_next_buddy : Z → gmap Z buddy_hints → gmap Z buddy_hints;
  set_last_buddy : Z → gmap Z buddy_hints → gmap Z buddy_hints;
  set_skip_buddy : Z → gmap Z buddy_hints → gmap Z buddy_hints;
  (* tunables and tests *)
  sched_feat : sched_feature → bool;
  sched_vslice : env → cfs_rq → sched_entity → Z;
  sysctl_sched_latency : env → Z;
  sched_nr_latency : env → Z;
  schedstat_enabled : env → bool;
  cfs_rq_throttled : env → Z → bool;
  throttled_hierarchy : env → Z → bool;
  test_tsk_need_resched : env → Z → bool;
  (* constants *)
  ENQUEUE_WAKEUP : Z; ENQUEUE_WAKING : Z; ENQUEUE_RESTORE : Z;
  DEQUEUE_SLEEP : Z; DEQUEUE_SAVE : Z; WF_FORK : Z;
  SCHED_NORMAL : Z; SCHED_BATCH : Z; SCHED_IDLE : Z; TASK_UNINTERRUPTIBLE : Z;
  fair_sched_class : Z
}.

(** * Tables and constants *)

Definition SCHED_LATENCY_NS : Z := 6 * 1000000.
Definition SCHED_MIN_GRANULARITY_NS : Z := 750000.
Definition SCHED_WAKEUP_GRANULARITY_NS : Z := 1000000.

(** [static const int prio_to_weight[40]], the same in both scheduler files. *)
Definition prio_to_weight : list Z :=
  [88761; 71755; 56483; 46273; 36291;
   29154; 23254; 18705; 14949; 11916;
   9548; 7620; 6100; 4904; 3906;
   3121; 2501; 1991; 1586; 1277;
   1024; 820; 655; 526; 423;
   335; 272; 215; 172; 137;
   110; 87; 70; 56; 45;
   36; 29; 23; 18; 15].

Definition prio_to_wmult : list Z :=
  [48388; 59856; 76040; 92818; 118348;
   147320; 184698; 229616; 287308; 360437;
   449829; 563644; 704093; 875809; 1099582;
   1376151; 1717300; 2157191; 2708050; 3363326;
   4194304; 5237765; 6557202; 8165337; 10153587;
   12820798; 15790321; 19976592; 24970740; 31350126;
   39045157; 49367440; 61356676; 76695844; 95443717;
   119304647; 148102320; 186737708; 238609294; 286331153].

Definition TASK_INTERRUPTIBLE : Z := 1.

(** * Weighted time *)

Section weights.
  Context `{SchedLib}.

Definition __update_inv_weight : M load_weight unit :=
  lw ← get;
  if negb (inv_weight lw =? 0) then mret tt else
  let w := wrap 32 (scale_load_down (weight lw)) in
  put (LoadWeight (weight lw)
    (if (32 <? BITS_PER_LONG) && (WMULT_CONST <=? w) then 1
     else if w =? 0 then WMULT_CONST
     else WMULT_CONST `div` w)).

(** [while (fact >> 32) { fact >>= 1; shift--; }] *)
Fixpoint shift_loop (fuel : nat) (fact shift : Z) : option (Z * Z) :=
  match fuel with
  | O => None
  | S fuel =>
    if Z.shiftr fact 32 =? 0 then Some (fact, shift)
    else shift_loop fuel (Z.shiftr fact 1) (shift - 1)
  end.

Definition __calc_delta (fuel : nat) (delta_exec weight : Z) : M load_weight Z :=
  let fact := wrap 64 (scale_load_down (wrap 32 weight)) in
  let shift := WMULT_SHIFT in
  __update_inv_weight;;
  match shift_loop fuel fact shift with
  | None => out_of_fuel
  | Some (fact, shift) =>
    iw ← gets inv_weight;
    let fact := wrap 32 fact *[64] iw in
    match shift_loop fuel fact shift with
    | None => out_of_fuel
    | Some (fact, shift) =>
      mret (mul_u64_u32_shr delta_exec (wrap 32 fact) (wrap 32 shift))
    end
  end.
End weights.

(** * The scheduler *)

Section cfs.
  Context `{SchedLib}.
  Abbreviation st := (sched env).
  Abbreviation C := (M st).

Definition acct (c : acct_call) : C unit := modify (λ s, with_world (acct_effect c (world s)) s).
Definition clock_of (q : Z) : C Z := λ s,
  let '(now, w) := sched_clock_cpu (cpu_of (rq_of q)) (world s) in Ret (now, with_world w s).

(** [calc_delta_fair] updates the cached [se->load.inv_weight]. *)
Definition calc_delta_fair (delta se : Z) : C Z :=
  e ← get_se se;
  if negb (weight (se_load e) =? NICE_0_LOAD) then
    match __calc_delta 65 delta NICE_0_LOAD (se_load e) with
    | Ret (d, lw) => mod_se se (with_load lw);; mret d
    | Fault => fault
    | Panic msg => panic_with msg
    | OutOfFuel => out_of_fuel
    end
  else mret delta.

Definition update_min_vruntime (q : Z) : C unit :=
  c ← get_cfs q;
  cur ← (if curr c =? NULL then mret None
         else e ← get_se (curr c); mret (if on_rq e =? 0 then None else Some (vruntime e)));
  v ← (if rb_leftmost c =? NULL then mret (default (min_vruntime c) cur)
       else e ← get_se (rb_leftmost c);
            mret (match cur with
                  | None => vruntime e
                  | Some v => min_vruntime_of v (vruntime e) end));
  mod_cfs q (with_min_vruntime (max_vruntime_of (min_vruntime c) v)).

Definition update_curr (q : Z) : C unit :=
  c ← get_cfs q;
  now ← clock_of q;
  if curr c =? NULL then mret tt else
  e ← get_se (curr c);
  let delta_exec := now -[64] exec_start e in
  if cast s64 delta_exec <=? 0 then mret tt else
  mod_se (curr c) (with_exec_start now);;
  acct (schedstat_exec_max (curr c) delta_exec);;
  mod_se (curr c) (λ e, with_sum_exec (sum_exec_runtime e +[64] delta_exec) e);;
  acct (schedstat_exec_clock q delta_exec);;
  d ← calc_delta_fair delta_exec (curr c);
  mod_se (curr c) (λ e, with_vruntime (vruntime e +[64] d) e);;
  update_min_vruntime q;;
  (if entity_is_task (curr c) then
     e ← get_se (curr c);
     acct (trace_sched_stat_runtime (curr c) delta_exec (vruntime e));;
     acct (cpuacct_charge (curr c) delta_exec);;
     acct (account_group_exec_runtime (curr c) delta_exec)
   else mret tt);;
  acct (account_cfs_rq_runtime q delta_exec).

Definition entity_key (q se : Z) : C Z :=
  e ← get_se se; c ← get_cfs q;
  mret (cast s64 (vruntime e -[64] min_vruntime c)).

(** The descent of [__enqueue_entity]: the link it stops at, and whether it
    never went right. *)
Fixpoint find_link (q se : Z) (link : rb_tree) (leftmost : bool) : C (list rb_dir * bool) :=
  match link with
  | rb_null => mret ([], leftmost)
  | rb_node _ rb_left entry rb_right =>
    k ← entity_key q se;
    k' ← entity_key q entry;
    if k <? k' then
      r ← find_link q se rb_left leftmost; mret (to_left :: fst r, snd r)
    else
      r ← find_link q se rb_right false; mret (to_right :: fst r, snd r)
  end.

Definition __enqueue_entity (q se : Z) : C unit :=
  c ← get_cfs q;
  r ← find_link q se (tasks_timeline c) true;
  (if snd r : bool then mod_cfs q (with_leftmost se) else mret tt);;
  mod_cfs q (λ c, with_timeline (rb_link_node (tasks_timeline c) (fst r) se) c);;
  mod_cfs q (λ c, with_timeline (rb_insert_color (tasks_timeline c) se) c).

Definition __dequeue_entity (q se : Z) : C unit :=
  c ← get_cfs q;
  (if rb_leftmost c =? se then mod_cfs q (with_leftmost (rb_next (tasks_timeline c) se))
   else mret tt);;
  mod_cfs q (λ c, with_timeline (rb_erase (tasks_timeline c) se) c).

Definition __pick_first_entity (q : Z) : C Z := c ← get_cfs q; mret (rb_leftmost c).

(** [rb_next(&se->run_node)] in the tree of [q], which holds [se]. *)
Definition __pick_next_entity (q se : Z) : C Z :=
  c ← get_cfs q; mret (rb_next (tasks_timeline c) se).

Definition preempts (a b : Z) : C Z :=
  ea ← get_se a; eb ← get_se b; w ← gets world; mret (wakeup_preempt_entity w ea eb).
Definition before (a b : Z) : C bool :=
  ea ← get_se a; eb ← get_se b; mret (entity_before ea eb).

(** [if (!x || (curr && entity_before(curr, x))) x = curr;] *)
Definition or_curr (x cur : Z) : C Z :=
  if x =? NULL then mret cur
  else if cur =? NULL then mret x
  else b ← before cur x; mret (if b : bool then cur else x).

(** [if (cfs_rq->hint && wakeup_preempt_entity(cfs_rq->hint, left) < 1) se = cfs_rq->hint;] *)
Definition or_hint (hint left se : Z) : C Z :=
  if hint =? NULL then mret se
  else w ← preempts hint left; mret (if w <? 1 then hint else se).

Definition pick_next_entity (q cur : Z) : C Z :=
  left ← __pick_first_entity q;
  left ← or_curr left cur;
  h ← get_hints q;
  se ← (if skip h =? left then
          second ← (if left =? cur then __pick_first_entity q
                    else x ← __pick_next_entity q left; or_curr x cur);
          or_hint second left left
        else mret left);
  se ← or_hint (last h) left se;
  se ← or_hint (next h) left se;
  modify (λ s, with_hints (clear_buddies q se (hints s)) s);;
  mret se.

Definition set_next_entity (q se : Z) : C unit :=
  e ← get_se se;
  (if negb (on_rq e =? 0) then acct (update_stats_wait_end q se);; __dequeue_entity q se
   else mret tt);;
  acct (update_stats_curr_start q se);;
  mod_cfs q (with_curr se);;
  w ← gets world;
  (if schedstat_enabled w then
     r ← rq_get (rq_of q) rq_load_weight;
     e ← get_se se;
     if 2 *[64] weight (se_load e) <=? r
     then acct (schedstat_slice_max se (sum_exec_runtime e -[64] prev_sum_exec_runtime e))
     else mret tt
   else mret tt);;
  mod_se se (λ e, with_prev_sum (sum_exec_runtime e) e);;
  now ← clock_of q;
  mod_se se (with_exec_start now).

Definition put_prev_entity (q prev : Z) : C unit :=
  e ← get_se prev;
  (if negb (on_rq e =? 0) then update_curr q else mret tt);;
  acct (check_cfs_rq_runtime q);;
  acct (check_spread q prev);;
  e ← get_se prev;
  (if negb (on_rq e =? 0) then
     acct (update_stats_wait_start q prev);;
     __enqueue_entity q prev;;
     acct (update_load_avg prev 0)
   else mret tt);;
  mod_cfs q (with_curr NULL).

(** [&rq->cfs] is [r], [&prev->se] is [prev]. *)
Definition pick_next_task_fair (r prev : Z) : C Z :=
  c ← get_cfs r;
  if nr_running c =? 0 then mret NULL else
  kept ← (if prev =? NULL then mret false else
    cl ← task_get prev t_sched_class;
    if negb (cl =? fair_sched_class) then mret false else
    update_curr r;;
    e ← get_se prev;
    b ← (if negb (on_rq e =? 0) && entity_is_task prev then
           se ← __pick_first_entity r;
           if se =? NULL then mret false
           else k ← entity_key r prev; k' ← entity_key r se; mret (k <=? k')
         else mret false);
    if b : bool then mret true else put_prev_entity r prev;; mret false);
  if kept : bool then mret prev else
  se ← pick_next_entity r NULL;
  if se =? NULL then mret NULL else
  set_next_entity r se;;
  mret se.

Definition place_entity (q se : Z) (initial : bool) : C unit :=
  c ← get_cfs q; e ← get_se se; w ← gets world;
  let v := min_vruntime c in
  let v := if initial && sched_feat START_DEBIT then v +[64] sched_vslice w c e else v in
  let v := if initial then v else
    let thresh := wrap 32 (sysctl_sched_latency w) in
    let thresh := if sched_feat GENTLE_FAIR_SLEEPERS then Z.shiftr thresh 1 else thresh in
    v -[64] thresh in
  mod_se se (with_vruntime (max_vruntime_of (vruntime e) v)).

Definition has_flag (flags f : Z) : bool := negb (Z.land flags f =? 0).

Definition enqueue_entity (q se flags : Z) : C unit :=
  (if negb (has_flag flags ENQUEUE_WAKEUP) || has_flag flags ENQUEUE_WAKING then
     c ← get_cfs q; mod_se se (λ e, with_vruntime (vruntime e +[64] min_vruntime c) e)
   else mret tt);;
  update_curr q;;
  acct (enqueue_entity_load_avg q se);;
  e ← get_se se;
  mod_cfs q (λ c, let '(lw, n) := account_entity_enqueue (load c, nr_running c) (se_load e) in
    with_cfs_load lw n c);;
  acct (update_cfs_shares q);;
  (if has_flag flags ENQUEUE_WAKEUP then
     place_entity q se false;;
     w ← gets world;
     if schedstat_enabled w then acct (enqueue_sleeper q se) else mret tt
   else mret tt);;
  acct (update_stats_enqueue q se);;
  acct (check_spread q se);;
  c ← get_cfs q;
  (if negb (se =? curr c) then __enqueue_entity q se else mret tt);;
  mod_se se (with_on_rq 1);;
  c ← get_cfs q;
  if nr_running c =? 1 then acct (list_add_leaf_cfs_rq q);; acct (check_enqueue_throttle q)
  else mret tt.

Definition dequeue_entity (q se flags : Z) : C unit :=
  update_curr q;;
  acct (dequeue_entity_load_avg q se);;
  acct (update_stats_dequeue q se);;
  (if has_flag flags DEQUEUE_SLEEP && entity_is_task se then
     state ← task_get se t_state;
     (if has_flag state TASK_INTERRUPTIBLE
      then now ← clock_of q; acct (set_sleep_start se now) else mret tt);;
     (if has_flag state TASK_UNINTERRUPTIBLE
      then now ← clock_of q; acct (set_block_start se now) else mret tt)
   else mret tt);;
  modify (λ s, with_hints (clear_buddies q se (hints s)) s);;
  c ← get_cfs q;
  (if negb (se =? curr c) then __dequeue_entity q se else mret tt);;
  mod_se se (with_on_rq 0);;
  e ← get_se se;
  mod_cfs q (λ c, let '(lw, n) := account_entity_dequeue (load c, nr_running c) (se_load e) in
    with_cfs_load lw n c);;
  (if negb (has_flag flags DEQUEUE_SLEEP) then
     c ← get_cfs q; mod_se se (λ e, with_vruntime (vruntime e -[64] min_vruntime c) e)
   else mret tt);;
  acct (return_cfs_rq_runtime q);;
  update_min_vruntime q;;
  acct (update_cfs_shares q).

(** * Tasks: the walk up the group hierarchy *)

(** First [for_each_sched_entity] of [enqueue_task_fair]: the entity it stops
    at, [NULL] when it ran off the root. *)
Fixpoint enqueue_up (fuel : nat) (se flags : Z) : C Z :=
  match fuel with
  | O => out_of_fuel
  | S fuel =>
    if se =? NULL then mret NULL else
    e ← get_se se;
    if negb (on_rq e =? 0) then mret se else
    let q := cfs_rq_of se in
    enqueue_entity q se flags;;
    w ← gets world;
    if cfs_rq_throttled w q then mret se else
    mod_cfs q (λ c, with_h_nr (h_nr_running c +[32] 1) c);;
    enqueue_up fuel (parent_entity se) ENQUEUE_WAKEUP
  end.

(** The second loop of [enqueue_task_fair] ([d = 1]) and [dequeue_task_fair]
    ([d = -1]). *)
Fixpoint account_up (d : Z) (fuel : nat) (se : Z) : C Z :=
  match fuel with
  | O => out_of_fuel
  | S fuel =>
    if se =? NULL then mret NULL else
    let q := cfs_rq_of se in
    mod_cfs q (λ c, with_h_nr (h_nr_running c +[32] d) c);;
    w ← gets world;
    if cfs_rq_throttled w q then mret se else
    acct (update_load_avg se 1);;
    acct (update_cfs_shares q);;
    account_up d fuel (parent_entity se)
  end.

Definition enqueue_task_fair (fuel : nat) (r p flags : Z) : C unit :=
  se ← enqueue_up fuel p flags;
  se ← account_up 1 fuel se;
  (if se =? NULL then n ← rq_get r rq_nr_running; rq_set r rq_nr_running (add_nr_running n 1)
   else mret tt);;
  acct (hrtick_update r).

Fixpoint dequeue_up (fuel : nat) (task_sleep : bool) (se flags : Z) : C Z :=
  match fuel with
  | O => out_of_fuel
  | S fuel =>
    if se =? NULL then mret NULL else
    let q := cfs_rq_of se in
    dequeue_entity q se flags;;
    w ← gets world;
    if cfs_rq_throttled w q then mret se else
    mod_cfs q (λ c, with_h_nr (h_nr_running c -[32] 1) c);;
    c ← get_cfs q;
    if negb (weight (load c) =? 0) then
      let se := parent_entity se in
      (if task_sleep && negb (se =? NULL) && negb (throttled_hierarchy w q)
       then modify (λ s, with_hints (set_next_buddy se (hints s)) s) else mret tt);;
      mret se
    else dequeue_up fuel task_sleep (parent_entity se) (Z.lor flags DEQUEUE_SLEEP)
  end.

Definition dequeue_task_fair (fuel : nat) (r p flags : Z) : C unit :=
  se ← dequeue_up fuel (has_flag flags DEQUEUE_SLEEP) p flags;
  se ← account_up (-1) fuel se;
  (if se =? NULL then n ← rq_get r rq_nr_running; rq_set r rq_nr_running (sub_nr_running n 1)
   else mret tt);;
  acct (hrtick_update r).

(** * Preemption and yielding *)

(** The [preempt:] label of [check_preempt_wakeup]. *)
Definition do_preempt (r cur se : Z) (scale : bool) : C unit :=
  acct (resched_curr r);;
  e ← get_se se;
  idle ← rq_get r rq_idle;
  if (on_rq e =? 0) || (cur =? idle) then mret tt else
  if sched_feat LAST_BUDDY && scale && entity_is_task se
  then modify (λ s, with_hints (set_last_buddy se (hints s)) s) else mret tt.

Definition check_preempt_wakeup (r p wake_flags : Z) : C unit :=
  cur ← rq_get r rq_curr;
  let se := cur in
  let pse := p in
  let q := task_cfs_rq cur in
  c ← get_cfs q;
  w ← gets world;
  let scale := sched_nr_latency w <=? nr_running c in
  if se =? pse then mret tt else
  if throttled_hierarchy w (cfs_rq_of pse) then mret tt else
  let mark := sched_feat NEXT_BUDDY && scale && negb (has_flag wake_flags WF_FORK) in
  (if mark then modify (λ s, with_hints (set_next_buddy pse (hints s)) s) else mret tt);;
  w ← gets world;
  if test_tsk_need_resched w cur then mret tt else
  policy ← task_get cur t_policy;
  p_policy ← task_get p t_policy;
  if (policy =? SCHED_IDLE) && negb (p_policy =? SCHED_IDLE) then do_preempt r cur se scale else
  if negb (p_policy =? SCHED_NORMAL) || negb (sched_feat WAKEUP_PREEMPTION) then mret tt else
  let '(se, pse) := find_matching_se se pse in
  update_curr (cfs_rq_of se);;
  if pse =? NULL then panic_with "BUG_ON" else
  v ← preempts se pse;
  if v =? 1 then
    (if mark then mret tt else modify (λ s, with_hints (set_next_buddy pse (hints s)) s));;
    do_preempt r cur se scale
  else mret tt.

(** * The runqueue clock (sched.c) *)

Definition update_rq_clock_task (r delta : Z) : C unit :=
  prev_irq ← rq_get r rq_prev_irq_time;
  w ← gets world;
  let irq_delta := cast s64 (irq_time_read (cpu_of r) w -[64] prev_irq) in
  let irq_delta := if delta <? irq_delta then delta else irq_delta in
  rq_set r rq_prev_irq_time (prev_irq +[64] irq_delta);;
  let delta := cast s64 (delta - irq_delta) in
  steal ← (λ s, let '(t, w) := steal_account_process_tick (cpu_of r) (world s) in
                Ret (cast s64 t, with_world w s));
  let steal := if delta <? steal then delta else steal in
  prev_steal ← rq_get r rq_prev_steal_time_rq;
  rq_set r rq_prev_steal_time_rq (prev_steal +[64] steal);;
  let delta := cast s64 (delta - steal) in
  ct ← rq_get r rq_clock_task;
  rq_set r rq_clock_task (ct +[64] delta).

Definition update_rq_clock (r : Z) : C unit :=
  now ← (λ s, let '(now, w) := sched_clock_cpu (cpu_of r) (world s) in Ret (now, with_world w s));
  clk ← rq_get r rq_clock;
  let delta := cast s64 (now -[64] clk) in
  if delta <? 0 then mret tt else
  rq_set r rq_clock (clk +[64] delta);;
  update_rq_clock_task r delta.

Definition yield_task_fair (r : Z) : C unit :=
  cur ← rq_get r rq_curr;
  let q := task_cfs_rq cur in
  let se := cur in
  n ← rq_get r rq_nr_running;
  if n =? 1 then mret tt else
  modify (λ s, with_hints (clear_buddies q se (hints s)) s);;
  policy ← task_get cur t_policy;
  (if negb (policy =? SCHED_BATCH) then
     update_rq_clock r;;
     update_curr q;;
     acct (rq_clock_skip_update r true)
   else mret tt);;
  modify (λ s, with_hints (set_skip_buddy se (hints s)) s).
End cfs.
