(* ===== verification/CfsTheory.v ===== *)
(** What the scheduler relies on in the code outside the sources (class
    [SchedLaws]), and the lemmas about the operations of [Cfs]: weighted
    time, the timeline as a sorted list, and the invariant [sched_ok] with the
    operations that keep it. *)
From stdpp Require Import base gmap list strings fin_maps sorting.
From S2P Require Import Prelude CTypes SchedData Cfs.

(** * Documented behaviour of the code outside the sources *)

(** What lies before and after the null link a path leads to. *)
Fixpoint around (t : rb_tree) (path : list rb_dir) : option (list Z * list Z) :=
  match t, path with
  | rb_null, [] => Some ([], [])
  | rb_node _ l e r, to_left :: path =>
    '(a, b) ← around l path; Some (a, b ++ e :: inorder r)
  | rb_node _ l e r, to_right :: path =>
    '(a, b) ← around r path; Some (inorder l ++ e :: a, b)
  | _, _ => None
  end.

(** The hints of a [cfs_rq] after a call are NULL, what they were, or, for a
    call that sets buddies, an entity that queues on that [cfs_rq]. *)
Definition hint_from `{SchedLib} (set : Z → Z → Prop) (q old new : Z) : Prop :=
  new = NULL ∨ new = old ∨ set q new.
Definition hints_from `{SchedLib} (set : Z → Z → Prop) (h h' : gmap Z buddy_hints) : Prop :=
  ∀ q, match h !! q, h' !! q with
       | Some b, Some b' => hint_from set q (next b) (next b') ∧
           hint_from set q (last b) (last b') ∧ hint_from set q (skip b) (skip b')
       | None, None => True
       | _, _ => False
       end.

(** The entities from [se] up to the root. *)
Fixpoint chain `{SchedLib} (se : Z) (l : list Z) : Prop :=
  match l with
  | [] => se = NULL
  | e :: l => se = e ∧ e ≠ NULL ∧ chain (parent_entity e) l
  end.

Class SchedLaws `{SchedLib} := {
  rb_link_node_law : ∀ t path se a b, around t path = Some (a, b) →
    inorder (rb_link_node t path se) = a ++ se :: b;
  rb_insert_color_law : ∀ t se, inorder (rb_insert_color t se) = inorder t;
  rb_erase_law : ∀ t se a b, inorder t = a ++ se :: b → NoDup (inorder t) →
    inorder (rb_erase t se) = a ++ b;
  rb_next_law : ∀ t se a b, inorder t = a ++ se :: b → NoDup (inorder t) →
    rb_next t se = hd NULL b;
  max_vruntime_law : ∀ a b, 0 ≤ a < 2 ^ 64 → 0 ≤ b < 2 ^ 64 → Z.abs (a - b) < 2 ^ 63 →
    max_vruntime_of a b = Z.max a b;
  min_vruntime_law : ∀ a b, 0 ≤ a < 2 ^ 64 → 0 ≤ b < 2 ^ 64 → Z.abs (a - b) < 2 ^ 63 →
    min_vruntime_of a b = Z.min a b;
  account_entity_enqueue_law : ∀ lw n se, snd (account_entity_enqueue (lw, n) se) = n +[32] 1;
  account_entity_dequeue_law : ∀ lw n se, snd (account_entity_dequeue (lw, n) se) = n -[32] 1;
  scale_load_down_law : ∀ w, scale_load_down w = w;
  WMULT_SHIFT_law : WMULT_SHIFT = 32;
  WMULT_CONST_law : WMULT_CONST = 2 ^ 32 - 1;
  mul_u64_u32_shr_law : ∀ a b n, 0 ≤ a < 2 ^ 64 → 0 ≤ b < 2 ^ 32 → 0 ≤ n ≤ 32 →
    mul_u64_u32_shr a b n = wrap 64 (Z.shiftr (a * b) n);
  clear_buddies_law : ∀ q se h, hints_from (λ _ _, False) h (clear_buddies q se h);
  clear_buddies_clear : ∀ q se h b, cfs_rq_of se = q → se ≠ NULL → clear_buddies q se h !! q = Some b →
    next b ≠ se ∧ last b ≠ se;
  (* it marks the entities up to the root *)
  set_next_buddy_law : ∀ l se h, chain se l →
    hints_from (λ q x, x ∈ l ∧ q = cfs_rq_of x) h (set_next_buddy se h);
  (* for an entity without group above it *)
  set_last_buddy_law : ∀ se h, parent_entity se = NULL →
    hints_from (λ q x, x = se ∧ q = cfs_rq_of se) h (set_last_buddy se h);
  set_skip_buddy_law : ∀ se h, parent_entity se = NULL →
    hints_from (λ q x, x = se ∧ q = cfs_rq_of se) h (set_skip_buddy se h);
  set_skip_buddy_only : ∀ se h q b, set_skip_buddy se h !! q = Some b →
    ∃ b0, h !! q = Some b0 ∧ next b = next b0 ∧ last b = last b0;
  find_matching_se_law : ∀ a b, parent_entity a = NULL → parent_entity b = NULL →
    find_matching_se a b = (a, b);
  task_cfs_rq_law : ∀ p, task_cfs_rq p = cfs_rq_of p;
  add_nr_running_law : ∀ n k, add_nr_running n k = n +[32] k;
  sub_nr_running_law : ∀ n k, sub_nr_running n k = n -[32] k
}.

(** * Weighted time *)

Lemma shift_loop_spec fuel : ∀ n fact shift, (n < fuel)%nat → 0 ≤ fact < 2 ^ (32 + Z.of_nat n) →
  ∃ k, 0 ≤ k ≤ Z.of_nat n ∧ shift_loop fuel fact shift = Some (fact `div` 2 ^ k, shift - k) ∧
       fact `div` 2 ^ k < 2 ^ 32.
Proof.
  induction fuel as [|fuel IH]; intros n fact shift Hn Hf; [by apply Nat.nlt_0_r in Hn|].
  assert (0 ≤ fact) as Hf0 by apply Hf. cbn [shift_loop].
  rewrite Z.shiftr_div_pow2 by lia. destruct (Z.eqb_spec (fact `div` 2 ^ 32) 0) as [Hz|Hz].
  - exists 0. rewrite Z.div_1_r, Z.sub_0_r. split_and!; [lia..|done|].
    apply Z.div_small_iff in Hz; lia.
  - destruct n as [|n].
    { exfalso. apply Hz, Z.div_small. simpl in Hf. lia. }
    rewrite Z.shiftr_div_pow2 by lia.
    destruct (IH n (fact `div` 2 ^ 1) (shift - 1)) as (k & Hk & Hrun & Hlt); [lia| |].
    { split; [by apply Z.div_pos|]. apply Z.div_lt_upper_bound; [done|].
      rewrite <-Z.pow_add_r by lia. replace (1 + (32 + Z.of_nat n)) with (32 + Z.of_nat (S n)) by lia.
      apply Hf. }
    exists (k + 1). rewrite Hrun, Z.pow_add_r by lia.
    replace (2 ^ k * 2 ^ 1) with (2 ^ 1 * 2 ^ k) by lia.
    rewrite <-Z.div_div by lia. split_and!; [lia..| |done]. do 2 f_equal. lia.
Qed.

Section weights.
  Context `{SchedLaws}.

(** A cached inverse is either absent or the one [__update_inv_weight] computes. *)
Definition inv_ok (lw : load_weight) : Prop :=
  0 ≤ weight lw < 2 ^ 32 - 1 ∧
  (inv_weight lw = 0 ∨ inv_weight lw = (2 ^ 32 - 1) `div` Z.max 1 (weight lw)).

Definition inverted (lw : load_weight) : load_weight :=
  LoadWeight (weight lw) ((2 ^ 32 - 1) `div` Z.max 1 (weight lw)).

Lemma inverted_range lw : inv_ok lw → 0 < inv_weight (inverted lw) < 2 ^ 32.
Proof.
  intros [Hw _]. simpl. split.
  - apply Z.div_str_pos. lia.
  - apply Z.div_lt_upper_bound; [lia|]. nia.
Qed.

Lemma update_inv_weight_run lw : inv_ok lw → __update_inv_weight lw = Ret (tt, inverted lw).
Proof.
  intros [Hw Hi]. unfold __update_inv_weight. mstep.
  rewrite scale_load_down_law, WMULT_CONST_law, wrap_small by lia.
  destruct (Z.eqb_spec (inv_weight lw) 0) as [Hz|Hz]; simpl.
  - unfold put, inverted. do 3 f_equal.
    destruct (Z.leb_spec (2 ^ 32 - 1) (weight lw)); [lia|].
    destruct (Z.eqb_spec (weight lw) 0) as [->|]; [done|]. by rewrite Z.max_r by lia.
  - destruct Hi as [|Hi]; [done|]. unfold inverted. rewrite <-Hi. by destruct lw.
Qed.

(** The factor the loops leave, and the shift that goes with it. *)
Lemma calc_delta_run lw delta : inv_ok lw → 0 ≤ delta < 2 ^ 64 →
  ∃ k, 0 ≤ k ≤ 10 ∧ let f := (NICE_0_LOAD * inv_weight (inverted lw)) `div` 2 ^ k in
    0 ≤ f < 2 ^ 32 ∧
    __calc_delta 65 delta NICE_0_LOAD lw =
      Ret (wrap 64 ((delta * f) `div` 2 ^ (32 - k)), inverted lw).
Proof.
  intros Hok Hd. pose proof (inverted_range lw Hok) as Hi. remember (inverted lw) as lw' eqn:Hlw'.
  assert (0 ≤ NICE_0_LOAD * inv_weight lw' < 2 ^ (32 + Z.of_nat 10)) as Hf.
  { unfold NICE_0_LOAD. simpl. lia. }
  destruct (shift_loop_spec 65 10 (NICE_0_LOAD * inv_weight lw') 32) as (k & Hk & Hrun & Hlt);
    [lia|done|].
  exists k. split; [lia|]. split; [split; [apply Z.div_pos; lia|done]|].
  unfold __calc_delta. rewrite scale_load_down_law, WMULT_SHIFT_law.
  rewrite (bind_Ret _ _ _ tt lw') by (subst; by apply update_inv_weight_run).
  replace (shift_loop 65 _ 32) with (Some (1024, 32)) by done. mstep.
  replace (wrap 32 1024) with NICE_0_LOAD by done. rewrite wrap_small by (simpl in Hf; lia).
  rewrite Hrun. unfold mret, M_ret. rewrite (wrap_small 32 (_ `div` _)); [|split; [apply Z.div_pos|]; lia].
  rewrite (wrap_small 32) by lia.
  rewrite mul_u64_u32_shr_law, Z.shiftr_div_pow2; [done|lia|lia|split; [apply Z.div_pos|]; lia|lia].
Qed.

(** The arithmetic of the fixed-point product. *)
Lemma fixed_point_bounds (delta f P R i w d : Z) :
  0 ≤ delta → 0 < w → 0 < P ≤ 1024 → 0 < R → 2 ^ 32 = R * P →
  2 ^ 32 - w ≤ i * w ≤ 2 ^ 32 - 1 →
  1024 * i - P < f * P ≤ 1024 * i → delta * f - R < d * R ≤ delta * f →
  d * w ≤ delta * 1024 ∧ 2 ^ 32 * (delta * 1024 - (d + 1) * w) ≤ 2047 * w * delta.
Proof.
  intros Hd Hw HP HR H32 Hi Hf Hdr.
  assert (d * 2 ^ 32 ≤ delta * (1024 * i)) as Hup.
  { rewrite H32. transitivity (delta * f * P); nia. }
  assert (delta * (1024 * i - 1023) ≤ (d + 1) * 2 ^ 32) as Hlo.
  { rewrite H32. transitivity (delta * f * P); nia. }
  split.
  - assert (d * w * 2 ^ 32 ≤ delta * 1024 * 2 ^ 32); [|nia].
    transitivity (delta * (1024 * i) * w); nia.
  - assert (delta * (1024 * i - 1023) * w ≤ (d + 1) * w * 2 ^ 32) by nia.
    assert (delta * (1024 * (2 ^ 32 - w) - 1023 * w) ≤ delta * (1024 * i - 1023) * w); nia.
Qed.

(** Virtual time runs at [NICE_0_LOAD / weight] of real time: never faster,
    and slower by no more than the rounding of the fixed-point factor. *)
Lemma calc_delta_bounds lw delta d lw' : inv_ok lw → 0 < weight lw → 0 ≤ delta < 2 ^ 54 →
  __calc_delta 65 delta NICE_0_LOAD lw = Ret (d, lw') →
  0 ≤ d ∧ d * weight lw ≤ delta * NICE_0_LOAD ∧
  2 ^ 32 * (delta * NICE_0_LOAD - (d + 1) * weight lw) ≤ 2047 * weight lw * delta ∧
  inv_ok lw' ∧ weight lw' = weight lw.
Proof.
  intros Hok Hw Hd Hrun.
  destruct (calc_delta_run lw delta Hok) as (k & Hk & Hf & Hrun'); [lia|].
  rewrite Hrun' in Hrun. injection Hrun as <- <-.
  pose proof (inverted_range lw Hok) as Hi. simpl in Hf, Hi |- *.
  destruct Hok as [Hw2 _]. rewrite Z.max_r in * by lia.
  set (w := weight lw) in *. set (i := (2 ^ 32 - 1) `div` w) in *.
  assert (2 ^ 32 - w ≤ i * w ≤ 2 ^ 32 - 1) as Hiw.
  { pose proof (Z.div_mod (2 ^ 32 - 1) w ltac:(lia)).
    pose proof (Z.mod_pos_bound (2 ^ 32 - 1) w ltac:(lia)). subst i. nia. }
  assert (2 ^ 32 = 2 ^ (32 - k) * 2 ^ k) as H32 by (rewrite <-Z.pow_add_r by lia; f_equal; lia).
  assert (0 < 2 ^ k ≤ 1024) as Hpk.
  { split; [apply pow2_pos; lia|]. apply (Z.pow_le_mono_r 2 k 10); lia. }
  assert (0 < 2 ^ (32 - k)) as Hp by (apply pow2_pos; lia).
  set (P := 2 ^ k) in *. set (R := 2 ^ (32 - k)) in *.
  set (f := (NICE_0_LOAD * i) `div` P) in *.
  assert (NICE_0_LOAD * i - P < f * P ≤ NICE_0_LOAD * i) as HfP.
  { pose proof (Z.div_mod (NICE_0_LOAD * i) P ltac:(lia)).
    pose proof (Z.mod_pos_bound (NICE_0_LOAD * i) P ltac:(lia)). subst f. nia. }
  set (d := (delta * f) `div` R).
  assert (delta * f - R < d * R ≤ delta * f) as HdR.
  { pose proof (Z.div_mod (delta * f) R ltac:(lia)).
    pose proof (Z.mod_pos_bound (delta * f) R ltac:(lia)). subst d. nia. }
  assert (0 ≤ d) as Hd0 by (apply Z.div_pos; [nia|done]).
  destruct (fixed_point_bounds delta f P R i w d) as [Hup Hlo]; [lia..|nia|done|done|done|].
  rewrite wrap_small by nia. split_and!; [done|done|done| |done].
  split; [done|]. right. simpl. by rewrite Z.max_r by lia.
Qed.
End weights.

(** [shift_loop] ends within the fuel [__calc_delta] is run with, whatever the
    load: every 64-bit factor is below 2^32 after 32 halvings. *)
Lemma calc_delta_returns `{SchedLib} delta w lw : ∃ d lw', __calc_delta 65 delta w lw = Ret (d, lw').
Proof.
  enough (wp (__calc_delta 65 delta w) lw (λ _ _, True)) as (d & lw' & ? & _)%wp_returns by eauto.
  unfold __calc_delta.
  assert (∀ f sh, ∃ f' sh', shift_loop 65 (wrap 64 f) sh = Some (f', sh')) as Hloop.
  { intros f sh. destruct (shift_loop_spec 65 32 (wrap 64 f) sh) as (k & _ & Hrun & _); [lia| |eauto].
    by apply wrap_range. }
  apply wp_bind, wp_returns.
  assert (∃ lw1, __update_inv_weight lw = Ret (tt, lw1)) as [lw1 Hinv].
  { unfold __update_inv_weight. mstep. by destruct (inv_weight lw =? 0); eexists. }
  exists tt, lw1. split; [done|].
  destruct (Hloop (scale_load_down (wrap 32 w)) WMULT_SHIFT) as (f & sh & ->).
  apply wp_bind, wp_gets.
  by destruct (Hloop (wrap 32 f * inv_weight lw1) sh) as (f' & sh' & ->).
Qed.

(** * Accesses *)

Section accesses.
  Context `{SchedLib}.
  Abbreviation st := (sched env).
  Implicit Types (s : st).

Lemma wp_get_se e x s Q : ses s !! e = Some x → Q x s → wp (get_se e) s Q.
Proof. apply (wp_get_some (λ s, ses s !! e)). Qed.
Lemma wp_mod_se e f x s (Q : unit → st → Prop) :
  ses s !! e = Some x → Q tt (with_ses (<[e := f x]> (ses s)) s) → wp (mod_se e f) s Q.
Proof. intros. by eapply wp_bind, wp_get_se. Qed.
Lemma wp_get_cfs q c s Q : cfs s !! q = Some c → Q c s → wp (get_cfs q) s Q.
Proof. apply (wp_get_some (λ s, cfs s !! q)). Qed.
Lemma wp_mod_cfs q f c s (Q : unit → st → Prop) :
  cfs s !! q = Some c → Q tt (with_cfs (<[q := f c]> (cfs s)) s) → wp (mod_cfs q f) s Q.
Proof. intros. by eapply wp_bind, wp_get_cfs. Qed.
Lemma wp_get_hints q h s Q : hints s !! q = Some h → Q h s → wp (get_hints q) s Q.
Proof. apply (wp_get_some (λ s, hints s !! q)). Qed.
Lemma wp_acct c s Q : (∀ w, Q tt (with_world w s)) → wp (acct c) s Q.
Proof. intros HQ. apply wp_modify, HQ. Qed.
Lemma wp_clock_of q s Q : (∀ now w, Q now (with_world w s)) → wp (clock_of q) s Q.
Proof. unfold wp, clock_of. intros HQ. by destruct (sched_clock_cpu _ _). Qed.
Lemma wp_task_get p f t s Q : tasks s !! p = Some t → Q (tfields t f) s → wp (task_get p f) s Q.
Proof. intros. by eapply wp_bind, (wp_get_some (λ s, tasks s !! p)). Qed.
Lemma wp_rq_get r f x s Q : rqs s !! r = Some x → Q (rqfields x f) s → wp (rq_get r f) s Q.
Proof. intros. by eapply wp_bind, (wp_get_some (λ s, rqs s !! r)). Qed.
Lemma wp_rq_set r f v x s (Q : unit → st → Prop) : rqs s !! r = Some x →
  Q tt (with_rqs (<[r := Rq (rq_lock x) (upd f v (rqfields x))]> (rqs s)) s) →
  wp (rq_set r f v) s Q.
Proof. intros. by eapply wp_bind, (wp_get_some (λ s, rqs s !! r)). Qed.

(** [calc_delta_fair] caches the inverse weight and changes nothing else. *)
Lemma wp_calc_delta_fair delta e x s Q : ses s !! e = Some x →
  (∀ d lw, (if weight (se_load x) =? NICE_0_LOAD then d = delta ∧ lw = se_load x
            else __calc_delta 65 delta NICE_0_LOAD (se_load x) = Ret (d, lw)) →
     Q d (with_ses (<[e := with_load lw x]> (ses s)) s)) →
  wp (calc_delta_fair delta e) s Q.
Proof.
  intros Hx HQ. unfold calc_delta_fair. eapply wp_bind, wp_get_se; [done|].
  destruct (Z.eqb_spec (weight (se_load x)) NICE_0_LOAD) as [Hn|Hn]; simpl.
  - apply wp_ret. specialize (HQ delta (se_load x) (conj eq_refl eq_refl)).
    replace (with_load (se_load x) x) with x in HQ by (by destruct x).
    rewrite insert_id in HQ by done. by destruct s.
  - destruct (calc_delta_returns delta NICE_0_LOAD (se_load x)) as (d & lw & Hrun). rewrite Hrun.
    eapply wp_bind, wp_mod_se; [done|]. apply wp_ret, HQ, Hrun.
Qed.
End accesses.

(** * Queues *)

Definition vr `{SchedLib} (s : sched env) (e : Z) : Z :=
  match ses s !! e with Some x => vruntime x | None => 0 end.
Definition runnable `{SchedLib} (s : sched env) (q e : Z) : Prop :=
  cfs_rq_of e = q ∧ ∃ x, ses s !! e = Some x ∧ on_rq x ≠ 0.

(** The number of runnable entities: those of the timeline and the current one. *)
Definition curr_on `{SchedLib} (s : sched env) (c : cfs_rq) : bool :=
  match ses s !! curr c with Some x => negb (on_rq x =? 0) | None => false end.
Definition queue_len `{SchedLib} (s : sched env) (c : cfs_rq) : Z :=
  Z.of_nat (length (inorder (tasks_timeline c))) + (if curr_on s c then 1 else 0).

(** The shape of a run queue: its timeline holds every runnable entity but the
    current one, once, [rb_leftmost] is its first node and [nr_running] counts
    the runnable entities. *)
Record cfs_ok `{SchedLib} (s : sched env) (q : Z) (c : cfs_rq) : Prop := {
  co_nodup : NoDup (inorder (tasks_timeline c));
  co_leftmost : rb_leftmost c = hd NULL (inorder (tasks_timeline c));
  co_members : ∀ e, e ∈ inorder (tasks_timeline c) ↔ e ≠ curr c ∧ runnable s q e;
  co_curr : curr c ≠ NULL → is_Some (ses s !! curr c) ∧ cfs_rq_of (curr c) = q;
  co_nr : nr_running c = wrap 32 (queue_len s c)
}.

Definition hint_ok `{SchedLib} (s : sched env) (q e : Z) : Prop :=
  e = NULL ∨ (is_Some (ses s !! e) ∧ cfs_rq_of e = q).

Definition hints_ok `{SchedLib} (s : sched env) (q : Z) : Prop :=
  ∃ b, hints s !! q = Some b ∧ hint_ok s q (next b) ∧ hint_ok s q (last b) ∧ hint_ok s q (skip b).

Record sched_ok `{SchedLib} (s : sched env) : Prop := {
  so_null : ses s !! NULL = None;
  so_cfs : ∀ q c, cfs s !! q = Some c → cfs_ok s q c;
  so_hints : ∀ q, is_Some (cfs s !! q) → hints_ok s q;
  so_rq : ∀ q, is_Some (cfs s !! q) → is_Some (rqs s !! rq_of q)
}.

(** The timelines are in the order of the virtual runtimes. *)
Definition sorted_by_vr `{SchedLib} (s : sched env) (c : cfs_rq) : Prop :=
  StronglySorted (λ a b, vr s a ≤ vr s b) (inorder (tasks_timeline c)).
Definition sched_sorted `{SchedLib} (s : sched env) : Prop :=
  ∀ q c, cfs s !! q = Some c → sorted_by_vr s c.

Definition same_on `{SchedLib} (s s' : sched env) : Prop :=
  ∀ e, on_rq <$> ses s' !! e = on_rq <$> ses s !! e.

(** Two states whose queues hold the same entities in the same order: what
    every operation that does not itself queue or dequeue keeps. *)
Record same_queues `{SchedLib} (s s' : sched env) : Prop := {
  sq_cfs : ∀ q, (λ c, (tasks_timeline c, rb_leftmost c, curr c, nr_running c)) <$> cfs s' !! q =
                (λ c, (tasks_timeline c, rb_leftmost c, curr c, nr_running c)) <$> cfs s !! q;
  sq_on : same_on s s';
  sq_vr : ∀ q c e, cfs s !! q = Some c → e ∈ inorder (tasks_timeline c) → vr s' e = vr s e;
  sq_hints : hints s' = hints s;
  sq_rq : ∀ r, is_Some (rqs s !! r) → is_Some (rqs s' !! r)
}.

Section queues.
  Context `{SchedLib}.
  Abbreviation st := (sched env).
  Implicit Types (s : st) (q e : Z) (c : cfs_rq).

Lemma same_on_dom s s' e : same_on s s' → is_Some (ses s' !! e) ↔ is_Some (ses s !! e).
Proof. intros Ho. rewrite <-(fmap_is_Some on_rq (ses s' !! e)), Ho. apply fmap_is_Some. Qed.

Lemma same_on_runnable s s' q e : same_on s s' → runnable s' q e ↔ runnable s q e.
Proof.
  intros Ho. specialize (Ho e). unfold runnable.
  destruct (ses s' !! e) as [x'|], (ses s !! e) as [x|]; simplify_eq/=; [|naive_solver..].
  split; intros (? & y & [= <-] & ?); (split; [done|]); eexists; split; try done; congruence.
Qed.

Lemma same_on_curr s s' c c' : same_on s s' → curr c' = curr c → curr_on s' c' = curr_on s c.
Proof.
  intros Ho Hc. unfold curr_on. rewrite Hc. specialize (Ho (curr c)).
  destruct (ses s' !! curr c), (ses s !! curr c); try done. by injection Ho as ->.
Qed.

#[export] Instance same_queues_refl : Reflexive (same_queues (H := H)).
Proof. by split. Qed.

#[export] Instance same_queues_trans : Transitive (same_queues (H := H)).
Proof.
  intros s1 s2 s3 [Hc1 Ho1 Hv1 Hh1 Hr1] [Hc2 Ho2 Hv2 Hh2 Hr2].
  split; [congruence|intros e; by rewrite Ho2| |congruence|auto].
  intros q c e Hq He. specialize (Hc1 q). rewrite Hq in Hc1.
  destruct (cfs s2 !! q) as [c2|] eqn:Hq2; [|done]. injection Hc1 as Ht _ _ _.
  rewrite (Hv2 q c2 e Hq2), (Hv1 q c e Hq He); [done|]. by rewrite Ht.
Qed.

Lemma same_queues_world s w : same_queues s (with_world w s).
Proof. by split. Qed.

Lemma same_queues_dom s s' e : same_queues s s' → is_Some (ses s' !! e) ↔ is_Some (ses s !! e).
Proof. intros Hs. apply same_on_dom, Hs. Qed.

Lemma same_queues_runnable s s' q e : same_queues s s' → runnable s' q e ↔ runnable s q e.
Proof. intros Hs. apply same_on_runnable, Hs. Qed.

Lemma same_queues_cfs s s' q c' : same_queues s s' → cfs s' !! q = Some c' →
  ∃ c, cfs s !! q = Some c ∧ tasks_timeline c' = tasks_timeline c ∧
       rb_leftmost c' = rb_leftmost c ∧ curr c' = curr c ∧ nr_running c' = nr_running c.
Proof.
  intros [Hc _ _ _ _] Hq. specialize (Hc q). rewrite Hq in Hc.
  destruct (cfs s !! q) as [c|]; [|done]. injection Hc as ? ? ? ?. eauto 10.
Qed.

Lemma same_queues_hint s s' q e : same_queues s s' → hint_ok s q e → hint_ok s' q e.
Proof.
  intros Hs [->|[He Hq]]; [by left|right]. split; [|done]. by apply (same_queues_dom s s').
Qed.

Lemma same_queues_ok s s' : sched_ok s → same_queues s s' → sched_ok s'.
Proof.
  intros Hok Hs. split.
  - apply eq_None_not_Some. rewrite (same_queues_dom s s') by done. rewrite (so_null s Hok).
    by intros [? ?].
  - intros q c' Hq'. destruct (same_queues_cfs s s' q c' Hs Hq') as (c & Hq & Ht & Hl & Hcu & Hn).
    destruct (so_cfs s Hok q c Hq) as [Hnd Hlm Hmem Hcur Hnr]. split; rewrite ?Ht, ?Hl, ?Hcu; try done.
    + intros e. rewrite Hmem. by rewrite (same_queues_runnable s s').
    + intros Hne. destruct (Hcur Hne). split; [by apply (same_queues_dom s s')|done].
    + rewrite Hn, Hnr. unfold queue_len. rewrite Ht.
      by rewrite (same_on_curr s s' c c' (sq_on s s' Hs) Hcu).
  - intros q [c' Hq']. destruct (same_queues_cfs s s' q c' Hs Hq') as (c & Hq & _).
    destruct (so_hints s Hok q) as (b & Hb & ?); [by eexists|]. exists b.
    rewrite (sq_hints s s' Hs). split; [done|]. naive_solver eauto using same_queues_hint.
  - intros q [c' Hq']. destruct (same_queues_cfs s s' q c' Hs Hq') as (c & Hq & _).
    apply (sq_rq s s' Hs), (so_rq s Hok). by exists c.
Qed.

Lemma same_queues_sorted s s' : sched_sorted s → same_queues s s' → sched_sorted s'.
Proof.
  intros Hso Hs q c' Hq'. destruct (same_queues_cfs s s' q c' Hs Hq') as (c & Hq & Ht & _).
  specialize (Hso q c Hq). unfold sorted_by_vr in *. rewrite Ht. revert Hso. apply sorted_ext.
  intros x y Hx Hy. by rewrite !(sq_vr s s' Hs q c).
Qed.

(** The current entity of a queue is in no timeline. *)
Lemma curr_not_queued s q c q1 c1 e : sched_ok s → cfs s !! q = Some c → curr c ≠ NULL →
  cfs s !! q1 = Some c1 → e ∈ inorder (tasks_timeline c1) → e ≠ curr c.
Proof.
  intros Hok Hq Hne Hq1 He ->.
  apply (co_members s q1 c1 (so_cfs s Hok q1 c1 Hq1)) in He as (Hn1 & Hr & _).
  destruct (co_curr s q c (so_cfs s Hok q c Hq) Hne) as [_ Hr']. congruence.
Qed.

(** The entities a queue points to exist. *)
Lemma queued_exists s q c e : sched_ok s → cfs s !! q = Some c →
  e ∈ inorder (tasks_timeline c) → ∃ x, ses s !! e = Some x.
Proof.
  intros Hok Hq He. apply (co_members s q c (so_cfs s Hok q c Hq)) in He as (_ & _ & x & Hx & _).
  by exists x.
Qed.

Lemma leftmost_exists s q c : sched_ok s → cfs s !! q = Some c → rb_leftmost c ≠ NULL →
  rb_leftmost c ∈ inorder (tasks_timeline c) ∧ ∃ x, ses s !! rb_leftmost c = Some x.
Proof.
  intros Hok Hq. rewrite (co_leftmost s q c (so_cfs s Hok q c Hq)).
  destruct (inorder (tasks_timeline c)) as [|e l] eqn:Hl; [done|]. intros _. split; [by left|].
  apply (queued_exists s q c); [done..|]. rewrite Hl. by left.
Qed.

(** Charging the current entity, whatever its new load and times. *)
Lemma charge_same_queues s q c x x' m w : sched_ok s → cfs s !! q = Some c → curr c ≠ NULL →
  ses s !! curr c = Some x → on_rq x' = on_rq x →
  same_queues s (with_world w (with_ses (<[curr c := x']> (ses s))
    (with_cfs (<[q := with_min_vruntime m c]> (cfs s)) s))).
Proof.
  intros Hok Hq Hne Hx Hon. split; simpl; [| | |done|done].
  - intros q1. destruct (decide (q1 = q)) as [->|]; simplify_map_eq; done.
  - intros e. destruct (decide (e = curr c)) as [->|]; simplify_map_eq; congruence.
  - intros q1 c1 e Hq1 He. unfold vr. simpl. rewrite lookup_insert_ne; [done|].
    intros <-. by eapply (curr_not_queued s q c q1 c1).
Qed.

Lemma min_same_queues s q c m : cfs s !! q = Some c →
  same_queues s (with_cfs (<[q := with_min_vruntime m c]> (cfs s)) s).
Proof.
  intros Hq. split; simpl; [|done..].
  intros q1. destruct (decide (q1 = q)) as [->|]; simplify_map_eq; done.
Qed.
End queues.

(** * Charging the current entity *)

(** The virtual runtimes [update_min_vruntime] looks at. *)
Definition curr_vr `{SchedLib} (s : sched env) (c : cfs_rq) : option Z :=
  if curr c =? NULL then None
  else x ← ses s !! curr c; if on_rq x =? 0 then None else Some (vruntime x).
Definition left_vr `{SchedLib} (s : sched env) (c : cfs_rq) : option Z :=
  if rb_leftmost c =? NULL then None else Some (vr s (rb_leftmost c)).
Definition new_min `{SchedLib} (base : Z) (cur left : option Z) : Z :=
  max_vruntime_of base
    (match cur, left with
     | None, None => base
     | Some v, None => v
     | None, Some l => l
     | Some v, Some l => min_vruntime_of v l
     end).

(** The current entity after it ran for [delta] up to [now]; [d] is the
    weighted time and [lw] its load with the inverse cached. *)
Definition ran (now delta d : Z) (lw : load_weight) (x : sched_entity) : sched_entity :=
  Entity lw now (sum_exec_runtime x +[64] delta) (vruntime x +[64] d)
    (prev_sum_exec_runtime x) (nr_migrations x) (on_rq x).
Definition weighted `{SchedLib} (delta : Z) (x : sched_entity) (d : Z) (lw : load_weight) : Prop :=
  if weight (se_load x) =? NICE_0_LOAD then d = delta ∧ lw = se_load x
  else __calc_delta 65 delta NICE_0_LOAD (se_load x) = Ret (d, lw).

Section charging.
  Context `{SchedLib}.
  Abbreviation st := (sched env).
  Implicit Types (s : st) (q e : Z) (c : cfs_rq).

Lemma wp_update_min_vruntime s q c Q : cfs s !! q = Some c →
  (curr c ≠ NULL → is_Some (ses s !! curr c)) →
  (rb_leftmost c ≠ NULL → is_Some (ses s !! rb_leftmost c)) →
  Q tt (with_cfs (<[q := with_min_vruntime
        (new_min (min_vruntime c) (curr_vr s c) (left_vr s c)) c]> (cfs s)) s) →
  wp (update_min_vruntime q) s Q.
Proof.
  intros Hq Hc Hl HQ. unfold update_min_vruntime. eapply wp_bind, wp_get_cfs; [done|].
  apply wp_bind. unfold curr_vr, left_vr in HQ.
  assert (∀ P, P (if curr c =? NULL then None
      else x ← ses s !! curr c; if on_rq x =? 0 then None else Some (vruntime x)) s →
    wp (if curr c =? NULL then mret None
        else e ← get_se (curr c); mret (if on_rq e =? 0 then None else Some (vruntime e))) s P) as Hcur.
  { intros P HP. destruct (Z.eqb_spec (curr c) NULL) as [He|Hne]; [done|].
    destruct (Hc Hne) as [x Hx]. rewrite Hx in HP. by eapply wp_bind, wp_get_se. }
  apply Hcur. clear Hcur. set (cur := if curr c =? NULL then None else _) in *. clearbody cur.
  apply wp_bind. destruct (Z.eqb_spec (rb_leftmost c) NULL) as [He|Hne].
  - eapply wp_ret, wp_mod_cfs; [done|]. by destruct cur.
  - destruct (Hl Hne) as [y Hy]. unfold vr in HQ. rewrite Hy in HQ.
    eapply wp_bind, wp_get_se; [done|]. eapply wp_ret, wp_mod_cfs; [done|]. by destruct cur.
Qed.

Lemma wp_trace s se delta (Q : unit → st → Prop) : is_Some (ses s !! se) → (∀ w, Q tt (with_world w s)) →
  wp (if entity_is_task se then
        e ← get_se se;
        acct (trace_sched_stat_runtime se delta (vruntime e));;
        acct (cpuacct_charge se delta);;
        acct (account_group_exec_runtime se delta)
      else mret tt) s Q.
Proof.
  intros [x Hx] HQ. destruct (entity_is_task se).
  - eapply wp_bind, wp_get_se; [done|]. do 2 (apply wp_bind, wp_acct; intros ?).
    apply wp_acct. intros. apply HQ.
  - apply wp_ret. specialize (HQ (world s)). by destruct s.
Qed.

(** [update_curr] charges the current entity for the time since [exec_start],
    or, when the 32-bit conversion of that time is not positive, does nothing. *)
Lemma wp_update_curr s q c Q : sched_ok s → cfs s !! q = Some c →
  (∀ w, (∀ x, curr c ≠ NULL → ses s !! curr c = Some x → ∃ now,
      sched_clock_cpu (cpu_of (rq_of q)) (world s) = (now, w) ∧
      cast s64 (now -[64] exec_start x) ≤ 0) → Q tt (with_world w s)) →
  (∀ w w' x now d lw, curr c ≠ NULL → ses s !! curr c = Some x →
     sched_clock_cpu (cpu_of (rq_of q)) (world s) = (now, w') →
     0 < cast s64 (now -[64] exec_start x) → weighted (now -[64] exec_start x) x d lw →
     let x' := ran now (now -[64] exec_start x) d lw x in
     let s1 := with_ses (<[curr c := x']> (ses s)) s in
     Q tt (with_world w (with_ses (<[curr c := x']> (ses s)) (with_cfs (<[q := with_min_vruntime
       (new_min (min_vruntime c) (curr_vr s1 c) (left_vr s1 c)) c]> (cfs s)) s)))) →
  wp (update_curr q) s Q.
Proof.
  intros Hok Hq HQ0 HQ. unfold update_curr. eapply wp_bind, wp_get_cfs; [done|].
  apply wp_bind. unfold wp at 1, clock_of.
  destruct (sched_clock_cpu (cpu_of (rq_of q)) (world s)) as [now w'] eqn:Hnow.
  destruct (Z.eqb_spec (curr c) NULL) as [Hn|Hne].
  { apply wp_ret, HQ0. intros x Hc. by destruct Hc. }
  destruct (co_curr s q c (so_cfs s Hok q c Hq) Hne) as [[x Hx] _].
  eapply wp_bind, wp_get_se; [done|]. set (delta := now -[64] exec_start x).
  destruct (Z.leb_spec (cast s64 delta) 0) as [Hle|Hlt].
  { apply wp_ret, HQ0. intros y _ Hy. exists now. simplify_eq. done. }
  eapply wp_bind, wp_mod_se; [done|]. apply wp_bind, wp_acct; intros ?.
  eapply wp_bind, wp_mod_se; [apply lookup_insert_eq|]. apply wp_bind, wp_acct; intros ?.
  eapply wp_bind, wp_calc_delta_fair; [apply lookup_insert_eq|]. intros d lw Hd. simpl in Hd.
  eapply wp_bind, wp_mod_se; [apply lookup_insert_eq|].
  simpl. rewrite !insert_insert_eq.
  eapply wp_bind, wp_update_min_vruntime; simpl; [done|by rewrite lookup_insert_eq| |].
  { intros Hl. destruct (leftmost_exists s q c Hok Hq Hl) as [_ [y Hy]].
    apply lookup_insert_is_Some'. right. by exists y. }
  apply wp_bind, wp_trace; simpl; [by rewrite lookup_insert_eq|]. intros w1. apply wp_acct. intros w2.
  exact (HQ _ w' x now d lw Hne Hx eq_refl Hlt Hd).
Qed.
End charging.

(** * Queueing and dequeueing an entity *)

Definition keyof `{SchedLib} (s : sched env) (c : cfs_rq) (e : Z) : Z :=
  cast s64 (vr s e -[64] min_vruntime c).
(** The virtual runtime of [e] is near enough to [min_vruntime] for its key to
    fit the 32 bits of [s64]. *)
Definition in_window `{SchedLib} (s : sched env) (c : cfs_rq) (e : Z) : Prop :=
  - 2 ^ 31 ≤ vr s e - min_vruntime c < 2 ^ 31.

(** Every part of the state but the run queues, the entities and the world. *)
Definition same_rest `{SchedLib} (s s' : sched env) : Prop :=
  rqs s' = rqs s ∧ tasks s' = tasks s ∧ stacks s' = stacks s ∧ lists s' = lists s ∧
  task_list_lock s' = task_list_lock s ∧ next_pid s' = next_pid s ∧
  current_task s' = current_task s ∧ irqs_on s' = irqs_on s.

Section timeline.
  Context `{SchedLaws}.
  Abbreviation st := (sched env).
  Implicit Types (s : st) (q e : Z) (c : cfs_rq).

Lemma keyof_window s c e : in_window s c e → keyof s c e = vr s e - min_vruntime c.
Proof.
  intros Hw. unfold keyof, cast. simpl. rewrite swrap_wrap by lia. apply swrap_small; [lia|].
  unfold in_window in Hw. lia.
Qed.

Lemma wp_entity_key s q c e Q : cfs s !! q = Some c → is_Some (ses s !! e) →
  Q (keyof s c e) s → wp (entity_key q e) s Q.
Proof.
  intros Hq [x Hx] HQ. eapply wp_bind, wp_get_se; [done|]. eapply wp_bind, wp_get_cfs; [done|].
  apply wp_ret. unfold keyof, vr in HQ. by rewrite Hx in HQ.
Qed.

(** The descent ends at a null link; when the tree is in key order, what lies
    before that link has keys at most that of [se], and what lies after it
    greater keys.  The flag tells whether the link is the first one. *)
Lemma wp_find_link s q c se : cfs s !! q = Some c → is_Some (ses s !! se) → ∀ t lm Q,
  (∀ e, e ∈ inorder t → is_Some (ses s !! e)) →
  (∀ path a b, around t path = Some (a, b) → inorder t = a ++ b →
    (StronglySorted (λ x y, keyof s c x ≤ keyof s c y) (inorder t) →
     (∀ x, x ∈ a → keyof s c x ≤ keyof s c se) ∧ (∀ y, y ∈ b → keyof s c se < keyof s c y)) →
    Q (path, lm && bool_decide (a = [])) s) →
  wp (find_link q se t lm) s Q.
Proof.
  intros Hq Hse. induction t as [|red l IHl e r IHr]; intros lm Q Hex HQ; simpl.
  - specialize (HQ [] [] [] eq_refl eq_refl). rewrite andb_true_r in HQ. apply wp_ret, HQ.
    intros _. split; intros ? []%not_elem_of_nil.
  - simpl in Hex, HQ. eapply wp_bind, wp_entity_key; [done..|].
    eapply wp_bind, wp_entity_key; [done|apply Hex; set_solver|].
    destruct (Z.ltb_spec (keyof s c se) (keyof s c e)) as [Hlt|Hge].
    + apply wp_bind, IHl; [set_solver|]. intros path a b Har Hab Hord. apply wp_ret. simpl.
      apply (HQ (to_left :: path) a (b ++ e :: inorder r)).
      * by rewrite Har.
      * by rewrite Hab, <-app_assoc.
      * intros Hs. apply StronglySorted_app in Hs as (Hel & Hsl & Hsr).
        destruct (Hord Hsl) as [Ha Hb]. split; [done|]. intros y [Hy|[->|Hy]%elem_of_cons]%elem_of_app;
          [by apply Hb|done|]. apply StronglySorted_inv in Hsr as [_ Hr]. rewrite Forall_forall in Hr.
        specialize (Hr y Hy). lia.
    + apply wp_bind, IHr; [set_solver|]. intros path a b Har Hab Hord. apply wp_ret. simpl.
      replace (false && bool_decide (a = [])) with (lm && bool_decide (inorder l ++ e :: a = [])).
      2: { rewrite bool_decide_eq_false_2; [by rewrite andb_false_r|]. by destruct (inorder l). }
      apply (HQ (to_right :: path) (inorder l ++ e :: a) b).
      * by rewrite Har.
      * by rewrite Hab, <-app_assoc.
      * intros Hs. apply StronglySorted_app in Hs as (Hel & Hsl & Hsr).
        apply StronglySorted_inv in Hsr as [Hsr Hr]. destruct (Hord Hsr) as [Ha Hb].
        split; [|done]. intros x [Hx|[->|Hx]%elem_of_cons]%elem_of_app; [|done|by apply Ha].
        specialize (Hel x e Hx ltac:(by left)). lia.
Qed.

(** [__enqueue_entity] puts [se] somewhere into the timeline; where, when the
    timeline is in key order, is decided by the keys. *)
Lemma wp_enqueue_keys s q c se (Q : unit → st → Prop) : cfs s !! q = Some c → is_Some (ses s !! se) →
  (∀ e, e ∈ inorder (tasks_timeline c) → is_Some (ses s !! e)) →
  (∀ t a b, inorder (tasks_timeline c) = a ++ b → inorder t = a ++ se :: b →
    (StronglySorted (λ x y, keyof s c x ≤ keyof s c y) (inorder (tasks_timeline c)) →
     (∀ x, x ∈ a → keyof s c x ≤ keyof s c se) ∧ (∀ y, y ∈ b → keyof s c se < keyof s c y)) →
    Q tt (with_cfs (<[q := with_timeline t (with_leftmost (if bool_decide (a = []) then se else rb_leftmost c) c)]> (cfs s)) s)) →
  wp (__enqueue_entity q se) s Q.
Proof.
  intros Hq Hse Hex HQ. eapply wp_bind, wp_get_cfs; [done|].
  apply wp_bind, (wp_find_link s q c se Hq Hse); [done|]. intros path a b Har Hab Hord. simpl.
  assert (inorder (rb_insert_color (rb_link_node (tasks_timeline c) path se) se) = a ++ se :: b) as Ht.
  { rewrite rb_insert_color_law. by apply rb_link_node_law. }
  specialize (HQ _ a b Hab Ht Hord). apply wp_bind. destruct (bool_decide (a = [])).
  - eapply wp_mod_cfs; [done|]. eapply wp_bind, wp_mod_cfs; [apply lookup_insert_eq|].
    eapply wp_mod_cfs; [apply lookup_insert_eq|]. simpl. rewrite !insert_insert_eq. exact HQ.
  - eapply wp_ret, wp_bind, wp_mod_cfs; [done|].
    eapply wp_mod_cfs; [apply lookup_insert_eq|]. simpl. rewrite !insert_insert_eq.
    replace (with_leftmost (rb_leftmost c) c) with c in HQ by (by destruct c). exact HQ.
Qed.

(** When the keys in play fit their 32 bits, the virtual runtimes decide. *)
Lemma wp_enqueue s q c se (Q : unit → st → Prop) : cfs s !! q = Some c → is_Some (ses s !! se) →
  (∀ e, e ∈ inorder (tasks_timeline c) → is_Some (ses s !! e)) →
  (∀ t a b, inorder (tasks_timeline c) = a ++ b → inorder t = a ++ se :: b →
    (sorted_by_vr s c → (∀ e, e = se ∨ e ∈ inorder (tasks_timeline c) → in_window s c e) →
     (∀ x, x ∈ a → vr s x ≤ vr s se) ∧ (∀ y, y ∈ b → vr s se < vr s y)) →
    Q tt (with_cfs (<[q := with_timeline t (with_leftmost (if bool_decide (a = []) then se else rb_leftmost c) c)]> (cfs s)) s)) →
  wp (__enqueue_entity q se) s Q.
Proof.
  intros Hq Hse Hex HQ. eapply wp_enqueue_keys; [done..|]. intros t a b Hab Ht Hord.
  apply (HQ t a b Hab Ht). intros Hs Hw. destruct Hord as [Ha Hb].
  - revert Hs. apply sorted_ext. intros x y Hx Hy. rewrite !keyof_window by auto. lia.
  - split; [intros x Hx; specialize (Ha x Hx)|intros x Hx; specialize (Hb x Hx)];
      rewrite !keyof_window in *; (try lia); apply Hw; rewrite ?Hab; set_solver.
Qed.

(** [__dequeue_entity] takes [se] out and keeps [rb_leftmost] the first node. *)
Lemma wp_dequeue s q c se a b (Q : unit → st → Prop) : cfs s !! q = Some c → cfs_ok s q c →
  inorder (tasks_timeline c) = a ++ se :: b →
  (∀ t, inorder t = a ++ b →
    Q tt (with_cfs (<[q := with_timeline t (with_leftmost (hd NULL (a ++ b)) c)]> (cfs s)) s)) →
  wp (__dequeue_entity q se) s Q.
Proof.
  intros Hq Hok Hab HQ. destruct Hok as [Hnd Hlm _ _ _].
  pose proof (HQ _ (rb_erase_law _ _ _ _ Hab Hnd)) as HQ'. clear HQ.
  pose proof (rb_next_law _ _ _ _ Hab Hnd) as Hnext. rewrite Hab in Hnd, Hlm.
  eapply wp_bind, wp_get_cfs; [done|]. apply wp_bind.
  destruct (Z.eqb_spec (rb_leftmost c) se) as [He|Hne].
  - eapply wp_mod_cfs; [done|]. eapply wp_mod_cfs; [apply lookup_insert_eq|]. simpl.
    rewrite insert_insert_eq, Hnext. destruct a as [|x a]; [exact HQ'|exfalso].
    simpl in Hlm. apply NoDup_cons in Hnd as [Hx _]. apply Hx. set_solver.
  - eapply wp_ret, wp_mod_cfs; [done|]. destruct a as [|x a]; [done|]. simpl in HQ', Hlm.
    rewrite <-Hlm in HQ'. by destruct c.
Qed.
End timeline.

(** * Operations on one queue *)

(** What charging changes: the minimum of [q] and the times of its current
    entity. *)
Record charged `{SchedLib} (s s' : sched env) (q : Z) (c : cfs_rq) (m : Z) : Prop := {
  ch_same : same_queues s s';
  ch_cfs : cfs s' = <[q := with_min_vruntime m c]> (cfs s);
  ch_ses : ∀ e, e ≠ curr c → ses s' !! e = ses s !! e;
  ch_rest : same_rest s s'
}.

(** What an operation on queue [q] changes: that queue, and entities of it. *)
Record only_queue `{SchedLib} (s s' : sched env) (q : Z) (c' : cfs_rq) : Prop := {
  oq_cfs : cfs s' = <[q := c']> (cfs s);
  oq_ses : ∀ e, cfs_rq_of e ≠ q → ses s' !! e = ses s !! e;
  oq_dom : ∀ e, is_Some (ses s' !! e) ↔ is_Some (ses s !! e);
  oq_hints : hints_from (λ _ _, False) (hints s) (hints s');
  oq_rest : same_rest s s'
}.

(** The runnable entities of a queue are within the window of their keys. *)
Definition window `{SchedLib} (s : sched env) (q : Z) : Prop :=
  ∀ c e, cfs s !! q = Some c → runnable s q e → in_window s c e.

Section one_queue.
  Context `{SchedLaws}.
  Abbreviation st := (sched env).
  Implicit Types (s : st) (q e : Z) (c : cfs_rq).

Lemma same_rest_refl s : same_rest s s.
Proof. by split_and!. Qed.

Lemma same_rest_trans s1 s2 s3 : same_rest s1 s2 → same_rest s2 s3 → same_rest s1 s3.
Proof. unfold same_rest. intros (-> & -> & -> & -> & -> & -> & -> & ->). done. Qed.

Lemma wp_update_curr_charged s q c (Q : unit → st → Prop) : sched_ok s → cfs s !! q = Some c →
  (∀ s' m, charged s s' q c m → Q tt s') → wp (update_curr q) s Q.
Proof.
  intros Hok Hq HQ. eapply wp_update_curr; [done..| |].
  - intros w _. apply (HQ _ (min_vruntime c)). split; [apply same_queues_world| |done|by split_and!].
    simpl. replace (with_min_vruntime _ c) with c by (by destruct c). by rewrite insert_id.
  - intros w w' x now d lw Hne Hx _ _ _ x' s1. eapply (HQ _ _). split.
    + by eapply charge_same_queues.
    + done.
    + intros e He. simpl. by rewrite lookup_insert_ne.
    + by split_and!.
Qed.

Lemma wp_update_min_charged s q c (Q : unit → st → Prop) : sched_ok s → cfs s !! q = Some c →
  (∀ s' m, charged s s' q c m → Q tt s') → wp (update_min_vruntime q) s Q.
Proof.
  intros Hok Hq HQ. eapply wp_update_min_vruntime; [done| | |].
  - intros Hne. by apply (co_curr s q c (so_cfs s Hok q c Hq)).
  - intros Hne. by destruct (leftmost_exists s q c Hok Hq Hne) as [_ [x ->]].
  - eapply HQ. split; [by apply min_same_queues|done|done|by split_and!].
Qed.

Lemma charged_ok s s' q c m : sched_ok s → charged s s' q c m → sched_ok s'.
Proof. intros Hok Hch. eapply same_queues_ok; [done|]. apply (ch_same _ _ _ _ _ Hch). Qed.

Lemma charged_lookup s s' q c m : charged s s' q c m → cfs s' !! q = Some (with_min_vruntime m c).
Proof. intros Hch. rewrite (ch_cfs _ _ _ _ _ Hch). apply lookup_insert_eq. Qed.

Lemma hints_from_ok s s' q : hints_from (λ _ _, False) (hints s) (hints s') →
  (∀ e, is_Some (ses s' !! e) ↔ is_Some (ses s !! e)) → hints_ok s q → hints_ok s' q.
Proof.
  intros Hf Hd (b & Hb & Hn & Hl & Hsk). specialize (Hf q). rewrite Hb in Hf.
  destruct (hints s' !! q) as [b'|] eqn:Hb'; [|done]. exists b'. split; [done|].
  assert (∀ old new, hint_from (λ _ _, False) q old new → hint_ok s q old → hint_ok s' q new) as Hone.
  { intros old new [->|[->|[]]] Hold; [by left|]. destruct Hold as [->|[? ?]]; [by left|right].
    split; [by apply Hd|done]. }
  destruct Hf as (? & ? & ?). split_and!; eauto.
Qed.

Lemma only_queue_ok s s' q c' : sched_ok s → is_Some (cfs s !! q) → only_queue s s' q c' →
  cfs_ok s' q c' → sched_ok s'.
Proof.
  intros Hok Hq [Hc Hs Hd Hh (Hr & _)] Hok'.
  assert (∀ q1, is_Some (cfs s' !! q1) → is_Some (cfs s !! q1)) as Hcs.
  { intros q1. rewrite Hc. destruct (decide (q1 = q)) as [->|]; [done|].
    by rewrite lookup_insert_ne by done. }
  split.
  - apply eq_None_not_Some. rewrite Hd, (so_null s Hok). by intros [].
  - intros q1 c1. rewrite Hc. destruct (decide (q1 = q)) as [->|Hne]; [by intros; simplify_map_eq|].
    rewrite lookup_insert_ne by done. intros Hq1.
    destruct (so_cfs s Hok q1 c1 Hq1) as [Hnd Hlm Hmem Hcur Hnr]. split; [done|done| | |].
    + intros e. rewrite Hmem. unfold runnable. split.
      * intros (? & <- & x & ? & ?). rewrite Hs by done. naive_solver.
      * intros (? & <- & x & Hx & ?). rewrite Hs in Hx by done. naive_solver.
    + rewrite Hd. done.
    + rewrite Hnr. unfold queue_len, curr_on. destruct (decide (curr c1 = NULL)) as [Hn|Hn].
      * rewrite Hn, (so_null s Hok). replace (ses s' !! NULL) with (@None sched_entity); [done|].
        symmetry. apply eq_None_not_Some. rewrite Hd, (so_null s Hok). by intros [].
      * destruct (Hcur Hn) as [_ Hq1']. rewrite Hs; [done|]. congruence.
  - intros q1 Hq1%Hcs. by apply (hints_from_ok s s' q1 Hh Hd), (so_hints s Hok).
  - intros q1 Hq1%Hcs. rewrite Hr. by apply (so_rq s Hok).
Qed.

Lemma only_queue_sorted s s' q c' : sched_ok s → sched_sorted s → only_queue s s' q c' →
  sorted_by_vr s' c' → sched_sorted s'.
Proof.
  intros Hok Hso [Hc Hs Hd _ _] Hso' q1 c1. rewrite Hc.
  destruct (decide (q1 = q)) as [->|Hne]; [by intros; simplify_map_eq|].
  rewrite lookup_insert_ne by done. intros Hq1. generalize (Hso q1 c1 Hq1). unfold sorted_by_vr.
  assert (∀ e, e ∈ inorder (tasks_timeline c1) → vr s' e = vr s e) as Hv.
  { intros e (_ & <- & _)%(co_members s q1 c1 (so_cfs s Hok q1 c1 Hq1)). unfold vr.
    by rewrite Hs by done. }
  apply sorted_ext. intros x y ? ?. by rewrite !Hv.
Qed.

(** A queue with one entity put in where the descent says. *)
Lemma insert_ok s s' q c c' se a b : cfs_ok s q c → se ∉ inorder (tasks_timeline c) → se ≠ NULL →
  inorder (tasks_timeline c) = a ++ b → inorder (tasks_timeline c') = a ++ se :: b →
  rb_leftmost c' = (if bool_decide (a = []) then se else rb_leftmost c) →
  (∀ e, e ≠ curr c' ∧ runnable s' q e ↔ e = se ∨ (e ≠ curr c ∧ runnable s q e)) →
  (curr c' ≠ NULL → is_Some (ses s' !! curr c') ∧ cfs_rq_of (curr c') = q) →
  nr_running c' = wrap 32 (queue_len s' c') →
  cfs_ok s' q c'.
Proof.
  intros [Hnd Hlm Hmem _ _] Hse Hnn Hab Hab' Hl Hm Hc Hn. split; [| | |done|done].
  - rewrite Hab'. rewrite Hab in Hnd, Hse. rewrite <-Permutation_middle. by constructor.
  - rewrite Hab', Hl, Hlm, Hab. by destruct a.
  - intros e. rewrite Hm, Hab', <-Hmem, Hab. set_solver.
Qed.

Lemma insert_sorted s s' c c' se a b :
  sorted_by_vr s c → inorder (tasks_timeline c) = a ++ b → inorder (tasks_timeline c') = a ++ se :: b →
  (∀ e, e ∈ inorder (tasks_timeline c') → vr s' e = vr s e) →
  (∀ x, x ∈ a → vr s x ≤ vr s se) → (∀ y, y ∈ b → vr s se < vr s y) →
  sorted_by_vr s' c'.
Proof.
  unfold sorted_by_vr. intros Hso Hab Hab' Hv Ha Hb.
  assert (StronglySorted (λ x y, vr s x ≤ vr s y) (a ++ se :: b)) as Hso'.
  { rewrite Hab in Hso. apply StronglySorted_app in Hso as (Hcross & Hsa & Hsb).
    apply StronglySorted_app. split_and!; [|done|].
    - intros x y Hx [->|Hy]%elem_of_cons; [by apply Ha|by apply Hcross].
    - constructor; [done|]. rewrite Forall_forall. intros y Hy. specialize (Hb y Hy). lia. }
  rewrite Hab' in Hv |- *. revert Hso'. apply sorted_ext. intros x y ? ?. by rewrite !Hv.
Qed.

(** A queue with one entity taken out. *)
Lemma remove_ok s s' q c c' se a b : cfs_ok s q c →
  inorder (tasks_timeline c) = a ++ se :: b → inorder (tasks_timeline c') = a ++ b →
  rb_leftmost c' = hd NULL (a ++ b) →
  (∀ e, e ≠ curr c' ∧ runnable s' q e ↔ e ≠ se ∧ e ≠ curr c ∧ runnable s q e) →
  (curr c' ≠ NULL → is_Some (ses s' !! curr c') ∧ cfs_rq_of (curr c') = q) →
  nr_running c' = wrap 32 (queue_len s' c') →
  cfs_ok s' q c'.
Proof.
  intros [Hnd Hlm Hmem _ _] Hab Hab' Hl Hm Hc Hn. rewrite Hab in Hnd.
  assert (NoDup (a ++ b) ∧ se ∉ a ++ b) as [Hnd' Hse].
  { rewrite <-Permutation_middle in Hnd. by apply NoDup_cons in Hnd as [? ?]. }
  split; [by rewrite Hab'|by rewrite Hab'| |done|done].
  intros e. rewrite Hm, Hab', <-Hmem, Hab. set_solver.
Qed.

Lemma remove_sorted s s' c c' se a b : sorted_by_vr s c →
  inorder (tasks_timeline c) = a ++ se :: b → inorder (tasks_timeline c') = a ++ b →
  (∀ e, e ∈ a ++ b → vr s' e = vr s e) → sorted_by_vr s' c'.
Proof.
  unfold sorted_by_vr. intros Hso Hab Hab' Hv. rewrite Hab in Hso. rewrite Hab'.
  assert (StronglySorted (λ x y, vr s x ≤ vr s y) (a ++ b)) as Hso'.
  { apply StronglySorted_app in Hso as (Hcross & Hsa & Hsb). apply StronglySorted_inv in Hsb as [Hsb _].
    apply StronglySorted_app. split_and!; [|done..]. intros x y Hx Hy. apply Hcross; [done|by right]. }
  revert Hso'. apply sorted_ext. intros x y ? ?. by rewrite !Hv.
Qed.
End one_queue.
