(* ===== verification/CfsOps.v ===== *)
(** The operations of [Cfs] on the queues: each returns from a well-formed
    state, leaves a well-formed state, and keeps the timelines in the order of
    the virtual runtimes as long as these stay in the window of their keys. *)
From stdpp Require Import base gmap list strings fin_maps sorting.
From S2P Require Import Prelude CTypes SchedData Cfs CfsTheory.

Definition same_vr `{SchedLib} (s s' : sched env) : Prop :=
  (∀ e, vr s' e = vr s e) ∧ same_on s s'.
Definition same_counts (c c' : cfs_rq) : Prop :=
  load c' = load c ∧ nr_running c' = nr_running c ∧ h_nr_running c' = h_nr_running c.

Lemma hints_from_refl `{SchedLib} set h : hints_from set h h.
Proof. intros q. destruct (h !! q); [|done]. unfold hint_from. auto. Qed.

Section ops.
  Context `{SchedLaws}.
  Abbreviation st := (sched env).
  Implicit Types (s : st) (q e : Z) (c : cfs_rq).

(** Setting times of an entity keeps its queueing. *)
Lemma same_vr_insert s s' e x x' : ses s !! e = Some x → ses s' = <[e := x']> (ses s) →
  vruntime x' = vruntime x → on_rq x' = on_rq x → same_vr s s'.
Proof.
  intros Hx Hs Hv Ho. split.
  - intros e'. unfold vr. rewrite Hs. destruct (decide (e' = e)) as [->|]; by simplify_map_eq.
  - intros e'. rewrite Hs. destruct (decide (e' = e)) as [->|]; simplify_map_eq; congruence.
Qed.

Lemma runnable_split s q c e : cfs_ok s q c → e ≠ curr c → runnable s q e →
  ∃ a b, inorder (tasks_timeline c) = a ++ e :: b.
Proof.
  intros Hok Hne Hr. assert (e ∈ inorder (tasks_timeline c)) as He by by apply (co_members s q c Hok).
  by apply list_elem_of_split.
Qed.

Lemma cfs_ok_ext s s' q c : cfs_ok s q c → same_on s s' → cfs_ok s' q c.
Proof.
  intros [Hnd Hlm Hmem Hc Hn] Ho. split; [done|done| | |].
  - intros e. by rewrite Hmem, (same_on_runnable s s').
  - by rewrite (same_on_dom s s').
  - rewrite Hn. unfold queue_len. by rewrite (same_on_curr s s' c c).
Qed.

Lemma runnable_curr_on s q c : curr c ≠ NULL → cfs_rq_of (curr c) = q →
  curr_on s c = true ↔ runnable s q (curr c).
Proof.
  intros Hn Hq. unfold curr_on, runnable. destruct (ses s !! curr c) as [x|]; [|naive_solver].
  rewrite negb_true_iff, Z.eqb_neq. naive_solver.
Qed.

Lemma sorted_by_vr_ext s s' c c' : sorted_by_vr s c → (∀ e, vr s' e = vr s e) →
  tasks_timeline c' = tasks_timeline c → sorted_by_vr s' c'.
Proof. unfold sorted_by_vr. intros Hs Hv ->. revert Hs. apply sorted_ext. intros. by rewrite !Hv. Qed.

Lemma runnable_not_null s q : sched_ok s → ¬ runnable s q NULL.
Proof. intros Hok (_ & x & Hx & _). by rewrite (so_null s Hok) in Hx. Qed.

(** Making an entity current that is not in the timeline. *)
Lemma become_curr s q c se : sched_ok s → cfs_ok s q c → curr c = NULL → is_Some (ses s !! se) →
  ¬ runnable s q se → cfs_rq_of se = q → cfs_ok s q (with_curr se c).
Proof.
  intros Hok [Hnd Hlm Hmem _ Hn] Hcu Hse Hr Hq. split; [done|done| |done|].
  2: { simpl. rewrite Hn. unfold queue_len, curr_on. simpl. rewrite Hcu, (so_null s Hok).
       destruct Hse as [x Hx]. rewrite Hx. destruct (Z.eqb_spec (on_rq x) 0); [done|].
       destruct Hr. by split; [|exists x]. }
  intros e. simpl. rewrite Hmem, Hcu. split.
  - intros [_ He]. split; [by intros ->|done].
  - intros [_ He]. split; [|done]. intros ->. by eapply runnable_not_null.
Qed.

(** The first part of [set_next_entity]. *)
Lemma wp_take_entity s q c se x (Q : unit → st → Prop) : sched_ok s → cfs s !! q = Some c →
  curr c = NULL → ses s !! se = Some x → cfs_rq_of se = q →
  (∀ w c1, cfs_ok s q (with_curr se c1) → (sorted_by_vr s c → sorted_by_vr s c1) →
     min_vruntime c1 = min_vruntime c → same_counts c c1 →
     Q tt (with_world w (with_cfs (<[q := c1]> (cfs s)) s))) →
  wp (if negb (on_rq x =? 0) then acct (update_stats_wait_end q se);; __dequeue_entity q se
      else mret tt) s Q.
Proof.
  intros Hok Hq Hcu Hx Hse HQ. pose proof (so_cfs s Hok q c Hq) as Hqok.
  destruct (Z.eqb_spec (on_rq x) 0) as [Hz|Hz]; simpl.
  - apply wp_ret. specialize (HQ (world s) c). rewrite insert_id in HQ by done.
    replace (with_world (world s) (with_cfs (cfs s) s)) with s in HQ by (by destruct s).
    apply HQ; [|done..]. apply become_curr; [done|done|done|by eexists| |done].
    intros (_ & y & Hy & ?). simplify_eq.
  - apply wp_bind, wp_acct. intros w.
    assert (runnable s q se) as Hr by (split; [done|by exists x]).
    destruct (runnable_split s q c se Hqok) as (a & b & Hab); [|done|].
    { rewrite Hcu. intros ->. by eapply runnable_not_null. }
    eapply wp_dequeue; [done| |done|].
    { by apply (cfs_ok_ext s). }
    assert (curr_on s c = false) as Hc0 by (unfold curr_on; by rewrite Hcu, (so_null s Hok)).
    assert (∀ c1, curr c1 = se → curr_on s c1 = true) as Hc1.
    { intros c1 Hc. unfold curr_on. rewrite Hc, Hx. by apply negb_true_iff, Z.eqb_neq. }
    intros t Ht. refine (HQ w _ _ _ _ _); [| |done|done].
    + eapply remove_ok; [done|done|done|done| |by eauto|].
      2: { simpl. rewrite (co_nr s q c Hqok). unfold queue_len. simpl. rewrite Ht, Hab, Hc0.
           rewrite Hc1 by done. f_equal. rewrite !length_app. simpl. lia. }
      intros e. rewrite Hcu. simpl. split; [|naive_solver].
      intros [? He]. split_and!; [done| |done]. intros ->. by eapply runnable_not_null.
    + intros Hso. by eapply remove_sorted.
Qed.

Lemma wp_slice_max s q se (b : bool) (Q : unit → st → Prop) : is_Some (rqs s !! q) → is_Some (ses s !! se) →
  (∀ w, Q tt (with_world w s)) →
  wp (if b then
        r ← rq_get q rq_load_weight;
        e ← get_se se;
        if 2 *[64] weight (se_load e) <=? r
        then acct (schedstat_slice_max se (sum_exec_runtime e -[64] prev_sum_exec_runtime e))
        else mret tt
      else mret tt) s Q.
Proof.
  intros [r Hr] [x Hx] HQ. assert (Q tt s) as HQs by (specialize (HQ (world s)); by destruct s).
  destruct b; [|done]. eapply wp_bind, wp_rq_get; [done|]. eapply wp_bind, wp_get_se; [done|].
  destruct (_ <=? _); [by apply wp_acct|done].
Qed.

(** [set_next_entity] on a queue without current entity takes [se] out of the
    timeline, if it is there, and makes it the current one. *)
Lemma wp_set_next_entity s q c se x (Q : unit → st → Prop) : sched_ok s → cfs s !! q = Some c →
  curr c = NULL → ses s !! se = Some x → cfs_rq_of se = q →
  (∀ s' c', only_queue s s' q c' → cfs_ok s' q c' → (sorted_by_vr s c → sorted_by_vr s' c') →
     curr c' = se → min_vruntime c' = min_vruntime c → same_counts c c' → same_vr s s' → Q tt s') →
  wp (set_next_entity q se) s Q.
Proof.
  intros Hok Hq Hcu Hx Hse HQ. unfold set_next_entity.
  eapply wp_bind, wp_get_se; [done|].
  eapply wp_bind, wp_take_entity; [done..|]. intros w c1 Hok1 Hso1 Hm1 Hn1.
  apply wp_bind, wp_acct. intros w1.
  eapply wp_bind, wp_mod_cfs; [apply lookup_insert_eq|]. simpl. rewrite insert_insert_eq.
  apply wp_bind, wp_gets. simpl.
  apply wp_bind, wp_slice_max; [by apply (so_rq s Hok); eexists|by eexists|]. intros w2.
  eapply wp_bind, wp_mod_se; [done|]. apply wp_bind, wp_clock_of. intros now w3.
  eapply wp_mod_se; [apply lookup_insert_eq|]. simpl. rewrite insert_insert_eq.
  match goal with |- Q tt ?S => set (s' := S) end.
  assert (same_vr s s') as Hvr by by eapply same_vr_insert.
  apply (HQ s' (with_curr se c1)); [|by eapply (cfs_ok_ext s); [|apply Hvr]| |done..].
  - split; [done| |by intros; apply same_on_dom, Hvr|apply hints_from_refl|by split_and!].
    intros e He. simpl. rewrite lookup_insert_ne; [done|]. by intros <-.
  - intros Hso. eapply sorted_by_vr_ext; [by apply Hso1|apply Hvr|done].
Qed.
Lemma hints_from_trans (h1 h2 h3 : gmap Z buddy_hints) :
  hints_from (λ _ _, False) h1 h2 → hints_from (λ _ _, False) h2 h3 →
  hints_from (λ _ _, False) h1 h3.
Proof.
  intros H1 H2 q. specialize (H1 q). specialize (H2 q).
  destruct (h1 !! q), (h2 !! q), (h3 !! q); try done. unfold hint_from in *.
  destruct H1 as (? & ? & ?), H2 as (? & ? & ?). split_and!; naive_solver congruence.
Qed.

Lemma only_queue_trans s1 s2 s3 q c2 c3 :
  only_queue s1 s2 q c2 → only_queue s2 s3 q c3 → only_queue s1 s3 q c3.
Proof.
  intros [Hc Hs Hd Hh Hr] [Hc' Hs' Hd' Hh' Hr']. split.
  - by rewrite Hc', Hc, insert_insert_eq.
  - intros e He. by rewrite Hs', Hs.
  - intros e. by rewrite Hd', Hd.
  - by eapply hints_from_trans.
  - by eapply same_rest_trans.
Qed.

Lemma charged_only s s' q c m : sched_ok s → cfs s !! q = Some c → charged s s' q c m →
  only_queue s s' q (with_min_vruntime m c).
Proof.
  intros Hok Hq [Hsame Hc Hs Hr]. split; [done| |by intros; apply same_queues_dom| |done].
  - intros e He. destruct (decide (e = curr c)) as [->|Hne]; [|by apply Hs].
    destruct (decide (curr c = NULL)) as [Hn|Hn].
    + rewrite Hn, (so_null s Hok). apply eq_None_not_Some. rewrite (same_queues_dom s s') by done.
      by rewrite (so_null s Hok); intros [].
    + by destruct (co_curr s q c (so_cfs s Hok q c Hq) Hn).
  - rewrite (sq_hints s s' Hsame). apply hints_from_refl.
Qed.

(** A current entity that is not on the queue leaves the queue untouched when
    it is put back: it held no place in the tree. *)
Lemma idle_curr_ok s q c prev x : sched_ok s → cfs s !! q = Some c → curr c = prev →
  ses s !! prev = Some x → on_rq x = 0 → cfs_ok s q (with_curr NULL c).
Proof.
  intros Hok Hq Hcu Hx Hz.
  assert (¬ runnable s q prev) as Hnr by (intros (_ & y & Hy & ?); simplify_eq).
  destruct (so_cfs s Hok q c Hq) as [Hnd Hlm Hmem _ Hlen]. split; [done|done| |done|].
  - intros e. simpl. rewrite Hmem, Hcu. split; intros [? Hr]; (split; [|done]).
    + intros ->. by eapply runnable_not_null.
    + by intros ->.
  - simpl. rewrite Hlen. unfold queue_len, curr_on. simpl. rewrite Hcu, Hx, (so_null s Hok).
    by rewrite Hz.
Qed.

(** Inserting the current entity into the tree while the queue gives it up
    keeps the count: it was counted as current, it is counted as queued. *)
Lemma requeue_curr_len s q c prev t l a b : sched_ok s → cfs s !! q = Some c → curr c = prev →
  prev ≠ NULL → runnable s q prev → inorder (tasks_timeline c) = a ++ b → inorder t = a ++ prev :: b →
  nr_running c = wrap 32 (queue_len s (with_curr NULL (with_timeline t (with_leftmost l c)))).
Proof.
  intros Hok Hq Hcu Hnn Hrp Hab Ht. rewrite (co_nr s q c (so_cfs s Hok q c Hq)). unfold queue_len.
  assert (curr_on s c = true) as ->
    by (apply (runnable_curr_on s q); rewrite Hcu; [done|apply Hrp|done]).
  unfold curr_on. simpl. rewrite (so_null s Hok), Ht, Hab. f_equal. rewrite !length_app. simpl. lia.
Qed.

(** [put_prev_entity] puts the current entity back into the timeline if it is
    still runnable; the queue has no current entity afterwards. *)
Lemma wp_put_prev_entity s q c prev (Q : unit → st → Prop) : sched_ok s → cfs s !! q = Some c →
  curr c = prev → prev ≠ NULL →
  (∀ s' c', only_queue s s' q c' → cfs_ok s' q c' →
     (sched_sorted s → window s' q → sorted_by_vr s' c') →
     curr c' = NULL → same_counts c c' → same_on s s' →
     (∀ e, e ≠ prev → vr s' e = vr s e) → Q tt s') →
  wp (put_prev_entity q prev) s Q.
Proof.
  intros Hok Hq Hcu Hnn HQ. pose proof (so_cfs s Hok q c Hq) as Hqok.
  destruct (co_curr s q c Hqok) as [[x Hx] Hcq]; [congruence|]. rewrite Hcu in Hx, Hcq.
  unfold put_prev_entity. eapply wp_bind, wp_get_se; [done|]. apply wp_bind.
  destruct (Z.eqb_spec (on_rq x) 0) as [Hz|Hz]; simpl.
  - apply wp_ret. do 2 (apply wp_bind, wp_acct; intros ?). eapply wp_bind, wp_get_se; [done|].
    rewrite Hz. simpl. apply wp_bind, wp_ret. eapply wp_mod_cfs; [done|]. simpl.
    refine (HQ _ (with_curr NULL c) _ _ _ _ _ _ _); try done.
    + split; [done..|apply hints_from_refl|by split_and!].
    + apply (cfs_ok_ext s); [by eapply idle_curr_ok|done..].
    + intros Hso _. by apply (Hso q c).
  - eapply wp_update_curr_charged; [done..|]. intros s1 m Hch.
    do 2 (apply wp_bind, wp_acct; intros ?).
    pose proof (ch_same _ _ _ _ _ Hch) as Hsame.
    destruct (proj2 (same_queues_dom s s1 prev Hsame)) as [x1 Hx1]; [by eexists|].
    assert (on_rq x1 = on_rq x) as Ho1.
    { pose proof (sq_on s s1 Hsame prev) as Ho. rewrite Hx, Hx1 in Ho. by injection Ho. }
    eapply wp_bind, wp_get_se; [done|]. rewrite Ho1, (proj2 (Z.eqb_neq _ _) Hz). simpl.
    pose proof (charged_ok s s1 q c m Hok Hch) as Hok1.
    pose proof (charged_lookup s s1 q c m Hch) as Hq1.
    set (c1 := with_min_vruntime m c) in *. pose proof (so_cfs s1 Hok1 q c1 Hq1) as Hqok1.
    assert (same_on s s1) as Hrun by apply Hsame.
    assert (runnable s1 q prev) as Hrp by (apply (same_on_runnable s); [done|split; [done|by exists x]]).
    assert (curr_on s1 c1 = true) as Hc1.
    { apply (runnable_curr_on s1 q c1); subst c1; simpl; by rewrite Hcu. }
    assert (prev ∉ inorder (tasks_timeline c1)) as Hnin.
    { by intros [? _]%(co_members s1 q c1 Hqok1). }
    apply wp_bind, wp_bind, wp_acct. intros ?.
    eapply wp_bind, (wp_enqueue _ q c1 prev); [done|by exists x1| |].
    { intros e He. simpl. destruct (queued_exists s1 q c1 e Hok1 Hq1 He) as [y Hy]. by exists y. }
    intros t a b Hab Ht Hord. apply wp_acct. intros ?.
    eapply wp_mod_cfs; [apply lookup_insert_eq|]. simpl. rewrite insert_insert_eq.
    set (c' := with_curr NULL (with_timeline t _)). set (s' := with_cfs _ _).
    refine (HQ s' c' _ _ _ _ _ _ _); [| | |done|done|exact Hrun|].
    + eapply only_queue_trans; [by eapply charged_only|].
      split; [done..|apply hints_from_refl|by split_and!].
    + eapply (insert_ok s1); [done|done|done|done|done|done| |done|].
      2: by apply (requeue_curr_len s1 q c1 prev _ _ a b).
      intros e. change (curr c1) with (curr c). rewrite Hcu. simpl. split.
      * intros [_ He]. destruct (decide (e = prev)) as [->|]; [by left|by right].
      * intros [->|[_ He]]; (split; [|done]); [done|]. intros ->.
        by eapply (runnable_not_null s1 q).
    + intros Hso Hw. pose proof (same_queues_sorted s s1 Hso Hsame q c1 Hq1) as Hso1.
      destruct Hord as [Ha Hb]; [done| |by eapply insert_sorted].
      intros e He. refine (Hw c' e _ _); [apply lookup_insert_eq|].
      destruct He as [->|He]; [done|]. apply (co_members s1 q c1 Hqok1) in He. apply He.
    + intros e Hne. transitivity (vr s1 e); [done|]. unfold vr.
      rewrite (ch_ses _ _ _ _ _ Hch); [done|]. by rewrite Hcu.
Qed.
(** * Picking *)

Lemma wp_or_hint s hint left se Q : (hint ≠ NULL → is_Some (ses s !! hint)) →
  is_Some (ses s !! left) → (∀ r, r = se ∨ (hint ≠ NULL ∧ r = hint) → Q r s) →
  wp (or_hint hint left se) s Q.
Proof.
  intros Hh [y Hy] HQ. unfold or_hint. destruct (Z.eqb_spec hint NULL) as [Hn|Hn].
  - apply wp_ret, HQ. by left.
  - destruct (Hh Hn) as [x Hx].
    apply wp_bind. eapply wp_bind, wp_get_se; [done|]. eapply wp_bind, wp_get_se; [done|].
    apply wp_bind, wp_gets, wp_ret, wp_ret, HQ. destruct (_ <? 1); auto.
Qed.

(** The entities [pick_next_entity] chooses from. *)
Definition on_queue s q e : Prop := is_Some (ses s !! e) ∧ cfs_rq_of e = q.

Lemma runnable_on_queue s q e : runnable s q e → on_queue s q e.
Proof. intros (? & x & Hx & _). split; [by exists x|done]. Qed.

(** The buddies a pick may prefer are runnable. *)
Definition hints_live s q : Prop :=
  ∀ b, hints s !! q = Some b →
    (next b = NULL ∨ runnable s q (next b)) ∧ (last b = NULL ∨ runnable s q (last b)).

(** [pick_next_entity] answers an entity of the queue, runnable if the marked
    ones are; without hints, the first of the timeline. *)
Lemma wp_pick_next_entity s q c Q : sched_ok s → cfs s !! q = Some c → rb_leftmost c ≠ NULL →
  (∀ se h', on_queue s q se → (hints_live s q → runnable s q se) →
     (hints s !! q = Some (Buddies NULL NULL NULL) → se = rb_leftmost c) →
     hints_from (λ _ _, False) (hints s) h' → Q se (with_hints h' s)) →
  wp (pick_next_entity q NULL) s Q.
Proof.
  intros Hok Hq Hl HQ. unfold pick_next_entity.
  destruct (leftmost_exists s q c Hok Hq Hl) as [Hin [y Hy]].
  pose proof (so_cfs s Hok q c Hq) as Hqok.
  assert (∀ e, e ∈ inorder (tasks_timeline c) → runnable s q e) as Htree.
  { by intros e [_ ?]%(co_members s q c Hqok). }
  destruct (so_hints s Hok q) as (b & Hb & Hnx & Hla & Hsk); [by eexists|].
  eapply wp_bind, wp_bind, wp_get_cfs, wp_ret; [done|].
  apply wp_bind. unfold or_curr at 1. rewrite (proj2 (Z.eqb_neq _ _) Hl). apply wp_ret.
  eapply wp_bind, wp_get_hints; [done|].
  set (good := λ r, on_queue s q r ∧ (hints_live s q → runnable s q r) ∧
    (b = Buddies NULL NULL NULL → r = rb_leftmost c)).
  assert (good (rb_leftmost c)) as Hgood.
  { split; [by apply runnable_on_queue, Htree|]. split; [intros _; by apply Htree|done]. }
  assert (∀ r P, good r → (∀ r', good r' → P r' s) → ∀ hint, hint_ok s q hint →
    (hints_live s q → hint = NULL ∨ runnable s q hint) →
    (b = Buddies NULL NULL NULL → hint = NULL) → wp (or_hint hint (rb_leftmost c) r) s P) as Hstep.
  { intros r P Hr HP hint Hh Hlv Hbn. apply wp_or_hint; [by intros; destruct Hh as [?|[? _]]| |].
    - by exists y.
    - intros r' [->|[Hne ->]]; [by apply HP|]. apply HP. split; [by destruct Hh|]. split.
      + intros Hlive. by destruct (Hlv Hlive).
      + intros He. by destruct Hne; apply Hbn. }
  apply wp_bind. apply (wp_mono _ _ (λ r s1, s1 = s ∧ good r)).
  { destruct (Z.eqb_spec (skip b) (rb_leftmost c)) as [Hskip|Hskip]; [|by apply wp_ret].
    rewrite (proj2 (Z.eqb_neq _ _) Hl). apply wp_bind, wp_bind.
    eapply wp_bind, wp_get_cfs, wp_ret; [done|].
    destruct (inorder (tasks_timeline c)) as [|e l] eqn:Htl; [by apply not_elem_of_nil in Hin|].
    rewrite (co_leftmost s q c Hqok), Htl in *. simpl hd in *.
    rewrite (rb_next_law _ _ [] l Htl) by (rewrite Htl, <-Htl; apply Hqok).
    unfold or_curr. set (second := hd NULL l).
    replace (if second =? NULL then _ else _) with (mret second : M st Z).
    2: { by destruct (Z.eqb_spec second NULL) as [->|]. }
    assert (second = NULL ∨ runnable s q second) as Hsec.
    { destruct l as [|e2 l]; [by left|right]. apply Htree. set_solver. }
    apply wp_ret, Hstep; [done|done| |done|].
    - destruct Hsec as [?|?]; [by left|right]. by apply runnable_on_queue.
    - intros He. rewrite He in Hskip. by simplify_eq/=. }
  intros r s1 [-> Hr]. apply wp_bind, Hstep; [done| |done|intros Hv; by apply (Hv b)|by intros ->].
  intros r2 Hr2. apply wp_bind, Hstep; [done| |done|intros Hv; by apply (Hv b)|by intros ->].
  intros r3 (Hr3 & Hlive & Hr3'). apply wp_bind, wp_modify, wp_ret, HQ; [done|done| |apply clear_buddies_law].
  rewrite Hb. intros [=]. by apply Hr3'.
Qed.
(** What [pick_next_task_fair] promises when the queue is not empty. *)
Record picked s s' r c c' p : Prop := {
  pk_only : only_queue s s' r c';
  pk_ok : cfs_ok s' r c';
  pk_curr : curr c' = p;
  pk_queue : on_queue s' r p;
  pk_live : hints_live s r → runnable s' r p;
  pk_on : same_on s s';
  pk_counts : same_counts c c';
  pk_sorted : sched_sorted s → window s' r → sorted_by_vr s' c';
  pk_least : hints s !! r = Some (Buddies NULL NULL NULL) → sched_sorted s → window s' r →
    ∀ e, runnable s' r e → vr s' p ≤ vr s' e
}.

Lemma leftmost_least s q c e : cfs_ok s q c → sorted_by_vr s c → e ∈ inorder (tasks_timeline c) →
  vr s (rb_leftmost c) ≤ vr s e.
Proof.
  intros [_ -> _ _ _] Hso. unfold sorted_by_vr in Hso. destruct Hso as [|x l Hso Hall]; simpl.
  - by intros ?%not_elem_of_nil.
  - rewrite Forall_forall in Hall. intros [->|He]%elem_of_cons; [done|by apply Hall].
Qed.

Lemma on_queue_not_null s q e : sched_ok s → on_queue s q e → e ≠ NULL.
Proof. intros Hok [[x Hx] _] ->. by rewrite (so_null s Hok) in Hx. Qed.

Lemma only_queue_hints s q c h : cfs s !! q = Some c → hints_from (λ _ _, False) (hints s) h →
  only_queue s (with_hints h s) q c.
Proof. intros Hq Hh. split; [by rewrite insert_id|done|done|done|by split_and!]. Qed.

(** The common end of [pick_next_task_fair]: no current entity, something in
    the timeline. *)
Lemma wp_pick_and_set s q c (Q : Z → st → Prop) : sched_ok s → cfs s !! q = Some c → curr c = NULL →
  nr_running c ≠ 0 →
  (∀ se s' c', only_queue s s' q c' → cfs_ok s' q c' → (sorted_by_vr s c → sorted_by_vr s' c') →
     curr c' = se → on_queue s' q se → (hints_live s q → runnable s' q se) → min_vruntime c' = min_vruntime c → same_counts c c' →
     same_vr s s' →
     (hints s !! q = Some (Buddies NULL NULL NULL) → sorted_by_vr s c →
       ∀ e, runnable s' q e → vr s' se ≤ vr s' e) →
     Q se s') →
  wp (se ← pick_next_entity q NULL;
      if se =? NULL then mret NULL else set_next_entity q se;; mret se) s Q.
Proof.
  intros Hok Hq Hcu Hnr HQ. pose proof (so_cfs s Hok q c Hq) as Hqok.
  assert (rb_leftmost c ≠ NULL) as Hl.
  { rewrite (co_nr s q c Hqok) in Hnr. unfold queue_len, curr_on in Hnr.
    rewrite Hcu, (so_null s Hok) in Hnr. rewrite (co_leftmost s q c Hqok). intros Hhd.
    destruct (inorder (tasks_timeline c)) as [|e l] eqn:Ht; [by apply Hnr|].
    simpl in Hhd. assert (e ∈ inorder (tasks_timeline c)) as He by (rewrite Ht; by left).
    rewrite Hhd in He. apply (co_members s q c Hqok) in He as [_ He]. by eapply runnable_not_null. }
  eapply wp_bind, wp_pick_next_entity; [done..|]. intros se h' Hse Hlive Hleft Hh.
  rewrite (proj2 (Z.eqb_neq se NULL)) by by eapply on_queue_not_null.
  destruct Hse as [[x Hx] Hseq].
  assert (sched_ok (with_hints h' s)) as Hok'.
  { eapply only_queue_ok; [done|by eexists|by apply only_queue_hints|]. by apply (cfs_ok_ext s). }
  eapply wp_bind, wp_set_next_entity; [done..|].
  intros s' c' Ho Hok1 Hso Hc Hm Hn Hv. apply wp_ret.
  assert (only_queue s s' q c') as Ho'.
  { eapply only_queue_trans; [by apply only_queue_hints|done]. }
  apply (HQ se s' c'); try done.
  - split; [|done]. apply (oq_dom _ _ _ _ Ho'). by exists x.
  - intros Hl'. apply (same_on_runnable (with_hints h' s) s'); [apply Hv|by apply Hlive].
  - intros Hnone Hso1 e He. destruct Hv as [Hv Hon]. rewrite (Hv se), (Hv e), Hleft by done.
    apply (leftmost_least s q c); [done..|]. apply (co_members s q c Hqok). rewrite Hcu.
    assert (runnable s q e) as Hr by by apply (same_on_runnable (with_hints h' s) s').
    split; [|done]. intros ->. by eapply runnable_not_null.
Qed.
Lemma window_mono s s' q c c' : cfs s !! q = Some c → cfs s' !! q = Some c' →
  min_vruntime c' = min_vruntime c → same_vr s s' → window s' q → window s q.
Proof.
  intros Hq Hq' Hm [Hv Ho] Hw c1 e Hq1 He. simplify_eq.
  assert (in_window s' c' e) as Hin by by apply Hw; [|apply (same_on_runnable s s')].
  unfold in_window in *. by rewrite Hv, Hm in Hin.
Qed.

Lemma same_on_trans s1 s2 s3 : same_on s1 s2 → same_on s2 s3 → same_on s1 s3.
Proof. intros H1 H2 e. by rewrite H2. Qed.

Lemma same_counts_trans c1 c2 c3 : same_counts c1 c2 → same_counts c2 c3 → same_counts c1 c3.
Proof. unfold same_counts. naive_solver congruence. Qed.

Lemma charged_picked s s' q c m p : sched_ok s → cfs s !! q = Some c → charged s s' q c m →
  curr c = p → runnable s' q p →
  (∀ e, e ∈ inorder (tasks_timeline c) → sorted_by_vr s' (with_min_vruntime m c) →
    window s' q → vr s' p ≤ vr s' e) →
  picked s s' q c (with_min_vruntime m c) p.
Proof.
  intros Hok Hq Hch Hcu Hp Hmin. pose proof (ch_same _ _ _ _ _ Hch) as Hsame.
  pose proof (charged_lookup _ _ _ _ _ Hch) as Hq'.
  pose proof (charged_ok _ _ _ _ _ Hok Hch) as Hok'.
  assert (sched_sorted s → sorted_by_vr s' (with_min_vruntime m c)) as Hso.
  { intros Hso. by apply (same_queues_sorted s s' Hso Hsame q). }
  split; [by eapply charged_only|by apply (so_cfs s' Hok')|done|by apply runnable_on_queue|done|apply Hsame|done|auto|].
  - intros _ Hs Hw e Hr. destruct (decide (e = p)) as [->|Hne]; [done|].
    apply Hmin; [|by apply Hso|done].
    apply (co_members s' q (with_min_vruntime m c)); [by apply (so_cfs s' Hok')|].
    split; [|done]. simpl. by rewrite Hcu.
Qed.

(** [prev] is the current entity of the queue if it is a task of this class,
    and there is none otherwise. *)
Definition pick_legal s (c : cfs_rq) (prev : Z) : Prop :=
  if decide (prev = NULL) then curr c = NULL
  else ∃ t, tasks s !! prev = Some t ∧
    curr c = if decide (tfields t t_sched_class = fair_sched_class) then prev else NULL.

Lemma hints_none s s' q : hints_from (λ _ _, False) (hints s) (hints s') →
  hints s !! q = Some (Buddies NULL NULL NULL) → hints s' !! q = Some (Buddies NULL NULL NULL).
Proof.
  intros Hf Hq. specialize (Hf q). rewrite Hq in Hf. destruct (hints s' !! q) as [[n l k]|]; [|done].
  unfold hint_from in Hf. simpl in Hf. naive_solver congruence.
Qed.

(** A call that sets no mark and takes nobody off. *)
Lemma hints_live_mono s s' q : hints_live s q → hints_from (λ _ _, False) (hints s) (hints s') →
  (∀ e, runnable s q e → runnable s' q e) → hints_live s' q.
Proof.
  intros Hl Hf Hrun b Hb. specialize (Hf q). rewrite Hb in Hf.
  destruct (hints s !! q) as [b0|] eqn:Hb0; [|done]. destruct (Hl b0 Hb0) as [Hn Hla].
  destruct Hf as (Hfn & Hfl & _). unfold hint_from in *. naive_solver congruence.
Qed.

Lemma hints_live_same s s' q : hints_live s q → hints_from (λ _ _, False) (hints s) (hints s') →
  same_on s s' → hints_live s' q.
Proof. intros Hl Hf Ho. eapply hints_live_mono; [done..|]. intros e He. by apply (same_on_runnable s s'). Qed.

(** After charging: put the current entity back and pick another one. *)
Lemma wp_put_and_pick s s1 r c m prev (Q : Z → st → Prop) : sched_ok s → cfs s !! r = Some c →
  charged s s1 r c m → curr c = prev → prev ≠ NULL → nr_running c ≠ 0 →
  (∀ p s' c', picked s s' r c c' p → Q p s') →
  wp (put_prev_entity r prev) s1 (λ _ s2,
    wp (se ← pick_next_entity r NULL;
        if se =? NULL then mret NULL else set_next_entity r se;; mret se) s2 Q).
Proof.
  intros Hok Hq Hch Hcu Hne Hz HQ. pose proof (ch_same _ _ _ _ _ Hch) as Hsame.
  pose proof (charged_ok _ _ _ _ _ Hok Hch) as Hok1.
  pose proof (charged_lookup _ _ _ _ _ Hch) as Hq1. set (c1 := with_min_vruntime m c) in *.
  eapply (wp_put_prev_entity _ _ c1); [done..|].
  intros s2 c2 Ho2 Hok2 Hso2 Hcu2 Hn2 Hon2 _.
  assert (cfs s2 !! r = Some c2) as Hq2 by (rewrite (oq_cfs _ _ _ _ Ho2); apply lookup_insert_eq).
  assert (sched_ok s2) as Hsok2 by (eapply only_queue_ok; [done|by eexists|done..]).
  assert (only_queue s s2 r c2) as Ho02.
  { eapply only_queue_trans; [by eapply charged_only|done]. }
  eapply wp_pick_and_set; [done..| |].
  { destruct Hn2 as (_ & -> & _). done. }
  intros se s3 c3 Ho3 Hok3 Hso3 Hc3 Hse3 Hlive3 Hm3 Hn3 Hv3 Hleast3.
  assert (cfs s3 !! r = Some c3) as Hq3 by (rewrite (oq_cfs _ _ _ _ Ho3); apply lookup_insert_eq).
  assert (sched_sorted s → window s3 r → sorted_by_vr s2 c2) as Hs2.
  { intros Hs Hw. apply Hso2; [by eapply same_queues_sorted|]. by eapply window_mono. }
  apply (HQ se s3 c3). split; try done.
  - by eapply only_queue_trans.
  - intros Hl. apply Hlive3. eapply hints_live_same; [exact Hl|apply Ho02|].
    eapply same_on_trans; [apply Hsame|done].
  - eapply same_on_trans; [apply Hsame|]. eapply same_on_trans; [done|apply Hv3].
  - eapply same_counts_trans; [|done]. by eapply (same_counts_trans c c1).
  - auto.
  - intros Hnone Hs Hw e. apply Hleast3; [|auto]. by eapply hints_none, Hnone; apply Ho02.
Qed.

(** The test that lets [prev] go on. *)
Lemma wp_keep_prev s r c prev x (Q : bool → st → Prop) : sched_ok s → cfs s !! r = Some c →
  ses s !! prev = Some x → Q false s →
  (rb_leftmost c ≠ NULL → on_rq x ≠ 0 → keyof s c prev ≤ keyof s c (rb_leftmost c) → Q true s) →
  wp (if negb (on_rq x =? 0) && entity_is_task prev then
        se ← __pick_first_entity r;
        if se =? NULL then mret false
        else k ← entity_key r prev; k' ← entity_key r se; mret (k <=? k')
      else mret false) s Q.
Proof.
  intros Hok Hq Hx Hf Ht. destruct (negb (on_rq x =? 0) && entity_is_task prev) eqn:Hb; [|done].
  apply andb_true_iff in Hb as [Hon%negb_true_iff%Z.eqb_neq _].
  eapply wp_bind, wp_bind, wp_get_cfs, wp_ret; [done|].
  destruct (Z.eqb_spec (rb_leftmost c) NULL) as [Hl|Hl]; [done|].
  destruct (leftmost_exists s r c Hok Hq Hl) as [_ [y Hy]].
  eapply wp_bind, wp_entity_key; [done|by exists x|].
  eapply wp_bind, wp_entity_key; [done|by exists y|].
  apply wp_ret. destruct (Z.leb_spec (keyof s c prev) (keyof s c (rb_leftmost c))); auto.
Qed.

Lemma wp_pick_next_task_fair s r c prev (Q : Z → st → Prop) : sched_ok s → cfs s !! r = Some c →
  pick_legal s c prev →
  (nr_running c = 0 → Q NULL s) →
  (nr_running c ≠ 0 → ∀ p s' c', picked s s' r c c' p → Q p s') →
  wp (pick_next_task_fair r prev) s Q.
Proof.
  intros Hok Hq Hlegal HQ0 HQ. unfold pick_next_task_fair.
  eapply wp_bind, wp_get_cfs; [done|]. destruct (Z.eqb_spec (nr_running c) 0) as [Hz|Hz].
  { by apply wp_ret, HQ0. }
  specialize (HQ Hz). apply wp_bind. unfold pick_legal in Hlegal.
  assert (curr c = NULL → wp (se ← pick_next_entity r NULL;
      if se =? NULL then mret NULL else set_next_entity r se;; mret se) s Q) as Hplain.
  { intros Hcu. eapply wp_pick_and_set; [done..|].
    intros se s' c' Ho Hok' Hso Hc Hse Hlive Hm Hn Hv Hleast. apply (HQ se s' c').
    split; try done; [by apply Hv|intros Hs _; by apply Hso, (Hs r)|].
    intros Hnone Hs _. by apply Hleast, (Hs r). }
  destruct (decide (prev = NULL)) as [->|Hne].
  { rewrite Z.eqb_refl. by apply wp_ret, Hplain. }
  rewrite (proj2 (Z.eqb_neq prev NULL)) by done. destruct Hlegal as (t & Ht & Hcu).
  eapply wp_bind, wp_task_get; [done|].
  destruct (decide (tfields t t_sched_class = fair_sched_class)) as [Hfair|Hfair].
  2: { rewrite (proj2 (Z.eqb_neq _ _)) by done. by apply wp_ret, Hplain. }
  rewrite Hfair, Z.eqb_refl. simpl. clear Hplain.
  eapply wp_bind, wp_update_curr_charged; [done..|]. intros s1 m Hch.
  pose proof (charged_ok _ _ _ _ _ Hok Hch) as Hok1.
  pose proof (charged_lookup _ _ _ _ _ Hch) as Hq1.
  destruct (co_curr s r c (so_cfs s Hok r c Hq)) as [Hex Hcq]; [congruence|]. rewrite Hcu in Hex, Hcq.
  destruct (proj2 (same_queues_dom s s1 prev (ch_same _ _ _ _ _ Hch)) Hex) as [x1 Hx1].
  eapply wp_bind, wp_get_se; [done|]. eapply wp_bind, wp_keep_prev; [done..| |].
  - apply wp_bind. eapply wp_mono; [exact (wp_put_and_pick s s1 r c m prev Q Hok Hq Hch Hcu Hne Hz HQ)|].
    intros ? s2 Hwp. by apply wp_ret.
  - intros Hl Hon Hkey. apply wp_ret, wp_ret. apply (HQ prev s1 (with_min_vruntime m c)).
    apply charged_picked; try done; [split; [done|by exists x1]|]. intros e He Hso Hw.
    assert (∀ e, runnable s1 r e → in_window s1 (with_min_vruntime m c) e) as Hw' by (intros; by apply Hw).
    pose proof (so_cfs s1 Hok1 r _ Hq1) as Hqok1.
    transitivity (vr s1 (rb_leftmost c)); [|by apply (leftmost_least s1 r (with_min_vruntime m c))].
    destruct (leftmost_exists s1 r _ Hok1 Hq1 Hl) as [Hlin _].
    rewrite !keyof_window in Hkey; [simpl in Hkey; lia| |].
    + apply Hw'. by apply (co_members s1 r _ Hqok1) in Hlin as [_ ?].
    + apply Hw'. split; [done|by exists x1].
Qed.
(** * Enqueueing *)

(** Moving an entity that is not runnable in virtual time. *)
Lemma place_same_queues s se x v : sched_ok s → ses s !! se = Some x → on_rq x = 0 →
  same_queues s (with_ses (<[se := with_vruntime v x]> (ses s)) s).
Proof.
  intros Hok Hx Hon. split; simpl; [done| | |done|done].
  - intros e. simpl. destruct (decide (e = se)) as [->|]; by simplify_map_eq.
  - intros q c e Hq He. apply (co_members s q c (so_cfs s Hok q c Hq)) in He as (_ & _ & y & Hy & ?).
    unfold vr. simpl. rewrite lookup_insert_ne; [done|]. intros <-. by simplify_eq.
Qed.

Lemma place_only_queue s se x v c : cfs s !! cfs_rq_of se = Some c → ses s !! se = Some x →
  only_queue s (with_ses (<[se := with_vruntime v x]> (ses s)) s) (cfs_rq_of se) c.
Proof.
  intros Hq Hx. split; [simpl; by rewrite insert_id| | |apply hints_from_refl|by split_and!].
  - intros e He. simpl. rewrite lookup_insert_ne; [done|]. by intros <-.
  - intros e. simpl. rewrite lookup_insert_is_Some'. naive_solver.
Qed.

Lemma wp_place_entity s q c se x i (Q : unit → st → Prop) : cfs s !! q = Some c → ses s !! se = Some x →
  (∀ v, Q tt (with_ses (<[se := with_vruntime v x]> (ses s)) s)) →
  wp (place_entity q se i) s Q.
Proof.
  intros Hq Hx HQ. eapply wp_bind, wp_get_cfs; [done|]. eapply wp_bind, wp_get_se; [done|].
  apply wp_bind, wp_gets. eapply wp_mod_se; [done|]. apply HQ.
Qed.

(** The state between accounting an entity and queueing it: [c3] is [c2] with
    the entity counted, [x3] the entity where it was placed. *)
Record counted (s2 s3 : st) q c2 c3 se x3 : Prop := {
  ct_cfs : cfs s3 = <[q := c3]> (cfs s2);
  ct_ses : ses s3 = <[se := x3]> (ses s2);
  ct_hints : hints s3 = hints s2;
  ct_rest : same_rest s2 s3;
  ct_queue : tasks_timeline c3 = tasks_timeline c2 ∧ rb_leftmost c3 = rb_leftmost c2 ∧
    curr c3 = curr c2 ∧ min_vruntime c3 = min_vruntime c2 ∧ h_nr_running c3 = h_nr_running c2;
  ct_nr : nr_running c3 = nr_running c2 +[32] 1;
  ct_off : on_rq x3 = 0
}.

(** What [enqueue_entity] promises: [se] is runnable, nothing else changed its
    queueing, the count went up by one; of the other entities only the current
    one, which is charged, is touched at all. *)
Record enqueued s s' q c c' se : Prop := {
  eq_only : only_queue s s' q c';
  eq_ok : cfs_ok s' q c';
  eq_sorted : sched_sorted s → window s' q → sorted_by_vr s' c';
  eq_curr : curr c' = curr c;
  eq_nr : nr_running c' = nr_running c +[32] 1;
  eq_h_nr : h_nr_running c' = h_nr_running c;
  eq_on : ∀ e, e ≠ se → on_rq <$> ses s' !! e = on_rq <$> ses s !! e;
  eq_se : on_rq <$> ses s' !! se = Some 1;
  eq_ses : ∀ e, e ≠ se → e ≠ curr c → ses s' !! e = ses s !! e
}.

Lemma counted_only s2 s3 q c2 c3 se x3 x' c' : is_Some (ses s2 !! se) → cfs_rq_of se = q →
  counted s2 s3 q c2 c3 se x3 →
  ∀ w, only_queue s2 (with_world w (with_ses (<[se := x']> (ses s3))
         (with_cfs (<[q := c']> (cfs s3)) s3))) q c'.
Proof.
  intros Hx Hq [Hc Hs Hh Hr _ _ _] w. split; simpl.
  - by rewrite Hc, insert_insert_eq.
  - intros e He. rewrite Hs, !lookup_insert_ne; [done|by intros <-..].
  - intros e. rewrite Hs, !lookup_insert_is_Some'. naive_solver.
  - rewrite Hh. apply hints_from_refl.
  - exact Hr.
Qed.
Lemma counted_on s2 s3 q c2 c3 se x3 x' c' w : counted s2 s3 q c2 c3 se x3 → on_rq x' = 1 →
  let s' := with_world w (with_ses (<[se := x']> (ses s3)) (with_cfs (<[q := c']> (cfs s3)) s3)) in
  (∀ e, e ≠ se → ses s' !! e = ses s2 !! e) ∧
  on_rq <$> ses s' !! se = Some 1.
Proof.
  intros [_ Hs _ _ _ _ _] Ho s'. subst s'. simpl. split.
  - intros e He. by rewrite Hs, !lookup_insert_ne.
  - rewrite lookup_insert_eq. simpl. by rewrite Ho.
Qed.

(** Runnable entities after one more became runnable. *)
Lemma runnable_add s s' q se : cfs_rq_of se = q →
  (∀ e, e ≠ se → on_rq <$> ses s' !! e = on_rq <$> ses s !! e) → on_rq <$> ses s' !! se = Some 1 →
  ∀ e, runnable s' q e ↔ e = se ∨ runnable s q e.
Proof.
  intros Hq Hne Hse e. unfold runnable. destruct (decide (e = se)) as [->|He].
  - destruct (ses s' !! se) as [x|]; simplify_eq/=. split; [by left|].
    intros _. split; [done|]. exists x. split; [done|]. congruence.
  - specialize (Hne e He). destruct (ses s' !! e) as [x|], (ses s !! e) as [y|]; simplify_eq/=;
      [|naive_solver..].
    split; [intros (? & z & [= <-] & ?); right|intros [?|(? & z & [= <-] & ?)]; [done|]];
      (split; [done|]); eexists; split; try done; congruence.
Qed.

Lemma enqueue_current s2 s3 q c2 c3 se x3 w : sched_ok s2 → cfs s2 !! q = Some c2 →
  counted s2 s3 q c2 c3 se x3 → cfs_rq_of se = q → (∃ x2, ses s2 !! se = Some x2 ∧ on_rq x2 = 0) →
  curr c2 = se →
  enqueued s2 (with_world w (with_ses (<[se := with_on_rq 1 x3]> (ses s3)) s3)) q c2 c3 se.
Proof.
  intros Hok Hq Hct Hse (x2 & Hx2 & Ho2) Hcu. pose proof (so_cfs s2 Hok q c2 Hq) as Hqok.
  destruct (ct_queue _ _ _ _ _ _ _ Hct) as (Ht & Hl & Hc & Hm & Hh).
  assert (cfs s3 !! q = Some c3) as Hq3 by (rewrite (ct_cfs _ _ _ _ _ _ _ Hct); apply lookup_insert_eq).
  set (s' := with_world w _).
  assert (s' = with_world w (with_ses (<[se := with_on_rq 1 x3]> (ses s3))
    (with_cfs (<[q := c3]> (cfs s3)) s3))) as Hs' by (rewrite (insert_id (cfs s3)) by done; by destruct s3).
  assert (se ≠ NULL) as Hnn by (intros ->; by rewrite (so_null s2 Hok) in Hx2).
  destruct (counted_on s2 s3 q c2 c3 se x3 (with_on_rq 1 x3) c3 w Hct eq_refl) as [Hsame Hon1].
  rewrite <-Hs' in Hsame, Hon1.
  assert (∀ e, e ≠ se → on_rq <$> ses s' !! e = on_rq <$> ses s2 !! e) as Hon by (intros; by rewrite Hsame).
  pose proof (runnable_add s2 s' q se Hse Hon Hon1) as Hrun.
  assert (only_queue s2 s' q c3) as Ho.
  { rewrite Hs'. eapply counted_only; [by eexists|done..]. }
  split; try done; [| |by rewrite (ct_nr _ _ _ _ _ _ _ Hct)|by auto].
  - destruct Hqok as [Hnd Hlm Hmem _ Hn]. split; rewrite ?Ht, ?Hl, ?Hc; [done|done| | |].
    + intros e. rewrite Hmem, Hrun, Hcu. naive_solver.
    + intros _. rewrite Hcu. split; [|done]. apply (oq_dom _ _ _ _ Ho). by exists x2.
    + rewrite (ct_nr _ _ _ _ _ _ _ Hct), Hn, wrap_add_l. f_equal. unfold queue_len. rewrite Ht.
      assert (curr_on s2 c2 = false) as -> by (unfold curr_on; by rewrite Hcu, Hx2, Ho2).
      assert (curr_on s' c3 = true) as ->; [|lia].
      unfold curr_on. rewrite Hc, Hcu. destruct (ses s' !! se); [|done]. by injection Hon1 as ->.
  - intros Hso _. generalize (Hso q c2 Hq). unfold sorted_by_vr. rewrite Ht. apply sorted_ext.
    assert (∀ e, e ∈ inorder (tasks_timeline c2) → vr s' e = vr s2 e) as Hv; [|intros; by rewrite !Hv].
    intros e [Hne _]%(co_members s2 q c2 Hqok). rewrite Hcu in Hne. unfold vr. subst s'. simpl.
    rewrite (ct_ses _ _ _ _ _ _ _ Hct). by rewrite !lookup_insert_ne.
Qed.

Lemma enqueue_queued s2 s3 q c2 c3 se x3 w t a b : sched_ok s2 → cfs s2 !! q = Some c2 →
  counted s2 s3 q c2 c3 se x3 → cfs_rq_of se = q → (∃ x2, ses s2 !! se = Some x2 ∧ on_rq x2 = 0) →
  curr c2 ≠ se → inorder (tasks_timeline c2) = a ++ b → inorder t = a ++ se :: b →
  (sorted_by_vr s3 c3 → (∀ e, e = se ∨ e ∈ inorder (tasks_timeline c3) → in_window s3 c3 e) →
   (∀ x, x ∈ a → vr s3 x ≤ vr s3 se) ∧ (∀ y, y ∈ b → vr s3 se < vr s3 y)) →
  let c' := with_timeline t (with_leftmost (if bool_decide (a = []) then se else rb_leftmost c3) c3) in
  enqueued s2 (with_world w (with_ses (<[se := with_on_rq 1 x3]> (ses s3))
    (with_cfs (<[q := c']> (cfs s3)) s3))) q c2 c' se.
Proof.
  intros Hok Hq Hct Hse (x2 & Hx2 & Ho2) Hcu Hab Ht' Hord c'. pose proof (so_cfs s2 Hok q c2 Hq) as Hqok.
  destruct (ct_queue _ _ _ _ _ _ _ Hct) as (Ht & Hl & Hc & Hm & Hh). set (s' := with_world w _).
  assert (se ≠ NULL) as Hnn by (intros ->; by rewrite (so_null s2 Hok) in Hx2).
  destruct (counted_on s2 s3 q c2 c3 se x3 (with_on_rq 1 x3) c' w Hct eq_refl) as [Hsame Hon1].
  change (with_world w _) with s' in Hsame, Hon1.
  assert (∀ e, e ≠ se → on_rq <$> ses s' !! e = on_rq <$> ses s2 !! e) as Hon by (intros; by rewrite Hsame).
  pose proof (runnable_add s2 s' q se Hse Hon Hon1) as Hrun.
  assert (¬ runnable s2 q se) as Hnr by (intros (_ & y & Hy & ?); simplify_eq).
  assert (only_queue s2 s' q c') as Ho by (eapply counted_only; [by eexists|done..]).
  assert (∀ e, vr s' e = vr s3 e) as Hv.
  { intros e. unfold vr. subst s'. simpl. rewrite (ct_ses _ _ _ _ _ _ _ Hct).
    destruct (decide (e = se)) as [->|]; by simplify_map_eq. }
  clearbody s'. split; try done; [| |by rewrite <-(ct_nr _ _ _ _ _ _ _ Hct)|by auto].
  - eapply insert_ok; [done|by intros [_ ?]%(co_members s2 q c2 Hqok)|done|done|done|by simpl; rewrite Hl| | |].
    + intros e. rewrite Hrun. simpl. rewrite Hc. naive_solver.
    + simpl. rewrite Hc. intros Hn. destruct (co_curr s2 q c2 Hqok Hn) as [He ?].
      split; [by apply (oq_dom _ _ _ _ Ho)|done].
    + simpl. rewrite (ct_nr _ _ _ _ _ _ _ Hct), (co_nr s2 q c2 Hqok), wrap_add_l. f_equal.
      unfold queue_len. simpl. rewrite Ht', Hab, !length_app. simpl.
      assert (curr_on s' c' = curr_on s2 c2) as ->; [|lia].
      unfold curr_on. simpl. rewrite Hc. specialize (Hon (curr c2) Hcu).
      destruct (ses s' !! curr c2), (ses s2 !! curr c2); try done. by injection Hon as ->.
  - intros Hso Hw. assert (sorted_by_vr s3 c3) as Hso3.
    { generalize (Hso q c2 Hq). unfold sorted_by_vr. rewrite Ht. apply sorted_ext.
      assert (∀ e, e ∈ inorder (tasks_timeline c2) → vr s3 e = vr s2 e) as Hv3; [|intros; by rewrite !Hv3].
      intros e [_ He]%(co_members s2 q c2 Hqok). unfold vr. rewrite (ct_ses _ _ _ _ _ _ _ Hct).
      rewrite lookup_insert_ne; [done|]. by intros <-. }
    destruct Hord as [Ha Hb]; [done| |].
    + intros e He. assert (in_window s' c' e) as Hin.
      2: { unfold in_window in *. rewrite Hv in Hin. exact Hin. }
      apply (Hw c' e); [rewrite (oq_cfs _ _ _ _ Ho); apply lookup_insert_eq|]. apply Hrun.
      destruct He as [->|He]; [by left|right]. rewrite Ht in He. by apply (co_members s2 q c2 Hqok) in He as [_ ?].
    + eapply insert_sorted; [done|by rewrite Ht|done|done|done|done].
Qed.
Lemma wp_skip s (Q : unit → st → Prop) : (∀ w, Q tt (with_world w s)) → Q tt s.
Proof. intros HQ. specialize (HQ (world s)). by destruct s. Qed.

(** The last part of [enqueue_entity]: queue the entity, mark it runnable. *)
Lemma wp_enqueue_tail s2 s3 q c2 c3 se x3 (Q : unit → st → Prop) : sched_ok s2 → cfs s2 !! q = Some c2 →
  counted s2 s3 q c2 c3 se x3 → cfs_rq_of se = q → (∃ x2, ses s2 !! se = Some x2 ∧ on_rq x2 = 0) →
  (∀ s' c', enqueued s2 s' q c2 c' se → Q tt s') →
  wp (c ← get_cfs q;
      (if negb (se =? curr c) then __enqueue_entity q se else mret tt);;
      mod_se se (with_on_rq 1);;
      c ← get_cfs q;
      if nr_running c =? 1 then acct (list_add_leaf_cfs_rq q);; acct (check_enqueue_throttle q)
      else mret tt) s3 Q.
Proof.
  intros Hok Hq Hct Hse Hx HQ. pose proof Hct as [Hc3 Hs3 _ _ (Ht & _ & Hcu & _) _ _].
  assert (cfs s3 !! q = Some c3) as Hq3 by (rewrite Hc3; apply lookup_insert_eq).
  assert (ses s3 !! se = Some x3) as Hx3 by (rewrite Hs3; apply lookup_insert_eq).
  eapply wp_bind, wp_get_cfs; [done|]. apply wp_bind.
  destruct (Z.eqb_spec se (curr c3)) as [He|He]; simpl.
  - eapply wp_ret, wp_bind, wp_mod_se; [done|]. eapply wp_bind, wp_get_cfs; [done|].
    assert (∀ w, Q tt (with_world w (with_ses (<[se := with_on_rq 1 x3]> (ses s3)) s3))) as HQ'.
    { intros w. eapply HQ, enqueue_current; try done. by rewrite <-Hcu. }
    destruct (nr_running c3 =? 1); [|by apply wp_ret, wp_skip].
    apply wp_bind, wp_acct; intros ?. by apply wp_acct.
  - eapply wp_enqueue; [done|by exists x3| |].
    { intros e Hin. rewrite Ht in Hin. destruct (queued_exists s2 q c2 e Hok Hq Hin) as [y Hy].
      rewrite Hs3, lookup_insert_is_Some'. right. by exists y. }
    intros t a b Hab Htt Hord. eapply wp_bind, wp_mod_se; [done|].
    eapply wp_bind, wp_get_cfs; [apply lookup_insert_eq|].
    match goal with |- context [nr_running ?c'] => set (c'' := c') end.
    assert (∀ w, Q tt (with_world w (with_ses (<[se := with_on_rq 1 x3]> (ses s3))
      (with_cfs (<[q := c'']> (cfs s3)) s3)))) as HQ'.
    { intros w. rewrite Ht in Hab. eapply HQ, (enqueue_queued _ _ _ _ _ _ _ w t a b); try done.
      by rewrite <-Hcu. }
    destruct (nr_running c'' =? 1); [|by apply wp_ret, wp_skip].
    apply wp_bind, wp_acct; intros ?. by apply wp_acct.
Qed.

Lemma enqueued_after s s2 s' q c c2 c' se m : sched_ok s → cfs s !! q = Some c →
  same_queues s s2 → only_queue s s2 q c2 → c2 = with_min_vruntime m c →
  (∀ e, e ≠ se → e ≠ curr c → ses s2 !! e = ses s !! e) →
  enqueued s2 s' q c2 c' se → enqueued s s' q c c' se.
Proof.
  intros Hok Hq Hsame Ho -> Hses [Ho' Hok' Hso Hcu Hn Hh Hon Hon1 Hses']. split; try done.
  - by eapply only_queue_trans.
  - intros Hs. apply Hso. by eapply same_queues_sorted.
  - intros e He. rewrite Hon by done. apply Hsame.
  - intros e He Hc. rewrite Hses' by done. by apply Hses.
Qed.

(** First part of [enqueue_entity]: make the virtual runtime absolute. *)
Lemma wp_normalise s q c se x (b : bool) (f : Z → Z → Z) (Q : unit → st → Prop) :
  cfs s !! q = Some c → ses s !! se = Some x →
  (∀ v, Q tt (with_ses (<[se := with_vruntime v x]> (ses s)) s)) →
  wp (if b then c ← get_cfs q; mod_se se (λ y, with_vruntime (f (vruntime y) (min_vruntime c)) y)
      else mret tt) s Q.
Proof.
  intros Hq Hx HQ. destruct b.
  - eapply wp_bind, wp_get_cfs; [done|]. eapply wp_mod_se; [done|]. apply HQ.
  - apply wp_ret. specialize (HQ (vruntime x)). replace (with_vruntime (vruntime x) x) with x in HQ
      by (by destruct x). rewrite insert_id in HQ by done. by destruct s.
Qed.

Lemma wp_enqueue_entity s q c se x flags (Q : unit → st → Prop) : sched_ok s → cfs s !! q = Some c →
  ses s !! se = Some x → on_rq x = 0 → cfs_rq_of se = q →
  (∀ s' c', enqueued s s' q c c' se → Q tt s') →
  wp (enqueue_entity q se flags) s Q.
Proof.
  intros Hok Hq Hx Hon Hse HQ. unfold enqueue_entity. cbv zeta.
  eapply wp_bind, (wp_normalise s q c se x _ (λ v m, v +[64] m)); [done..|]. intros v.
  pose proof (place_same_queues s se x v Hok Hx Hon) as Hsame1. set (s1 := with_ses _ s) in *.
  assert (only_queue s s1 q c) as Ho1 by (rewrite <-Hse in Hq |- *; by apply place_only_queue).
  pose proof (same_queues_ok s s1 Hok Hsame1) as Hok1. assert (cfs s1 !! q = Some c) as Hq1 by done.
  eapply wp_bind, wp_update_curr_charged; [done..|]. intros s2 m Hch.
  pose proof (ch_same _ _ _ _ _ Hch) as Hsame2. pose proof (charged_ok _ _ _ _ _ Hok1 Hch) as Hok2.
  pose proof (charged_lookup _ _ _ _ _ Hch) as Hq2. set (c2 := with_min_vruntime m c) in *.
  assert (only_queue s s2 q c2) as Ho2 by (eapply only_queue_trans; [done|by eapply charged_only]).
  assert (∃ x2, ses s2 !! se = Some x2 ∧ on_rq x2 = 0) as (x2 & Hx2 & Hon2).
  { pose proof (sq_on _ _ Hsame2 se) as Ho. pose proof (sq_on _ _ Hsame1 se) as Ho'.
    rewrite Ho', Hx in Ho. destruct (ses s2 !! se) as [x2|]; [|done]. exists x2.
    injection Ho as Ho. by rewrite Ho. }
  apply wp_bind, wp_acct; intros ?. eapply wp_bind, wp_get_se; [done|].
  eapply wp_bind, wp_mod_cfs; [done|]. apply wp_bind, wp_acct; intros ?. simpl.
  destruct (account_entity_enqueue (load c, nr_running c) (se_load x2)) as [lw n] eqn:Hacc.
  assert (n = nr_running c +[32] 1) as Hn.
  { by rewrite <-(account_entity_enqueue_law (load c) (nr_running c) (se_load x2)), Hacc. }
  apply wp_bind.
  apply (wp_mono _ _ (λ _ s3, ∃ x3, counted s2 s3 q c2 (with_cfs_load lw n c2) se x3)).
  - assert (∀ v w' w'', counted s2 (with_ses (<[se := with_vruntime v x2]> (ses s2))
      (with_world w' (with_cfs (<[q := with_cfs_load lw n c2]> (cfs s2)) (with_world w'' s2))))
      q c2 (with_cfs_load lw n c2) se (with_vruntime v x2)) as Hct by (intros; by split).
    destruct (has_flag flags ENQUEUE_WAKEUP).
    + eapply wp_bind, wp_place_entity; [apply lookup_insert_eq|done|]. intros v2.
      apply wp_bind, wp_gets. destruct (schedstat_enabled _).
      * apply wp_acct. intros w'. eexists. destruct (Hct v2 w0 w). by split.
      * apply wp_ret. eexists. apply Hct.
    + apply wp_ret. exists x2. split; try done. simpl. by rewrite insert_id.
  - intros _ s3 [x3 Hct]. do 2 (apply wp_bind, wp_acct; intros ?).
    eapply (wp_enqueue_tail s2 _ q c2 (with_cfs_load lw n c2) se x3);
      [done|done|by destruct Hct; split|done|by exists x2|].
    intros s' c' Henq. eapply HQ, enqueued_after; [done|done| |done|done| |done].
    + by eapply same_queues_trans.
    + intros e He Hc. rewrite (ch_ses _ _ _ _ _ Hch) by done. simpl. by rewrite lookup_insert_ne.
Qed.
(** * Dequeueing *)

(** What [dequeue_entity] promises. *)
Record dequeued s s' q c c' se : Prop := {
  dq_only : only_queue s s' q c';
  dq_ok : cfs_ok s' q c';
  dq_sorted : sched_sorted s → sorted_by_vr s' c';
  dq_curr : curr c' = curr c;
  dq_nr : nr_running c' = nr_running c -[32] 1;
  dq_h_nr : h_nr_running c' = h_nr_running c;
  dq_on : ∀ e, e ≠ se → on_rq <$> ses s' !! e = on_rq <$> ses s !! e;
  dq_se : on_rq <$> ses s' !! se = Some 0;
  dq_hints : ∀ b, hints s' !! q = Some b → next b ≠ se ∧ last b ≠ se;
  dq_ses : ∀ e, e ≠ se → e ≠ curr c → ses s' !! e = ses s !! e
}.

Lemma runnable_del s s' q se :
  (∀ e, e ≠ se → on_rq <$> ses s' !! e = on_rq <$> ses s !! e) → on_rq <$> ses s' !! se = Some 0 →
  ∀ e, runnable s' q e ↔ e ≠ se ∧ runnable s q e.
Proof.
  intros Hne Hse e. unfold runnable. destruct (decide (e = se)) as [->|He].
  - destruct (ses s' !! se) as [x|]; simplify_eq/=. split; [|naive_solver].
    intros (_ & y & [= <-] & ?). congruence.
  - specialize (Hne e He). destruct (ses s' !! e) as [x|], (ses s !! e) as [y|]; simplify_eq/=;
      [|naive_solver..].
    split; [intros (? & z & [= <-] & ?); split; [done|]|intros (_ & ? & z & [= <-] & ?)];
      (split; [done|]); eexists; split; try done; congruence.
Qed.

(** The state after unlinking and un-counting the entity: [c2] is the queue
    without [se], [n] the new count. *)
Lemma unlink_dequeued s s' q c c2 se x x' a b : sched_ok s → cfs s !! q = Some c →
  cfs_rq_of se = q → ses s !! se = Some x → on_rq x ≠ 0 →
  (if decide (se = curr c) then inorder (tasks_timeline c2) = inorder (tasks_timeline c) ∧
     rb_leftmost c2 = rb_leftmost c
   else inorder (tasks_timeline c) = a ++ se :: b ∧ inorder (tasks_timeline c2) = a ++ b ∧
     rb_leftmost c2 = hd NULL (a ++ b)) →
  curr c2 = curr c → nr_running c2 = nr_running c -[32] 1 → h_nr_running c2 = h_nr_running c →
  cfs s' = <[q := c2]> (cfs s) → ses s' = <[se := x']> (ses s) → on_rq x' = 0 →
  hints_from (λ _ _, False) (hints s) (hints s') → same_rest s s' →
  (∀ b, hints s' !! q = Some b → next b ≠ se ∧ last b ≠ se) →
  dequeued s s' q c c2 se.
Proof.
  intros Hok Hq Hse Hx Hon Hshape Hcu Hn Hh Hc' Hs' Hx' Hhint Hrest Hclr.
  pose proof (so_cfs s Hok q c Hq) as Hqok.
  assert (∀ e, e ≠ se → ses s' !! e = ses s !! e) as Hne by (intros; by rewrite Hs', lookup_insert_ne).
  assert (on_rq <$> ses s' !! se = Some 0) as Hse' by (rewrite Hs', lookup_insert_eq; simpl; by rewrite Hx').
  assert (∀ e, e ≠ se → on_rq <$> ses s' !! e = on_rq <$> ses s !! e) as Hon' by (intros; by rewrite Hne).
  pose proof (runnable_del s s' q se Hon' Hse') as Hrun.
  assert (∀ e, is_Some (ses s' !! e) ↔ is_Some (ses s !! e)) as Hdom.
  { intros e. rewrite Hs', lookup_insert_is_Some'. naive_solver. }
  assert (only_queue s s' q c2) as Ho.
  { split; try done. intros e He. apply Hne. by intros ->. }
  assert (∀ e, e ∈ inorder (tasks_timeline c2) → vr s' e = vr s e ∧ e ∈ inorder (tasks_timeline c)) as Hv.
  { intros e He. assert (e ≠ se ∧ e ∈ inorder (tasks_timeline c)) as [He1 He2].
    2: { split; [|done]. unfold vr. by rewrite Hne. }
    destruct (decide (se = curr c)) as [->|Hcur].
    - destruct Hshape as [Hshape _]. rewrite Hshape in He. split; [|done].
      by apply (co_members s q c Hqok) in He as [? _].
    - destruct Hshape as (Hab & Hab' & _). pose proof (co_nodup s q c Hqok) as Hnd.
      rewrite Hab, <-Permutation_middle in Hnd. apply NoDup_cons in Hnd as [Hnin _].
      rewrite Hab' in He. split; [by intros ->|]. rewrite Hab. set_solver. }
  assert (queue_len s' c2 = queue_len s c - 1 ∧ nr_running c2 = wrap 32 (queue_len s c - 1)) as [Hlen Hnr].
  { split; [|rewrite Hn, (co_nr s q c Hqok); unfold wrap; by rewrite Zminus_mod_idemp_l].
    unfold queue_len, curr_on. rewrite Hcu. destruct (decide (se = curr c)) as [He|Hcur].
    - destruct Hshape as [-> _]. rewrite <-He, Hx. rewrite (proj2 (Z.eqb_neq _ _) Hon).
      destruct (ses s' !! se); [|done]. injection Hse' as ->. simpl. lia.
    - destruct Hshape as (-> & -> & _). rewrite (Hne (curr c)) by done. rewrite !length_app. simpl. lia. }
  split; try done.
  - destruct (decide (se = curr c)) as [He|Hcur].
    + destruct Hshape as [Ht Hl]. destruct Hqok as [Hnd Hlm Hmem Hcc _].
      split; rewrite ?Ht, ?Hl, ?Hcu; [done|done| | |by rewrite Hlen].
      * intros e. rewrite Hmem, Hrun. naive_solver.
      * by rewrite Hdom.
    + destruct Hshape as (Hab & Hab' & Hl). eapply remove_ok; [done|done|done|done| | |by rewrite Hlen].
      * intros e. rewrite Hcu, Hrun. naive_solver.
      * rewrite Hcu, Hdom. apply Hqok.
  - intros Hso. specialize (Hso q c Hq). unfold sorted_by_vr in *.
    assert (StronglySorted (λ a b, vr s a ≤ vr s b) (inorder (tasks_timeline c2))) as Hso2.
    { destruct (decide (se = curr c)) as [He|Hcur]; [by destruct Hshape as [-> _]|].
      destruct Hshape as (Hab & Hab' & _). by eapply (remove_sorted s s c c2 se a b). }
    revert Hso2. apply sorted_ext. intros e1 e2 [-> _]%Hv [-> _]%Hv. done.
  - intros e He _. by apply Hne.
Qed.
Lemma dequeued_sched_ok s s' q c c' se : sched_ok s → cfs s !! q = Some c →
  dequeued s s' q c c' se → sched_ok s'.
Proof. intros Hok Hq Hd. eapply only_queue_ok; [done|by eexists|apply Hd..]. Qed.

(** What follows in [dequeue_entity] keeps the queues. *)
Lemma dequeued_later s s1 s2 q c c1 c2 se m : sched_ok s → cfs s !! q = Some c →
  dequeued s s1 q c c1 se → same_queues s1 s2 → only_queue s1 s2 q c2 →
  c2 = with_min_vruntime m c1 → (∀ e, e ≠ se → e ≠ curr c1 → ses s2 !! e = ses s1 !! e) →
  dequeued s s2 q c c2 se.
Proof.
  intros Hok Hq Hd Hsame Ho -> Hses2. pose proof (dequeued_sched_ok _ _ _ _ _ _ Hok Hq Hd) as Hok1.
  destruct Hd as [Ho1 Hok1' Hso Hcu Hn Hh Hon Hse Hclr Hses].
  assert (cfs s2 !! q = Some (with_min_vruntime m c1)) as Hq2.
  { rewrite (oq_cfs _ _ _ _ Ho). apply lookup_insert_eq. }
  split; try done.
  - by eapply only_queue_trans.
  - by apply (so_cfs s2 (same_queues_ok s1 s2 Hok1 Hsame)).
  - intros Hs. refine (same_queues_sorted s1 s2 _ Hsame q _ Hq2).
    eapply (only_queue_sorted s); [done..|by apply Hso].
  - intros e He. rewrite <-Hon by done. apply Hsame.
  - rewrite <-Hse. apply Hsame.
  - rewrite (sq_hints _ _ Hsame). exact Hclr.
  - intros e He Hc. rewrite Hses2 by (done || by rewrite Hcu). by apply Hses.
Qed.

Lemma wp_sleep_stats s q se (b : bool) (Q : unit → st → Prop) :
  (entity_is_task se = true → is_Some (tasks s !! se)) → (∀ w, Q tt (with_world w s)) →
  wp (if b && entity_is_task se then
        state ← task_get se t_state;
        (if has_flag state TASK_INTERRUPTIBLE
         then now ← clock_of q; acct (set_sleep_start se now) else mret tt);;
        (if has_flag state TASK_UNINTERRUPTIBLE
         then now ← clock_of q; acct (set_block_start se now) else mret tt)
      else mret tt) s Q.
Proof.
  intros Ht HQ. destruct (b && entity_is_task se) eqn:Hb; [|by apply wp_ret, wp_skip].
  apply andb_true_iff in Hb as [_ Hb]. destruct (Ht Hb) as [t Ht'].
  eapply wp_bind, wp_task_get; [done|]. apply wp_bind.
  apply (wp_mono _ _ (λ _ s1, ∃ w, s1 = with_world w s)).
  - destruct (has_flag _ _); [|apply wp_ret; exists (world s); by destruct s].
    apply wp_bind, wp_clock_of. intros now w. apply wp_acct. intros w'. by exists w'.
  - intros _ s1 [w ->]. destruct (has_flag _ _); [|by apply wp_ret].
    apply wp_bind, wp_clock_of. intros now w1. by apply wp_acct.
Qed.

Lemma dequeued_after s s1 s2 q c c1 c2 se m : sched_ok s → cfs s !! q = Some c →
  charged s s1 q c m → c1 = with_min_vruntime m c → dequeued s1 s2 q c1 c2 se →
  dequeued s s2 q c c2 se.
Proof.
  intros Hok Hq Hch -> [Ho Hok' Hso Hcu Hn Hh Hon Hse Hclr Hses].
  pose proof (ch_same _ _ _ _ _ Hch) as Hsame. split; try done.
  - eapply only_queue_trans; [by eapply charged_only|done].
  - intros Hs. by eapply Hso, same_queues_sorted.
  - intros e He. rewrite Hon by done. apply Hsame.
  - intros e He Hc. rewrite Hses by done. by apply Hch.
Qed.

Lemma only_queue_world s q c w : cfs s !! q = Some c → only_queue s (with_world w s) q c.
Proof. intros Hq. split; [simpl; by rewrite insert_id|done|done|apply hints_from_refl|by split_and!]. Qed.

(** The last part of [dequeue_entity]. *)
Lemma wp_dequeue_tail s s4 q c c4 se x4 (b : bool) (Q : unit → st → Prop) : sched_ok s → cfs s !! q = Some c →
  dequeued s s4 q c c4 se → cfs_rq_of se = q → ses s4 !! se = Some x4 → on_rq x4 = 0 →
  (∀ s' c', dequeued s s' q c c' se → Q tt s') →
  wp ((if b then
         c ← get_cfs q; mod_se se (λ y, with_vruntime (vruntime y -[64] min_vruntime c) y)
       else mret tt);;
      acct (return_cfs_rq_runtime q);;
      update_min_vruntime q;;
      acct (update_cfs_shares q)) s4 Q.
Proof.
  intros Hok Hq Hd Hse Hx4 Hon4 HQ. pose proof (dequeued_sched_ok _ _ _ _ _ _ Hok Hq Hd) as Hok4.
  assert (cfs s4 !! q = Some c4) as Hq4.
  { rewrite (oq_cfs _ _ _ _ (dq_only _ _ _ _ _ _ Hd)). apply lookup_insert_eq. }
  eapply wp_bind, (wp_normalise s4 q c4 se x4 b (λ v m, v -[64] m)); [done..|]. intros v.
  pose proof (place_same_queues s4 se x4 v Hok4 Hx4 Hon4) as Hsame5.
  assert (only_queue s4 (with_ses (<[se:=with_vruntime v x4]> (ses s4)) s4) q c4) as Ho5.
  { rewrite <-Hse in Hq4 |- *. by apply place_only_queue. }
  set (s5 := with_ses _ s4) in *. apply wp_bind, wp_acct; intros w.
  assert (sched_ok (with_world w s5)) as Hok5.
  { eapply same_queues_ok, same_queues_world. by eapply same_queues_ok. }
  eapply wp_bind, (wp_update_min_charged _ q c4); [done|done|]. intros s6 m Hch.
  apply wp_acct; intros w'. eapply HQ, (dequeued_later s s4); [done..| | |done|].
  - etransitivity; [done|]. etransitivity; [apply same_queues_world|].
    etransitivity; [apply Hch|apply same_queues_world].
  - eapply only_queue_trans; [done|]. eapply only_queue_trans; [by apply only_queue_world|].
    eapply only_queue_trans; [by eapply charged_only|]. eapply only_queue_world, charged_lookup, Hch.
  - intros e He Hc. simpl. rewrite (ch_ses _ _ _ _ _ Hch) by done. simpl. by rewrite lookup_insert_ne.
Qed.

Lemma wp_dequeue_entity s q c se flags (Q : unit → st → Prop) : sched_ok s → cfs s !! q = Some c →
  runnable s q se → (entity_is_task se = true → is_Some (tasks s !! se)) →
  (∀ s' c', dequeued s s' q c c' se → Q tt s') →
  wp (dequeue_entity q se flags) s Q.
Proof.
  intros Hok Hq Hr Htask HQ. pose proof Hr as (Hse & x0 & Hx0 & Hon0). unfold dequeue_entity.
  eapply wp_bind, wp_update_curr_charged; [done..|]. intros s1 m Hch.
  pose proof (ch_same _ _ _ _ _ Hch) as Hsame. pose proof (charged_ok _ _ _ _ _ Hok Hch) as Hok1.
  pose proof (charged_lookup _ _ _ _ _ Hch) as Hq1. set (c1 := with_min_vruntime m c) in *.
  assert (∃ x, ses s1 !! se = Some x ∧ on_rq x ≠ 0) as (x & Hx & Hon).
  { pose proof (sq_on _ _ Hsame se) as Ho. rewrite Hx0 in Ho.
    destruct (ses s1 !! se) as [x|]; [|done]. exists x. injection Ho as Ho. by rewrite Ho. }
  do 2 (apply wp_bind, wp_acct; intros ?).
  apply wp_bind, wp_sleep_stats.
  { simpl. destruct (ch_rest _ _ _ _ _ Hch) as (_ & -> & _). done. }
  intros w1. apply wp_bind, wp_modify. eapply wp_bind, wp_get_cfs; [done|]. apply wp_bind.
  set (s2 := with_hints _ _).
  assert (only_queue s1 s2 q c1 ∧ same_on s1 s2) as [Ho2 Hon2].
  { split; [|done]. split; [by simpl; rewrite insert_id|done|done|apply clear_buddies_law|by split_and!]. }
  assert (sched_ok s2) as Hok2.
  { eapply only_queue_ok; [done|by eexists|done|]. apply (cfs_ok_ext s1); [by apply (so_cfs s1 Hok1)|done]. }
  eapply (wp_mono _ _ (λ _ s3, ∃ c2 a b, s3 = with_cfs (<[q := c2]> (cfs s2)) s2 ∧
    (if decide (se = curr c1) then inorder (tasks_timeline c2) = inorder (tasks_timeline c1) ∧
       rb_leftmost c2 = rb_leftmost c1
     else inorder (tasks_timeline c1) = a ++ se :: b ∧ inorder (tasks_timeline c2) = a ++ b ∧
       rb_leftmost c2 = hd NULL (a ++ b)) ∧
    curr c2 = curr c1 ∧ nr_running c2 = nr_running c1 ∧ h_nr_running c2 = h_nr_running c1)).
  - destruct (Z.eqb_spec se (curr c1)) as [He|He]; simpl.
    + apply wp_ret. exists c1, [], []. rewrite decide_True by done. rewrite insert_id by done.
      split_and!; done.
    + destruct (runnable_split s1 q c1 se) as (a & b & Hab); [by apply (so_cfs s1 Hok1)|done| |].
      { split; [done|by exists x]. }
      eapply wp_dequeue; [done|by apply (so_cfs s2 Hok2)|done|]. intros t Ht.
      eexists _, a, b. rewrite decide_False by done. split_and!; done.
  - intros _ s3 (c2 & a & b & -> & Hshape & Hcu2 & Hn2 & Hh2).
    eapply wp_bind, wp_mod_se; [done|]. eapply wp_bind, wp_get_se; [apply lookup_insert_eq|].
    eapply wp_bind, wp_mod_cfs; [apply lookup_insert_eq|]. simpl. rewrite insert_insert_eq.
    destruct (account_entity_dequeue (load c2, nr_running c2) (se_load x)) as [lw n] eqn:Hacc.
    assert (n = nr_running c2 -[32] 1) as Hn.
    { by rewrite <-(account_entity_dequeue_law (load c2) (nr_running c2) (se_load x)), Hacc. }
    eapply wp_dequeue_tail; [exact Hok|exact Hq| |exact Hse|apply lookup_insert_eq|done|exact HQ].
    eapply dequeued_after; [done..|].
    eapply (unlink_dequeued s1 _ q c1 (with_cfs_load lw n c2) se x (with_on_rq 0 x) a b); try done.
    + simpl. by rewrite Hn, Hn2.
    + apply clear_buddies_law.
    + intros b' Hb'. eapply clear_buddies_clear, Hb'; [done|]. intros ->. by eapply (runnable_not_null s q).
Qed.

(** The marks stay on runnable entities. *)
Lemma enqueued_live s s' q c c' se q' : enqueued s s' q c c' se → hints_live s q' → hints_live s' q'.
Proof.
  intros Henq Hl. eapply hints_live_mono; [exact Hl|apply (eq_only _ _ _ _ _ _ Henq)|].
  intros e (He & x & Hx & Hon). split; [done|]. destruct (decide (e = se)) as [->|Hne].
  - pose proof (eq_se _ _ _ _ _ _ Henq) as Hse. destruct (ses s' !! se) as [y|]; [|done].
    exists y. split; [done|]. injection Hse as ->. done.
  - pose proof (eq_on _ _ _ _ _ _ Henq e Hne) as Hsame. rewrite Hx in Hsame.
    destruct (ses s' !! e) as [y|]; [|done]. exists y. split; [done|]. injection Hsame as ->. done.
Qed.

Lemma dequeued_live s s' q c c' se q' : cfs_rq_of se = q → dequeued s s' q c c' se →
  hints_live s q' → hints_live s' q'.
Proof.
  intros Hse Hd Hl b Hb. pose proof (oq_hints _ _ _ _ (dq_only _ _ _ _ _ _ Hd) q') as Hf.
  rewrite Hb in Hf. destruct (hints s !! q') as [b0|] eqn:Hb0; [|done].
  destruct Hf as (Hfn & Hfl & _). destruct (Hl b0 Hb0) as [Hn Hla].
  pose proof (runnable_del s s' q' se (dq_on _ _ _ _ _ _ Hd) (dq_se _ _ _ _ _ _ Hd)) as Hrun.
  assert (∀ old new, hint_from (λ _ _, False) q' old new → old = NULL ∨ runnable s q' old →
    (new ≠ se ∨ cfs_rq_of se ≠ q') → new = NULL ∨ runnable s' q' new) as Hone.
  { intros old new [->|[->|[]]] Ho Hnew; [by left|]. destruct Ho as [?|Ho]; [by left|right].
    apply Hrun. split; [|done]. intros ->. destruct Hnew as [Hnew|Hnew]; [done|]. apply Hnew. apply Ho. }
  destruct (decide (q = q')) as [<-|Hne].
  - destruct (dq_hints _ _ _ _ _ _ Hd b Hb) as [Hn' Hl']. split; eapply Hone; eauto.
  - split; eapply Hone; eauto; right; congruence.
Qed.
End ops.
