(* ===== verification/CfsSpec.v ===== *)
(** Properties of the completely fair scheduler: any history of calls keeps
    the queues well formed, and in order as long as the virtual runtimes fit
    the window of their 32-bit keys; on such queues, without buddy marks, the
    pick is the entity with the least virtual runtime; time is charged exactly
    and weighted time is bounded. *)
From stdpp Require Import base gmap list strings fin_maps sorting.
From S2P Require Import Prelude CTypes SchedData Cfs CfsTheory CfsOps.

(** * Histories *)

(** The calls of the file, on entities without group above them where a call
    sets buddies. *)
Inductive call :=
  | Enqueue (q se flags : Z)
  | Dequeue (q se flags : Z)
  | Tick (q : Z)                     (* update_curr *)
  | Place (q se : Z) (initial : bool)
  | PutPrev (q se : Z)
  | SetNext (q se : Z)
  | Pick (r prev : Z)                (* pick_next_task_fair *)
  | Wakeup (r p flags : Z)           (* check_preempt_wakeup *)
  | Yield (r : Z).                   (* yield_task_fair *)

Section spec.
  Context `{SchedLaws}.
  Abbreviation st := (sched env).
  Implicit Types (s : st).

Definition run_call (k : call) : M st unit :=
  match k with
  | Enqueue q se flags => enqueue_entity q se flags
  | Dequeue q se flags => dequeue_entity q se flags
  | Tick q => update_curr q
  | Place q se i => place_entity q se i
  | PutPrev q se => put_prev_entity q se
  | SetNext q se => set_next_entity q se
  | Pick r prev => pick_next_task_fair r prev;; mret tt
  | Wakeup r p flags => check_preempt_wakeup r p flags
  | Yield r => yield_task_fair r
  end.

(** A task on its own: no group above it, its entity and task exist. *)
Definition top_task s (p : Z) : Prop :=
  parent_entity p = NULL ∧ is_Some (ses s !! p) ∧ is_Some (tasks s !! p) ∧
  is_Some (cfs s !! cfs_rq_of p).

(** When a caller may make a call. *)
Definition legal s (k : call) : Prop :=
  match k with
  | Enqueue q se _ => is_Some (cfs s !! q) ∧ cfs_rq_of se = q ∧ ∃ x, ses s !! se = Some x ∧ on_rq x = 0
  | Dequeue q se _ => is_Some (cfs s !! q) ∧ runnable s q se ∧
      (entity_is_task se = true → is_Some (tasks s !! se))
  | Tick q => is_Some (cfs s !! q)
  | Place q se _ => is_Some (cfs s !! q) ∧ cfs_rq_of se = q ∧ ∃ x, ses s !! se = Some x ∧ on_rq x = 0
  | PutPrev q se => ∃ c, cfs s !! q = Some c ∧ curr c = se ∧ se ≠ NULL
  | SetNext q se => ∃ c, cfs s !! q = Some c ∧ curr c = NULL ∧ on_queue s q se
  | Pick r prev => ∃ c, cfs s !! r = Some c ∧ pick_legal s c prev
  | Wakeup r p _ => top_task s p ∧ ∃ x, rqs s !! r = Some x ∧ top_task s (rqfields x rq_curr)
  | Yield r => ∃ x, rqs s !! r = Some x ∧ top_task s (rqfields x rq_curr)
  end.

(** The queue whose keys a call compares. *)
Definition queue_of (k : call) : Z :=
  match k with
  | Enqueue q _ _ | Dequeue q _ _ | Tick q | Place q _ _ | PutPrev q _ | SetNext q _ | Pick q _
  | Wakeup q _ _ | Yield q => q
  end.

(** What every call promises. *)
Definition kept s s' q : Prop :=
  sched_ok s' ∧ (sched_sorted s → window s' q → sched_sorted s').

Lemma kept_same s s' q : sched_ok s → same_queues s s' → kept s s' q.
Proof.
  intros Hok Hs. split; [by eapply same_queues_ok|]. intros Hso _. by eapply same_queues_sorted.
Qed.

Lemma kept_only s s' q c' : sched_ok s → is_Some (cfs s !! q) → only_queue s s' q c' → cfs_ok s' q c' →
  (sched_sorted s → window s' q → sorted_by_vr s' c') → kept s s' q.
Proof.
  intros Hok Hq Ho Hok' Hso. split; [by eapply only_queue_ok|].
  intros Hs Hw. eapply only_queue_sorted; [done..|auto].
Qed.

(** ** Buddy marks *)

(** Steps that leave the order of the queues alone. *)
Record calm s s' : Prop := {
  cm_ok : sched_ok s';
  cm_sorted : sched_sorted s → sched_sorted s';
  cm_on : same_on s s';
  cm_cfs : ∀ q, is_Some (cfs s' !! q) ↔ is_Some (cfs s !! q);
  cm_rqs : ∀ r, (λ x, rqfields x rq_curr) <$> rqs s' !! r = (λ x, rqfields x rq_curr) <$> rqs s !! r;
  cm_tasks : tasks s' = tasks s
}.

Lemma calm_refl s : sched_ok s → calm s s.
Proof. by split. Qed.

Lemma calm_trans s1 s2 s3 : calm s1 s2 → calm s2 s3 → calm s1 s3.
Proof.
  intros [H1 Hs1 Ho1 Hc1 Hr1 Ht1] [H2 Hs2 Ho2 Hc2 Hr2 Ht2]. split; [done|auto|..].
  - by eapply same_on_trans.
  - intros q. by rewrite Hc2.
  - intros r. by rewrite Hr2.
  - by rewrite Ht2.
Qed.

Lemma calm_world s w : sched_ok s → calm s (with_world w s).
Proof.
  intros Hok. split; try done. by eapply same_queues_ok, same_queues_world.
Qed.

Lemma calm_charged s s' q c m : sched_ok s → cfs s !! q = Some c → charged s s' q c m → calm s s'.
Proof.
  intros Hok Hq Hch. pose proof (ch_same _ _ _ _ _ Hch) as Hs.
  destruct (ch_rest _ _ _ _ _ Hch) as (Hr & Ht & _). split; [by eapply charged_ok| |apply Hs| |by rewrite Hr|done].
  - intros Hso. by eapply same_queues_sorted.
  - intros q1. rewrite (ch_cfs _ _ _ _ _ Hch), lookup_insert_is_Some'. naive_solver.
Qed.

(** The marks a call sets name a task that exists. *)
Lemma calm_hints s h p : sched_ok s → is_Some (ses s !! p) →
  hints_from (λ q x, x = p ∧ q = cfs_rq_of p) (hints s) h → calm s (with_hints h s).
Proof.
  intros Hok Hp Hh. split; try done. destruct Hok as [Hnull Hcfs Hhints Hrq]. split; try done.
  - intros q1 c1 Hq1. by apply (cfs_ok_ext s); [apply Hcfs|].
  - intros q1 Hq1. destruct (Hhints q1 Hq1) as (b & Hb & Hn & Hl & Hs). specialize (Hh q1).
    rewrite Hb in Hh. destruct (h !! q1) as [b'|] eqn:Hb'; [|done]. exists b'. split; [done|].
    assert (∀ old new, hint_from (λ q x, x = p ∧ q = cfs_rq_of p) q1 old new →
      hint_ok s q1 old → hint_ok (with_hints h s) q1 new) as Hone.
    { intros old new [->|[->|[-> ->]]] Ho; [by left|done|]. by right. }
    destruct Hh as (? & ? & ?). split_and!; eauto.
Qed.

Lemma hints_from_mono (P P' : Z → Z → Prop) h h' :
  (∀ q x, P q x → P' q x) → hints_from P h h' → hints_from P' h h'.
Proof.
  intros HP Hh q. specialize (Hh q). destruct (h !! q), (h' !! q); try done. unfold hint_from in *.
  naive_solver.
Qed.

Lemma hints_from_weaken (set : Z → Z → Prop) h h' : hints_from (λ _ _, False) h h' → hints_from set h h'.
Proof.
  intros Hh q. specialize (Hh q). destruct (h !! q), (h' !! q); try done. unfold hint_from in *.
  naive_solver.
Qed.

(** Marks on any entities that exist. *)
Lemma sched_ok_hints s h : sched_ok s →
  hints_from (λ q x, q = cfs_rq_of x ∧ is_Some (ses s !! x)) (hints s) h → sched_ok (with_hints h s).
Proof.
  intros [Hnull Hcfs Hhints Hrq] Hh. split; try done.
  - intros q c Hq. by apply (cfs_ok_ext s); [apply Hcfs|].
  - intros q Hq. destruct (Hhints q Hq) as (b & Hb & Hn & Hl & Hs). specialize (Hh q).
    rewrite Hb in Hh. destruct (h !! q) as [b'|] eqn:Hb'; [|done]. exists b'. split; [done|].
    assert (∀ old new, hint_from (λ q x, q = cfs_rq_of x ∧ is_Some (ses s !! x)) q old new →
      hint_ok s q old → hint_ok (with_hints h s) q new) as Hone.
    { intros old new [->|[->|[-> ?]]] Ho; [by left|done|]. by right. }
    destruct Hh as (? & ? & ?). split_and!; eauto.
Qed.

Lemma calm_top s s' p : calm s s' → top_task s p → top_task s' p.
Proof.
  intros [_ _ Ho Hc _ Ht] (? & ? & ? & ?). split_and!; [done| | |by apply Hc].
  - by apply (same_on_dom s).
  - by rewrite Ht.
Qed.

Lemma wp_top_curr s p (Q : unit → st → Prop) : sched_ok s → top_task s p →
  (∀ s', calm s s' → Q tt s') → wp (update_curr (cfs_rq_of p)) s Q.
Proof.
  intros Hok (_ & _ & _ & [c Hq]) HQ. eapply wp_update_curr_charged; [done..|].
  intros s' m Hch. by eapply HQ, calm_charged.
Qed.

(** ** check_preempt_wakeup and yield_task_fair *)

Lemma wp_do_preempt s r x cur se scale : sched_ok s → rqs s !! r = Some x → top_task s se →
  wp (do_preempt r cur se scale) s (λ _ s', calm s s').
Proof.
  intros Hok Hr (Hp & [e He] & _ & _). unfold do_preempt. apply wp_bind, wp_acct; intros w.
  eapply wp_bind, wp_get_se; [done|]. eapply wp_bind, wp_rq_get; [done|].
  pose proof (calm_world s w Hok) as Hc.
  destruct ((on_rq e =? 0) || (cur =? rqfields x rq_idle)); [done|].
  destruct (sched_feat LAST_BUDDY && scale && entity_is_task se); [|done].
  apply wp_modify. eapply calm_trans; [done|]. eapply calm_hints; [apply Hc|by exists e|].
  by apply set_last_buddy_law.
Qed.

Lemma wp_mark_next (b : bool) s p : sched_ok s → top_task s p →
  wp (if b then modify (λ s, with_hints (set_next_buddy p (hints s)) s) else mret tt) s
     (λ _ s', calm s s').
Proof.
  intros Hok (Hp & He & _). destruct b; [|by apply calm_refl]. apply wp_modify.
  assert (p ≠ NULL) as Hpn. { intros ->. destruct He as [x Hx]. by rewrite (so_null s Hok) in Hx. }
  eapply calm_hints; [done|done|]. eapply hints_from_mono; [|by apply (set_next_buddy_law [p])].
  intros q x [->%list_elem_of_singleton ->]. done.
Qed.

Lemma calm_rq s s' r x : calm s s' → rqs s !! r = Some x →
  ∃ x', rqs s' !! r = Some x' ∧ rqfields x' rq_curr = rqfields x rq_curr.
Proof.
  intros Hc Hr. pose proof (cm_rqs _ _ Hc r) as He. rewrite Hr in He.
  destruct (rqs s' !! r) as [x'|]; [|done]. injection He as He. eauto.
Qed.

(** The part of [check_preempt_wakeup] after the buddy mark. *)
Lemma wp_wakeup_tail s r p cur x mark scale : sched_ok s → top_task s p → rqs s !! r = Some x →
  top_task s cur →
  wp (v ← preempts cur p;
      if v =? 1 then
        (if mark : bool then mret tt else modify (λ s, with_hints (set_next_buddy p (hints s)) s));;
        do_preempt r cur cur scale
      else mret tt) s (λ _ s', calm s s').
Proof.
  intros Hok Hp Hr Hcur. apply wp_bind. destruct Hp as (Hpp & [e He] & Hpr), Hcur as (Hcp & [e' He'] & Hcr).
  eapply wp_bind, wp_get_se; [done|]. eapply wp_bind, wp_get_se; [done|]. apply wp_bind, wp_gets, wp_ret.
  destruct (_ =? 1); [|by apply calm_refl]. apply wp_bind.
  replace (if mark then _ else _) with
    (if negb mark then modify (λ s : st, with_hints (set_next_buddy p (hints s)) s) else mret tt) by by destruct mark.
  eapply wp_mono; [apply (wp_mark_next _ s p Hok)|].
  { split; [done|]. split; [by exists e|done]. }
  intros ? s1 Hc; cbv beta in Hc. destruct (calm_rq _ _ _ _ Hc Hr) as (x' & Hr' & _).
  eapply wp_mono; [eapply wp_do_preempt; [apply Hc|exact Hr'|]|].
  - eapply calm_top; [done|]. split; [done|]. split; [by exists e'|done].
  - intros ? s2 Hc2; cbv beta in Hc2. by eapply calm_trans.
Qed.
Lemma wp_check_preempt_wakeup s r p x flags : sched_ok s → rqs s !! r = Some x → top_task s p →
  top_task s (rqfields x rq_curr) →
  wp (check_preempt_wakeup r p flags) s (λ _ s', calm s s').
Proof.
  intros Hok Hr Hp Hcur. unfold check_preempt_wakeup. set (cur := rqfields x rq_curr) in *.
  eapply wp_bind, wp_rq_get; [done|]. change (rqfields x rq_curr) with cur.
  pose proof Hcur as (Hcp & Hce & [tc Htc] & [c Hq]). pose proof Hp as (Hpp & Hpe & [tp Htp] & _).
  eapply wp_bind, wp_get_cfs; [by rewrite task_cfs_rq_law|]. apply wp_bind, wp_gets.
  destruct (cur =? p); [by apply calm_refl|].
  destruct (throttled_hierarchy (world s) (cfs_rq_of p)); [by apply calm_refl|].
  set (scale := sched_nr_latency (world s) <=? nr_running c).
  set (mark := sched_feat NEXT_BUDDY && scale && negb (has_flag flags WF_FORK)).
  apply wp_bind. eapply wp_mono; [by apply (wp_mark_next mark s p)|]. intros ? s1 Hc1; cbv beta in Hc1.
  apply wp_bind, wp_gets. destruct (test_tsk_need_resched (world s1) cur); [done|].
  rewrite <-(cm_tasks _ _ Hc1) in Htc, Htp.
  eapply wp_bind, wp_task_get; [done|]. eapply wp_bind, wp_task_get; [done|].
  destruct (calm_rq _ _ _ _ Hc1 Hr) as (x1 & Hr1 & Hx1).
  destruct ((tfields tc t_policy =? SCHED_IDLE) && _).
  { eapply wp_mono; [eapply wp_do_preempt; [apply Hc1|exact Hr1|by eapply calm_top]|].
    intros ? s2 Hc2; cbv beta in Hc2. by eapply calm_trans. }
  destruct (negb (tfields tp t_policy =? SCHED_NORMAL) || _); [done|].
  rewrite find_matching_se_law by done.
  apply wp_bind, wp_top_curr; [apply Hc1|by eapply calm_top|]. intros s2 Hc2.
  assert (calm s s2) as Hc02 by by eapply calm_trans.
  rewrite (proj2 (Z.eqb_neq p NULL)).
  2: { intros ->. destruct Hpe as [y Hy]. by rewrite (so_null s Hok) in Hy. }
  destruct (calm_rq _ _ _ _ Hc02 Hr) as (x2 & Hr2 & _).
  eapply wp_mono; [eapply (wp_wakeup_tail s2 r p cur x2 mark scale); [apply Hc2|..|done|]|].
  - by eapply calm_top.
  - by eapply calm_top.
  - intros ? s3 Hc3; cbv beta in Hc3. by eapply calm_trans.
Qed.

(** ** The runqueue clock *)

Lemma wp_calm_rq_set s r x f v (Q : unit → st → Prop) : sched_ok s → rqs s !! r = Some x → f ≠ rq_curr →
  (∀ s' x', calm s s' → rqs s' !! r = Some x' → Q tt s') → wp (rq_set r f v) s Q.
Proof.
  intros Hok Hr Hf HQ. eapply wp_rq_set; [done|]. eapply HQ; [|apply lookup_insert_eq]. split; try done.
  - destruct Hok as [Hn Hc Hh Hrq]. split; try done.
    + intros q c Hq. by apply (cfs_ok_ext s); [apply Hc|].
    + intros q Hq. simpl. rewrite lookup_insert_is_Some'. right. by apply Hrq.
  - intros r'. simpl. destruct (decide (r' = r)) as [->|]; simplify_map_eq; [|done].
    by rewrite upd_other.
Qed.

Lemma wp_update_rq_clock s r x : sched_ok s → rqs s !! r = Some x →
  wp (update_rq_clock r) s (λ _ s', calm s s').
Proof.
  intros Hok Hr. unfold update_rq_clock. apply wp_bind. unfold wp at 1.
  destruct (sched_clock_cpu (cpu_of r) (world s)) as [now w].
  pose proof (calm_world s w Hok) as Hc0. eapply wp_bind, wp_rq_get; [done|].
  destruct (cast s64 _ <? 0); [done|].
  eapply wp_bind, wp_calm_rq_set; [apply Hc0|exact Hr|done|]. intros s1 x1 Hc1 Hr1.
  unfold update_rq_clock_task. eapply wp_bind, wp_rq_get; [done|]. apply wp_bind, wp_gets.
  eapply wp_bind, wp_calm_rq_set; [apply Hc1|done|done|]. intros s2 x2 Hc2 Hr2.
  apply wp_bind. unfold wp at 1. destruct (steal_account_process_tick (cpu_of r) (world s2)) as [tk w2].
  pose proof (calm_world s2 w2 (cm_ok _ _ Hc2)) as Hc3. eapply wp_bind, wp_rq_get; [done|].
  eapply wp_bind, wp_calm_rq_set; [apply Hc3|exact Hr2|done|]. intros s4 x4 Hc4 Hr4.
  eapply wp_bind, wp_rq_get; [done|]. eapply wp_calm_rq_set; [apply Hc4|done|done|]. intros s5 x5 Hc5 _.
  exact (calm_trans _ _ _ Hc0 (calm_trans _ _ _ Hc1 (calm_trans _ _ _ Hc2
    (calm_trans _ _ _ Hc3 (calm_trans _ _ _ Hc4 Hc5))))).
Qed.

Lemma wp_yield_task_fair s r x : sched_ok s → rqs s !! r = Some x → top_task s (rqfields x rq_curr) →
  wp (yield_task_fair r) s (λ _ s', calm s s').
Proof.
  intros Hok Hr Hcur. unfold yield_task_fair. set (cur := rqfields x rq_curr) in *.
  eapply wp_bind, wp_rq_get; [done|]. change (rqfields x rq_curr) with cur. rewrite task_cfs_rq_law.
  pose proof Hcur as (Hcp & Hce & [tc Htc] & [c Hq]).
  eapply wp_bind, wp_rq_get; [done|]. destruct (_ =? 1); [by apply calm_refl|].
  apply wp_bind, wp_modify. set (s1 := with_hints _ s).
  assert (calm s s1) as Hc1.
  { eapply (calm_hints _ _ cur); [done|done|]. apply hints_from_weaken, clear_buddies_law. }
  eapply wp_bind, wp_task_get; [done|]. apply wp_bind, (wp_mono _ _ (λ _ s2, calm s s2)).
  - destruct (negb _); [|done]. eapply wp_bind, wp_mono; [eapply wp_update_rq_clock; [apply Hc1|done]|].
    intros ? s2 Hc2; cbv beta in Hc2. assert (calm s s2) as Hc02 by by eapply calm_trans.
    apply wp_bind, wp_top_curr; [apply Hc2|by eapply calm_top|]. intros s3 Hc3.
    apply wp_acct. intros w. eapply calm_trans; [done|]. eapply calm_trans; [done|].
    apply calm_world, Hc3.
  - intros ? s2 Hc2; cbv beta in Hc2. apply wp_modify. eapply calm_trans; [done|].
    eapply (calm_hints _ _ cur); [apply Hc2|by eapply calm_top|]. by apply set_skip_buddy_law.
Qed.
(** ** Every call *)

Lemma kept_calm s s' q : calm s s' → kept s s' q.
Proof. intros [Hok Hs _ _ _ _]. split; [done|auto]. Qed.

(** Every legal call returns and keeps the queues. *)
Lemma wp_run_call s k : sched_ok s → legal s k → wp (run_call k) s (λ _ s', kept s s' (queue_of k)).
Proof.
  intros Hok Hk. destruct k as [q se flags|q se flags|q|q se i|q se|q se|r prev|r p flags|r]; simpl in Hk |- *.
  - destruct Hk as ([c Hq] & Hse & x & Hx & Hon). eapply wp_enqueue_entity; [done..|].
    intros s' c' [Ho Hok' Hso _ _ _ _ _ _]. by eapply kept_only.
  - destruct Hk as ([c Hq] & Hr & Ht). eapply wp_dequeue_entity; [done..|].
    intros s' c' [Ho Hok' Hso _ _ _ _ _ _ _]. eapply kept_only; [done|by eexists|done..|auto].
  - destruct Hk as [c Hq]. eapply wp_update_curr_charged; [done..|]. intros s' m Hch.
    by eapply kept_calm, calm_charged.
  - destruct Hk as ([c Hq] & Hse & x & Hx & Hon). eapply wp_place_entity; [done..|].
    intros v. by eapply kept_same, place_same_queues.
  - destruct Hk as (c & Hq & Hc & Hn). eapply wp_put_prev_entity; [done..|].
    intros s' c' Ho Hok' Hso _ _ _ _. by eapply kept_only.
  - destruct Hk as (c & Hq & Hc & [[x Hx] Hse]). eapply wp_set_next_entity; [done..|].
    intros s' c' Ho Hok' Hso _ _ _ _. eapply kept_only; [done|by eexists|done..|].
    intros Hs _. by apply Hso, (Hs q).
  - destruct Hk as (c & Hq & Hl). eapply wp_bind, wp_pick_next_task_fair; [done..| |].
    + intros _. apply wp_ret. by split.
    + intros _ p s' c' [Ho Hok' _ _ _ _ _ Hso _]. apply wp_ret. by eapply kept_only.
  - destruct Hk as (Hp & x & Hr & Hc). eapply wp_mono; [by eapply wp_check_preempt_wakeup|].
    intros ? s1 Hc1; cbv beta in Hc1. by apply kept_calm.
  - destruct Hk as (x & Hr & Hc). eapply wp_mono; [by eapply wp_yield_task_fair|].
    intros ? s1 Hc1; cbv beta in Hc1. by apply kept_calm.
Qed.

(** A history of legal calls, between which the code outside the sources may
    change its own world and the tasks' fields.  The trace holds, latest first,
    the queue each call worked on and the state the call left. *)
Inductive history : st → list (Z * st) → st → Prop :=
  | history_start s : history s [] s
  | history_call s tr s1 s2 k : history s tr s1 → legal s1 k → run_call k s1 = Ret (tt, s2) →
      history s ((queue_of k, s2) :: tr) s2
  | history_other s tr s1 w ts : history s tr s1 →
      history s tr (with_world w (with_tasks ts s1)).

(** Every call of the history left the keys of the runnable entities of its
    queue within 2^31 of the queue's minimum, where 32 bits hold them. *)
Definition keys_fit (tr : list (Z * st)) : Prop := Forall (λ '(q, s), window s q) tr.

Lemma other_kept s w ts : sched_ok s → sched_ok (with_world w (with_tasks ts s)).
Proof. intros Hok. eapply same_queues_ok; [done|]. by split. Qed.

Lemma history_ok s tr s' : history s tr s' → sched_ok s → sched_ok s'.
Proof.
  induction 1 as [s|s tr s1 s2 k Hh IH Hl Hrun|s tr s1 w ts Hh IH]; intros Hok; [done| |].
  - apply (wp_returned _ _ _ _ _ (wp_run_call s1 k (IH Hok) Hl) Hrun).
  - by apply other_kept, IH.
Qed.

Lemma history_sorted s tr s' : history s tr s' → sched_ok s → sched_sorted s → keys_fit tr →
  sched_sorted s'.
Proof.
  induction 1 as [s|s tr s1 s2 k Hh IH Hl Hrun|s tr s1 w ts Hh IH]; intros Hok Hso Hw; [done| |].
  - apply Forall_cons in Hw as [Hw1 Hw]. pose proof (history_ok _ _ _ Hh Hok) as Hok1.
    destruct (wp_returned _ _ _ _ _ (wp_run_call s1 k Hok1 Hl) Hrun) as [_ Hs]. auto.
  - intros q c Hq. by apply (IH Hok Hso Hw q c).
Qed.

(** C4: the timelines stay well formed over any history of legal calls: every
    runnable entity but the current one is in the timeline of its queue, once,
    [rb_leftmost] is the first of them, [nr_running] counts them; and whatever
    legal call comes next returns.  The timelines stay in the order of the
    virtual runtimes as well, as long as every call of the history left the
    keys of its queue, cut down to 32 bits by the code, in their window
    ([keys_fit]: each runnable entity less than 2^31 from the minimum). *)
Theorem cfs_history_ok (s s' : st) (tr : list (Z * st)) (Hok : sched_ok s) (Hh : history s tr s') :
  sched_ok s' ∧ (∀ k, legal s' k → ∃ s'', run_call k s' = Ret (tt, s'')) ∧
  (sched_sorted s → keys_fit tr → sched_sorted s').
Proof.
  pose proof (history_ok _ _ _ Hh Hok) as Hok'. split_and!; [done| |by eapply history_sorted].
  intros k Hl. destruct (proj1 (wp_returns _ _ _) (wp_run_call s' k Hok' Hl)) as ([] & s'' & Hrun & _).
  by exists s''.
Qed.
(** * Single operations *)

(** C11: [pick_next_task_fair] on a well-formed queue in the order of the
    virtual runtimes returns; on an empty queue it answers NULL and changes
    nothing, otherwise it answers an entity of the queue, which becomes its
    current one, without changing who is runnable.  The answer is runnable if
    the marked buddies are.  It has the least virtual runtime of all runnable
    entities when no buddy is marked and, afterwards, every runnable entity of
    the queue is within 2^31 of its minimum, so that the 32-bit keys order them
    ([window]). *)
Theorem pick_next_task_fair_least (s : st) (r prev : Z) (c : cfs_rq) (Hok : sched_ok s)
    (Hso : sched_sorted s) (Hq : cfs s !! r = Some c) (Hlegal : pick_legal s c prev) :
  ∃ p s', pick_next_task_fair r prev s = Ret (p, s') ∧ same_on s s' ∧
    if decide (nr_running c = 0) then p = NULL ∧ s' = s
    else on_queue s' r p ∧ curr <$> cfs s' !! r = Some p ∧
      (hints_live s r → runnable s' r p) ∧
      (hints s !! r = Some (Buddies NULL NULL NULL) → window s' r →
       ∀ e, runnable s' r e → vr s' p ≤ vr s' e).
Proof.
  apply wp_returns, (wp_pick_next_task_fair s r c prev); [done..| |].
  - intros Hz. split; [done|]. by rewrite decide_True.
  - intros Hz p s' c' [Ho Hok' Hc Hp Hlv Hon _ _ Hleast]. split; [done|]. rewrite decide_False by done.
    split_and!; [done| |done|auto]. rewrite (oq_cfs _ _ _ _ Ho), lookup_insert_eq. simpl. by rewrite Hc.
Qed.

(** C26: [update_curr] charges the current entity for the time since
    [exec_start]: real time to [sum_exec_runtime], weighted time to
    [vruntime], all modulo 2^64, and touches no other entity; when the time,
    cut down to the 32 bits of [s64], is not positive (also for a gap of 2^31
    to 2^32 ns) it charges nothing and leaves [exec_start]. *)
Theorem update_curr_charges (s : st) (q now : Z) (w : env) (c : cfs_rq) (x : sched_entity)
    (Hok : sched_ok s) (Hq : cfs s !! q = Some c) (Hne : curr c ≠ NULL)
    (Hx : ses s !! curr c = Some x)
    (Hnow : sched_clock_cpu (cpu_of (rq_of q)) (world s) = (now, w)) :
  let delta := now -[64] exec_start x in
  ∃ s', update_curr q s = Ret (tt, s') ∧
    (∀ e, e ≠ curr c → ses s' !! e = ses s !! e) ∧
    if 0 <? cast s64 delta then
      ∃ d lw, weighted delta x d lw ∧ ses s' !! curr c = Some (ran now delta d lw x)
    else ses s' = ses s ∧ cfs s' = cfs s.
Proof.
  intros delta.
  enough (wp (update_curr q) s (λ _ s', (∀ e, e ≠ curr c → ses s' !! e = ses s !! e) ∧
    if 0 <? cast s64 delta then
      ∃ d lw, weighted delta x d lw ∧ ses s' !! curr c = Some (ran now delta d lw x)
    else ses s' = ses s ∧ cfs s' = cfs s)) as ([] & s' & Hrun & HQ)%wp_returns by eauto.
  eapply wp_update_curr; [done..| |].
  - intros w' Hc. destruct (Hc x Hne Hx) as (now' & Hnow' & Hle).
    rewrite Hnow in Hnow'. injection Hnow' as <- <-. split; [done|].
    by rewrite (proj2 (Z.ltb_ge 0 (cast s64 delta)) Hle).
  - intros w' w'' y now' d lw _ Hy Hnow' Hlt Hd y' s1.
    rewrite Hnow in Hnow'. injection Hnow' as <- <-. rewrite Hx in Hy. injection Hy as <-.
    rewrite (proj2 (Z.ltb_lt 0 (cast s64 delta)) Hlt). split.
    + intros e He. simpl. by rewrite lookup_insert_ne.
    + exists d, lw. split; [done|]. simpl. by rewrite lookup_insert_eq.
Qed.

(** C29: the weighted time [__calc_delta] computes for an entity of weight [w]
    returns, is never more than [delta * 1024 / w], falls short of it by less
    than one unit and one part in two million (relative error [2047 * w /
    2^42]), and leaves the cached inverse right. *)
Theorem calc_delta_fixed_point (lw : load_weight) (delta : Z) (Hlw : inv_ok lw) (Hw : 0 < weight lw)
    (Hdelta : 0 ≤ delta < 2 ^ 54) :
  ∃ d lw', __calc_delta 65 delta NICE_0_LOAD lw = Ret (d, lw') ∧
    0 ≤ d ∧ d * weight lw ≤ delta * NICE_0_LOAD ∧
    2 ^ 32 * (delta * NICE_0_LOAD - (d + 1) * weight lw) ≤ 2047 * weight lw * delta ∧
    weight lw' = weight lw ∧ inv_weight lw' = (2 ^ 32 - 1) `div` weight lw.
Proof.
  destruct (calc_delta_run lw delta Hlw) as (k & _ & _ & Hrun); [lia|].
  destruct (calc_delta_bounds lw delta _ _ Hlw Hw Hdelta Hrun) as (Hd0 & Hup & Hlo & _ & _).
  eexists _, _. split_and!; [exact Hrun|done..|]. simpl. by rewrite Z.max_r by lia.
Qed.

(** The two tables agree: for every priority, the inverse weight
    [__update_inv_weight] computes is the entry of [prio_to_wmult] or one
    less, and each nice level is worth 20 to 28 percent of CPU time. *)
Theorem weight_tables_agree (i : nat) (w m : Z) (Hw : prio_to_weight !! i = Some w)
    (Hm : prio_to_wmult !! i = Some m) :
  (∃ v, __update_inv_weight (LoadWeight w 0) = Ret (tt, LoadWeight w v) ∧ m - 1 ≤ v ≤ m) ∧
  match prio_to_weight !! S i with
  | Some w' => 120 * w' ≤ 100 * w ≤ 128 * w'
  | None => i = 39%nat
  end.
Proof.
  assert (0 < w < 2 ^ 32 - 1 ∧ m - 1 ≤ (2 ^ 32 - 1) `div` w ≤ m ∧
    match prio_to_weight !! S i with Some w' => 120 * w' ≤ 100 * w ≤ 128 * w' | None => i = 39%nat end)
    as (Hr & Hv & Hs).
  { do 40 (destruct i as [|i]; [injection Hw as <-; injection Hm as <-; vm_compute; repeat split; discriminate|]).
    done. }
  split; [|done]. exists ((2 ^ 32 - 1) `div` w). split; [|done].
  rewrite update_inv_weight_run; [|split; [simpl; lia|by left]].
  unfold inverted. simpl. by rewrite Z.max_r by lia.
Qed.
(** A woken entity is placed no earlier than it was and no earlier than
    the sleeper's credit (half the latency with [GENTLE_FAIR_SLEEPERS]) before
    the queue's minimum; nothing else changes. *)
Theorem place_entity_credit (s : st) (q se : Z) (c : cfs_rq) (x : sched_entity)
    (Hq : cfs s !! q = Some c) (Hx : ses s !! se = Some x)
    (Hv : 0 ≤ vruntime x < 2 ^ 63) (Hm : 2 ^ 32 ≤ min_vruntime c < 2 ^ 63) :
  let thresh := wrap 32 (sysctl_sched_latency (world s)) `div`
                (if sched_feat GENTLE_FAIR_SLEEPERS then 2 else 1) in
  ∃ s', place_entity q se false s = Ret (tt, s') ∧
    vr s' se = Z.max (vr s se) (min_vruntime c - thresh) ∧
    (∀ e, e ≠ se → ses s' !! e = ses s !! e) ∧ cfs s' = cfs s.
Proof.
  intros thresh. set (lat := wrap 32 (sysctl_sched_latency (world s))) in *.
  assert (0 ≤ lat < 2 ^ 32) as Hlat by by apply wrap_range.
  assert (thresh = if sched_feat GENTLE_FAIR_SLEEPERS then Z.shiftr lat 1 else lat) as Hth.
  { subst thresh. destruct (sched_feat _); [by rewrite Z.shiftr_div_pow2|by rewrite Z.div_1_r]. }
  assert (0 ≤ thresh < 2 ^ 32) as Hr.
  { subst thresh. destruct (sched_feat _); [|by rewrite Z.div_1_r].
    split; [apply Z.div_pos; lia|]. apply Z.div_lt_upper_bound; lia. }
  eexists. split.
  - unfold place_entity. rewrite (bind_Ret _ _ _ c s) by (unfold get_cfs, get_some; by rewrite Hq).
    rewrite (bind_Ret _ _ _ x s) by (unfold get_se, get_some; by rewrite Hx). mstep. simpl.
    fold lat. rewrite <-Hth. unfold mod_se.
    rewrite (bind_Ret _ _ _ x s) by (unfold get_se, get_some; by rewrite Hx). reflexivity.
  - rewrite wrap_small, max_vruntime_law by lia. simpl. split_and!; [| |done].
    + unfold vr. simpl. by rewrite lookup_insert_eq, Hx.
    + intros e He. by rewrite lookup_insert_ne.
Qed.

(** The virtual runtimes [update_min_vruntime] reads are those of the current
    entity, if it is runnable, and of the first of the timeline, and one of
    them is the least of all. *)
Lemma min_candidates s q c : sched_ok s → sched_sorted s → cfs s !! q = Some c →
  (∀ v, curr_vr s c = Some v → ∃ e, runnable s q e ∧ v = vr s e) ∧
  (∀ v, left_vr s c = Some v → ∃ e, runnable s q e ∧ v = vr s e) ∧
  (∀ e, runnable s q e → curr_vr s c = Some (vr s e) ∨ ∃ v, left_vr s c = Some v ∧ v ≤ vr s e).
Proof.
  intros Hok Hso Hq. pose proof (so_cfs s Hok q c Hq) as Hqok. split_and!.
  - unfold curr_vr. intros v. destruct (Z.eqb_spec (curr c) NULL) as [|Hn]; [done|].
    destruct (co_curr s q c Hqok Hn) as [[x Hx] Hc]. rewrite Hx. simpl.
    destruct (Z.eqb_spec (on_rq x) 0); [done|]. intros [= <-]. exists (curr c).
    unfold runnable, vr. rewrite Hx. split; [split; [done|by exists x]|done].
  - unfold left_vr. intros v. destruct (Z.eqb_spec (rb_leftmost c) NULL) as [|Hn]; [done|].
    intros [= <-]. exists (rb_leftmost c). split; [|done].
    destruct (leftmost_exists s q c Hok Hq Hn) as [Hl _].
    by apply (co_members s q c Hqok) in Hl as [_ ?].
  - intros e Hr. destruct (decide (e = curr c)) as [->|Hne].
    + left. unfold curr_vr. destruct (Z.eqb_spec (curr c) NULL) as [Hn|Hn].
      { rewrite Hn in Hr. by apply runnable_not_null in Hr. }
      destruct Hr as (_ & x & Hx & Hon). unfold vr. rewrite Hx. simpl.
      by rewrite (proj2 (Z.eqb_neq _ _) Hon).
    + right. assert (e ∈ inorder (tasks_timeline c)) as He by by apply (co_members s q c Hqok).
      unfold left_vr. exists (vr s (rb_leftmost c)). split.
      * destruct (Z.eqb_spec (rb_leftmost c) NULL) as [Hn|]; [|done]. exfalso.
        apply (runnable_not_null s q Hok), (co_members s q c Hqok). rewrite <-Hn, (co_leftmost s q c Hqok).
        destruct (inorder (tasks_timeline c)); [by apply not_elem_of_nil in He|by left].
      * by apply (leftmost_least s q c); [|apply (Hso q)|].
Qed.

Lemma new_min_max base cur left : 0 ≤ base < 2 ^ 63 → (∀ v, cur = Some v → 0 ≤ v < 2 ^ 63) →
  (∀ v, left = Some v → 0 ≤ v < 2 ^ 63) →
  new_min base cur left = Z.max base
    (match cur, left with
     | None, None => base | Some v, None => v | None, Some l => l | Some v, Some l => Z.min v l end).
Proof.
  intros Hb Hc Hl. unfold new_min. destruct cur as [v|], left as [l|];
    try specialize (Hc v eq_refl); try specialize (Hl l eq_refl);
    rewrite ?min_vruntime_law by lia; apply max_vruntime_law; lia.
Qed.

(** A runnable entity of queue [q] that no other one is behind. *)
Definition least_runnable s q e : Prop :=
  runnable s q e ∧ ∀ e', runnable s q e' → vr s e ≤ vr s e'.

(** What [update_min_vruntime] computes from its two candidates. *)
Lemma new_min_least s q c : sched_ok s → sched_sorted s → cfs s !! q = Some c →
  0 ≤ min_vruntime c < 2 ^ 63 → (∀ e, runnable s q e → 0 ≤ vr s e < 2 ^ 63) →
  let m := new_min (min_vruntime c) (curr_vr s c) (left_vr s c) in
  (∃ e, least_runnable s q e ∧ m = Z.max (min_vruntime c) (vr s e)) ∨
  ((∀ e, ¬ runnable s q e) ∧ m = min_vruntime c).
Proof.
  intros Hok Hso Hq Hm Hv. destruct (min_candidates s q c Hok Hso Hq) as (Hcur & Hleft & Hall). simpl.
  rewrite new_min_max; [|done|intros v (e & He & ->)%Hcur; auto|intros v (e & He & ->)%Hleft; auto].
  destruct (curr_vr s c) as [v|], (left_vr s c) as [l|].
  - destruct (Hcur v eq_refl) as (e1 & He1 & ->), (Hleft l eq_refl) as (e2 & He2 & ->). left.
    assert (∀ e, runnable s q e → vr s e1 ≤ vr s e ∨ vr s e2 ≤ vr s e) as Hmin.
    { intros e [[= ?]|(? & [= <-] & ?)]%Hall; lia. }
    destruct (Z.le_gt_cases (vr s e1) (vr s e2)); [exists e1|exists e2];
      (split; [split; [done|intros e He%Hmin; lia]|lia]).
  - destruct (Hcur v eq_refl) as (e1 & He1 & ->). left. exists e1. split; [|done].
    split; [done|]. intros e [[= ?]|(? & ? & ?)]%Hall; [lia|done].
  - destruct (Hleft l eq_refl) as (e2 & He2 & ->). left. exists e2. split; [|done].
    split; [done|]. intros e [?|(? & [= <-] & ?)]%Hall; done.
  - right. split; [|lia]. by intros e [?|(? & ? & _)]%Hall.
Qed.

(** C30: [update_min_vruntime] moves the minimum of a queue exactly to the least
    virtual runtime of its runnable entities (the running one and those in the
    timeline), unless the minimum is past it already: it never goes back, and
    it stays where it is when nothing is runnable.  Nothing else changes. *)
Theorem min_vruntime_monotone (s : st) (q : Z) (c : cfs_rq) (Hok : sched_ok s) (Hso : sched_sorted s)
    (Hq : cfs s !! q = Some c) (Hm : 0 ≤ min_vruntime c < 2 ^ 63)
    (Hv : ∀ e, runnable s q e → 0 ≤ vr s e < 2 ^ 63) :
  ∃ m, update_min_vruntime q s = Ret (tt, with_cfs (<[q := with_min_vruntime m c]> (cfs s)) s) ∧
    ((∃ e, least_runnable s q e ∧ m = Z.max (min_vruntime c) (vr s e)) ∨
     ((∀ e, ¬ runnable s q e) ∧ m = min_vruntime c)).
Proof.
  pose proof (so_cfs s Hok q c Hq) as Hqok.
  exists (new_min (min_vruntime c) (curr_vr s c) (left_vr s c)).
  split; [|by apply new_min_least].
  enough (wp (update_min_vruntime q) s (λ _ s', s' = with_cfs (<[q := with_min_vruntime
    (new_min (min_vruntime c) (curr_vr s c) (left_vr s c)) c]> (cfs s)) s))
    as ([] & s' & Hrun & ->)%wp_returns by done.
  eapply wp_update_min_vruntime; [done| | |done].
  - intros Hne. by apply (co_curr s q c Hqok).
  - intros Hne. by destruct (leftmost_exists s q c Hok Hq Hne) as [_ [x ->]].
Qed.

(** C31: the keys are cut down to 32 bits, so an entity between 2^31 and 2^32 ns
    of virtual time ahead of the minimum is queued before one that is at the
    minimum, and becomes [rb_leftmost], the next to run. *)
Theorem entity_key_overflow (s : st) (q e0 se : Z) (c : cfs_rq) (Hq : cfs s !! q = Some c)
    (Ht : inorder (tasks_timeline c) = [e0]) (He0 : is_Some (ses s !! e0)) (Hse : is_Some (ses s !! se))
    (Hnear : 0 ≤ vr s e0 - min_vruntime c < 2 ^ 31) (Hfar : 2 ^ 31 ≤ vr s se - min_vruntime c < 2 ^ 32) :
  ∃ s' c', __enqueue_entity q se s = Ret (tt, s') ∧ cfs s' !! q = Some c' ∧
    inorder (tasks_timeline c') = [se; e0] ∧ rb_leftmost c' = se ∧ vr s' e0 < vr s' se.
Proof.
  enough (wp (__enqueue_entity q se) s (λ _ s', ∃ c', cfs s' !! q = Some c' ∧
    inorder (tasks_timeline c') = [se; e0] ∧ rb_leftmost c' = se ∧ vr s' e0 < vr s' se))
    as ([] & s' & Hrun & c' & HQ)%wp_returns by eauto 10.
  eapply wp_enqueue_keys; [done..| |].
  { intros e. rewrite Ht. by intros ->%list_elem_of_singleton. }
  intros t a b Hab Ht' Hord. eexists. split; [apply lookup_insert_eq|].
  assert (keyof s c se < keyof s c e0) as Hkey.
  { rewrite (keyof_window s c e0) by (unfold in_window; lia). unfold keyof, cast. simpl.
    rewrite swrap_wrap by lia. unfold swrap.
    replace (vr s se - min_vruntime c + 2 ^ (32 - 1)) with
      (vr s se - min_vruntime c - 2 ^ 31 + 1 * 2 ^ 32) by lia.
    rewrite Z.mod_add, Z.mod_small by lia. lia. }
  rewrite Ht in Hab, Hord. destruct Hord as [Ha _]; [by repeat constructor|].
  assert (a = []) as ->.
  { destruct a as [|x a]; [done|]. injection Hab as -> _. specialize (Ha x ltac:(by left)). lia. }
  simpl in *. rewrite Ht', <-Hab. split_and!; [done..|]. unfold vr in *. simpl. lia.
Qed.

(** The runqueue clock: when no time source runs backwards, [clock]
    advances by the elapsed time (as [s64]), and that time is split exactly
    into interrupt time, stolen time and [clock_task]; when the clock source
    is behind, nothing changes. *)
Theorem rq_clock_split (s : st) (r now : Z) (w : env) (x : rq) (Hr : rqs s !! r = Some x)
    (Hnow : sched_clock_cpu (cpu_of r) (world s) = (now, w))
    (Hirq : 0 ≤ cast s64 (irq_time_read (cpu_of r) w -[64] rqfields x rq_prev_irq_time))
    (Hsteal : ∀ w', 0 ≤ cast s64 (fst (steal_account_process_tick (cpu_of r) w'))) :
  let delta := cast s64 (now -[64] rqfields x rq_clock) in
  ∃ s' x', update_rq_clock r s = Ret (tt, s') ∧ rqs s' !! r = Some x' ∧
    if delta <? 0 then x' = x
    else ∃ irq steal, 0 ≤ irq ∧ 0 ≤ steal ∧ irq + steal ≤ delta ∧
      rqfields x' rq_clock = rqfields x rq_clock +[64] delta ∧
      rqfields x' rq_prev_irq_time = rqfields x rq_prev_irq_time +[64] irq ∧
      rqfields x' rq_prev_steal_time_rq = rqfields x rq_prev_steal_time_rq +[64] steal ∧
      rqfields x' rq_clock_task = rqfields x rq_clock_task +[64] (delta - irq - steal) ∧
      (∀ f, f ∉ [rq_clock; rq_prev_irq_time; rq_prev_steal_time_rq; rq_clock_task] →
        rqfields x' f = rqfields x f).
Proof.
  intros delta.
  enough (wp (update_rq_clock r) s (λ _ s', ∃ x', rqs s' !! r = Some x' ∧
    if delta <? 0 then x' = x
    else ∃ irq steal, 0 ≤ irq ∧ 0 ≤ steal ∧ irq + steal ≤ delta ∧
      rqfields x' rq_clock = rqfields x rq_clock +[64] delta ∧
      rqfields x' rq_prev_irq_time = rqfields x rq_prev_irq_time +[64] irq ∧
      rqfields x' rq_prev_steal_time_rq = rqfields x rq_prev_steal_time_rq +[64] steal ∧
      rqfields x' rq_clock_task = rqfields x rq_clock_task +[64] (delta - irq - steal) ∧
      (∀ f, f ∉ [rq_clock; rq_prev_irq_time; rq_prev_steal_time_rq; rq_clock_task] →
        rqfields x' f = rqfields x f))) as ([] & s' & Hrun & x' & HQ)%wp_returns by (exists s', x'; tauto).
  unfold update_rq_clock. apply wp_bind. unfold wp at 1. rewrite Hnow.
  eapply wp_bind, wp_rq_get; [done|]. fold delta.
  destruct (Z.ltb_spec delta 0) as [Hneg|Hpos]; [by exists x|].
  assert (delta < 2 ^ 31) as Hd by by apply (swrap_range 32).
  eapply wp_bind, wp_rq_set; [done|]. unfold update_rq_clock_task.
  eapply wp_bind, wp_rq_get; [apply lookup_insert_eq|]. apply wp_bind, wp_gets. simpl.
  rewrite !(upd_other rq_clock) by done.
  set (raw := cast s64 _) in *.
  set (irq := if delta <? raw then delta else raw).
  assert (0 ≤ irq ≤ delta) as Hi by (subst irq; destruct (Z.ltb_spec delta raw); lia).
  eapply wp_bind, wp_rq_set; [apply lookup_insert_eq|]. simpl. rewrite insert_insert_eq.
  apply wp_bind. unfold wp at 1. simpl.
  specialize (Hsteal w). destruct (steal_account_process_tick (cpu_of r) w) as [tk w2]. simpl in Hsteal.
  assert (cast s64 (delta - irq) = delta - irq) as Hdi by (unfold cast; simpl; apply swrap_small; lia).
  rewrite Hdi. set (steal := if delta - irq <? cast s64 tk then delta - irq else cast s64 tk).
  assert (0 ≤ steal ≤ delta - irq) as Hst.
  { subst steal. destruct (Z.ltb_spec (delta - irq) (cast s64 tk)); lia. }
  assert (cast s64 (delta - irq - steal) = delta - irq - steal) as Hds.
  { unfold cast. simpl. apply swrap_small; lia. }
  eapply wp_bind, wp_rq_get; [apply lookup_insert_eq|].
  eapply wp_bind, wp_rq_set; [apply lookup_insert_eq|]. simpl. rewrite insert_insert_eq.
  eapply wp_bind, wp_rq_get; [apply lookup_insert_eq|].
  eapply wp_rq_set; [apply lookup_insert_eq|]. simpl. rewrite insert_insert_eq, Hds.
  eexists. split; [apply lookup_insert_eq|]. exists irq, steal. simpl.
  split_and!; [lia..| | | | |]; repeat (rewrite upd_same || rewrite upd_other by done); try done.
  intros f Hf. rewrite !upd_other; [done|..]; intros ->; apply Hf; set_solver.
Qed.
End spec.
