(* ===== verification/CfsGroups.v ===== *)
(** Tasks in groups: what [enqueue_task_fair] and [dequeue_task_fair] do on
    the way from a task up to the root of the hierarchy. *)
From stdpp Require Import base gmap list strings fin_maps sorting.
From S2P Require Import Prelude CTypes SchedData Cfs CfsTheory CfsOps CfsSpec.

Section groups.
  Context `{SchedLaws}.
  Abbreviation st := (sched env).
  Implicit Types (s : st).

(** * Counters *)

Definition bump (d : Z) (c : cfs_rq) : cfs_rq := with_h_nr (h_nr_running c +[32] d) c.

Lemma calm_bump s q c d : sched_ok s → cfs s !! q = Some c →
  calm s (with_cfs (<[q := bump d c]> (cfs s)) s).
Proof.
  intros Hok Hq.
  assert (same_queues s (with_cfs (<[q := bump d c]> (cfs s)) s)) as Hs.
  { split; simpl; [|done..]. intros q1. destruct (decide (q1 = q)) as [->|]; by simplify_map_eq. }
  split; try done; [by eapply same_queues_ok|intros; by eapply same_queues_sorted|].
  intros q1. simpl. rewrite lookup_insert_is_Some'. naive_solver.
Qed.

(** What a walk over the queues [qs] did: each had its [h_nr_running] moved by
    [d] and kept its current entity, the others are as before. *)
Definition bumped (d : Z) s s' (qs : list Z) : Prop :=
  ∀ q, if decide (q ∈ qs)
       then (λ c, (h_nr_running c, curr c)) <$> cfs s' !! q = (λ c, (h_nr_running c +[32] d, curr c)) <$> cfs s !! q
       else cfs s' !! q = cfs s !! q.

Lemma bumped_nil d s s' : cfs s' = cfs s → bumped d s s' [].
Proof. intros Hc q. rewrite decide_False by apply not_elem_of_nil. by rewrite Hc. Qed.

Lemma bumped_app d s s1 s2 (qs1 qs2 : list Z) : (∀ q, q ∈ qs1 → q ∉ qs2) →
  bumped d s s1 qs1 → bumped d s1 s2 qs2 → bumped d s s2 (qs1 ++ qs2).
Proof.
  intros Hdis Hb1 Hb2 q. specialize (Hb1 q). specialize (Hb2 q). destruct (decide (q ∈ qs1)) as [Hin1|Hin1].
  - rewrite decide_False in Hb2 by by apply Hdis. rewrite decide_True by (apply elem_of_app; by left).
    by rewrite Hb2.
  - destruct (decide (q ∈ qs2)) as [Hin2|Hin2].
    + rewrite decide_True by (apply elem_of_app; by right). by rewrite Hb2, Hb1.
    + rewrite decide_False by (by intros [?|?]%elem_of_app). by rewrite Hb2.
Qed.

(** A queue bumped first, then the rest of a walk. *)
Lemma bumped_cons d s s1 s2 q (qs : list Z) c c1 : cfs s !! q = Some c →
  cfs s1 = <[q := bump d c1]> (cfs s) → h_nr_running c1 = h_nr_running c → curr c1 = curr c → q ∉ qs →
  bumped d s1 s2 qs → bumped d s s2 (q :: qs).
Proof.
  intros Hq Hc1 Hh Hcu Hnin. apply (bumped_app d s s1 s2 [q]); [by intros ? ->%list_elem_of_singleton|].
  intros q'. rewrite Hc1. destruct (decide (q' ∈ [q])) as [->%list_elem_of_singleton|Hne].
  - rewrite lookup_insert_eq, Hq. simpl. by rewrite Hh, Hcu.
  - apply lookup_insert_ne. intros ->. by apply Hne, list_elem_of_singleton.
Qed.

(** * The walks *)

Lemma wp_account_up d : (∀ w q, cfs_rq_throttled w q = false) → ∀ l fuel se s (Q : Z → st → Prop),
  sched_ok s → chain se l → NoDup (cfs_rq_of <$> l) → (∀ e, e ∈ l → is_Some (cfs s !! cfs_rq_of e)) →
  (length l < fuel)%nat →
  (∀ s', calm s s' → ses s' = ses s → hints s' = hints s → same_rest s s' → bumped d s s' (cfs_rq_of <$> l) → Q NULL s') →
  wp (account_up d fuel se) s Q.
Proof.
  intros Hthr l. induction l as [|e l IH]; intros fuel se s Q Hok Hch Hnd Hex Hfuel HQ;
    (destruct fuel as [|fuel]; [simpl in Hfuel; lia|]); simpl in Hch.
  - subst se. apply wp_ret, HQ; [by apply calm_refl|done|done|by split_and!|by apply bumped_nil].
  - destruct Hch as (-> & Hne & Hch). simpl. rewrite (proj2 (Z.eqb_neq e NULL)) by done.
    simpl in Hnd. apply NoDup_cons in Hnd as [Hnin Hnd].
    destruct (Hex e ltac:(by left)) as [c Hq]. set (q := cfs_rq_of e) in *.
    eapply wp_bind, wp_mod_cfs; [done|]. apply wp_bind, wp_gets. rewrite Hthr.
    do 2 (apply wp_bind, wp_acct; intros ?). set (s1 := with_world _ _).
    assert (calm s s1) as Hc1.
    { pose proof (calm_bump s q c d Hok Hq) as Hc0. pose proof (calm_world _ w (cm_ok _ _ Hc0)) as Hcw.
      exact (calm_trans _ _ _ Hc0 (calm_trans _ _ _ Hcw (calm_world _ w0 (cm_ok _ _ Hcw)))). }
    apply (IH fuel); [apply Hc1|done|done| |simpl in Hfuel; lia|].
    { intros e' He'. apply Hc1, Hex. by right. }
    intros s' Hc' Hs' Hh' Hr' Hb'. apply HQ; [by eapply calm_trans|by rewrite Hs'|by rewrite Hh'|by eapply same_rest_trans; [|exact Hr']|].
    by apply (bumped_cons d s s1 s' q _ c c).
Qed.

(** The entities a walk that handles those of [l] leaves alone: they are not
    in [l], nor the current entity of the queue of one of [l] (that one is
    charged for the time it ran). *)
Definition bystander s (l : list Z) (e : Z) : Prop :=
  (e ∉ l) ∧ (cfs_rq_of e ∈ cfs_rq_of <$> l → (curr <$> cfs s !! cfs_rq_of e) ≠ Some e).

(** What a loop that queues ([d = v = 1]) or dequeues ([d = -1], [v = 0]) did
    on the entities [l]. *)
Record walked (d v : Z) s s' (l : list Z) : Prop := {
  wk_ok : sched_ok s';
  wk_rest : same_rest s s';
  wk_bumped : bumped d s s' (cfs_rq_of <$> l);
  wk_on : ∀ e, e ∈ l → on_rq <$> ses s' !! e = Some v;
  wk_off : ∀ e, e ∉ l → on_rq <$> ses s' !! e = on_rq <$> ses s !! e;
  wk_live : ∀ q, hints_live s q → hints_live s' q;
  wk_ses : ∀ e, bystander s l e → ses s' !! e = ses s !! e
}.

(** Marks set on runnable entities. *)
Lemma marks_live s h q : hints_from (λ q x, runnable s q x) (hints s) h → hints_live s q →
  hints_live (with_hints h s) q.
Proof.
  intros Hf Hl b Hb. specialize (Hf q). simpl in Hb. rewrite Hb in Hf.
  destruct (hints s !! q) as [b0|] eqn:Hb0; [|done]. destruct (Hl b0 Hb0) as [Hn Hla].
  destruct Hf as (Hfn & Hfl & _). unfold hint_from in *.
  split; [destruct Hfn as [?|[->|?]]|destruct Hfl as [?|[->|?]]]; auto.
Qed.

Lemma sched_ok_marks s h : sched_ok s → hints_from (λ q x, runnable s q x) (hints s) h →
  sched_ok (with_hints h s).
Proof.
  intros Hok Hh. apply sched_ok_hints; [done|]. eapply hints_from_mono; [|exact Hh].
  intros q x (<- & y & Hy & _). split; [done|by exists y].
Qed.

Lemma walked_nil d v s : sched_ok s → walked d v s s [].
Proof.
  intros Hok. split; [done|by split_and!|by apply bumped_nil|by intros ? ?%not_elem_of_nil|done|done|done].
Qed.

(** One entity, then the others. *)
Lemma walked_cons d v s s1 s' c c1 e (l : list Z) : cfs s !! cfs_rq_of e = Some c →
  only_queue s s1 (cfs_rq_of e) c1 → h_nr_running c1 = h_nr_running c → curr c1 = curr c →
  (∀ e', e' ≠ e → on_rq <$> ses s1 !! e' = on_rq <$> ses s !! e') → on_rq <$> ses s1 !! e = Some v →
  cfs_rq_of e ∉ cfs_rq_of <$> l → (∀ q, hints_live s q → hints_live s1 q) →
  (∀ e', e' ≠ e → e' ≠ curr c → ses s1 !! e' = ses s !! e') →
  walked d v (with_cfs (<[cfs_rq_of e := bump d c1]> (cfs s1)) s1) s' l → walked d v s s' (e :: l).
Proof.
  intros Hq Ho Hh Hcu Hon Hv Hnin Hlv Hses [Hok' Hr' Hb' Hon' Hoff' Hlv' Hses'].
  assert (e ∉ l) as Hel by (intros ?; apply Hnin; by apply list_elem_of_fmap_2).
  split; [done| | | | |intros q Hl; by apply Hlv', Hlv|].
  - eapply same_rest_trans; [apply Ho|exact Hr'].
  - eapply (bumped_cons d s _ s' _ _ c c1); [done| |done|done|done|exact Hb']. simpl.
    by rewrite (oq_cfs _ _ _ _ Ho), insert_insert_eq.
  - intros e' [->|He']%elem_of_cons; [by rewrite Hoff'|by apply Hon'].
  - intros e' He'. apply not_elem_of_cons in He' as [Hne' Hn']. rewrite Hoff' by done. by apply Hon.
  - intros e' [[Hne' Hn']%not_elem_of_cons Hby]. rewrite fmap_cons in Hby.
    destruct (decide (cfs_rq_of e' = cfs_rq_of e)) as [Heq|Hneq].
    + assert (e' ≠ curr c) as Hcur.
      { intros ->. apply Hby; [rewrite Heq; by left|]. by rewrite Heq, Hq. }
      rewrite Hses'; [by apply Hses|]. split; [done|]. rewrite Heq. by intros ?%Hnin.
    + rewrite Hses'; [simpl; by apply Ho|]. split; [done|]. intros Hin. simpl.
      rewrite (oq_cfs _ _ _ _ Ho), insert_insert_eq, lookup_insert_ne by done. apply Hby. by right.
Qed.

(** What the walk needs of the entities above is still there after a step. *)
Lemma step_above s s1 q c1 e d : only_queue s s1 q c1 → is_Some (cfs s !! q) →
  (∀ e', e' ≠ e → on_rq <$> ses s1 !! e' = on_rq <$> ses s !! e') →
  ∀ e', e' ≠ e → let s2 := with_cfs (<[q := bump d c1]> (cfs s1)) s1 in
    (is_Some (cfs s !! cfs_rq_of e') → is_Some (cfs s2 !! cfs_rq_of e')) ∧
    on_rq <$> ses s2 !! e' = on_rq <$> ses s !! e' ∧ tasks s2 = tasks s.
Proof.
  intros Ho Hq Hon e' He' s2. split_and!.
  - intros ?. simpl. rewrite (oq_cfs _ _ _ _ Ho), insert_insert_eq, lookup_insert_is_Some'. by right.
  - by apply Hon.
  - destruct (oq_rest _ _ _ _ Ho) as (_ & Ht & _). exact Ht.
Qed.

Lemma wp_enqueue_up : (∀ w q, cfs_rq_throttled w q = false) → ∀ l1 l2 fuel se flags s (Q : Z → st → Prop),
  sched_ok s → chain se (l1 ++ l2) → NoDup (cfs_rq_of <$> l1) →
  (∀ e, e ∈ l1 → is_Some (cfs s !! cfs_rq_of e) ∧ on_rq <$> ses s !! e = Some 0) →
  (∀ e, head l2 = Some e → ∃ n, on_rq <$> ses s !! e = Some n ∧ n ≠ 0) →
  (length l1 < fuel)%nat →
  (∀ se' s', chain se' l2 → walked 1 1 s s' l1 → Q se' s') →
  wp (enqueue_up fuel se flags) s Q.
Proof.
  intros Hthr l1. induction l1 as [|e l1 IH];
    intros l2 fuel se flags s Q Hok Hch Hnd Hl1 Hl2 Hfuel HQ;
    (destruct fuel as [|fuel]; [simpl in Hfuel; lia|]); simpl in Hch.
  - pose proof (HQ se s Hch (walked_nil 1 1 s Hok)) as HQs. simpl.
    destruct l2 as [|e l2]; simpl in Hch; [by subst se|]. destruct Hch as (-> & Hne & Hch).
    rewrite (proj2 (Z.eqb_neq e NULL)) by done. destruct (Hl2 e eq_refl) as (n & Hx & Hon).
    destruct (ses s !! e) as [x|] eqn:He; [|done]. injection Hx as <-.
    eapply wp_bind, wp_get_se; [done|]. by rewrite (proj2 (Z.eqb_neq _ _) Hon).
  - destruct Hch as (-> & Hne & Hch). simpl. rewrite (proj2 (Z.eqb_neq e NULL)) by done.
    simpl in Hnd. apply NoDup_cons in Hnd as [Hnin Hnd].
    assert (e ∉ l1) as Hel by (intros ?; apply Hnin; by apply list_elem_of_fmap_2).
    destruct (Hl1 e ltac:(by left)) as [[c Hq] Hon].
    destruct (ses s !! e) as [x|] eqn:Hx; [|done]. injection Hon as Hon.
    eapply wp_bind, wp_get_se; [done|]. rewrite Hon. simpl.
    eapply wp_bind, wp_enqueue_entity; [done..|]. intros s1 c1 Henq.
    pose proof Henq as [Ho Hok1' _ Hcu1 _ Hh1 Hon1 Hse1 Hses1].
    assert (sched_ok s1) as Hok1 by (eapply only_queue_ok; [done|by eexists|done..]).
    assert (cfs s1 !! cfs_rq_of e = Some c1) as Hq1 by (rewrite (oq_cfs _ _ _ _ Ho); apply lookup_insert_eq).
    apply wp_bind, wp_gets. rewrite Hthr. eapply wp_bind, wp_mod_cfs; [done|].
    pose proof (step_above s s1 _ c1 e 1 Ho ltac:(by eexists) Hon1) as Habove.
    apply (IH l2 fuel); [apply (calm_bump s1 _ c1 1 Hok1 Hq1)|done|done| | |simpl in Hfuel; lia|].
    + intros e' He'. destruct (Hl1 e' ltac:(by right)) as [Hex Hoff].
      destruct (Habove e') as (Hc' & Ho' & _); [by intros ->|]. split; [by apply Hc'|]. etransitivity; [exact Ho'|exact Hoff].
    + intros e' He'. destruct (Hl2 e' He') as (n & Hy & Hn). exists n. split; [|done].
      destruct (Habove e') as (_ & Ho' & _); [|etransitivity; [exact Ho'|exact Hy]]. intros ->. rewrite Hx in Hy. simplify_eq/=.
    + intros se' s' Hch' Hwk. apply HQ; [done|]. eapply walked_cons; [done..| |done|exact Hwk].
      intros q'. by eapply enqueued_live.
Qed.

Definition queue_load s (q : Z) : option Z := (λ c, weight (load c)) <$> cfs s !! q.

(** An entity is followed by its parent in a dequeueing walk exactly when its
    queue was left without load: [l1] are the entities taken off, [l2] those
    above them. *)
Definition stops_at_load s (l1 l2 : list Z) : Prop :=
  ∀ a e b, l1 = a ++ e :: b → b ++ l2 ≠ [] → queue_load s (cfs_rq_of e) = Some 0 ↔ b ≠ [].

(** What an entity must be for [dequeue_task_fair] to take it off. *)
Definition removable s (e : Z) : Prop :=
  is_Some (cfs s !! cfs_rq_of e) ∧ runnable s (cfs_rq_of e) e ∧
  (entity_is_task e = true → is_Some (tasks s !! e)).

Lemma removable_on s s' e : on_rq <$> ses s' !! e = on_rq <$> ses s !! e → tasks s' = tasks s →
  (is_Some (cfs s !! cfs_rq_of e) → is_Some (cfs s' !! cfs_rq_of e)) → removable s e → removable s' e.
Proof.
  intros Hon Ht Hc (Hq & (_ & x & Hx & Hn) & Htask). split; [by apply Hc|]. split; [|by rewrite Ht].
  split; [done|]. rewrite Hx in Hon. destruct (ses s' !! e) as [x'|]; [|done]. exists x'. split; [done|].
  injection Hon as ->. done.
Qed.

(** The buddy mark at the end of the walk. *)
Lemma wp_mark_parent (b : bool) d v s se l (Q : unit → st → Prop) : sched_ok s → chain se l →
  (∀ e, e ∈ l → runnable s (cfs_rq_of e) e) →
  (∀ s', cfs s' = cfs s → walked d v s s' [] → Q tt s') →
  wp (if b then modify (λ s, with_hints (set_next_buddy se (hints s)) s) else mret tt) s Q.
Proof.
  intros Hok Hch Hl HQ. destruct b; [|by apply wp_ret, HQ, walked_nil]. apply wp_modify, HQ; [done|].
  assert (hints_from (λ q x, runnable s q x) (hints s) (set_next_buddy se (hints s))) as Hh.
  { eapply hints_from_mono; [|by apply set_next_buddy_law]. intros q x [Hx ->]. by apply Hl. }
  split; [|by split_and!|by apply bumped_nil|by intros ? ?%not_elem_of_nil|done|intros q; by apply marks_live|done].
  by apply sched_ok_marks.
Qed.

Lemma wp_dequeue_up : (∀ w q, cfs_rq_throttled w q = false) → ∀ l fuel sleep flags se s (Q : Z → st → Prop),
  sched_ok s → chain se l → NoDup (cfs_rq_of <$> l) → (∀ e, e ∈ l → removable s e) →
  (length l < fuel)%nat →
  (∀ l1 l2 se' s', l = l1 ++ l2 → (l1 = [] → l = []) → chain se' l2 → walked (-1) 0 s s' l1 →
     stops_at_load s' l1 l2 → Q se' s') →
  wp (dequeue_up fuel sleep se flags) s Q.
Proof.
  intros Hthr l. induction l as [|e l IH]; intros fuel sleep flags se s Q Hok Hch Hnd Hl Hfuel HQ;
    (destruct fuel as [|fuel]; [simpl in Hfuel; lia|]); simpl in Hch.
  - subst se. simpl. apply wp_ret, (HQ [] []); [done..|by apply walked_nil|]. by intros [] ? ? ?.
  - destruct Hch as (-> & Hne & Hch). simpl. rewrite (proj2 (Z.eqb_neq e NULL)) by done.
    simpl in Hnd. apply NoDup_cons in Hnd as [Hnin Hnd].
    assert (e ∉ l) as Hel by (intros ?; apply Hnin; by apply list_elem_of_fmap_2).
    destruct (Hl e ltac:(by left)) as ([c Hq] & Hrun & Htask).
    eapply wp_bind, wp_dequeue_entity; [done..|]. intros s1 c1 Hd.
    pose proof Hd as [Ho Hok1' _ Hcu1 _ Hh1 Hon1 Hse1 _ Hses1].
    assert (sched_ok s1) as Hok1 by (eapply only_queue_ok; [done|by eexists|done..]).
    assert (cfs s1 !! cfs_rq_of e = Some c1) as Hq1 by (rewrite (oq_cfs _ _ _ _ Ho); apply lookup_insert_eq).
    apply wp_bind, wp_gets. rewrite Hthr. eapply wp_bind, wp_mod_cfs; [done|].
    change (with_h_nr (h_nr_running c1 -[32] 1) c1) with (bump (-1) c1).
    pose proof (step_above s s1 _ c1 e (-1) Ho ltac:(by eexists) Hon1) as Habove.
    pose proof (cm_ok _ _ (calm_bump s1 _ c1 (-1) Hok1 Hq1)) as Hok2.
    cbv zeta in Habove.
    set (s2 := with_cfs (<[cfs_rq_of e := bump (-1) c1]> (cfs s1)) s1) in *.
    assert (cfs s2 !! cfs_rq_of e = Some (bump (-1) c1)) as Hq2 by apply lookup_insert_eq.
    assert (∀ e', e' ∈ l → removable s2 e') as Hl2.
    { intros e' He'. destruct (Habove e') as (Hc' & Ho' & Ht'); [by intros ->|].
      apply (removable_on s); [done..|]. apply Hl. by right. }
    eapply wp_bind, wp_get_cfs; [exact Hq2|]. simpl.
    destruct (Z.eqb_spec (weight (load c1)) 0) as [Hz|Hz]; simpl.
    + apply (IH fuel); [exact Hok2|exact Hch|exact Hnd|exact Hl2|simpl in Hfuel; lia|]. intros l1 l2 se' s' -> Hl1 Hch' Hwk Hst.
      assert (cfs_rq_of e ∉ cfs_rq_of <$> l1) as Hnin1.
      { rewrite fmap_app in Hnin. by intros ?; apply Hnin, elem_of_app; left. }
      apply (HQ (e :: l1) l2); [done..|eapply (walked_cons _ _ s s1 s' c c1); [done..| |done|exact Hwk]; intros q'; by eapply dequeued_live|].
      assert (queue_load s' (cfs_rq_of e) = Some 0) as Hz'.
      { pose proof (wk_bumped _ _ _ _ _ Hwk (cfs_rq_of e)) as Hsame. rewrite decide_False in Hsame by done.
        unfold queue_load. rewrite Hsame, Hq2. simpl. by rewrite Hz. }
      intros [|y a] e0 b Heq Hn; simplify_eq/=; [|by eapply Hst].
      split; [|done]. intros _ ->. apply Hn. by apply Hl1.
    + apply wp_bind, (wp_mark_parent _ (-1) 0 _ _ l); [done|done| |].
      { intros e' He'. by apply Hl2. }
      intros s3 Hc3 Hwk. apply wp_ret, (HQ [e] l); [done..| |].
      { eapply (walked_cons _ _ s s1 s3 c c1); [done..|apply not_elem_of_nil| |done|exact Hwk].
        intros q'. by eapply dequeued_live. }
      assert (queue_load s3 (cfs_rq_of e) ≠ Some 0) as Hz'.
      { unfold queue_load. rewrite Hc3, Hq2. simpl. by intros [= ?]. }
      intros [|y a] e0 b Heq Hn; simplify_eq/=; [done|by destruct a].
Qed.

(** * Tasks *)

(** What [enqueue_task_fair] ([d = v = 1]) and [dequeue_task_fair] ([d = -1],
    [v = 0]) did: [l1] are the entities that were queued or taken off, [l2]
    those above them. *)
Record task_walked (d v : Z) s s' (r : Z) (x : rq) (l1 l2 : list Z) : Prop := {
  tw_ok : sched_ok s';
  tw_on : ∀ e, e ∈ l1 → on_rq <$> ses s' !! e = Some v;
  tw_off : ∀ e, e ∉ l1 → on_rq <$> ses s' !! e = on_rq <$> ses s !! e;
  tw_bumped : bumped d s s' (cfs_rq_of <$> l1 ++ l2);
  tw_rq : rqs s' = <[r := Rq (rq_lock x) (upd rq_nr_running (rqfields x rq_nr_running +[32] d) (rqfields x))]> (rqs s);
  tw_rest : same_rest s (with_rqs (rqs s) s');
  tw_live : ∀ q, hints_live s q → hints_live s' q;
  tw_ses : ∀ e, bystander s l1 e → ses s' !! e = ses s !! e
}.

(** The common end of both, after a first loop that got as far as [l1]. *)
Lemma wp_account_task d v f s s1 r se x (l1 l2 : list Z) fuel (Q : unit → st → Prop) :
  (∀ w q, cfs_rq_throttled w q = false) → (∀ n, f n 1 = n +[32] d) →
  NoDup (cfs_rq_of <$> l1 ++ l2) → (∀ e, e ∈ l2 → is_Some (cfs s !! cfs_rq_of e)) →
  walked d v s s1 l1 → chain se l2 → rqs s !! r = Some x → (length l2 < fuel)%nat →
  (∀ s', task_walked d v s s' r x l1 l2 → (∀ q, q ∉ cfs_rq_of <$> l2 → cfs s' !! q = cfs s1 !! q) → Q tt s') →
  wp (se ← account_up d fuel se;
      (if se =? NULL then n ← rq_get r rq_nr_running; rq_set r rq_nr_running (f n 1) else mret tt);;
      acct (hrtick_update r)) s1 Q.
Proof.
  intros Hthr Hf Hnd Hcfs [Hok1 Hr1 Hb1 Hon1 Hoff1 Hlv1 Hses1] Hch Hr Hfuel HQ.
  rewrite fmap_app in Hnd. apply NoDup_app in Hnd as (Hnd1 & Hdis & Hnd2).
  eapply wp_bind, (wp_account_up d Hthr l2); [done|done|done| |lia|].
  { intros e He. specialize (Hb1 (cfs_rq_of e)). rewrite decide_False in Hb1; [rewrite Hb1; by apply Hcfs|].
    intros Hin. apply (Hdis _ Hin). by apply list_elem_of_fmap_2. }
  intros s2 Hcalm Hs2 Hh2 Hr2 Hb2. pose proof (same_rest_trans _ _ _ Hr1 Hr2) as Hrest.
  pose proof Hrest as [Hrq _]. rewrite <-Hrq in Hr. simpl.
  apply wp_bind. eapply wp_bind, wp_rq_get; [done|]. eapply wp_rq_set; [done|].
  apply wp_acct; intros w. rewrite Hf. apply HQ; [split|].
  - pose proof (cm_ok _ _ Hcalm) as [Hn Hc Hh Hrqs]. split; try done.
    + intros q c Hq. by apply (cfs_ok_ext s2); [apply Hc|].
    + intros q Hq. simpl. rewrite lookup_insert_is_Some'. right. by apply Hrqs.
  - intros e He. simpl. rewrite Hs2. by apply Hon1.
  - intros e He. simpl. rewrite Hs2. by apply Hoff1.
  - rewrite fmap_app. by apply (bumped_app d s s1).
  - simpl. by rewrite Hrq.
  - unfold same_rest in *. simpl. tauto.
  - intros q Hl b. simpl. rewrite Hh2. intros Hb. unfold runnable. simpl. rewrite Hs2. by apply (Hlv1 q Hl).
  - intros e He. simpl. rewrite Hs2. by apply Hses1.
  - intros q Hq. specialize (Hb2 q). by rewrite decide_False in Hb2.
Qed.

Lemma wp_enqueue_task_fair (s : st) (r p flags : Z) (l1 l2 : list Z) (fuel : nat) (x : rq) (Q : unit → st → Prop) :
  (∀ w q, cfs_rq_throttled w q = false) → sched_ok s → chain p (l1 ++ l2) →
  NoDup (cfs_rq_of <$> l1 ++ l2) → (∀ e, e ∈ l1 ++ l2 → is_Some (cfs s !! cfs_rq_of e)) →
  (∀ e, e ∈ l1 → on_rq <$> ses s !! e = Some 0) →
  (∀ e, e ∈ l2 → ∃ y, ses s !! e = Some y ∧ on_rq y ≠ 0) →
  rqs s !! r = Some x → (length (l1 ++ l2) < fuel)%nat →
  (∀ s', task_walked 1 1 s s' r x l1 l2 → Q tt s') →
  wp (enqueue_task_fair fuel r p flags) s Q.
Proof.
  intros Hthr Hok Hch Hnd Hcfs Hl1 Hl2 Hr Hfuel HQ.
  pose proof Hnd as Hnd1. rewrite fmap_app in Hnd1. apply NoDup_app in Hnd1 as (Hnd1 & _ & _).
  rewrite length_app in Hfuel. unfold enqueue_task_fair.
  eapply wp_bind, (wp_enqueue_up Hthr l1 l2); [done|done|done| | |lia|].
  - intros e He. split; [apply Hcfs; set_solver|by apply Hl1].
  - intros e He. destruct (Hl2 e) as (y & -> & Hon).
    + destruct l2; [done|]. injection He as ->. by left.
    + by exists (on_rq y).
  - intros se s1 Hch1 Hwk. eapply (wp_account_task 1 1 add_nr_running s s1); [done|intros ?; apply add_nr_running_law|done| |done..|lia|].
    + intros e He. apply Hcfs. set_solver.
    + intros s' Htw _. by apply HQ.
Qed.

Lemma wp_dequeue_task_fair (s : st) (r p flags : Z) (l : list Z) (fuel : nat) (x : rq) (Q : unit → st → Prop) :
  (∀ w q, cfs_rq_throttled w q = false) → sched_ok s → chain p l →
  NoDup (cfs_rq_of <$> l) → (∀ e, e ∈ l → removable s e) →
  rqs s !! r = Some x → (length l < fuel)%nat →
  (∀ l1 l2 s', l = l1 ++ l2 → (l1 = [] → l = []) → task_walked (-1) 0 s s' r x l1 l2 →
     stops_at_load s' l1 l2 → Q tt s') →
  wp (dequeue_task_fair fuel r p flags) s Q.
Proof.
  intros Hthr Hok Hch Hnd Hl Hr Hfuel HQ. unfold dequeue_task_fair.
  eapply wp_bind, (wp_dequeue_up Hthr l); [done..|].
  intros l1 l2 se s1 -> Hl1 Hch1 Hwk Hst. rewrite length_app in Hfuel.
  eapply (wp_account_task (-1) 0 sub_nr_running s s1); [done|intros ?; apply sub_nr_running_law|done| |done..|lia|].
  - intros e He. apply Hl, elem_of_app. by right.
  - intros s' Htw Hsame. apply (HQ l1 l2 s'); [done..|]. intros a e b Heq Hn.
    unfold queue_load. rewrite Hsame; [exact (Hst a e b Heq Hn)|].
    rewrite fmap_app in Hnd. apply NoDup_app in Hnd as (_ & Hdis & _). apply Hdis.
    rewrite Heq. apply list_elem_of_fmap_2. set_solver.
Qed.

(** C12: [enqueue_task_fair] on a hierarchy without throttling: with [l1 ++ l2]
    the entities from the task up to the root, of which those of [l1] are not
    queued, every entity of [l1] becomes runnable and no other changes its
    [on_rq]; the entities that are neither in [l1] nor the current one of a
    queue of [l1] (which is charged) do not change at all; every queue on the
    way up counts one more in [h_nr_running] exactly once, no other queue
    changes, and the runqueue counts one more task. *)
Theorem enqueue_task_fair_counts (s : st) (r p flags : Z) (l1 l2 : list Z) (fuel : nat) (x : rq)
    (Hthr : ∀ w q, cfs_rq_throttled w q = false) (Hok : sched_ok s) (Hch : chain p (l1 ++ l2))
    (Hnd : NoDup (cfs_rq_of <$> l1 ++ l2)) (Hcfs : ∀ e, e ∈ l1 ++ l2 → is_Some (cfs s !! cfs_rq_of e))
    (Hl1 : ∀ e, e ∈ l1 → on_rq <$> ses s !! e = Some 0)
    (Hl2 : ∀ e, e ∈ l2 → ∃ y, ses s !! e = Some y ∧ on_rq y ≠ 0)
    (Hr : rqs s !! r = Some x) (Hfuel : (length (l1 ++ l2) < fuel)%nat) :
  ∃ s', enqueue_task_fair fuel r p flags s = Ret (tt, s') ∧ task_walked 1 1 s s' r x l1 l2.
Proof. apply wp_returns_tt. by eapply (wp_enqueue_task_fair s r p flags l1 l2). Qed.

(** C13: [dequeue_task_fair] on a hierarchy without throttling, all of whose
    entities [l] from the task up to the root are queued: it takes the task
    off, and the entities above it up to the first whose queue keeps some load
    ([l1]); no other entity changes its [on_rq], and those that are neither in
    [l1] nor the current one of a queue of [l1] (which is charged) do not
    change at all; every queue up to the root counts one less in
    [h_nr_running] exactly once, as does the runqueue, no other queue changes,
    and the queues stay well formed. *)
Theorem dequeue_task_fair_counts (s : st) (r p flags : Z) (l : list Z) (fuel : nat) (x : rq)
    (Hthr : ∀ w q, cfs_rq_throttled w q = false) (Hok : sched_ok s) (Hch : chain p l) (Hp : p ≠ NULL)
    (Hnd : NoDup (cfs_rq_of <$> l)) (Hl : ∀ e, e ∈ l → removable s e)
    (Hr : rqs s !! r = Some x) (Hfuel : (length l < fuel)%nat) :
  ∃ s' l1 l2, dequeue_task_fair fuel r p flags s = Ret (tt, s') ∧ l = l1 ++ l2 ∧ p ∈ l1 ∧
    task_walked (-1) 0 s s' r x l1 l2 ∧ stops_at_load s' l1 l2.
Proof.
  enough (wp (dequeue_task_fair fuel r p flags) s (λ _ s', ∃ l1 l2, l = l1 ++ l2 ∧ p ∈ l1 ∧
    task_walked (-1) 0 s s' r x l1 l2 ∧ stops_at_load s' l1 l2)) as (s' & Hrun & l1 & l2 & HQ)%wp_returns_tt.
  { by exists s', l1, l2. }
  eapply (wp_dequeue_task_fair s r p flags l); [done..|]. intros l1 l2 s' -> Hl1 Htw Hst.
  exists l1, l2. split_and!; [done| |done..].
  destruct l1 as [|e l1]; [|destruct Hch as [-> _]; by left].
  rewrite (Hl1 eq_refl) in Hch. by simpl in Hch.
Qed.
End groups.
