(* ===== verification/CfsWitness.v ===== *)
(** The scheduler's theorems at concrete states: a plain search tree for the
    red-black tree, a clock that is part of the environment, one group of
    tasks below the root, and boolean checks of the invariants. *)
From stdpp Require Import base gmap list strings fin_maps sorting.
From S2P Require Import Prelude CTypes ListHead Spinlock SchedData Cfs CfsTheory CfsOps CfsSpec CfsGroups.

(** * A library *)

(** ** Search trees *)

Fixpoint tree_link (t : rb_tree) (path : list rb_dir) (se : Z) : rb_tree :=
  match t, path with
  | rb_null, _ => rb_node true rb_null se rb_null
  | rb_node c l e r, to_left :: path => rb_node c (tree_link l path se) e r
  | rb_node c l e r, to_right :: path => rb_node c l e (tree_link r path se)
  | rb_node _ _ _ _, [] => t
  end.

Fixpoint tree_join (l r : rb_tree) : rb_tree :=
  match l with rb_null => r | rb_node c a e b => rb_node c a e (tree_join b r) end.

Fixpoint tree_erase (t : rb_tree) (se : Z) : rb_tree :=
  match t with
  | rb_null => rb_null
  | rb_node c l e r =>
    if e =? se then tree_join l r
    else if bool_decide (se ∈ inorder l) then rb_node c (tree_erase l se) e r
    else rb_node c l e (tree_erase r se)
  end.

Fixpoint next_in (l : list Z) (e : Z) : Z :=
  match l with [] => NULL | x :: l => if x =? e then hd NULL l else next_in l e end.

Lemma tree_link_inorder t : ∀ path se a b, around t path = Some (a, b) →
  inorder (tree_link t path se) = a ++ se :: b.
Proof.
  induction t as [|c l IHl e r IHr]; intros path se a b; simpl.
  - destruct path; [|done]. by intros [= <- <-].
  - destruct path as [|[] path]; [done|..].
    + destruct (around l path) as [[a' b']|] eqn:Hl; [|done]. intros [= <- <-]. simpl.
      by rewrite (IHl _ _ _ _ Hl), <-app_assoc.
    + destruct (around r path) as [[a' b']|] eqn:Hr; [|done]. intros [= <- <-]. simpl.
      by rewrite (IHr _ _ _ _ Hr), <-app_assoc.
Qed.

Lemma tree_join_inorder l r : inorder (tree_join l r) = inorder l ++ inorder r.
Proof. induction l as [|c a IHa e b IHb]; simpl; [done|]. by rewrite IHb, <-app_assoc. Qed.

(** An element occurs at one place only. *)
Lemma NoDup_split_eq (x : Z) : ∀ a b a' b', NoDup (a ++ x :: b) → a ++ x :: b = a' ++ x :: b' →
  a = a' ∧ b = b'.
Proof.
  induction a as [|y a IH]; intros b [|y' a'] b' Hnd He; simpl in *.
  - by injection He.
  - apply NoDup_cons in Hnd as [Hn _]. injection He as -> ->. set_solver.
  - apply NoDup_cons in Hnd as [Hn _]. injection He as -> _. set_solver.
  - injection He as -> He. apply NoDup_cons in Hnd as [_ Hnd]. destruct (IH _ _ _ Hnd He). by subst.
Qed.

Lemma tree_erase_inorder t : ∀ se a b, inorder t = a ++ se :: b → NoDup (inorder t) →
  inorder (tree_erase t se) = a ++ b.
Proof.
  induction t as [|c l IHl e r IHr]; intros se a b Hab Hnd; simpl in *; [by destruct a|].
  destruct (Z.eqb_spec e se) as [->|Hne].
  { destruct (NoDup_split_eq se _ _ _ _ Hnd Hab) as [<- <-]. apply tree_join_inorder. }
  case_bool_decide as Hin; simpl.
  - apply list_elem_of_split in Hin as (a1 & b1 & Hl). rewrite Hl, <-app_assoc in Hab, Hnd. simpl in Hab, Hnd.
    destruct (NoDup_split_eq se _ _ _ _ Hnd Hab) as [<- <-].
    rewrite (IHl se a1 b1 Hl), <-app_assoc; [done|]. rewrite Hl.
    rewrite app_comm_cons, app_assoc in Hnd. by apply NoDup_app in Hnd as (? & _ & _).
  - assert (se ∈ inorder r) as Hr.
    { assert (se ∈ inorder l ++ e :: inorder r) as Hi by (rewrite Hab; set_solver).
      apply elem_of_app in Hi as [?|[?|?]%elem_of_cons]; [done|congruence|done]. }
    apply list_elem_of_split in Hr as (a1 & b1 & Hr). rewrite Hr in Hab, Hnd.
    rewrite app_comm_cons, app_assoc in Hab, Hnd.
    destruct (NoDup_split_eq se _ _ _ _ Hnd Hab) as [<- <-].
    rewrite (IHr se a1 b1 Hr), <-app_assoc; [done|]. rewrite Hr.
    rewrite <-app_assoc in Hnd. apply NoDup_app in Hnd as (_ & _ & Hnd). by apply NoDup_cons in Hnd as [_ ?].
Qed.

Lemma next_in_spec l : ∀ se a b, l = a ++ se :: b → NoDup l → next_in l se = hd NULL b.
Proof.
  induction l as [|x l IH]; intros se [|y a] b He Hnd; simplify_eq/=.
  - by rewrite Z.eqb_refl.
  - apply NoDup_cons in Hnd as [Hn Hnd]. destruct (Z.eqb_spec y se) as [->|]; [set_solver|].
    by apply IH with a.
Qed.

(** ** The rest *)

Definition clear_one (se x : Z) : Z := if x =? se then NULL else x.
Definition in_group (e : Z) : bool := e =? 300.
Definition root_of (e : Z) : Z := if in_group e then 7 else 0.
Definition top_hint (f : Z → buddy_hints → buddy_hints) (se : Z) (h : gmap Z buddy_hints) :
  gmap Z buddy_hints := alter (f se) (root_of se) h.

(** Entity 300 is in the group of entity 50, whose queue is 7; all others are
    on queue 0.  The environment is the clock. *)
#[export] Instance linux_sched : SchedLib := {|
  env := Z; acct_effect := λ _ w, w;
  sched_clock_cpu := λ _ w, (w, w); irq_time_read := λ _ _, 5;
  steal_account_process_tick := λ _ w, (0, w);
  cpu_of := id; rq_of := λ _, 0; cfs_rq_of := root_of; task_cfs_rq := root_of;
  parent_entity := λ e, if in_group e then 50 else NULL; entity_is_task := λ e, negb (e =? 50);
  find_matching_se := λ a b, (a, b);
  scale_load_down := id; WMULT_SHIFT := 32; WMULT_CONST := 2 ^ 32 - 1;
  mul_u64_u32_shr := λ a b n, wrap 64 (Z.shiftr (a * b) n);
  max_vruntime_of := Z.max; min_vruntime_of := Z.min;
  entity_before := λ a b, vruntime a <? vruntime b;
  wakeup_preempt_entity := λ _ a b, if vruntime a <? vruntime b then -1 else 1;
  account_entity_enqueue := λ p se, (LoadWeight (weight (fst p) +[64] weight se) 0, snd p +[32] 1);
  account_entity_dequeue := λ p se, (LoadWeight (weight (fst p) -[64] weight se) 0, snd p -[32] 1);
  add_nr_running := λ n k, n +[32] k; sub_nr_running := λ n k, n -[32] k;
  rb_link_node := tree_link; rb_insert_color := λ t _, t; rb_erase := tree_erase;
  rb_next := λ t se, next_in (inorder t) se;
  clear_buddies := λ q se h,
    alter (λ b, Buddies (clear_one se (next b)) (clear_one se (last b)) (clear_one se (skip b))) q h;
  set_next_buddy := top_hint (λ se b, Buddies se (last b) (skip b));
  set_last_buddy := top_hint (λ se b, Buddies (next b) se (skip b));
  set_skip_buddy := top_hint (λ se b, Buddies (next b) (last b) se);
  sched_feat := λ _, true; sched_vslice := λ _ _ _, 0; sysctl_sched_latency := λ _, SCHED_LATENCY_NS;
  sched_nr_latency := λ _, 8; schedstat_enabled := λ _, false; cfs_rq_throttled := λ _ _, false;
  throttled_hierarchy := λ _ _, false; test_tsk_need_resched := λ _ _, false;
  ENQUEUE_WAKEUP := 1; ENQUEUE_WAKING := 4; ENQUEUE_RESTORE := 2; DEQUEUE_SLEEP := 1; DEQUEUE_SAVE := 2;
  WF_FORK := 2; SCHED_NORMAL := 0; SCHED_BATCH := 3; SCHED_IDLE := 5; TASK_UNINTERRUPTIBLE := 2;
  fair_sched_class := 77
|}.

Lemma top_hint_law (f : Z → buddy_hints → buddy_hints) se h :
  (∀ b, (next (f se b) = next b ∨ next (f se b) = se) ∧ (last (f se b) = last b ∨ last (f se b) = se) ∧
        (skip (f se b) = skip b ∨ skip (f se b) = se)) →
  hints_from (λ q x, x = se ∧ q = root_of se) h (top_hint f se h).
Proof.
  intros Hf q. unfold top_hint. destruct (decide (q = root_of se)) as [->|Hne].
  - rewrite lookup_alter_eq. destruct (h !! root_of se) as [b|]; [|done]. simpl.
    unfold hint_from. destruct (Hf b) as (? & ? & ?). naive_solver.
  - rewrite lookup_alter_ne by done. apply (hints_from_refl (λ q x, x = se ∧ q = root_of se) h q).
Qed.

#[export] Instance linux_sched_laws : SchedLaws.
Proof.
  split; simpl; try done.
  - apply tree_link_inorder.
  - intros t se a b. apply tree_erase_inorder.
  - intros t se a b Hab Hnd. by apply (next_in_spec _ _ a).
  - intros q se h q1. destruct (decide (q1 = q)) as [->|Hne].
    + rewrite lookup_alter_eq. destruct (h !! q) as [b|]; [|done]. simpl. unfold hint_from, clear_one.
      split_and!; (destruct (_ =? se); auto).
    + rewrite lookup_alter_ne by done. apply (hints_from_refl (λ _ _, False) h q1).
  - intros q se h b _ Hn Hb. rewrite lookup_alter_eq in Hb. destruct (h !! q) as [b0|]; [|done].
    injection Hb as <-. simpl. unfold clear_one.
    split; by destruct (Z.eqb_spec (next b0) se), (Z.eqb_spec (last b0) se).
  - intros [|e l] se h Hch; simpl in Hch.
    + subst se. intros q. pose proof (top_hint_law (λ se b, Buddies se (last b) (skip b)) NULL h) as Hl.
      specialize (Hl ltac:(simpl; auto 10) q). destruct (h !! q), (top_hint _ _ _ !! q); try done.
      unfold hint_from in *. naive_solver.
    + destruct Hch as (-> & _). eapply hints_from_mono; [|apply top_hint_law; simpl; auto 10].
      intros q x [-> ->]. split; [by left|done].
  - intros se h _. apply top_hint_law. simpl. auto 10.
  - intros se h _. apply top_hint_law. simpl. auto 10.
  - intros se h q b Hb. unfold top_hint in Hb. apply lookup_alter_Some in Hb as [(_ & b0 & Hb & ->)|[_ Hb]].
    + exists b0. split; [done|]. done.
    + by exists b.
Qed.

(** * Checking the invariants of a concrete state *)

Abbreviation st := (sched env).

Definition runnableb (s : st) (q e : Z) : bool :=
  (cfs_rq_of e =? q) && match ses s !! e with Some x => negb (on_rq x =? 0) | None => false end.
Definition existsb_se (s : st) (e : Z) : bool := match ses s !! e with Some _ => true | None => false end.
Definition hint_okb (s : st) (q e : Z) : bool := (e =? NULL) || (existsb_se s e && (cfs_rq_of e =? q)).
Fixpoint sortedb (s : st) (l : list Z) : bool :=
  match l with [] => true | x :: l => forallb (λ y, vr s x <=? vr s y) l && sortedb s l end.

Definition cfs_okb (s : st) (q : Z) (c : cfs_rq) : bool :=
  let l := inorder (tasks_timeline c) in
  bool_decide (NoDup l) && (rb_leftmost c =? hd NULL l) &&
  forallb (λ e, negb (e =? curr c) && runnableb s q e) l &&
  forallb (λ p, (fst p =? curr c) || negb (runnableb s q (fst p)) || bool_decide (fst p ∈ l))
    (map_to_list (ses s)) &&
  ((curr c =? NULL) || (existsb_se s (curr c) && (cfs_rq_of (curr c) =? q))) &&
  (nr_running c =? wrap 32 (queue_len s c)).

Definition sched_okb (s : st) : bool :=
  negb (existsb_se s NULL) &&
  forallb (λ p, cfs_okb s (fst p) (snd p) &&
      match hints s !! fst p with
      | Some b => hint_okb s (fst p) (next b) && hint_okb s (fst p) (last b) && hint_okb s (fst p) (skip b)
      | None => false end &&
      match rqs s !! rq_of (fst p) with Some _ => true | None => false end)
    (map_to_list (cfs s)).

Definition sched_sortedb (s : st) : bool :=
  forallb (λ p, sortedb s (inorder (tasks_timeline (snd p)))) (map_to_list (cfs s)).

Definition windowb (s : st) (q : Z) : bool :=
  match cfs s !! q with
  | None => true
  | Some c => forallb (λ p, negb (runnableb s q (fst p)) ||
      ((- 2 ^ 31 <=? vr s (fst p) - min_vruntime c) && (vr s (fst p) - min_vruntime c <? 2 ^ 31)))
      (map_to_list (ses s))
  end.

Lemma forallb_map {K A} `{Countable K} (f : K * A → bool) (m : gmap K A) :
  forallb f (map_to_list m) = true → ∀ k a, m !! k = Some a → f (k, a) = true.
Proof. rewrite List.forallb_forall. intros Hf k a Hk. apply Hf, list_elem_of_In, elem_of_map_to_list, Hk. Qed.

Lemma runnableb_spec s q e : runnableb s q e = true ↔ runnable s q e.
Proof.
  unfold runnableb, runnable. rewrite andb_true_iff, Z.eqb_eq. destruct (ses s !! e) as [x|].
  - rewrite negb_true_iff, Z.eqb_neq. naive_solver.
  - naive_solver.
Qed.

Lemma existsb_se_spec s e : existsb_se s e = true ↔ is_Some (ses s !! e).
Proof.
  unfold existsb_se. destruct (ses s !! e); split; try done; by intros [].
Qed.

Lemma hint_okb_spec s q e : hint_okb s q e = true → hint_ok s q e.
Proof.
  unfold hint_okb, hint_ok. rewrite orb_true_iff, andb_true_iff, !Z.eqb_eq, existsb_se_spec. naive_solver.
Qed.

Lemma sortedb_spec s l : sortedb s l = true → StronglySorted (λ a b, vr s a ≤ vr s b) l.
Proof.
  induction l as [|x l IH]; simpl; [constructor|]. rewrite andb_true_iff. intros [Hx Hl].
  constructor; [auto|]. rewrite List.forallb_forall in Hx. rewrite Forall_forall.
  intros y Hy%list_elem_of_In. specialize (Hx y Hy). lia.
Qed.

Lemma cfs_okb_spec s q c : cfs_okb s q c = true → cfs_ok s q c.
Proof.
  unfold cfs_okb. rewrite !andb_true_iff. intros (((((Hnd & Hl) & Hin) & Hall) & Hc) & Hn).
  rewrite bool_decide_eq_true in Hnd. rewrite List.forallb_forall in Hin. split; try (done || lia).
  - intros e. split.
    + intros He. apply list_elem_of_In, Hin in He. rewrite andb_true_iff, runnableb_spec in He.
      destruct He. split; [lia|done].
    + intros [Hne Hr]. pose proof Hr as (_ & x & Hx & _).
      pose proof (forallb_map _ _ Hall e x Hx) as He. simpl in He.
      rewrite !orb_true_iff, negb_true_iff, bool_decide_eq_true, Z.eqb_eq in He.
      destruct He as [[?|He]|?]; [done| |done]. by rewrite (proj2 (runnableb_spec s q e) Hr) in He.
  - intros Hne. rewrite orb_true_iff, andb_true_iff, !Z.eqb_eq, existsb_se_spec in Hc. naive_solver.
Qed.

Lemma sched_okb_spec s : sched_okb s = true → sched_ok s.
Proof.
  unfold sched_okb. rewrite andb_true_iff, negb_true_iff. intros [Hnull Hall].
  pose proof (forallb_map _ _ Hall) as Hq. clear Hall. split.
  - unfold existsb_se in Hnull. by destruct (ses s !! NULL).
  - intros q c Hc. specialize (Hq q c Hc). rewrite !andb_true_iff in Hq. apply cfs_okb_spec, Hq.
  - intros q [c Hc]. specialize (Hq q c Hc). cbn [fst snd] in Hq.
    rewrite !andb_true_iff in Hq. destruct (hints s !! q) as [b|] eqn:Hb; [|by destruct Hq as ((_ & ?) & _)].
    rewrite !andb_true_iff in Hq. exists b. split; [done|].
    destruct Hq as ((_ & (? & ?) & ?) & _). split_and!; by apply hint_okb_spec.
  - intros q [c Hc]. specialize (Hq q c Hc). cbn [fst snd] in Hq. rewrite !andb_true_iff in Hq.
    destruct Hq as (_ & Hq). destruct (rqs s !! _); [by eexists|done].
Qed.

Lemma sched_sortedb_spec s : sched_sortedb s = true → sched_sorted s.
Proof. intros Hall q c Hc. pose proof (forallb_map _ _ Hall q c Hc). by apply sortedb_spec. Qed.

Lemma windowb_spec s q : windowb s q = true → window s q.
Proof.
  unfold windowb, window, in_window. intros Hw c e Hc Hr. rewrite Hc in Hw.
  pose proof Hr as (_ & x & Hx & _). pose proof (forallb_map _ _ Hw e x Hx) as He. simpl in He.
  rewrite (proj2 (runnableb_spec s q e) Hr) in He. simpl in He. lia.
Qed.

(** * A concrete scheduler *)

Definition one_task (w start v on : Z) : sched_entity := Entity (LoadWeight w 0) start 0 v 0 0 on.
Definition no_hints : buddy_hints := Buddies NULL NULL NULL.
Definition fair_task : task_struct :=
  Task (λ f, if decide (f = t_sched_class) then 77 else 0) "task" (SPINLOCK_INIT "alloc").

(** Task 100 runs, 200 waits, 400 sleeps; 300 sleeps in the group of 50. *)
Definition s0 : st := {|
  rqs := {[ 0 := Rq (SPINLOCK_INIT "rq") (λ f, if decide (f = rq_curr) then 100 else 2) ]};
  cfs := <[ 0 := CfsRq (LoadWeight 1359 0) 2 2 5000000000 (rb_node true rb_null 200 rb_null) 200 100 ]>
    {[ 7 := CfsRq (LoadWeight 0 0) 0 0 1000000000 rb_null NULL NULL ]};
  hints := <[ 0 := no_hints ]> {[ 7 := no_hints ]};
  ses := <[ 100 := one_task 1024 4000000 5000000010 1 ]> (<[ 200 := one_task 335 0 5000000020 1 ]>
    (<[ 50 := one_task 1024 0 4999000000 0 ]> (<[ 300 := one_task 1024 0 999000000 0 ]>
    {[ 400 := one_task 1024 0 4990000000 0 ]})));
  tasks := <[ 100 := fair_task ]> (<[ 200 := fair_task ]> (<[ 300 := fair_task ]> {[ 400 := fair_task ]}));
  stacks := ∅; lists := ∅; task_list_lock := SPINLOCK_INIT "tasks"; next_pid := 5; current_task := 100;
  irqs_on := true; jiffies := 0; world := 10000000
|}.

Lemma s0_ok : sched_ok s0.
Proof. apply sched_okb_spec. vm_compute. reflexivity. Qed.
Lemma s0_sorted : sched_sorted s0.
Proof. apply sched_sortedb_spec. vm_compute. reflexivity. Qed.

(** The state a call leaves, and histories by running. *)
Definition after (k : call) (s : st) : st := match run_call k s with Ret (_, s') => s' | _ => s end.
Definition returns (k : call) (s : st) : bool := match run_call k s with Ret _ => true | _ => false end.

Lemma history_run s tr s1 k : history s tr s1 → legal s1 k → returns k s1 = true →
  history s ((queue_of k, after k s1) :: tr) (after k s1).
Proof.
  intros Hh Hl Hr. eapply history_call; [done|done|].
  unfold returns, after in *. by destruct (run_call k s1) as [[[] s2]| | |].
Qed.

(** 400 wakes up, then the scheduler picks again. *)
Definition s1 : st := after (Enqueue 0 400 1) s0.
Definition s2 : st := after (Pick 0 100) s1.

Definition s2_trace : list (Z * st) := [(0, s2); (0, s1)].

Lemma s2_history : history s0 s2_trace s2.
Proof.
  apply (history_run s0 [(0, s1)] s1 (Pick 0 100));
    [apply (history_run s0 [] s0 (Enqueue 0 400 1)); [constructor| |vm_compute; reflexivity]| |vm_compute; reflexivity].
  - split; [by eexists|]. split; [done|]. by eexists.
  - eexists. split; [vm_compute; reflexivity|]. unfold pick_legal.
    rewrite decide_False by done. exists fair_task. split; [vm_compute; reflexivity|].
    rewrite decide_True by (vm_compute; reflexivity). reflexivity.
Qed.

(** The sleeper's credit puts 400 first. *)
Example s2_picked : curr <$> cfs s2 !! 0 = Some 400.
Proof. vm_compute. reflexivity. Qed.

Lemma s2_keys_fit : keys_fit s2_trace.
Proof.
  unfold keys_fit, s2_trace. rewrite !Forall_cons, Forall_nil.
  split_and!; [by apply windowb_spec; vm_compute..|done].
Qed.

Lemma cfs_history_ok_witness : sched_ok s2 ∧ sched_sorted s2.
Proof.
  destruct (cfs_history_ok s0 s2 s2_trace s0_ok s2_history) as (Hok & _ & Hso).
  split; [exact Hok|exact (Hso s0_sorted s2_keys_fit)].
Defined.

Lemma pick_next_task_fair_least_witness : ∃ p s', pick_next_task_fair 0 100 s0 = Ret (p, s').
Proof.
  destruct (pick_next_task_fair_least s0 0 100 (CfsRq (LoadWeight 1359 0) 2 2 5000000000
    (rb_node true rb_null 200 rb_null) 200 100) s0_ok s0_sorted) as (p & s' & Hrun & _).
  - vm_compute. reflexivity.
  - unfold pick_legal. rewrite decide_False by done. exists fair_task. split; [vm_compute; reflexivity|].
    rewrite decide_True by (vm_compute; reflexivity). reflexivity.
  - exists p, s'. exact Hrun.
Defined.

Lemma update_curr_charges_witness : ∃ s', update_curr 0 s0 = Ret (tt, s').
Proof.
  destruct (update_curr_charges s0 0 10000000 10000000 (CfsRq (LoadWeight 1359 0) 2 2 5000000000
    (rb_node true rb_null 200 rb_null) 200 100) (one_task 1024 4000000 5000000010 1) s0_ok)
    as (s' & Hrun & _); [vm_compute; reflexivity|done|vm_compute; reflexivity|vm_compute; reflexivity|].
  exists s'. exact Hrun.
Defined.

Lemma calc_delta_fixed_point_witness :
  ∃ d lw', __calc_delta 65 6000000 NICE_0_LOAD (LoadWeight 335 0) = Ret (d, lw') ∧
    d * 335 ≤ 6000000 * NICE_0_LOAD.
Proof.
  destruct (calc_delta_fixed_point (LoadWeight 335 0) 6000000) as (d & lw' & Hrun & _ & Hup & _).
  - split; [simpl; lia|by left].
  - simpl. lia.
  - lia.
  - exists d, lw'. split; [exact Hrun|exact Hup].
Defined.

Lemma weight_tables_agree_witness :
  prio_to_weight !! 25%nat = Some 335 ∧
  ∃ v, __update_inv_weight (LoadWeight 335 0) = Ret (tt, LoadWeight 335 v).
Proof.
  split; [reflexivity|].
  destruct (weight_tables_agree 25 335 12820798 eq_refl eq_refl) as [(v & Hv & _) _].
  exists v. exact Hv.
Defined.

Lemma place_entity_credit_witness : ∃ s', place_entity 0 400 false s0 = Ret (tt, s').
Proof.
  destruct (place_entity_credit s0 0 400 (CfsRq (LoadWeight 1359 0) 2 2 5000000000
    (rb_node true rb_null 200 rb_null) 200 100) (one_task 1024 0 4990000000 0)) as (s' & Hrun & _);
    [vm_compute; reflexivity|vm_compute; reflexivity|simpl; lia|simpl; lia|].
  exists s'. exact Hrun.
Defined.

Lemma s0_vr e : runnable s0 0 e → 0 ≤ vr s0 e < 2 ^ 63.
Proof.
  intros Hr. pose proof Hr as (_ & x & Hx & _).
  enough (forallb (λ p, (0 <=? vr s0 (fst p)) && (vr s0 (fst p) <? 2 ^ 63)) (map_to_list (ses s0)) = true) as Hall.
  { pose proof (forallb_map _ _ Hall e x Hx) as He. simpl in He. lia. }
  vm_compute. reflexivity.
Qed.

(** The minimum moves up to the running entity, 10 ns ahead of it. *)
Example s0_minimum :
  match update_min_vruntime 0 s0 with Ret (_, s') => min_vruntime <$> cfs s' !! 0 | _ => None end =
    Some 5000000010.
Proof. vm_compute. reflexivity. Qed.

Lemma min_vruntime_monotone_witness : ∃ m s', update_min_vruntime 0 s0 = Ret (tt, s') ∧
  min_vruntime <$> cfs s' !! 0 = Some m ∧ 5000000000 ≤ m.
Proof.
  destruct (min_vruntime_monotone s0 0 (CfsRq (LoadWeight 1359 0) 2 2 5000000000
    (rb_node true rb_null 200 rb_null) 200 100) s0_ok s0_sorted)
    as (m & Hrun & [(e & _ & Hm)|[_ Hm]]).
  - vm_compute. reflexivity.
  - simpl. lia.
  - exact s0_vr.
  - exists m. eexists. split; [exact Hrun|]. split; [reflexivity|]. simpl in Hm. lia.
  - exists m. eexists. split; [exact Hrun|]. split; [reflexivity|]. simpl in Hm. lia.
Defined.

(** 400 three seconds of virtual time ahead of the minimum. *)
Definition s_far : st := with_ses (<[ 400 := one_task 1024 0 8000000000 0 ]> (ses s0)) s0.

Lemma entity_key_overflow_witness :
  ∃ s' c', __enqueue_entity 0 400 s_far = Ret (tt, s') ∧ cfs s' !! 0 = Some c' ∧ rb_leftmost c' = 400.
Proof.
  destruct (entity_key_overflow s_far 0 200 400 (CfsRq (LoadWeight 1359 0) 2 2 5000000000
    (rb_node true rb_null 200 rb_null) 200 100)) as (s' & c' & Hrun & Hc & _ & Hl & _);
    [vm_compute; reflexivity|reflexivity|by eexists|by eexists|by_decide..|].
  exists s', c'. split; [exact Hrun|]. split; [exact Hc|exact Hl].
Defined.

Lemma rq_clock_split_witness : ∃ s', update_rq_clock 0 s0 = Ret (tt, s').
Proof.
  destruct (rq_clock_split s0 0 10000000 10000000
    (Rq (SPINLOCK_INIT "rq") (λ f, if decide (f = rq_curr) then 100 else 2))) as (s' & x' & Hrun & _).
  - reflexivity.
  - reflexivity.
  - by_decide.
  - intros w'. apply Z.leb_le. reflexivity.
  - exists s'. exact Hrun.
Defined.

Lemma enqueue_task_fair_counts_witness :
  ∃ s', enqueue_task_fair 5 0 300 1 s0 = Ret (tt, s') ∧ on_rq <$> ses s' !! 300 = Some 1.
Proof.
  destruct (enqueue_task_fair_counts s0 0 300 1 [300; 50] [] 5
    (Rq (SPINLOCK_INIT "rq") (λ f, if decide (f = rq_curr) then 100 else 2)))
    as (s' & Hrun & Htw); try done.
  - exact s0_ok.
  - by_decide.
  - intros e [->|[->|?%not_elem_of_nil]%elem_of_cons]%elem_of_cons; [by eexists|by eexists|done].
  - intros e [->|[->|?%not_elem_of_nil]%elem_of_cons]%elem_of_cons; [reflexivity|reflexivity|done].
  - intros e ?%not_elem_of_nil. done.
  - simpl. lia.
  - exists s'. split; [exact Hrun|]. apply (tw_on _ _ _ _ _ _ _ _ Htw). left.
Defined.

(** [s0] with 300 and its group queued. *)
Definition sgrp : st := with_ses (<[ 50 := one_task 1024 0 4999000000 1 ]> (<[ 300 := one_task 1024 0 1000000000 1 ]> (ses s0)))
  (with_cfs (<[ 0 := CfsRq (LoadWeight 2383 0) 3 3 5000000000
      (rb_node true (rb_node false rb_null 50 rb_null) 200 rb_null) 50 100 ]>
    {[ 7 := CfsRq (LoadWeight 1024 0) 1 1 1000000000 (rb_node true rb_null 300 rb_null) 300 NULL ]}) s0).

Lemma sgrp_ok : sched_ok sgrp.
Proof. apply sched_okb_spec. vm_compute. reflexivity. Qed.

Lemma dequeue_task_fair_counts_witness :
  ∃ s', dequeue_task_fair 5 0 300 1 sgrp = Ret (tt, s') ∧ on_rq <$> ses s' !! 300 = Some 0.
Proof.
  destruct (dequeue_task_fair_counts sgrp 0 300 1 [300; 50] 5
    (Rq (SPINLOCK_INIT "rq") (λ f, if decide (f = rq_curr) then 100 else 2)))
    as (s' & l1 & l2 & Hrun & _ & Hin & Htw & _); try done.
  - exact sgrp_ok.
  - by_decide.
  - intros e [->|[->|?%not_elem_of_nil]%elem_of_cons]%elem_of_cons; [| |done].
    + split; [by eexists|]. split; [split; [reflexivity|by eexists]|]. intros _. by eexists.
    + split; [by eexists|]. split; [split; [reflexivity|by eexists]|]. intros ?. discriminate.
  - simpl. lia.
  - exists s'. split; [exact Hrun|]. apply (tw_on _ _ _ _ _ _ _ _ Htw). exact Hin.
Defined.
