(* ===== verification/Sched.v ===== *)
(** The scheduler core: [kernel/core/sched/sched.c].

    Tasks, the process identifiers, the reference counts, [sched_init], the
    wake-up and switch paths, on the state of file [SchedData] and the fair
    class of file [Cfs].  What the file calls and nobody in the sources defines
    is class [CoreLib].  [kmalloc] and [kfree] are parameters: the ones the
    sources define are in file [Main]. *)
From stdpp Require Import base gmap list strings fin_maps.
From S2P Require Import Prelude CTypes ListHead Spinlock SchedData Cfs.

(** * Code outside the sources *)

Class CoreLib `{SchedLib} := {
  (* the C11-style atomics *)
  atomic_inc : Z → Z;
  atomic_dec_and_test : Z → Z * bool;
  (* constants and initial values *)
  sizeof_task_struct : Z;
  SIGCHLD : Z;
  DEFAULT_TIMESLICE : Z;
  return_address : Z;                    (* __builtin_return_address(0) in the lock code *)
  TASK_DEAD : Z;
  TASK_NORMAL : Z;
  RB_ROOT : rb_tree;
  RB_CLEAR_NODE : Z;                     (* an unlinked node *)
  sigemptyset : Z;                       (* the empty signal set *)
  init_waitqueue_head : Z;
  (* tests and calls *)
  task_contributes_to_load : task_struct → bool;
  check_preempt_curr : Z → Z → Z → M (sched env) unit;
  sched_classes : list Z;                (* for_each_class, in order *)
  other_enqueue : Z → Z → Z → Z → M (sched env) unit;   (* class->enqueue_task(rq, p, flags) *)
  other_dequeue : Z → Z → Z → Z → M (sched env) unit;
  other_pick : Z → Z → Z → M (sched env) Z;             (* class->pick_next_task(rq, prev) *)
  other_yield : Z → Z → M (sched env) unit;
  switch_to : Z → Z → M (sched env) Z;                  (* the task switched from *)
  this_rq : Z;
  this_rq_lock : M (sched env) Z;
  nr_uninterruptible_bits : Z;           (* width of a field struct rq does not declare *)
  finish_lock_switch : Z → Z → M (sched env) unit;
  pi_lock : Z → M (sched env) unit;
  pi_unlock : Z → M (sched env) unit;
  ttwu_remote : Z → M (sched env) bool;
  ttwu_queue : Z → Z → M (sched env) unit
}.

(** [kmalloc(size, GFP_KERNEL)] and [kfree]. *)
Class Allocator `{SchedLib} := {
  kmalloc : Z → env → Z * env;
  kfree : Z → env → env
}.

Definition TASK_RUNNING : Z := 0.
Definition TASK_UNINTERRUPRIBLE : Z := 2.
Definition TASK_ZOMBIE : Z := 4.
Definition TASK_STOPPED : Z := 8.
Definition TASK_TRACED : Z := 16.
Definition PF_KTHREAD : Z := 1.

(** The state tests of [sched.h]. *)
Definition task_is_running (p : task_struct) : bool := tfields p t_state =? TASK_RUNNING.
Definition task_is_stopped (p : task_struct) : bool := tfields p t_state =? TASK_STOPPED.
Definition task_is_zombie (p : task_struct) : bool := tfields p t_state =? TASK_ZOMBIE.
Definition task_is_interruptible (p : task_struct) : bool := tfields p t_state =? TASK_INTERRUPTIBLE.
Definition task_is_uninterruptible (p : task_struct) : bool := tfields p t_state =? TASK_UNINTERRUPRIBLE.
Definition task_is_traced (p : task_struct) : bool := has_flag (tfields p t_state) TASK_TRACED.

(** [smp_processor_id] of [src/kernel/main.c]. *)
Definition smp_processor_id : Z := 0.

Section sched.
  Context `{CoreLib, !Allocator}.
  (** Fuel of the group walks and of the lock loop. *)
  Context (fuel : nat).
  Abbreviation st := (sched env).
  Abbreviation C := (M st).

(** * Start *)

(** Code of the list and lock files, on the parts of this state. *)
Definition on_lists {A} (m : M (gmap lnode (list_head lnode)) A) : C A := zoom lists with_lists m.
Definition on_rq_lock {A} (r : Z) (m : M (spinlock_t * bool) A) : C A := λ s,
  match rqs s !! r with
  | None => Fault
  | Some x =>
    zoom (λ s, (rq_lock x, irqs_on s))
      (λ p s, with_irqs (snd p) (with_rqs (<[r := Rq (fst p) (rqfields x)]> (rqs s)) s)) m s
  end.
Definition on_list_lock {A} (m : M (spinlock_t * bool) A) : C A :=
  zoom (λ s, (task_list_lock s, irqs_on s)) (λ p s, with_irqs (snd p) (with_list_lock (fst p) s)) m.

(** The assignments of [sched_init] to one runqueue, in order. *)
Definition rq_init (cpu : Z) : list (rq_field * Z) :=
  [(rq_nr_running, 0); (rq_load_weight, 0); (rq_load_inv_weight, 0); (rq_curr, NULL); (rq_idle, NULL);
   (rq_stop, NULL); (rq_cpu, cpu); (rq_online, 1);
   (rq_rt_nr_running, 0); (rq_rt_highest_prio_curr, MAX_RT_PRIO); (rq_rt_highest_prio_next, MAX_RT_PRIO);
   (rq_dl_nr_running, 0); (rq_dl_time, 0); (rq_dl_bw, 0); (rq_clock, 0); (rq_clock_task, 0);
   (rq_next_balance, 0); (rq_balance_callback, NULL); (rq_idle_balance, 0); (rq_active_balance, 0);
   (rq_push_cpu, -1); (rq_nr_switches, 0); (rq_nr_load_updates, 0); (rq_avg_idle, 0);
   (rq_idle_stamp, 0); (rq_age_stamp, 0); (rq_rt_avg, 0); (rq_prev_irq_time, 0);
   (rq_prev_steal_time, 0); (rq_prev_steal_time_rq, 0); (rq_nohz_tick_stopped, 0);
   (rq_nohz_flags, 0); (rq_nohz_stamp, 0); (rq_last_load_update_tick, 0);
   (rq_last_blocked_load_update_tick, 0); (rq_has_blocked_load, 0); (rq_max_idle_balance_cost, 0);
   (rq_wake_stamp, 0); (rq_wake_avg_idle, 0); (rq_balance_cpu, -1); (rq_ttwu_count, 0);
   (rq_ttwu_local, 0); (rq_rq_sched_info, 0)].

(** The body of the loop of [sched_init]. *)
Definition sched_init_cpu (cpu : Z) : C unit :=
  on_rq_lock cpu (on_lock spin_lock_init);;
  mod_rq cpu (λ x, Rq (rq_lock x) (assign (rq_init cpu) (rqfields x)));;
  mod_cfs cpu (λ c, with_cfs_load (LoadWeight 0 0) 0 (with_min_vruntime 0 (with_timeline RB_ROOT c)));;
  on_lists (INIT_LIST_HEAD (Ptr (cfs_tasks cpu))).

Fixpoint sched_init_loop (n : nat) (cpu : Z) : C unit :=
  match n with O => mret tt | S n => sched_init_cpu cpu;; sched_init_loop n (cpu + 1) end.

Definition sched_init : C unit :=
  on_lists (INIT_LIST_HEAD (Ptr task_list));;
  on_list_lock (on_lock spin_lock_init);;
  sched_init_loop (Z.to_nat NR_CPUS) 0.

Definition get_current : C Z := gets current_task.
Definition set_current (task : Z) : C unit := modify (with_current task).

(** * Tasks *)

(** [pid_t] is a 32-bit signed integer. *)
Definition alloc_pid : C Z :=
  pid ← gets next_pid;
  let n := cast pid_t (pid + 1) in
  modify (with_next_pid (if PID_MAX <=? n then 1 else n));;
  mret pid.

Definition all_task_lists : list task_list_field :=
  [rt_run_list; children; sibling; tasks_node; ptraced; ptrace_entry; rcu_tasks_holdout_list].

Definition alloc (size : Z) : C Z := λ s,
  let '(p, w) := kmalloc size (world s) in Ret (p, with_world w s).

(** [memset(task, 0, sizeof(struct task_struct))] *)
Definition zero_task (task : Z) : C unit :=
  modify (λ s, with_tasks (<[task := Task (λ _, 0) "" (SpinLock 0 0 0 "" 0)]> (tasks s)) s);;
  modify (λ s, with_ses (<[task := Entity (LoadWeight 0 0) 0 0 0 0 0 0]> (ses s)) s);;
  modify (λ s, with_lists (foldr (λ f, <[in_task task f := ListNode Null Null]>) (lists s) all_task_lists) s).

(** [kfree] of a task or of a stack: the object is gone. *)
Definition free_task_mem (task : Z) : C unit :=
  modify (λ s, with_tasks (delete task (tasks s)) s);;
  modify (λ s, with_ses (delete task (ses s)) s);;
  modify (λ s, with_lists (foldr (λ f, delete (in_task task f)) (lists s) all_task_lists) s);;
  modify (λ s, with_world (kfree task (world s)) s).
Definition free_stack_mem (stack : Z) : C unit := λ s,
  if decide (stack ∈ stacks s)
  then Ret (tt, with_world (kfree stack (world s)) (with_stacks (stacks s ∖ {[stack]}) s))
  else Fault.

(** The assignments of [alloc_task_struct] before and after [alloc_pid]. *)
Definition task_init1 : list (task_field * Z) :=
  [(t_stack_size, THREAD_SIZE); (t_state, TASK_RUNNING); (t_exit_state, 0); (t_exit_code, 0);
   (t_exit_signal, SIGCHLD); (t_flags, 0); (t_ptrace, 0)].
Definition task_init2 (task pid : Z) : list (task_field * Z) :=
  [(t_pid, pid); (t_tgid, pid); (t_ppid, 0); (t_pgrp, 0); (t_session, 0);
   (t_uid, 0); (t_gid, 0); (t_euid, 0); (t_egid, 0); (t_suid, 0); (t_sgid, 0); (t_fsuid, 0); (t_fsgid, 0);
   (t_prio, DEFAULT_PRIO); (t_static_prio, DEFAULT_PRIO); (t_normal_prio, DEFAULT_PRIO);
   (t_policy, SCHED_NORMAL);
   (t_rt_timeout, 0); (t_rt_watchdog_stamp, 0); (t_rt_time_slice, DEFAULT_TIMESLICE);
   (t_rt_back, NULL); (t_rt_parent, NULL); (t_rt_rt_rq, NULL); (t_rt_my_q, NULL);
   (t_cpus_allowed, Z.shiftl 1 NR_CPUS - 1); (t_nr_cpus_allowed, NR_CPUS);
   (t_real_parent, NULL); (t_parent, NULL); (t_group_leader, task); (t_run_node, RB_CLEAR_NODE);
   (t_mm, NULL); (t_active_mm, NULL); (t_fs, NULL); (t_files, NULL); (t_signal, NULL); (t_sighand, NULL);
   (t_blocked, sigemptyset); (t_real_blocked, sigemptyset); (t_saved_sigmask, sigemptyset);
   (t_regs, NULL); (t_utime, 0); (t_stime, 0); (t_gtime, 0); (t_start_time, 0); (t_real_start_time, 0);
   (t_min_flt, 0); (t_maj_flt, 0); (t_nvcsw, 0); (t_nivcsw, 0)].
Definition task_init3 : list (task_field * Z) :=
  [(t_thread_fn, NULL); (t_thread_data, NULL); (t_nsproxy, NULL); (t_audit_context, 0);
   (t_perf_event_ctxp, NULL); (t_sched_task_group, NULL); (t_cgroups, NULL);
   (t_personality, 0); (t_did_exec, 0); (t_in_execve, 0); (t_in_iowait, 0); (t_no_new_privs, 0);
   (t_sched_reset_on_fork, 0); (t_sched_contributes_to_load, 0); (t_sched_migrated, 0);
   (t_preempt_count, 0); (t_security, NULL); (t_trace, 0); (t_trace_recursion, 0); (t_delays, NULL);
   (t_make_it_fail, 0); (t_scm_work_list, NULL); (t_usage, 1); (t_wait_chldexit, init_waitqueue_head);
   (t_task_exit_notifier, NULL); (t_sched_info, 0); (t_stats, NULL); (t_mempolicy, NULL); (t_il_next, 0);
   (t_pref_node_fork, 0); (t_bio_list, NULL); (t_plug, NULL); (t_blocked_on, NULL); (t_tracer, NULL);
   (t_socket, NULL); (t_net_ns, NULL); (t_last_cpu, -1); (t_wake_cpu, -1); (t_migrate_disable, 0);
   (t_rcu_read_lock_nesting, 0); (t_rcu_read_unlock_special, 0); (t_rcu_blocked_node, NULL);
   (t_rcu_tasks_holdout, 0); (t_rcu_tasks_idle_cpu, -1)].

Definition task_assign (task : Z) (l : list (task_field * Z)) : C unit :=
  mod_task task (λ t, Task (assign l (tfields t)) (comm t) (alloc_lock t)).
Definition init_lists (task : Z) (l : list task_list_field) : C unit :=
  foldr (λ f k, on_lists (INIT_LIST_HEAD (Ptr (in_task task f)));; k) (mret tt) l.

(** [prio_to_weight[i]] *)
Definition prio_weight (i : Z) : C Z := λ s,
  if i <? 0 then Fault else
  match prio_to_weight !! Z.to_nat i with Some w => Ret (w, s) | None => Fault end.

Definition alloc_task_struct : C Z :=
  task ← alloc sizeof_task_struct;
  if task =? NULL then mret NULL else
  zero_task task;;
  stack ← alloc THREAD_SIZE;
  task_set task t_stack stack;;
  if stack =? NULL then free_task_mem task;; mret NULL else
  modify (λ s, with_stacks ({[stack]} ∪ stacks s) s);;
  task_assign task task_init1;;
  pid ← alloc_pid;
  task_assign task (task_init2 task pid);;
  sp ← task_get task t_static_prio;
  w ← prio_weight (sp - MAX_RT_PRIO);
  mod_se task (λ e, Entity (LoadWeight w 0) 0 0 0 0 0 (on_rq e));;
  init_lists task all_task_lists;;
  mod_task task (λ t, Task (tfields t) "suibian" (alloc_lock t));;
  task_assign task task_init3;;
  mret task.

Definition free_task_struct (tsk : Z) : C unit :=
  if tsk =? NULL then mret tt else
  stack ← task_get tsk t_stack;
  (if negb (stack =? NULL) then free_stack_mem stack else mret tt);;
  free_task_mem tsk.

Definition get_task_struct (tsk : Z) : C unit :=
  n ← task_get tsk t_usage; task_set tsk t_usage (atomic_inc n).

Definition put_task_struct (tsk : Z) : C unit :=
  n ← task_get tsk t_usage;
  let '(n, zero) := atomic_dec_and_test n in
  task_set tsk t_usage n;;
  if zero : bool then free_task_struct tsk else mret tt.

(** [*tsk = *orig]: the fields, the scheduling entity and the list nodes. *)
Definition copy_task (tsk orig : Z) : C unit :=
  t ← get_task orig; e ← get_se orig;
  modify (λ s, with_tasks (<[tsk := t]> (tasks s)) s);;
  modify (λ s, with_ses (<[tsk := e]> (ses s)) s);;
  modify (λ s, with_lists (foldr (λ f l, match l !! in_task orig f with
    | Some n => <[in_task tsk f := n]> l | None => l end) (lists s) all_task_lists) s).

(** [get_jiffies_64] of [src/kernel/main.c]: its own static counter. *)
Definition get_jiffies_64 : C Z :=
  j ← gets jiffies; modify (with_jiffies (j +[64] 1));; mret j.

Definition dup_task_struct (orig : Z) : C Z :=
  tsk ← alloc_task_struct;
  if tsk =? NULL then mret NULL else
  copy_task tsk orig;;
  pid ← alloc_pid;
  task_assign tsk [(t_pid, pid); (t_state, TASK_RUNNING); (t_exit_state, 0); (t_exit_code, 0)];;
  init_lists tsk [tasks_node; children; sibling];;
  task_assign tsk [(t_run_node, RB_CLEAR_NODE)];;
  mod_task tsk (λ t, Task (tfields t) (comm t) (SpinLock SPINLOCK_UNLOCKED NO_CPU 0 "unknown" SPINLOCK_MAGIC));;
  task_assign tsk [(t_wait_chldexit, init_waitqueue_head); (t_utime, 0); (t_stime, 0); (t_gtime, 0)];;
  j ← get_jiffies_64;
  task_assign tsk [(t_start_time, j); (t_real_start_time, j);
    (t_min_flt, 0); (t_maj_flt, 0); (t_nvcsw, 0); (t_nivcsw, 0)];;
  mod_se tsk (λ e, Entity (se_load e) 0 0 (vruntime e) 0 0 (on_rq e));;
  task_assign tsk [(t_usage, 1)];;
  mret tsk.

(** [memset(&p->sched_info, 0, ...)] is an assignment to [t_sched_info]. *)
Definition sched_fork (p : Z) : C unit :=
  let cpu := smp_processor_id in
  task_set p t_state TASK_RUNNING;;
  mod_se p (λ e, Entity (se_load e) 0 0 0 0 0 (on_rq e));;
  task_set p t_policy SCHED_NORMAL;;
  cur ← get_current;
  v ← task_get cur t_normal_prio; task_set p t_prio v;;
  v ← task_get cur t_static_prio; task_set p t_static_prio v;;
  v ← task_get cur t_normal_prio; task_set p t_normal_prio v;;
  sp ← task_get p t_static_prio;
  w ← prio_weight (sp - MAX_RT_PRIO);
  mod_se p (with_load (LoadWeight w 0));;
  v ← task_get cur t_cpus_allowed; task_set p t_cpus_allowed v;;
  v ← task_get cur t_nr_cpus_allowed; task_set p t_nr_cpus_allowed v;;
  fl ← task_get p t_flags;
  (if has_flag fl PF_KTHREAD then
     task_set p t_mm NULL;;
     v ← task_get cur t_active_mm; task_set p t_active_mm v;;
     if negb (v =? NULL) then acct (atomic_inc_mm_count v) else mret tt
   else mret tt);;
  task_assign p [(t_sched_info, 0); (t_last_cpu, cpu); (t_wake_cpu, cpu);
                 (t_preempt_count, FORK_PREEMPT_COUNT)];;
  flags ← on_list_lock (spin_lock_irqsave smp_processor_id return_address fuel);
  on_lists (list_add_tail (Ptr (in_task p tasks_node)) (Ptr task_list));;
  on_list_lock (spin_unlock_irqrestore smp_processor_id flags).

(** * Queues *)

(** The address of [runqueues[cpu]] is [cpu]. *)
Definition cpu_rq (cpu : Z) : Z := cpu.
Definition task_cpu (p : Z) : C Z := task_get p t_last_cpu.
Definition task_rq (p : Z) : C Z := cpu ← task_cpu p; mret (cpu_rq cpu).

(** [p->sched_class->f(...)]: a method of the fair class or of another one. *)
Definition dispatch {A} (class : Z) (fair other : C A) : C A :=
  if class =? NULL then fault else if class =? fair_sched_class then fair else other.

Definition enqueue_task (r p flags : Z) : C unit :=
  update_rq_clock r;;
  (if negb (has_flag flags ENQUEUE_RESTORE) then acct (sched_info_queued r p) else mret tt);;
  cl ← task_get p t_sched_class;
  dispatch cl (enqueue_task_fair fuel r p flags) (other_enqueue cl r p flags).

Definition dequeue_task (r p flags : Z) : C unit :=
  update_rq_clock r;;
  (if negb (has_flag flags DEQUEUE_SAVE) then acct (sched_info_dequeued r p) else mret tt);;
  cl ← task_get p t_sched_class;
  dispatch cl (dequeue_task_fair fuel r p flags) (other_dequeue cl r p flags).

(** [rq->nr_uninterruptible += d] where [p] counts. *)
Definition add_uninterruptible (r p d : Z) : C unit :=
  t ← get_task p;
  if task_contributes_to_load t
  then n ← rq_get r rq_nr_uninterruptible;
       rq_set r rq_nr_uninterruptible (wrap nr_uninterruptible_bits (n + d))
  else mret tt.

Definition activate_task (r p flags : Z) : C unit :=
  add_uninterruptible r p (-1);; enqueue_task r p flags.
Definition deactivate_task (r p flags : Z) : C unit :=
  add_uninterruptible r p 1;; dequeue_task r p flags.

(** The runqueue and the saved interrupt flag. *)
Fixpoint lock_loop (n : nat) (p : Z) : C (Z * bool) :=
  match n with
  | O => out_of_fuel
  | S n =>
    r ← task_rq p;
    flags ← on_rq_lock r (spin_lock_irqsave smp_processor_id return_address fuel);
    r' ← task_rq p;
    if r =? r' then mret (r, flags)
    else on_rq_lock r (spin_unlock_irqrestore smp_processor_id flags);; lock_loop n p
  end.
Definition task_rq_lock (p : Z) : C (Z * bool) := lock_loop fuel p.
Definition task_rq_unlock (r p : Z) (flags : bool) : C unit :=
  on_rq_lock r (spin_unlock_irqrestore smp_processor_id flags).

Definition wake_up_new_task (p : Z) : C unit :=
  task_set p t_state TASK_RUNNING;;
  rf ← task_rq_lock p;
  activate_task (fst rf) p 0;;
  check_preempt_curr (fst rf) p WF_FORK;;
  task_rq_unlock (fst rf) p (snd rf).

(** * Switching *)

Fixpoint pick_class (classes : list Z) (r prev : Z) : C Z :=
  match classes with
  | [] => rq_get r rq_idle
  | cl :: classes =>
    p ← (if cl =? fair_sched_class then pick_next_task_fair r prev else other_pick cl r prev);
    if negb (p =? NULL) then mret p else pick_class classes r prev
  end.

Definition pick_next_task (r prev : Z) : C Z :=
  n ← rq_get r rq_nr_running;
  c ← get_cfs r;
  if n =? h_nr_running c then
    p ← pick_next_task_fair r prev;
    if negb (p =? NULL) then mret p else pick_class sched_classes r prev
  else pick_class sched_classes r prev.

Definition prepare_task_switch (r prev next : Z) : C unit :=
  acct (sched_info_switch r prev next);;
  acct (perf_event_task_sched_out prev next);;
  acct (fire_sched_out_preempt_notifiers prev next);;
  acct (prepare_lock_switch r next);;
  acct (prepare_arch_switch next).

Definition finish_task_switch (prev : Z) : C unit :=
  let r := this_rq in
  mm ← rq_get r rq_prev_mm;
  rq_set r rq_prev_mm NULL;;
  prev_state ← task_get prev t_state;
  cur ← get_current;
  acct (perf_event_task_sched_in prev cur);;
  acct (finish_arch_switch prev);;
  finish_lock_switch r prev;;
  cur ← get_current;
  acct (fire_sched_in_preempt_notifiers cur);;
  (if negb (mm =? NULL) then acct (mmdrop mm) else mret tt);;
  if prev_state =? TASK_DEAD then put_task_struct prev else mret tt.

(** What runs after [switch_to] runs on the stack of [next]. *)
Definition context_switch (r prev next : Z) : C unit :=
  prepare_task_switch r prev next;;
  mm ← task_get next t_mm;
  oldmm ← task_get prev t_active_mm;
  acct (arch_start_context_switch prev);;
  (if mm =? NULL then
     task_set next t_active_mm oldmm;;
     (if oldmm =? NULL then fault else acct (atomic_inc_mm_count oldmm));;
     acct (enter_lazy_tlb oldmm next)
   else acct (switch_mm oldmm mm next));;
  prev_mm ← task_get prev t_mm;
  (if prev_mm =? NULL then task_set prev t_active_mm NULL;; rq_set r rq_prev_mm oldmm else mret tt);;
  prev ← switch_to prev next;
  finish_task_switch prev.

Definition irq_save : C bool := b ← gets irqs_on; modify (with_irqs false);; mret b.
Definition irq_restore (flags : bool) : C unit := modify (with_irqs flags).

Definition schedule : C unit :=
  let r := cpu_rq smp_processor_id in
  prev ← rq_get r rq_curr;
  flags ← irq_save;
  on_rq_lock r (on_lock (spin_lock smp_processor_id return_address fuel));;
  update_rq_clock r;;
  next ← pick_next_task r prev;
  acct (clear_tsk_need_resched prev);;
  (if negb (prev =? next) then
     n ← rq_get r rq_nr_switches;
     rq_set r rq_nr_switches (n +[64] 1);;
     rq_set r rq_curr next;;
     context_switch r prev next
   else on_rq_lock r (on_lock (spin_unlock smp_processor_id)));;
  irq_restore flags.

Definition sys_sched_yield : C Z :=
  r ← this_rq_lock;
  acct (schedstat_inc_yld_count r);;
  cur ← get_current;
  cl ← task_get cur t_sched_class;
  dispatch cl (yield_task_fair r) (other_yield cl r);;
  acct preempt_disable;;
  on_rq_lock r (on_lock (spin_unlock smp_processor_id));;
  schedule;;
  acct preempt_enable;;
  mret 0.

(** [set_current_state] sets [current->state]. *)
Definition yield : C unit :=
  cur ← get_current;
  task_set cur t_state TASK_RUNNING;;
  sys_sched_yield;;
  mret tt.

Definition wake_up_process (p : Z) : C unit :=
  pi_lock p;;
  state ← task_get p t_state;
  (if has_flag state TASK_NORMAL then
     remote ← ttwu_remote p;
     if remote : bool then mret tt else ttwu_queue p smp_processor_id
   else mret tt);;
  pi_unlock p.
End sched.
