(* ===== verification/SchedTasks.v ===== *)
(** The life of a task: identifiers, allocation, reference counts and
    duplication ([alloc_pid] to [dup_task_struct] of
    [kernel/core/sched/sched.c]). *)
From stdpp Require Import base gmap list strings fin_maps.
From S2P Require Import Prelude CTypes ListHead ListTheory Spinlock SchedData Cfs CfsTheory Sched.

(** * Documented behaviour of the code outside the sources *)

(** The counters are 32-bit; [finish_lock_switch] releases the lock of the
    runqueue and enables interrupts; [this_rq_lock] takes the lock of this
    CPU's runqueue and may mask interrupts; [switch_to] returns in the context of the
    next task with the task it came from; [check_preempt_curr] marks runnable
    buddies and sets the resched flag. *)
Class CoreLaws `{CoreLib} := {
  atomic_inc_law : ∀ n, atomic_inc n = swrap 32 (n + 1);
  atomic_dec_and_test_law : ∀ n,
    atomic_dec_and_test n = (swrap 32 (n - 1), bool_decide (swrap 32 (n - 1) = 0));
  RB_ROOT_law : inorder RB_ROOT = [];
  this_rq_law : this_rq = cpu_rq smp_processor_id;
  finish_lock_switch_law : ∀ r prev s x, rqs s !! r = Some x →
    magic (rq_lock x) = SPINLOCK_MAGIC → owner_cpu (rq_lock x) = smp_processor_id →
    ∃ w, finish_lock_switch r prev s =
      Ret (tt, with_world w (with_irqs true
        (with_rqs (<[r := Rq (released (rq_lock x)) (rqfields x)]> (rqs s)) s)));
  switch_to_law : ∀ prev next s, ∃ w, switch_to prev next s = Ret (prev, with_world w s);
  check_preempt_curr_law : ∀ r p flags s, is_Some (rqs s !! r) →
    ∃ w h, check_preempt_curr r p flags s = Ret (tt, with_world w (with_hints h s)) ∧
      hints_from (λ q x, runnable s q x) (hints s) h;
  fair_sched_class_law : fair_sched_class ≠ NULL;
  TASK_DEAD_law : TASK_DEAD ≠ TASK_RUNNING;
  this_rq_lock_law : ∀ s x, rqs s !! cpu_rq smp_processor_id = Some x →
    magic (rq_lock x) = SPINLOCK_MAGIC → owner_cpu (rq_lock x) ≠ smp_processor_id →
    lock (rq_lock x) = SPINLOCK_UNLOCKED →
    ∃ w b l, this_rq_lock s = Ret (cpu_rq smp_processor_id,
        with_world w (with_irqs b (with_rqs (<[cpu_rq smp_processor_id := Rq l (rqfields x)]> (rqs s)) s))) ∧
      magic l = SPINLOCK_MAGIC ∧ owner_cpu l = smp_processor_id
}.

(** * Accesses *)

Lemma assign_app {F} `{EqDecision F} (l1 l2 : list (F * Z)) s :
  assign (l1 ++ l2) s = assign l2 (assign l1 s).
Proof. unfold assign. apply foldl_app. Qed.

Lemma assign_other {F} `{EqDecision F} (l : list (F * Z)) (f : F) : ∀ s,
  f ∉ l.*1 → assign l s f = s f.
Proof.
  induction l as [|[g v] l IH]; intros s Hf; [done|]. simpl in Hf.
  apply not_elem_of_cons in Hf as [Hne Hf]. unfold assign in *. simpl. rewrite IH by done.
  by rewrite upd_other.
Qed.

(** A task is in one state, unless bits beyond those of the header are set. *)
Lemma task_states_exclusive `{SchedLib} (p : task_struct) :
  length (filter (λ b : bool, b = true) [task_is_running p; task_is_stopped p; task_is_zombie p;
    task_is_interruptible p; task_is_uninterruptible p; task_is_traced p]) = 1%nat ↔
  tfields p t_state ∈ [TASK_RUNNING; TASK_STOPPED; TASK_ZOMBIE; TASK_INTERRUPTIBLE; TASK_UNINTERRUPRIBLE] ∨
  task_is_traced p = true.
Proof.
  unfold task_is_running, task_is_stopped, task_is_zombie, task_is_interruptible, task_is_uninterruptible.
  destruct (task_is_traced p) eqn:Ht; unfold task_is_traced, has_flag in Ht.
  - rewrite !(proj2 (Z.eqb_neq (tfields p t_state) _)) by (intros He; by rewrite He in Ht). simpl. tauto.
  - destruct (Z.eqb_spec (tfields p t_state) TASK_RUNNING) as [->|]; [by_decide|].
    destruct (Z.eqb_spec (tfields p t_state) TASK_STOPPED) as [->|]; [by_decide|].
    destruct (Z.eqb_spec (tfields p t_state) TASK_ZOMBIE) as [->|]; [by_decide|].
    destruct (Z.eqb_spec (tfields p t_state) TASK_INTERRUPTIBLE) as [->|]; [by_decide|].
    destruct (Z.eqb_spec (tfields p t_state) TASK_UNINTERRUPRIBLE) as [->|]; [by_decide|].
    simpl. rewrite !elem_of_cons. split; [done|]. by intros [[?|[?|[?|[?|[?|?%not_elem_of_nil]]]]]|?].
Qed.

Section tasks.
  Context `{CoreLib, !Allocator}.
  Context (fuel : nat).
  Abbreviation st := (sched env).
  Abbreviation C := (M st).
  Implicit Types (s : st) (t : task_struct).

Lemma wp_get_task p t s Q : tasks s !! p = Some t → Q t s → wp (get_task p) s Q.
Proof. apply (wp_get_some (λ s, tasks s !! p)). Qed.
Lemma wp_mod_task p f t s (Q : unit → st → Prop) :
  tasks s !! p = Some t → Q tt (with_tasks (<[p := f t]> (tasks s)) s) → wp (mod_task p f) s Q.
Proof. intros. by eapply wp_bind, (wp_get_some (λ s, tasks s !! p)). Qed.

Lemma wp_task_set p f v t s (Q : unit → st → Prop) : tasks s !! p = Some t →
  Q tt (with_tasks (<[p := Task (upd f v (tfields t)) (comm t) (alloc_lock t)]> (tasks s)) s) →
  wp (task_set p f v) s Q.
Proof. intros. by eapply wp_mod_task. Qed.

Lemma wp_task_assign p l t s (Q : unit → st → Prop) : tasks s !! p = Some t →
  Q tt (with_tasks (<[p := Task (assign l (tfields t)) (comm t) (alloc_lock t)]> (tasks s)) s) →
  wp (task_assign p l) s Q.
Proof. intros. by eapply wp_mod_task. Qed.

(** ** The list nodes of a task *)

Definition self_loop (n : lnode) : list_head lnode := ListNode (Ptr n) (Ptr n).

(** [INIT_LIST_HEAD] on the nodes [l] of a task. *)
Definition self_loops (p : Z) (l : list task_list_field) (h : gmap lnode (list_head lnode)) :=
  foldl (λ h f, <[in_task p f := self_loop (in_task p f)]> h) h l.

Lemma INIT_LIST_HEAD_run (h : gmap lnode (list_head lnode)) n : is_Some (h !! n) →
  INIT_LIST_HEAD (Ptr n) h = Ret (tt, <[n := self_loop n]> h).
Proof.
  intros Hn. unfold INIT_LIST_HEAD. mstep with wr_next_run; [|done].
  rewrite wr_prev_run; [|unfold set_next; by rewrite lookup_alter_is_Some].
  do 2 f_equal. destruct Hn as [[a b] Hn]. apply map_eq. intros m. unfold set_next, set_prev.
  destruct (decide (m = n)) as [->|Hne].
  - rewrite lookup_insert_eq, !lookup_alter_eq, Hn. done.
  - by rewrite lookup_insert_ne, !lookup_alter_ne by done.
Qed.

Lemma wp_init_list n s (Q : unit → st → Prop) : is_Some (lists s !! n) →
  Q tt (with_lists (<[n := self_loop n]> (lists s)) s) → wp (on_lists (INIT_LIST_HEAD (Ptr n))) s Q.
Proof. intros Hn HQ. apply wp_zoom. by eapply wp_Ret; [apply INIT_LIST_HEAD_run|]. Qed.

Lemma wp_init_lists p l : ∀ s (Q : unit → st → Prop), (∀ f, f ∈ l → is_Some (lists s !! in_task p f)) →
  Q tt (with_lists (self_loops p l (lists s)) s) → wp (init_lists p l) s Q.
Proof.
  induction l as [|f l IH]; intros s Q Hl HQ; [by destruct s|]. simpl.
  apply wp_bind, wp_init_list; [apply Hl; by left|]. apply IH; [|done].
  intros g Hg. simpl. rewrite lookup_insert_is_Some'. right. apply Hl. by right.
Qed.

Lemma self_loops_other p l n : ∀ h, (∀ f, f ∈ l → n ≠ in_task p f) → self_loops p l h !! n = h !! n.
Proof.
  induction l as [|f l IH]; intros h Hn; [done|]. simpl. unfold self_loops in *. simpl. rewrite IH.
  - rewrite lookup_insert_ne; [done|]. intros <-. by apply (Hn f); [left|].
  - intros g Hg. apply Hn. by right.
Qed.

Lemma self_loops_in p l f : ∀ h, f ∈ l ∨ h !! in_task p f = Some (self_loop (in_task p f)) →
  self_loops p l h !! in_task p f = Some (self_loop (in_task p f)).
Proof.
  induction l as [|g l IH]; intros h Hf; unfold self_loops in *; simpl.
  - destruct Hf as [?%not_elem_of_nil|?]; [done|done].
  - apply IH. destruct (decide (f = g)) as [->|Hne]; [right; apply lookup_insert_eq|].
    rewrite lookup_insert_ne by congruence.
    destruct Hf as [[?|?]%elem_of_cons|?]; [done|by left|by right].
Qed.

Lemma all_task_lists_complete f : f ∈ all_task_lists.
Proof. destruct f; unfold all_task_lists; set_solver. Qed.

(** Nodes inserted or deleted together. *)
Lemma lookup_put_nodes p v (h : gmap lnode (list_head lnode)) n :
  foldr (λ f, <[in_task p f := v]>) h all_task_lists !! n =
    match n with in_task q _ => if decide (q = p) then Some v else h !! n | _ => h !! n end.
Proof.
  unfold all_task_lists. cbn [foldr]. destruct n as [|q f|]; [by rewrite !lookup_insert_ne by done| |by rewrite !lookup_insert_ne by done].
  destruct (decide (q = p)) as [->|Hne]; [|by rewrite !lookup_insert_ne by congruence].
  destruct f; repeat (rewrite lookup_insert_ne by done); by rewrite lookup_insert_eq.
Qed.

Lemma lookup_drop_nodes p (h : gmap lnode (list_head lnode)) n :
  foldr (λ f, delete (in_task p f)) h all_task_lists !! n =
    match n with in_task q _ => if decide (q = p) then None else h !! n | _ => h !! n end.
Proof.
  unfold all_task_lists. cbn [foldr]. destruct n as [|q f|]; [by rewrite !lookup_delete_ne by done| |by rewrite !lookup_delete_ne by done].
  destruct (decide (q = p)) as [->|Hne]; [|by rewrite !lookup_delete_ne by congruence].
  destruct f; repeat (rewrite lookup_delete_ne by done); by rewrite lookup_delete_eq.
Qed.

(** * Process identifiers *)

Definition pid_after (pid n : Z) : Z := 1 + (pid - 1 + n) `mod` (PID_MAX - 1).

Fixpoint alloc_pids (n : nat) : C (list Z) :=
  match n with
  | O => mret []
  | S n => pid ← alloc_pid; pids ← alloc_pids n; mret (pid :: pids)
  end.

Lemma pid_after_range pid n : 1 ≤ pid_after pid n < PID_MAX.
Proof. unfold pid_after. pose proof (Z.mod_pos_bound (pid - 1 + n) (PID_MAX - 1) eq_refl). lia. Qed.

Lemma pid_after_step pid n : pid_after (pid_after pid n) 1 = pid_after pid (n + 1).
Proof.
  unfold pid_after, PID_MAX. change (32768 - 1) with 32767.
  replace (1 + (pid - 1 + n) `mod` 32767 - 1 + 1) with ((pid - 1 + n) `mod` 32767 + 1) by lia.
  rewrite Zplus_mod_idemp_l. do 2 f_equal. lia.
Qed.

Lemma pid_after_add pid m n : pid_after (pid_after pid m) n = pid_after pid (m + n).
Proof.
  unfold pid_after, PID_MAX. change (32768 - 1) with 32767.
  replace (1 + (pid - 1 + m) `mod` 32767 - 1 + n) with ((pid - 1 + m) `mod` 32767 + n) by lia.
  rewrite Zplus_mod_idemp_l. do 2 f_equal. lia.
Qed.

Lemma pid_after_0 pid : 1 ≤ pid < PID_MAX → pid_after pid 0 = pid.
Proof. unfold pid_after, PID_MAX. intros. rewrite Z.mod_small; lia. Qed.

Lemma alloc_pid_run s : 1 ≤ next_pid s < PID_MAX →
  alloc_pid s = Ret (next_pid s, with_next_pid (pid_after (next_pid s) 1) s).
Proof.
  intros Hp. unfold alloc_pid. mstep. unfold PID_MAX in Hp.
  assert (cast pid_t (next_pid s + 1) = next_pid s + 1) as ->.
  { unfold cast, pid_t. simpl. apply swrap_small; lia. }
  assert ((if PID_MAX <=? next_pid s + 1 then 1 else next_pid s + 1) = pid_after (next_pid s) 1) as ->.
  { unfold pid_after, PID_MAX. change (32768 - 1) with 32767.
    destruct (Z.leb_spec 32768 (next_pid s + 1)).
    - replace (next_pid s - 1 + 1) with 32767 by lia. done.
    - rewrite Z.mod_small; lia. }
  reflexivity.
Qed.

Lemma alloc_pids_run n : ∀ s, 1 ≤ next_pid s < PID_MAX →
  alloc_pids n s = Ret ((λ i, pid_after (next_pid s) (Z.of_nat i)) <$> seq 0 n,
    with_next_pid (pid_after (next_pid s) (Z.of_nat n)) s).
Proof.
  induction n as [|n IH]; intros s Hp.
  - simpl. rewrite pid_after_0 by done. by destruct s.
  - cbn [alloc_pids]. rewrite (bind_Ret _ _ _ _ _ (alloc_pid_run s Hp)).
    set (s1 := with_next_pid _ s).
    rewrite (bind_Ret _ _ _ _ _ (IH s1 (pid_after_range _ _))). simpl.
    rewrite pid_after_0 by done. unfold mret, M_ret. do 2 f_equal.
    + f_equal. rewrite <-fmap_S_seq, <-list_fmap_compose. apply list_fmap_ext. intros i x _. simpl.
      rewrite pid_after_add. f_equal. lia.
    + unfold with_next_pid. simpl. rewrite pid_after_add. do 2 f_equal. lia.
Qed.

(** [alloc_pid] hands out the identifiers 1 to [PID_MAX - 1] in turn: any
    [n] calls in a row return, every identifier is in that range, no two of
    them agree while [n] is at most [PID_MAX - 1], and the next identifiers are
    the first ones again, whether or not their tasks are still alive. *)
Theorem pid_cycle s (n : nat) (Hp : 1 ≤ next_pid s < PID_MAX) :
  ∃ pids s', alloc_pids n s = Ret (pids, s') ∧ length pids = n ∧
    (∀ pid, pid ∈ pids → 1 ≤ pid < PID_MAX) ∧
    (Z.of_nat n ≤ PID_MAX - 1 → NoDup pids) ∧
    (∀ i : nat, Z.of_nat i + (PID_MAX - 1) < Z.of_nat n →
       pids !! (i + Z.to_nat (PID_MAX - 1))%nat = pids !! i).
Proof.
  eexists _, _. split; [by apply alloc_pids_run|]. split_and!.
  - by rewrite length_fmap, length_seq.
  - intros pid (i & -> & _)%list_elem_of_fmap. apply pid_after_range.
  - intros Hn. apply NoDup_fmap_2_strong; [|apply NoDup_seq].
    intros i j [_ Hi]%elem_of_seq [_ Hj]%elem_of_seq. unfold pid_after. intros He.
    assert ((next_pid s - 1 + Z.of_nat i) `mod` (PID_MAX - 1) =
            (next_pid s - 1 + Z.of_nat j) `mod` (PID_MAX - 1)) as Hm by lia.
    unfold PID_MAX in *. change (32768 - 1) with 32767 in *.
    pose proof (Z.div_mod (next_pid s - 1 + Z.of_nat i) 32767 ltac:(lia)).
    pose proof (Z.div_mod (next_pid s - 1 + Z.of_nat j) 32767 ltac:(lia)). nia.
  - intros i Hi. unfold PID_MAX in *. rewrite !list_lookup_fmap, !lookup_seq_lt by lia. simpl. f_equal.
    unfold pid_after, PID_MAX. change (32768 - 1) with 32767. f_equal.
    rewrite Nat2Z.inj_add, Z2Nat.id by lia.
    replace (next_pid s - 1 + (Z.of_nat i + 32767)) with (next_pid s - 1 + Z.of_nat i + 1 * 32767) by lia.
    by rewrite Z_mod_plus_full.
Qed.

(** * Allocation *)

#[local] Opaque all_task_lists.
#[local] Arguments assign : simpl never.

(** [p] is not the address of a task. *)
Definition fresh_task s (p : Z) : Prop :=
  tasks s !! p = None ∧ ses s !! p = None ∧ ∀ f, lists s !! in_task p f = None.

Definition new_task (p stack pid : Z) : task_struct :=
  Task (assign task_init3 (assign (task_init2 p pid) (assign task_init1 (upd t_stack stack (λ _, 0)))))
    "suibian" (SpinLock 0 0 0 "" 0).
Definition new_entity : sched_entity := Entity (LoadWeight NICE_0_LOAD 0) 0 0 0 0 0 0.

(** The state after a successful allocation. *)
Definition with_new_task (p stack : Z) (w : env) s : st :=
  Sched (rqs s) (cfs s) (hints s) (<[p := new_entity]> (ses s))
    (<[p := new_task p stack (next_pid s)]> (tasks s)) ({[stack]} ∪ stacks s)
    (self_loops p all_task_lists
      (foldr (λ f, <[in_task p f := ListNode Null Null]>) (lists s) all_task_lists))
    (task_list_lock s) (pid_after (next_pid s) 1) (current_task s) (irqs_on s) (jiffies s) w.

Lemma drop_fresh_nodes s p : (∀ f, lists s !! in_task p f = None) →
  foldr (λ f, delete (in_task p f)) (foldr (λ f, <[in_task p f := ListNode Null Null]>)
    (lists s) all_task_lists) all_task_lists = lists s.
Proof.
  intros Hf. apply map_eq. intros n. rewrite lookup_drop_nodes.
  destruct n as [|q f|]; rewrite ?lookup_put_nodes; [done| |done].
  destruct (decide (q = p)) as [->|]; [by rewrite Hf|done].
Qed.

Lemma alloc_run size s p w : kmalloc size (world s) = (p, w) → alloc size s = Ret (p, with_world w s).
Proof. unfold alloc. by intros ->. Qed.

Lemma wp_zero_task p s (Q : unit → st → Prop) :
  Q tt (with_lists (foldr (λ f, <[in_task p f := ListNode Null Null]>) (lists s) all_task_lists)
    (with_ses (<[p := Entity (LoadWeight 0 0) 0 0 0 0 0 0]> (ses s))
    (with_tasks (<[p := Task (λ _, 0) "" (SpinLock 0 0 0 "" 0)]> (tasks s)) s))) →
  wp (zero_task p) s Q.
Proof. intros HQ. exact HQ. Qed.

Lemma wp_free_task_mem p s (Q : unit → st → Prop) :
  Q tt (with_world (kfree p (world s))
    (with_lists (foldr (λ f, delete (in_task p f)) (lists s) all_task_lists)
    (with_ses (delete p (ses s)) (with_tasks (delete p (tasks s)) s)))) →
  wp (free_task_mem p) s Q.
Proof. intros HQ. exact HQ. Qed.

Lemma wp_alloc_pid s (Q : Z → st → Prop) : 1 ≤ next_pid s < PID_MAX →
  Q (next_pid s) (with_next_pid (pid_after (next_pid s) 1) s) → wp alloc_pid s Q.
Proof. intros. by eapply wp_Ret; [apply alloc_pid_run|]. Qed.

(** What follows the second allocation. *)
Lemma wp_alloc_task_struct s p w q w' (Q : Z → st → Prop) : 1 ≤ next_pid s < PID_MAX →
  kmalloc sizeof_task_struct (world s) = (p, w) → kmalloc THREAD_SIZE w = (q, w') →
  (p = NULL → Q NULL (with_world w s)) →
  (p ≠ NULL → q = NULL → fresh_task s p → Q NULL (with_world (kfree p w') s)) →
  (p ≠ NULL → q ≠ NULL → Q p (with_new_task p q w' s)) →
  (p ≠ NULL → fresh_task s p) →
  wp alloc_task_struct s Q.
Proof.
  intros Hpid Hp Hq HQ0 HQ1 HQ2 Hfr. unfold alloc_task_struct.
  apply wp_bind. eapply wp_Ret; [by apply alloc_run|].
  destruct (Z.eqb_spec p NULL) as [->|Hpn]; [by apply wp_ret, HQ0|].
  apply wp_bind, wp_zero_task. apply wp_bind. eapply wp_Ret; [apply alloc_run; exact Hq|].
  eapply wp_bind, wp_task_set; [apply lookup_insert_eq|].
  destruct (Z.eqb_spec q NULL) as [->|Hqn].
  { apply wp_bind, wp_free_task_mem, wp_ret. simpl.
    destruct (Hfr Hpn) as (Hf1 & Hf2 & Hf3). rewrite drop_fresh_nodes by done.
    rewrite insert_insert_eq, !delete_insert_id by done. by apply HQ1. }
  apply wp_bind, wp_modify. eapply wp_bind, wp_task_assign; [simpl; by rewrite insert_insert_eq, lookup_insert_eq|].
  apply wp_bind, wp_alloc_pid; [done|].
  eapply wp_bind, wp_task_assign; [simpl; by rewrite lookup_insert_eq|].
  eapply wp_bind, wp_task_get; [simpl; by rewrite lookup_insert_eq|].
  apply wp_bind. eapply wp_Ret; [reflexivity|].
  eapply wp_bind, wp_mod_se; [simpl; by rewrite lookup_insert_eq|].
  apply wp_bind, wp_init_lists.
  { intros f _. simpl. rewrite lookup_put_nodes, decide_True by done. by eexists. }
  eapply wp_bind, wp_mod_task; [simpl; by rewrite lookup_insert_eq|].
  eapply wp_bind, wp_task_assign; [simpl; by rewrite lookup_insert_eq|]. apply wp_ret.
  specialize (HQ2 Hpn Hqn). unfold with_new_task in HQ2. simpl.
  rewrite !insert_insert_eq. exact HQ2.
Qed.

(** C20: [alloc_task_struct] with the two answers [p] and [q] of [kmalloc]: if
    the task cannot be had nothing happens; if the stack cannot be had the task
    is given back and no identifier is used up; otherwise the task is the only
    thing added, with one reference, the next identifier, the stack [q], the
    default priority and weight, list nodes that are empty lists, no CPU and no
    scheduling class. *)
Theorem alloc_task_struct_cases s (p q : Z) (w w' : env) (Hpid : 1 ≤ next_pid s < PID_MAX)
    (Hp : kmalloc sizeof_task_struct (world s) = (p, w)) (Hq : kmalloc THREAD_SIZE w = (q, w'))
    (Hfresh : p ≠ NULL → fresh_task s p) :
  ∃ r s', alloc_task_struct s = Ret (r, s') ∧
    if p =? NULL then r = NULL ∧ s' = with_world w s
    else if q =? NULL then r = NULL ∧ s' = with_world (kfree p w') s
    else r = p ∧ s' = with_new_task p q w' s ∧
      (let t := new_task p q (next_pid s) in
       tfields t t_usage = 1 ∧ tfields t t_stack = q ∧ tfields t t_state = TASK_RUNNING ∧
       tfields t t_pid = next_pid s ∧ tfields t t_tgid = next_pid s ∧ tfields t t_group_leader = p ∧
       tfields t t_static_prio = DEFAULT_PRIO ∧ tfields t t_last_cpu = -1 ∧ tfields t t_sched_class = NULL) ∧
      (∀ f, lists s' !! in_task p f = Some (self_loop (in_task p f))) ∧
      (∀ n, (∀ f, n ≠ in_task p f) → lists s' !! n = lists s !! n).
Proof.
  apply wp_returns. eapply wp_alloc_task_struct; [done..| | | |done].
  - intros ->. done.
  - intros Hpn -> _. by rewrite (proj2 (Z.eqb_neq p NULL)).
  - intros Hpn Hqn. rewrite (proj2 (Z.eqb_neq p NULL)), (proj2 (Z.eqb_neq q NULL)) by done.
    split; [done|]. split; [done|]. split; [by split_and!|]. split.
    + intros f. apply self_loops_in. left. apply all_task_lists_complete.
    + intros n Hn. simpl. rewrite self_loops_other by (intros; apply Hn). rewrite lookup_put_nodes.
      destruct n as [|r f|]; [done| |done]. rewrite decide_False; [done|]. intros ->. by apply (Hn f).
Qed.

(** * Reference counts *)

Inductive ref_op := Get | Put.

Definition run_ref (p : Z) (o : ref_op) : C unit :=
  match o with Get => get_task_struct p | Put => put_task_struct p end.
Fixpoint run_refs (p : Z) (ops : list ref_op) : C unit :=
  match ops with [] => mret tt | o :: ops => run_ref p o;; run_refs p ops end.

(** What a holder of references may expect. *)
Inductive ref_state := Live (n : Z) | Freed | Dangling.
Fixpoint ref_spec (n : Z) (ops : list ref_op) : ref_state :=
  match ops with
  | [] => Live n
  | Get :: ops => ref_spec (n + 1) ops
  | Put :: ops =>
    if n =? 1 then match ops with [] => Freed | _ => Dangling end else ref_spec (n - 1) ops
  end.

Definition with_usage (n : Z) t : task_struct :=
  Task (upd t_usage n (tfields t)) (comm t) (alloc_lock t).

(** The state without the task [p] and its stack [q]. *)
Definition without_task (p q : Z) s : st :=
  Sched (rqs s) (cfs s) (hints s) (delete p (ses s)) (delete p (tasks s))
    (if q =? NULL then stacks s else stacks s ∖ {[q]})
    (foldr (λ f, delete (in_task p f)) (lists s) all_task_lists)
    (task_list_lock s) (next_pid s) (current_task s) (irqs_on s) (jiffies s)
    (kfree p (if q =? NULL then world s else kfree q (world s))).

Lemma wp_free_task_struct s p t (Q : unit → st → Prop) : p ≠ NULL → tasks s !! p = Some t →
  (tfields t t_stack ≠ NULL → tfields t t_stack ∈ stacks s) →
  Q tt (without_task p (tfields t t_stack) s) → wp (free_task_struct p) s Q.
Proof.
  intros Hp Ht Hst HQ. unfold free_task_struct. rewrite (proj2 (Z.eqb_neq p NULL)) by done.
  eapply wp_bind, wp_task_get; [done|]. unfold without_task in HQ.
  destruct (Z.eqb_spec (tfields t t_stack) NULL) as [Hz|Hz]; simpl.
  - apply wp_bind, wp_ret, wp_free_task_mem. exact HQ.
  - apply wp_bind. unfold wp at 1, free_stack_mem. rewrite decide_True by by apply Hst.
    apply wp_free_task_mem. exact HQ.
Qed.

Lemma get_task_run s p t : tasks s !! p = Some t → get_task p s = Ret (t, s).
Proof. apply (get_some_run (λ s, tasks s !! p)). Qed.

Lemma get_task_struct_run `{!CoreLaws} s p t : tasks s !! p = Some t →
  - 2 ^ 31 ≤ tfields t t_usage + 1 < 2 ^ 31 →
  get_task_struct p s = Ret (tt, with_tasks (<[p := with_usage (tfields t t_usage + 1) t]> (tasks s)) s).
Proof.
  intros Ht Hn. unfold get_task_struct, task_get, task_set, mod_task.
  rewrite bind_assoc. mstep with get_task_run; [|done]. mstep.
  mstep with get_task_run; [|done]. unfold modify. rewrite atomic_inc_law.
  by rewrite swrap_small.
Qed.

Lemma put_task_struct_run `{!CoreLaws} s p t : p ≠ NULL → tasks s !! p = Some t →
  1 ≤ tfields t t_usage < 2 ^ 31 → (tfields t t_stack ≠ NULL → tfields t t_stack ∈ stacks s) →
  put_task_struct p s = Ret (tt,
    if tfields t t_usage =? 1 then without_task p (tfields t t_stack) s
    else with_tasks (<[p := with_usage (tfields t t_usage - 1) t]> (tasks s)) s).
Proof.
  intros Hp Ht Hn Hst. enough (wp (put_task_struct p) s (λ _ s', s' =
    if tfields t t_usage =? 1 then without_task p (tfields t t_stack) s
    else with_tasks (<[p := with_usage (tfields t t_usage - 1) t]> (tasks s)) s))
    as ([] & s' & Hrun & ->)%wp_returns by done.
  unfold put_task_struct. eapply wp_bind, wp_task_get; [done|].
  rewrite atomic_dec_and_test_law, swrap_small by lia.
  eapply wp_bind, wp_task_set; [done|]. destruct (Z.eqb_spec (tfields t t_usage) 1) as [He|He].
  - rewrite bool_decide_true by lia.
    eapply (wp_free_task_struct _ p (with_usage (tfields t t_usage - 1) t)); [done|apply lookup_insert_eq|done|].
    unfold without_task. simpl. by rewrite delete_insert_eq.
  - rewrite bool_decide_false by lia. done.
Qed.

(** C18: reference counting: over any sequence of [get_task_struct] and
    [put_task_struct] calls on a task with a count, the task lives on with the
    count the sequence gives, unchanged otherwise, while the count is positive;
    the put that brings it to zero frees the task and its stack; and a call
    after that is a use of freed memory. *)
Theorem task_refcount `{!CoreLaws} s (p : Z) t (ops : list ref_op) (Hp : p ≠ NULL)
    (Ht : tasks s !! p = Some t) (Hn : 1 ≤ tfields t t_usage)
    (Hmax : tfields t t_usage + Z.of_nat (length ops) < 2 ^ 31)
    (Hst : tfields t t_stack ≠ NULL → tfields t t_stack ∈ stacks s) :
  match ref_spec (tfields t t_usage) ops with
  | Live n => ∃ t', run_refs p ops s = Ret (tt, with_tasks (<[p := t']> (tasks s)) s) ∧
      tfields t' t_usage = n ∧ comm t' = comm t ∧ alloc_lock t' = alloc_lock t ∧
      ∀ f, f ≠ t_usage → tfields t' f = tfields t f
  | Freed => run_refs p ops s = Ret (tt, without_task p (tfields t t_stack) s)
  | Dangling => run_refs p ops s = Fault
  end.
Proof.
  revert s t Ht Hn Hmax Hst. induction ops as [|o ops IH]; intros s t Ht Hn Hmax Hst; simpl.
  { exists t. rewrite insert_id by done. by destruct s. }
  simpl in Hmax.
  (* a step that leaves the task alive *)
  assert (∀ n, 1 ≤ n → n ≤ tfields t t_usage + 1 →
    run_ref p o s = Ret (tt, with_tasks (<[p := with_usage n t]> (tasks s)) s) →
    match ref_spec n ops with
    | Live n => ∃ t', (run_ref p o;; run_refs p ops) s = Ret (tt, with_tasks (<[p := t']> (tasks s)) s) ∧
        tfields t' t_usage = n ∧ comm t' = comm t ∧ alloc_lock t' = alloc_lock t ∧
        ∀ f, f ≠ t_usage → tfields t' f = tfields t f
    | Freed => (run_ref p o;; run_refs p ops) s = Ret (tt, without_task p (tfields t t_stack) s)
    | Dangling => (run_ref p o;; run_refs p ops) s = Fault
    end) as Halive.
  { intros n Hn1 Hn2 Hrun. rewrite (bind_Ret _ _ _ _ _ Hrun).
    specialize (IH (with_tasks (<[p := with_usage n t]> (tasks s)) s) (with_usage n t)
      (lookup_insert_eq _ _ _)). cbn [tfields with_usage comm alloc_lock] in IH.
    rewrite upd_same, upd_other in IH by done. specialize (IH Hn1 ltac:(lia) Hst).
    destruct (ref_spec n ops) as [m| |].
    - destruct IH as (t' & Hr & Hu & Hc & Ha & Hf).
      exists t'. rewrite Hr. simpl. rewrite insert_insert_eq. split_and!; [done..|].
      intros f Hne. rewrite Hf by done. by apply upd_other.
    - rewrite IH. unfold without_task. simpl. by rewrite delete_insert_eq.
    - exact IH. }
  destruct o; simpl.
  - apply Halive; [lia..|]. apply get_task_struct_run; [done|lia].
  - pose proof (put_task_struct_run s p t Hp Ht ltac:(lia) Hst) as Hrun.
    destruct (Z.eqb_spec (tfields t t_usage) 1) as [He|He]; [|apply Halive; [lia..|done]].
    rewrite (bind_Ret _ _ _ _ _ Hrun). destruct ops as [|o ops]; [done|]. simpl. apply bind_Fault.
    set (s1 := without_task p _ s). assert (get_task p s1 = Fault) as Hf.
    { unfold get_task, get_some, s1. simpl. by rewrite lookup_delete_eq. }
    destruct o; simpl; unfold get_task_struct, put_task_struct, task_get; rewrite bind_assoc; by apply bind_Fault.
Qed.

(** * Duplication *)

Lemma wp_copy_task p orig s t e (Q : unit → st → Prop) : tasks s !! orig = Some t → ses s !! orig = Some e →
  (∀ h, (∀ n, is_Some (lists s !! n) → is_Some (h !! n)) →
     Q tt (with_lists h (with_ses (<[p := e]> (ses s)) (with_tasks (<[p := t]> (tasks s)) s)))) →
  wp (copy_task p orig) s Q.
Proof.
  intros Ht He HQ. unfold copy_task. eapply wp_bind, wp_get_task; [done|].
  eapply wp_bind, wp_get_se; [done|]. apply wp_bind, wp_modify, wp_bind, wp_modify, wp_modify. apply HQ.
  simpl. intros n Hn. induction all_task_lists as [|f l IH]; simpl; [done|].
  destruct (_ !! in_task orig f); [|done]. rewrite lookup_insert_is_Some'. by right.
Qed.

(** C25: [dup_task_struct] gives the copy the stack of the original and two new
    identifiers one after the other, of which the first is never used; the
    stack it allocated belongs to no task any more. Dropping the only
    reference to the copy frees the stack under the original, and freeing the
    original then frees that stack a second time. *)
Theorem dup_task_struct_stack `{!CoreLaws} s (orig p q : Z) t e (w w' : env)
    (Hpid : 1 ≤ next_pid s < PID_MAX) (Ht : tasks s !! orig = Some t) (He : ses s !! orig = Some e)
    (Hp : kmalloc sizeof_task_struct (world s) = (p, w)) (Hq : kmalloc THREAD_SIZE w = (q, w'))
    (Hpn : p ≠ NULL) (Hqn : q ≠ NULL) (Hon : orig ≠ NULL) (Hfresh : fresh_task s p)
    (Hk : tfields t t_stack ≠ NULL) (Hkin : tfields t t_stack ∈ stacks s)
    (Hun : ∀ r x, tasks s !! r = Some x → tfields x t_stack ≠ q) :
  ∃ s1 t', dup_task_struct orig s = Ret (p, s1) ∧ tasks s1 = <[p := t']> (tasks s) ∧
    tfields t' t_stack = tfields t t_stack ∧ tfields t' t_usage = 1 ∧ tfields t' t_tgid = tfields t t_tgid ∧
    tfields t' t_pid = pid_after (next_pid s) 1 ∧ next_pid s1 = pid_after (next_pid s) 2 ∧
    tfields t' t_start_time = jiffies s ∧
    q ∈ stacks s1 ∧ (∀ r x, tasks s1 !! r = Some x → tfields x t_stack ≠ q) ∧
    ∃ s2, put_task_struct p s1 = Ret (tt, s2) ∧ tasks s2 !! orig = Some t ∧
      free_task_struct orig s2 = Fault.
Proof.
  assert (orig ≠ p) as Hne. { intros ->. destruct Hfresh as [Hf _]. congruence. }
  enough (wp (dup_task_struct orig) s (λ r s1, r = p ∧ ∃ t', tasks s1 = <[p := t']> (tasks s) ∧
      tfields t' t_stack = tfields t t_stack ∧ tfields t' t_usage = 1 ∧ tfields t' t_tgid = tfields t t_tgid ∧
      tfields t' t_pid = pid_after (next_pid s) 1 ∧ next_pid s1 = pid_after (next_pid s) 2 ∧
      tfields t' t_start_time = jiffies s ∧ stacks s1 = {[q]} ∪ stacks s))
    as (r & s1 & Hrun & -> & t' & Hts & Hst & Hu & Htg & Hpd & Hnp & Hj & Hss)%wp_returns.
  { exists s1, t'. split_and!; try done.
    - rewrite Hss. set_solver.
    - intros r x. rewrite Hts. intros [[-> <-]|[_ Hx]]%lookup_insert_Some; [|by eapply Hun].
      rewrite Hst. by eapply Hun.
    - eexists. split; [apply (put_task_struct_run s1 p t'); [done|rewrite Hts; apply lookup_insert_eq|lia|]|].
      { intros _. rewrite Hst, Hss. set_solver. }
      rewrite Hu. simpl. rewrite Hts, lookup_delete_ne, lookup_insert_ne by done. split; [done|].
      unfold free_task_struct. rewrite (proj2 (Z.eqb_neq orig NULL)) by done.
      set (s2 := without_task p _ s1).
      assert (tasks s2 !! orig = Some t) as Ht2.
      { simpl. by rewrite Hts, lookup_delete_ne, lookup_insert_ne by done. }
      unfold task_get. rewrite bind_assoc. mstep with get_task_run; [|done]. mstep.
      rewrite (proj2 (Z.eqb_neq _ NULL)) by done. simpl. apply bind_Fault. unfold free_stack_mem.
      rewrite decide_False; [done|]. simpl. rewrite Hst, (proj2 (Z.eqb_neq _ NULL)) by done. set_solver. }
  unfold dup_task_struct. eapply wp_bind, wp_alloc_task_struct; [done..| | | |done].
  { intros. done. } { intros. done. } intros _ _. rewrite (proj2 (Z.eqb_neq p NULL)) by done.
  eapply wp_bind, wp_copy_task; [simpl; by rewrite lookup_insert_ne by done..|]. intros h Hh.
  apply wp_bind, wp_alloc_pid; [apply pid_after_range|]. simpl. rewrite !pid_after_add.
  eapply wp_bind, wp_task_assign; [simpl; apply lookup_insert_eq|].
  apply wp_bind, (wp_init_lists p [tasks_node; children; sibling]).
  { intros f _. apply Hh. exists (self_loop (in_task p f)). apply self_loops_in. left. apply all_task_lists_complete. }
  eapply wp_bind, wp_task_assign; [simpl; apply lookup_insert_eq|].
  eapply wp_bind, wp_mod_task; [simpl; apply lookup_insert_eq|].
  eapply wp_bind, wp_task_assign; [simpl; apply lookup_insert_eq|].
  apply wp_bind, wp_bind, wp_gets, wp_bind, wp_modify, wp_ret.
  eapply wp_bind, wp_task_assign; [simpl; apply lookup_insert_eq|].
  eapply wp_bind, wp_mod_se; [simpl; apply lookup_insert_eq|].
  eapply wp_bind, wp_task_assign; [simpl; apply lookup_insert_eq|].
  apply wp_ret. split; [done|]. simpl. rewrite !insert_insert_eq. eexists. by split_and!.
Qed.
End tasks.
