(* ===== verification/SchedTypes.v ===== *)
(** The types of the members of [struct task_struct], [struct sched_entity]
    and [struct rq] ([kernel/include/sched.h]), and that the operations on
    tasks and [sched_init] store in every member only values of its type. *)
From stdpp Require Import base gmap list strings fin_maps.
From S2P Require Import Prelude CTypes ListHead Spinlock SchedData Cfs CfsTheory Sched SchedTasks.

(** * Declared types *)

(** [Other]: a structure kept as an opaque word, or a member the header does
    not declare. *)
Inductive member_type :=
  | Typedef (t : ctype) | CLong | CULong | CShort | Pointer | BitField (width : Z) | Other.

Definition CInt : member_type := Typedef s32.
Definition CUnsigned : member_type := Typedef u32.
Definition AtomicT : member_type := CInt.

Definition fits (m : member_type) (v : Z) : Prop :=
  match m with
  | Typedef t => in_range t v
  | CLong => - 2 ^ 63 ≤ v < 2 ^ 63
  | CULong => 0 ≤ v < 2 ^ 64
  | CShort => - 2 ^ 15 ≤ v < 2 ^ 15
  | Pointer => 0 ≤ v < 2 ^ 64
  | BitField n => 0 ≤ v < 2 ^ n
  | Other => True
  end.

#[export] Instance fits_dec m v : Decision (fits m v).
Proof. destruct m as [t| | | | | |]; simpl; unfold in_range; try destruct (signed t); apply _. Defined.

Definition task_member (f : task_field) : member_type :=
  match f with
  | t_state => CLong
  | t_exit_state | t_exit_code | t_exit_signal => CInt
  | t_flags | t_ptrace => Typedef u32
  | t_pid | t_tgid | t_ppid | t_pgrp | t_session => Typedef pid_t
  | t_uid | t_euid | t_suid | t_fsuid => Typedef uid_t
  | t_gid | t_egid | t_sgid | t_fsgid => Typedef gid_t
  | t_prio | t_static_prio | t_normal_prio => CInt
  | t_policy => Typedef u32
  | t_rt_timeout | t_rt_watchdog_stamp => Typedef ulong
  | t_rt_time_slice => CUnsigned
  | t_rt_back | t_rt_parent | t_rt_rt_rq | t_rt_my_q => Pointer
  | t_cpus_allowed => Typedef u64
  | t_nr_cpus_allowed => Typedef u32
  | t_real_parent | t_parent | t_group_leader => Pointer
  | t_mm | t_active_mm | t_fs | t_files | t_signal | t_sighand => Pointer
  | t_stack => Pointer
  | t_stack_size => Typedef u64
  | t_regs => Pointer
  | t_utime | t_stime | t_gtime | t_start_time | t_real_start_time => Typedef u64
  | t_min_flt | t_maj_flt | t_nvcsw | t_nivcsw => Typedef ulong
  | t_thread_fn | t_thread_data | t_nsproxy => Pointer
  | t_audit_context => Typedef u32
  | t_perf_event_ctxp | t_sched_task_group | t_cgroups => Pointer
  | t_personality => Typedef u32
  | t_did_exec | t_in_execve | t_in_iowait | t_no_new_privs | t_sched_reset_on_fork
  | t_sched_contributes_to_load | t_sched_migrated => BitField 1
  | t_preempt_count => Typedef u32
  | t_security => Pointer
  | t_trace => Typedef ulong
  | t_trace_recursion => CULong
  | t_delays => Pointer
  | t_make_it_fail => CInt
  | t_scm_work_list => Pointer
  | t_usage => AtomicT
  | t_task_exit_notifier | t_stats | t_mempolicy => Pointer
  | t_il_next | t_pref_node_fork => CShort
  | t_bio_list | t_plug | t_blocked_on | t_tracer | t_socket | t_net_ns => Pointer
  | t_last_cpu | t_wake_cpu | t_migrate_disable => CInt
  | t_rcu_read_lock_nesting | t_rcu_read_unlock_special => CInt
  | t_rcu_blocked_node => Pointer
  | t_rcu_tasks_idle_cpu => CInt
  | t_run_node | t_blocked | t_real_blocked | t_saved_sigmask | t_wait_chldexit | t_sched_info
  | t_rcu_tasks_holdout | t_sched_class => Other
  end.

Definition rq_member (f : rq_field) : member_type :=
  match f with
  | rq_nr_running => CUnsigned
  | rq_load_weight | rq_load_inv_weight => Typedef u64
  | rq_nr_load_updates => Typedef ulong
  | rq_nr_switches => Typedef u64
  | rq_curr | rq_idle | rq_stop => Pointer
  | rq_next_balance => Typedef ulong
  | rq_prev_mm => Pointer
  | rq_clock | rq_clock_task => Typedef u64
  | rq_balance_callback => Pointer
  | rq_idle_balance => Typedef u8
  | rq_active_balance | rq_push_cpu | rq_cpu | rq_online => CInt
  | rq_rt_avg | rq_age_stamp | rq_idle_stamp | rq_avg_idle => Typedef u64
  | rq_prev_irq_time | rq_prev_steal_time | rq_prev_steal_time_rq => Typedef u64
  | rq_nohz_tick_stopped => CUnsigned
  | rq_nohz_flags => AtomicT
  | rq_last_load_update_tick | rq_last_blocked_load_update_tick => Typedef ulong
  | rq_has_blocked_load => CUnsigned
  | rq_nohz_stamp => Typedef u64
  | rq_max_idle_balance_cost | rq_wake_stamp => Typedef ulong
  | rq_wake_avg_idle => Typedef u64
  | rq_balance_cpu => CInt
  | rq_ttwu_count | rq_ttwu_local => CUnsigned
  | rq_rt_nr_running | rq_rt_highest_prio_curr | rq_rt_highest_prio_next | rq_dl_nr_running
  | rq_dl_time | rq_dl_bw | rq_rq_sched_info | rq_nr_uninterruptible => Other
  end.

Definition entity_typed (e : sched_entity) : Prop :=
  in_range u64 (weight (se_load e)) ∧ in_range u64 (inv_weight (se_load e)) ∧
  in_range u64 (exec_start e) ∧ in_range u64 (sum_exec_runtime e) ∧ in_range u64 (vruntime e) ∧
  in_range u64 (prev_sum_exec_runtime e) ∧ in_range u64 (nr_migrations e).

(** Every member of every object holds a value of its type. *)
Definition well_typed {W} (s : sched W) : Prop :=
  (∀ p t, tasks s !! p = Some t → ∀ f, fits (task_member f) (tfields t f)) ∧
  (∀ p e, ses s !! p = Some e → entity_typed e) ∧
  (∀ r x, rqs s !! r = Some x → ∀ f, fits (rq_member f) (rqfields x f)) ∧
  in_range pid_t (next_pid s) ∧ in_range u64 (jiffies s).

(** * What the code outside the sources answers *)

Class WidthLaws `{CoreLib, !Allocator} := {
  kmalloc_width : ∀ size w, fits Pointer (fst (kmalloc size w));
  SIGCHLD_width : fits CInt SIGCHLD;
  DEFAULT_TIMESLICE_width : fits CUnsigned DEFAULT_TIMESLICE;
  SCHED_NORMAL_width : fits (Typedef u32) SCHED_NORMAL
}.

#[local] Opaque all_task_lists.

Section types.
  Context `{CoreLaws, !Allocator, !WidthLaws}.
  Context (fuel : nat).
  Abbreviation C := (M (sched env)).

(** [m] keeps the state well typed and answers values that satisfy [Q]. *)
Definition keeps {A} (m : C A) (Q : A → Prop) : Prop :=
  ∀ s a s', well_typed s → m s = Ret (a, s') → well_typed s' ∧ Q a.

Lemma keeps_bind {A B} (m : C A) (f : A → C B) P Q :
  keeps m P → (∀ a, P a → keeps (f a) Q) → keeps (m ≫= f) Q.
Proof.
  intros Hm Hf s b s' Hs (a & s1 & Hm1 & Hf1)%bind_Ret_inv.
  destruct (Hm s a s1 Hs Hm1) as [Hs1 Ha]. by apply (Hf a Ha s1).
Qed.
Lemma keeps_ret {A} (a : A) (Q : A → Prop) : Q a → keeps (mret a) Q.
Proof. intros HQ s b s' Hs [= <- <-]. done. Qed.
Lemma keeps_weaken {A} (m : C A) (P Q : A → Prop) : keeps m P → (∀ a, P a → Q a) → keeps m Q.
Proof. intros Hm HPQ s a s' Hs Hr. destruct (Hm s a s' Hs Hr). auto. Qed.
Lemma keeps_gets {A} (f : sched env → A) (Q : A → Prop) : (∀ s, well_typed s → Q (f s)) → keeps (gets f) Q.
Proof. intros HQ s a s' Hs [= <- <-]. auto. Qed.
Lemma keeps_modify f : (∀ s, well_typed s → well_typed (f s)) → keeps (modify f) (λ _, True).
Proof. intros Hf s a s' Hs [= <- <-]. auto. Qed.
Lemma keeps_zoom {T A} (view : sched env → T) upd (m : M T A) :
  (∀ t s, well_typed s → well_typed (upd t s)) → keeps (zoom view upd m) (λ _, True).
Proof.
  intros Hu s a s' Hs. unfold zoom. destruct (m (view s)) as [[b t]| | |]; [|done..].
  intros [= <- <-]. auto.
Qed.
Lemma keeps_if {A} (b : bool) (m1 m2 : C A) Q : keeps m1 Q → keeps m2 Q → keeps (if b then m1 else m2) Q.
Proof. by destruct b. Qed.
Lemma keeps_fault {A} (Q : A → Prop) : keeps fault Q.
Proof. done. Qed.

(** ** Members *)

Definition typed_fields (l : list (task_field * Z)) : Prop := ∀ f v, (f, v) ∈ l → fits (task_member f) v.

Lemma assign_typed l : ∀ g, typed_fields l → (∀ f, fits (task_member f) (g f)) →
  ∀ f, fits (task_member f) (assign l g f).
Proof.
  induction l as [|[f v] l IH]; intros g Hl Hg; [done|]. unfold assign in *. simpl. apply IH.
  - intros f' v' Hin. apply Hl. by right.
  - intros f'. destruct (decide (f' = f)) as [->|Hne]; [rewrite upd_same; apply Hl; by left|by rewrite upd_other].
Qed.

Lemma keeps_mod_task p h : (∀ t, (∀ f, fits (task_member f) (tfields t f)) →
    ∀ f, fits (task_member f) (tfields (h t) f)) →
  keeps (mod_task p h) (λ _, True).
Proof.
  intros Hh. eapply keeps_bind with (P := λ t, ∀ f, fits (task_member f) (tfields t f)).
  - intros s t s' Hs. unfold get_task, get_some. destruct (tasks s !! p) as [t'|] eqn:Ht; [|done].
    intros [= <- <-]. split; [done|]. by apply (proj1 Hs p).
  - intros t Ht. apply keeps_modify. intros s (Hts & Hs). split; [|exact Hs].
    intros q t'. simpl. intros [[<- <-]|[Hne Hq]]%lookup_insert_Some; [by apply Hh|by apply (Hts q)].
Qed.

Lemma keeps_task_assign p l : typed_fields l → keeps (task_assign p l) (λ _, True).
Proof. intros Hl. apply keeps_mod_task. intros t Ht. by apply assign_typed. Qed.

Lemma keeps_task_set p f v : fits (task_member f) v → keeps (task_set p f v) (λ _, True).
Proof.
  intros Hv. apply keeps_mod_task. intros t Ht. apply (assign_typed [(f, v)]); [|done].
  intros f' v' [= -> ->]%list_elem_of_singleton. done.
Qed.

Lemma keeps_task_get p f : keeps (task_get p f) (fits (task_member f)).
Proof.
  eapply keeps_bind with (P := λ t, ∀ f, fits (task_member f) (tfields t f)).
  - intros s t s' Hs. unfold get_task, get_some. destruct (tasks s !! p) as [t'|] eqn:Ht; [|done].
    intros [= <- <-]. split; [done|]. by apply (proj1 Hs p).
  - intros t Ht. by apply keeps_ret.
Qed.

Lemma keeps_mod_se p h : (∀ e, entity_typed e → entity_typed (h e)) → keeps (mod_se p h) (λ _, True).
Proof.
  intros Hh. eapply keeps_bind with (P := entity_typed).
  - intros s e s' Hs. unfold get_se, get_some. destruct (ses s !! p) as [e'|] eqn:He; [|done].
    intros [= <- <-]. split; [done|]. by apply (proj1 (proj2 Hs) p).
  - intros e He. apply keeps_modify. intros s (Hts & Hes & Hs). split; [exact Hts|]. split; [|exact Hs].
    intros q e'. simpl. intros [[<- <-]|[Hne Hq]]%lookup_insert_Some; [by apply Hh|by apply (Hes q)].
Qed.

(** ** The operations *)

Lemma zero_fits f : fits (task_member f) 0.
Proof. destruct f; by vm_compute. Qed.
Lemma zero_entity_typed : entity_typed (Entity (LoadWeight 0 0) 0 0 0 0 0 0).
Proof. by vm_compute. Qed.

Lemma s32_swrap n : fits CInt (swrap 32 n).
Proof. apply (cast_in_range s32). Qed.

Lemma keeps_on_lists {A} (m : M (gmap lnode (list_head lnode)) A) : keeps (on_lists m) (λ _, True).
Proof. by apply keeps_zoom. Qed.
Lemma keeps_on_list_lock {A} (m : M (spinlock_t * bool) A) : keeps (on_list_lock m) (λ _, True).
Proof. by apply keeps_zoom. Qed.
Lemma keeps_on_rq_lock {A} r (m : M (spinlock_t * bool) A) : keeps (on_rq_lock r m) (λ _, True).
Proof.
  intros s a s' Hs. unfold on_rq_lock. destruct (rqs s !! r) as [x|] eqn:Hx; [|done].
  apply keeps_zoom; [|done]. intros p s1 (Hts & Hes & Hrs & Hs1). split_and!; [exact Hts|exact Hes| |apply Hs1..].
  intros r' x'. simpl. intros [[<- <-]|[Hne Hr]]%lookup_insert_Some; [|by apply (Hrs r')].
  simpl. by apply (proj1 (proj2 (proj2 Hs)) r).
Qed.
Lemma keeps_init_lists p l : keeps (init_lists p l) (λ _, True).
Proof.
  induction l as [|f l IH]; simpl; [by apply keeps_ret|].
  eapply keeps_bind; [apply keeps_on_lists|]. by intros ? _.
Qed.

Lemma keeps_alloc size : keeps (alloc size) (fits Pointer).
Proof.
  intros s p s' Hs. unfold alloc. pose proof (kmalloc_width size (world s)) as Hp.
  destruct (kmalloc size (world s)) as [q w]. intros [= <- <-]. by split.
Qed.

Lemma keeps_alloc_pid : keeps alloc_pid (in_range pid_t).
Proof.
  intros s pid s' (Hts & Hes & Hrs & Hp & Hj) [= <- <-]. split; [|exact Hp].
  split_and!; [exact Hts|exact Hes|exact Hrs| |exact Hj]. simpl.
  destruct (PID_MAX <=? cast pid_t (next_pid s + 1)); [by vm_compute|apply cast_in_range].
Qed.

Lemma keeps_zero_task p : keeps (zero_task p) (λ _, True).
Proof.
  intros s [] s' (Hts & Hes & Hs) [= <-]. split; [|done]. split_and!; [| |apply Hs..]; simpl.
  - intros q t [[<- <-]|[Hne Hq]]%lookup_insert_Some; [apply zero_fits|by apply (Hts q)].
  - intros q e [[<- <-]|[Hne Hq]]%lookup_insert_Some; [apply zero_entity_typed|by apply (Hes q)].
Qed.

Lemma keeps_free_task_mem p : keeps (free_task_mem p) (λ _, True).
Proof.
  intros s [] s' (Hts & Hes & Hs) [= <-]. split; [|done]. split_and!; [| |apply Hs..]; simpl.
  - intros q t [_ Hq]%lookup_delete_Some. by apply (Hts q).
  - intros q e [_ Hq]%lookup_delete_Some. by apply (Hes q).
Qed.

Lemma keeps_free_task_struct p : keeps (free_task_struct p) (λ _, True).
Proof.
  apply keeps_if; [by apply keeps_ret|]. eapply keeps_bind; [apply keeps_task_get|]. intros stack _.
  apply (keeps_bind _ _ (λ _, True)); [|intros ? _; apply keeps_free_task_mem]. apply keeps_if; [|by apply keeps_ret].
  intros s [] s' Hs. unfold free_stack_mem. case_decide; [|done]. by intros [= <-].
Qed.

Lemma prio_to_weight_typed w : w ∈ prio_to_weight → in_range u64 w.
Proof.
  intros Hw%list_elem_of_In. assert (forallb (λ w, (0 <=? w) && (w <? 2 ^ 64)) prio_to_weight = true) as Hall by reflexivity.
  rewrite List.forallb_forall in Hall. specialize (Hall w Hw). unfold in_range. simpl. lia.
Qed.
Lemma keeps_prio_weight i : keeps (prio_weight i) (in_range u64).
Proof.
  intros s w s' Hs. unfold prio_weight. destruct (i <? 0); [done|].
  destruct (prio_to_weight !! Z.to_nat i) as [w'|] eqn:Hw; [|done]. intros [= <- <-].
  split; [done|]. by eapply prio_to_weight_typed, list_elem_of_lookup_2.
Qed.

(** Every assignment of a list of constants. *)
Ltac typed_list :=
  intros f v Hin; unfold task_init1, task_init2, task_init3 in Hin;
  repeat (apply elem_of_cons in Hin as [[= -> ->]|Hin];
    [match goal with
     | |- fits _ SIGCHLD => exact SIGCHLD_width
     | |- fits _ DEFAULT_TIMESLICE => exact DEFAULT_TIMESLICE_width
     | |- fits _ SCHED_NORMAL => exact SCHED_NORMAL_width
     | |- fits _ ?x => first [is_var x; assumption | exact I | by_decide]
     end|]);
  apply not_elem_of_nil in Hin as [].

Lemma task_init1_typed : typed_fields task_init1.
Proof. typed_list. Qed.
Lemma task_init2_typed p pid : fits Pointer p → in_range pid_t pid → typed_fields (task_init2 p pid).
Proof. intros Hp Hpid. typed_list. Qed.
Lemma task_init3_typed : typed_fields task_init3.
Proof. typed_list. Qed.

Lemma keeps_alloc_task_struct : keeps alloc_task_struct (fits Pointer).
Proof.
  eapply keeps_bind; [apply keeps_alloc|]. intros p Hp. apply keeps_if; [by apply keeps_ret|].
  eapply keeps_bind; [apply keeps_zero_task|]. intros _ _.
  eapply keeps_bind; [apply keeps_alloc|]. intros q Hq.
  eapply keeps_bind; [by apply keeps_task_set|]. intros _ _.
  apply keeps_if; [eapply keeps_bind; [apply keeps_free_task_mem|]; intros _ _; by apply keeps_ret|].
  eapply keeps_bind; [by apply keeps_modify|]. intros _ _.
  eapply keeps_bind; [apply keeps_task_assign, task_init1_typed|]. intros _ _.
  eapply keeps_bind; [apply keeps_alloc_pid|]. intros pid Hpid.
  eapply keeps_bind; [by apply keeps_task_assign, task_init2_typed|]. intros _ _.
  eapply keeps_bind; [apply keeps_task_get|]. intros sp _.
  eapply keeps_bind; [apply keeps_prio_weight|]. intros w Hw.
  eapply keeps_bind; [apply keeps_mod_se; intros e _; split; [exact Hw|by vm_compute]|]. intros _ _.
  eapply keeps_bind; [apply keeps_init_lists|]. intros _ _.
  eapply keeps_bind; [by apply keeps_mod_task|]. intros _ _.
  eapply keeps_bind; [apply keeps_task_assign, task_init3_typed|]. intros _ _. by apply keeps_ret.
Qed.

Lemma keeps_get_jiffies_64 : keeps get_jiffies_64 (in_range u64).
Proof.
  eapply keeps_bind; [apply (keeps_gets jiffies (in_range u64)); by intros s (_ & _ & _ & _ & Hj)|]. intros j Hj.
  apply (keeps_bind _ _ (λ _, True)); [|intros ? _; by apply keeps_ret]. apply keeps_modify.
  intros s (Hts & Hes & Hrs & Hp & _). split_and!; [exact Hts..|exact Hes|exact Hrs|exact Hp|].
  apply (cast_in_range u64).
Qed.

Lemma keeps_copy_task p q : keeps (copy_task p q) (λ _, True).
Proof.
  intros s [] s' Hs. unfold copy_task. intros (t & s1 & Ht & Hrun)%bind_Ret_inv.
  unfold get_task, get_some in Ht. destruct (tasks s !! q) as [t'|] eqn:Hq; [|done]. simplify_eq.
  minv Hrun as (e & s2 & He & Hrun). unfold get_se, get_some in He.
  destruct (ses s1 !! q) as [e'|] eqn:Hqe; [|done]. simplify_eq.
  destruct Hs as (Hts & Hes & Hs). injection Hrun as <-. split; [|done].
  split_and!; [| |apply Hs..]; simpl.
  - intros r t' [[<- <-]|[Hne Hr]]%lookup_insert_Some; [by apply (Hts q)|by apply (Hts r)].
  - intros r e' [[<- <-]|[Hne Hr]]%lookup_insert_Some; [by apply (Hes q)|by apply (Hes r)].
Qed.

Lemma keeps_get_current : keeps get_current (λ _, True).
Proof. by apply keeps_gets. Qed.
Lemma keeps_acct c : keeps (acct c) (λ _, True).
Proof. by apply keeps_modify. Qed.

(** One statement whose answer does not matter. *)
Ltac keep lem := eapply keeps_bind; [apply lem|]; intros ? _.
Ltac typed_word := intros f v Hin; repeat (apply elem_of_cons in Hin as [[= -> ->]|Hin];
  [first [assumption | exact I | by_decide]|]); apply not_elem_of_nil in Hin as [].

Lemma keeps_dup_task_struct p : keeps (dup_task_struct p) (fits Pointer).
Proof.
  eapply keeps_bind; [apply keeps_alloc_task_struct|]. intros q Hq. apply keeps_if; [by apply keeps_ret|].
  keep keeps_copy_task. eapply keeps_bind; [apply keeps_alloc_pid|]. intros pid Hpid.
  eapply keeps_bind; [apply keeps_task_assign; typed_word|]. intros _ _.
  keep keeps_init_lists. eapply keeps_bind; [apply keeps_task_assign; typed_word|]. intros _ _.
  eapply keeps_bind; [by apply keeps_mod_task|]. intros _ _.
  eapply keeps_bind; [apply keeps_task_assign; typed_word|]. intros _ _.
  eapply keeps_bind; [apply keeps_get_jiffies_64|]. intros j Hj.
  eapply keeps_bind; [apply keeps_task_assign; typed_word|]. intros _ _.
  eapply keeps_bind; [apply keeps_mod_se|].
  { intros e (E1 & E2 & E3 & E4 & E5 & E6 & E7). split_and!; simpl; [done|done|by_decide|by_decide|done|by_decide|by_decide]. }
  intros _ _. eapply keeps_bind; [apply keeps_task_assign; typed_word|]. intros _ _. by apply keeps_ret.
Qed.

(** Copies a member of one task to a member of the same type of another. *)
Lemma keeps_copy_member {A} q p f g (k : C A) Q : task_member f = task_member g →
  keeps k Q → keeps (v ← task_get q f; task_set p g v;; k) Q.
Proof.
  intros Hfg Hk. eapply keeps_bind; [apply keeps_task_get|]. intros v Hv.
  eapply keeps_bind; [apply keeps_task_set; by rewrite <-Hfg|]. by intros _ _.
Qed.

Lemma keeps_sched_fork p : keeps (sched_fork fuel p) (λ _, True).
Proof.
  unfold sched_fork.
  eapply keeps_bind; [by apply keeps_task_set; by_decide|]. intros _ _.
  eapply keeps_bind; [apply keeps_mod_se|].
  { intros e (E1 & E2 & E3 & E4 & E5 & E6 & E7). split_and!; simpl; [done|done|by_decide..]. }
  intros _ _. eapply keeps_bind; [apply keeps_task_set, SCHED_NORMAL_width|]. intros _ _.
  keep keeps_get_current. do 3 (apply keeps_copy_member; [done|]).
  eapply keeps_bind; [apply keeps_task_get|]. intros sp _.
  eapply keeps_bind; [apply keeps_prio_weight|]. intros w Hw.
  eapply keeps_bind; [apply keeps_mod_se|].
  { intros e (E1 & E2 & E3). split; [exact Hw|]. split; [by_decide|exact E3]. }
  intros _ _. do 2 (apply keeps_copy_member; [done|]).
  eapply keeps_bind; [apply keeps_task_get|]. intros fl _.
  apply (keeps_bind _ _ (λ _, True)).
  { apply keeps_if; [|by apply keeps_ret]. eapply keeps_bind; [apply keeps_task_set; by_decide|]. intros _ _.
    eapply keeps_bind; [apply keeps_task_get|]. intros v Hv.
    eapply keeps_bind; [by apply keeps_task_set|]. intros _ _.
    apply keeps_if; [apply keeps_acct|by apply keeps_ret]. }
  intros _ _. eapply keeps_bind; [apply keeps_task_assign; typed_word|]. intros _ _.
  keep (keeps_on_list_lock (A := bool)). keep (keeps_on_lists (A := unit)). apply keeps_on_list_lock.
Qed.

Lemma keeps_get_task_struct p : keeps (get_task_struct p) (λ _, True).
Proof.
  eapply keeps_bind; [apply keeps_task_get|]. intros n _. apply keeps_task_set.
  rewrite atomic_inc_law. apply s32_swrap.
Qed.

Lemma keeps_put_task_struct p : keeps (put_task_struct p) (λ _, True).
Proof.
  eapply keeps_bind; [apply keeps_task_get|]. intros n _. rewrite atomic_dec_and_test_law.
  eapply keeps_bind; [apply keeps_task_set, s32_swrap|]. intros _ _.
  apply keeps_if; [apply keeps_free_task_struct|by apply keeps_ret].
Qed.

Lemma rq_init_typed cpu l : ∀ g, (∀ f v, (f, v) ∈ l → (f, v) ∈ rq_init cpu) → in_range s32 cpu →
  (∀ f, fits (rq_member f) (g f)) → ∀ f, fits (rq_member f) (assign l g f).
Proof.
  induction l as [|[f v] l IH]; intros g Hl Hcpu Hg; [done|]. unfold assign in *. simpl. apply IH; [|done|].
  - intros f' v' Hin. apply Hl. by right.
  - intros f'. destruct (decide (f' = f)) as [->|Hne]; [rewrite upd_same|by rewrite upd_other].
    assert ((f, v) ∈ rq_init cpu) as Hin by (apply Hl; by left). clear -Hin Hcpu. unfold rq_init in Hin.
    repeat (apply elem_of_cons in Hin as [[= -> ->]|Hin]; [first [exact Hcpu | exact I | by_decide]|]).
    by apply not_elem_of_nil in Hin.
Qed.

Lemma keeps_mod_cfs q h : keeps (mod_cfs q h) (λ _, True).
Proof.
  apply (keeps_bind _ _ (λ _, True)).
  - intros s c s' Hs. unfold get_cfs, get_some. destruct (cfs s !! q); [|done]. by intros [= <- <-].
  - intros c _. by apply keeps_modify.
Qed.

Lemma keeps_sched_init_cpu cpu : in_range s32 cpu → keeps (sched_init_cpu cpu) (λ _, True).
Proof.
  intros Hcpu. keep (keeps_on_rq_lock (A := unit)). apply (keeps_bind _ _ (λ _, True)).
  { apply (keeps_bind _ _ (λ x, ∀ f, fits (rq_member f) (rqfields x f))).
    - intros s x s' Hs. unfold get_rq, get_some. destruct (rqs s !! cpu) as [x'|] eqn:Hx; [|done].
      intros [= <- <-]. split; [done|]. by apply (proj1 (proj2 (proj2 Hs)) cpu).
    - intros x Hx. apply keeps_modify. intros s (Hts & Hes & Hrs & Hs). split_and!; [exact Hts|exact Hes| |apply Hs..].
      intros r x'. cbn [rqs with_rqs]. intros [[<- <-]|[Hne Hr]]%lookup_insert_Some; [|by apply (Hrs r)].
      by apply (rq_init_typed cpu (rq_init cpu) (rqfields x)). }
  intros _ _. keep keeps_mod_cfs. apply keeps_on_lists.
Qed.

Lemma keeps_sched_init : keeps sched_init (λ _, True).
Proof.
  keep (keeps_on_lists (A := unit)). keep (keeps_on_list_lock (A := unit)).
  change (keeps (sched_init_cpu 0;; mret tt) (λ _, True)).
  eapply keeps_bind; [by apply keeps_sched_init_cpu|]. intros _ _. by apply keeps_ret.
Qed.

(** * Type preservation *)

Inductive task_op :=
  | OpSchedInit | OpAllocPid | OpAlloc | OpFree (p : Z) | OpGet (p : Z) | OpPut (p : Z)
  | OpDup (p : Z) | OpFork (p : Z) | OpSetCurrent (p : Z) | OpJiffies.

Definition run_task_op (o : task_op) : C unit :=
  match o with
  | OpSchedInit => sched_init
  | OpAllocPid => alloc_pid;; mret tt
  | OpAlloc => alloc_task_struct;; mret tt
  | OpFree p => free_task_struct p
  | OpGet p => get_task_struct p
  | OpPut p => put_task_struct p
  | OpDup p => dup_task_struct p;; mret tt
  | OpFork p => sched_fork fuel p
  | OpSetCurrent p => set_current p
  | OpJiffies => get_jiffies_64;; mret tt
  end.
Fixpoint run_task_ops (os : list task_op) : C unit :=
  match os with [] => mret tt | o :: os => run_task_op o;; run_task_ops os end.

(** C14: whatever sequence of the operations on tasks runs - [sched_init],
    [alloc_pid], [alloc_task_struct], [free_task_struct], [get_task_struct],
    [put_task_struct], [dup_task_struct], [sched_fork], [set_current],
    [get_jiffies_64], on any tasks - every scalar member of every task, of
    every scheduling entity and of every runqueue keeps a value of the type the header
    declares for it, and the identifier and jiffies counters do. *)
Theorem task_ops_keep_types (os : list task_op) s s' :
  well_typed s → run_task_ops os s = Ret (tt, s') → well_typed s'.
Proof.
  intros Hs Hrun. enough (keeps (run_task_ops os) (λ _, True)) as Hk by by eapply Hk.
  clear Hs Hrun. induction os as [|o os IH]; simpl; [by apply keeps_ret|].
  apply (keeps_bind _ _ (λ _, True)); [|by intros _ _]. destruct o; simpl.
  - apply keeps_sched_init.
  - eapply keeps_bind; [apply keeps_alloc_pid|]. intros ? _. by apply keeps_ret.
  - eapply keeps_bind; [apply keeps_alloc_task_struct|]. intros ? _. by apply keeps_ret.
  - apply keeps_free_task_struct.
  - apply keeps_get_task_struct.
  - apply keeps_put_task_struct.
  - eapply keeps_bind; [apply keeps_dup_task_struct|]. intros ? _. by apply keeps_ret.
  - apply keeps_sched_fork.
  - by apply keeps_modify.
  - eapply keeps_bind; [apply keeps_get_jiffies_64|]. intros ? _. by apply keeps_ret.
Qed.
End types.
