(* ===== verification/SchedSwitch.v ===== *)
(** Start, wake-up and switching ([sched_init], [sched_fork],
    [wake_up_new_task] and [schedule] of [kernel/core/sched/sched.c]): the
    state [sched_init] leaves, what a new task inherits, and which task runs
    after [schedule]. *)
From stdpp Require Import base gmap list strings fin_maps.
From S2P Require Import Prelude CTypes ListHead ListTheory Spinlock SchedData Cfs CfsTheory CfsOps CfsSpec CfsGroups Sched SchedTasks.

(** * Locks and lists of this state *)

(** A lock this CPU can take, and one it holds. *)
Definition free_lock (l : spinlock_t) : Prop :=
  magic l = SPINLOCK_MAGIC ∧ owner_cpu l ≠ smp_processor_id ∧ lock l = SPINLOCK_UNLOCKED.
Definition held_lock (l : spinlock_t) : Prop :=
  magic l = SPINLOCK_MAGIC ∧ owner_cpu l = smp_processor_id.

Lemma free_acquired l ra : free_lock l → held_lock (acquired smp_processor_id ra l).
Proof. by intros (? & _ & _). Qed.
Lemma held_released l : held_lock l → free_lock (released l).
Proof. by intros (? & _). Qed.

Lemma wp_irqsave (fuel : nat) ra l (b : bool) (Q : bool → spinlock_t * bool → Prop) : free_lock l → (0 < fuel)%nat →
  Q b (acquired smp_processor_id ra l, false) →
  wp (spin_lock_irqsave smp_processor_id ra fuel) (l, b) Q.
Proof.
  intros (Hm & Ho & Hl) Hf HQ. destruct fuel as [|fuel]; [lia|]. unfold spin_lock_irqsave, local_irq_save.
  apply wp_bind, wp_bind, wp_gets, wp_bind, wp_modify, wp_ret, wp_bind, wp_zoom. simpl.
  eapply wp_Ret; [|by apply wp_ret].
  by rewrite spin_lock_run, Hm, Z.eqb_refl, (proj2 (Z.eqb_neq _ _) Ho), Hl.
Qed.

Lemma wp_irqrestore l (b flags : bool) (Q : unit → spinlock_t * bool → Prop) : held_lock l →
  Q tt (released l, flags) → wp (spin_unlock_irqrestore smp_processor_id flags) (l, b) Q.
Proof.
  intros (Hm & Ho) HQ. unfold spin_unlock_irqrestore, local_irq_restore.
  apply wp_bind, wp_zoom. simpl. eapply wp_Ret; [by rewrite spin_unlock_run, Hm, Ho|].
  by apply wp_modify.
Qed.

Section switch.
  Context `{CoreLib, !Allocator}.
  Context (fuel : nat).
  Abbreviation st := (sched env).
  Abbreviation C := (M st).
  Implicit Types (s : st) (t : task_struct).

#[local] Opaque all_task_lists.

(** The runqueue [r] with another lock or other fields. *)
Definition with_rq (r : Z) (x : rq) s : st := with_rqs (<[r := x]> (rqs s)) s.
Definition relock (l : spinlock_t) (x : rq) : rq := Rq l (rqfields x).

Lemma wp_rq_lock_irqsave s r x (Q : bool → st → Prop) : rqs s !! r = Some x → free_lock (rq_lock x) →
  (0 < fuel)%nat →
  Q (irqs_on s) (with_irqs false (with_rq r (relock (acquired smp_processor_id return_address (rq_lock x)) x) s)) →
  wp (on_rq_lock r (spin_lock_irqsave smp_processor_id return_address fuel)) s Q.
Proof.
  intros Hr Hl Hf HQ. unfold wp, on_rq_lock. rewrite Hr. by apply wp_zoom, wp_irqsave.
Qed.

Lemma wp_rq_unlock_irqrestore s r x flags (Q : unit → st → Prop) : rqs s !! r = Some x → held_lock (rq_lock x) →
  Q tt (with_irqs flags (with_rq r (relock (released (rq_lock x)) x) s)) →
  wp (on_rq_lock r (spin_unlock_irqrestore smp_processor_id flags)) s Q.
Proof.
  intros Hr Hl HQ. unfold wp, on_rq_lock. rewrite Hr. by apply wp_zoom, wp_irqrestore.
Qed.

Lemma wp_rq_spin_lock s r x (Q : unit → st → Prop) : rqs s !! r = Some x → free_lock (rq_lock x) →
  (0 < fuel)%nat →
  Q tt (with_irqs (irqs_on s) (with_rq r (relock (acquired smp_processor_id return_address (rq_lock x)) x) s)) →
  wp (on_rq_lock r (on_lock (spin_lock smp_processor_id return_address fuel))) s Q.
Proof.
  intros Hr (Hm & Ho & Hl) Hf HQ. destruct fuel as [|n]; [lia|]. unfold wp, on_rq_lock. rewrite Hr.
  apply wp_zoom, wp_zoom. eapply wp_Ret; [|exact HQ]. simpl.
  by rewrite spin_lock_run, Hm, Z.eqb_refl, (proj2 (Z.eqb_neq _ _) Ho), Hl.
Qed.

Lemma wp_rq_spin_unlock s r x (Q : unit → st → Prop) : rqs s !! r = Some x → held_lock (rq_lock x) →
  Q tt (with_irqs (irqs_on s) (with_rq r (relock (released (rq_lock x)) x) s)) →
  wp (on_rq_lock r (on_lock (spin_unlock smp_processor_id))) s Q.
Proof.
  intros Hr (Hm & Ho) HQ. unfold wp, on_rq_lock. rewrite Hr.
  apply wp_zoom, wp_zoom. eapply wp_Ret; [|exact HQ]. simpl. by rewrite spin_unlock_run, Hm, Ho.
Qed.

(** The list of all tasks holds [l], and the nodes [D] are in no list. *)
Definition all_tasks s (l : list lnode) (D : gset lnode) : Prop :=
  rep (lists s) (AStore {[task_list := l]} D).

Lemma new_task_detached s l D p q w : all_tasks s l D → fresh_task s p →
  all_tasks (with_new_task p q w s) l ({[in_task p tasks_node]} ∪ D).
Proof.
  intros Hr (_ & _ & Hf). apply (rep_grow (lists s) _ _ _ Hr); simpl.
  - intros n [x Hn]. rewrite self_loops_other, lookup_put_nodes.
    + destruct n as [|r f|]; [done| |done]. rewrite decide_False; [done|]. intros ->. congruence.
    + intros f _ ->. congruence.
  - intros n ->%elem_of_singleton. split; [apply Hf|]. eexists.
    apply self_loops_in. left. apply all_task_lists_complete.
Qed.

(** * Start *)

Lemma assign_in {F} `{EqDecision F} (l : list (F * Z)) (f : F) v : ∀ g,
  NoDup l.*1 → (f, v) ∈ l → assign l g f = v.
Proof.
  induction l as [|[h u] l IH]; intros g Hnd Hin; [by apply not_elem_of_nil in Hin|].
  simpl in Hnd. apply NoDup_cons in Hnd as [Hh Hnd]. apply elem_of_cons in Hin as [[= -> ->]|Hin].
  - change (assign ((h, u) :: l) g) with (assign l (upd h u g)). rewrite assign_other by done. apply upd_same.
  - by apply IH.
Qed.

Lemma wp_list_lock_init s (Q : unit → st → Prop) :
  Q tt (with_irqs (irqs_on s) (with_list_lock (SPINLOCK_INIT "unknown") s)) →
  wp (on_list_lock (on_lock spin_lock_init)) s Q.
Proof. intros HQ. by apply wp_zoom, wp_zoom. Qed.

Lemma wp_rq_lock_init s r x (Q : unit → st → Prop) : rqs s !! r = Some x →
  Q tt (with_irqs (irqs_on s) (with_rq r (relock (SPINLOCK_INIT "unknown") x) s)) →
  wp (on_rq_lock r (on_lock spin_lock_init)) s Q.
Proof. intros Hr HQ. unfold wp, on_rq_lock. rewrite Hr. by apply wp_zoom, wp_zoom. Qed.

(** What [sched_init] does to the runqueue, its fair queue and the lists. *)
Lemma wp_sched_init s x c (Q : unit → st → Prop) : rqs s !! 0 = Some x → cfs s !! 0 = Some c →
  is_Some (lists s !! task_list) → is_Some (lists s !! cfs_tasks 0) →
  (∀ h, h !! task_list = Some (self_loop task_list) → h !! cfs_tasks 0 = Some (self_loop (cfs_tasks 0)) →
     Q tt (with_lists h (with_list_lock (SPINLOCK_INIT "unknown")
       (with_cfs (<[0 := CfsRq (LoadWeight 0 0) 0 (h_nr_running c) 0 RB_ROOT (rb_leftmost c) (curr c)]> (cfs s))
       (with_rq 0 (Rq (SPINLOCK_INIT "unknown") (assign (rq_init 0) (rqfields x))) s))))) →
  wp sched_init s Q.
Proof.
  intros Hr Hc Hl1 Hl2 HQ.
  unfold sched_init. apply wp_bind, wp_init_list; [done|]. apply wp_bind, wp_list_lock_init.
  change (Z.to_nat NR_CPUS) with 1%nat. simpl. unfold sched_init_cpu. do 2 apply wp_bind.
  eapply wp_rq_lock_init; [done|].
  eapply wp_bind, wp_bind, (wp_get_some (λ s, rqs s !! 0)); [simpl; apply lookup_insert_eq|]. apply wp_modify.
  eapply wp_bind, wp_mod_cfs; [exact Hc|].
  apply wp_init_list; [simpl; rewrite lookup_insert_is_Some'; by right|]. apply wp_ret.
  unfold with_rq in HQ |- *. simpl in HQ |- *. rewrite insert_insert_eq. apply HQ.
  - rewrite lookup_insert_ne by done. apply lookup_insert_eq.
  - apply lookup_insert_eq.
Qed.

(** What a runqueue holds after [sched_init] in each of its fields, given what it
    held before. *)
Definition initial_rq_field (f : rq_field) (old : Z) : Z :=
  match f with
  | rq_cpu => 0
  | rq_online => 1
  | rq_push_cpu | rq_balance_cpu => -1
  | rq_rt_highest_prio_curr | rq_rt_highest_prio_next => 100
  | rq_prev_mm | rq_nr_uninterruptible => old
  | _ => 0
  end.

(** An empty fair queue alone, with no mark and no queued entity, is well formed. *)
Lemma empty_queue_ok `{!CoreLaws} s lw h m : ses s !! NULL = None → (∀ e y, ses s !! e = Some y → on_rq y = 0) →
  cfs s = {[ 0 := CfsRq lw 0 h m RB_ROOT NULL NULL ]} → hints s = {[ 0 := Buddies NULL NULL NULL ]} →
  is_Some (rqs s !! rq_of 0) → sched_ok s ∧ sched_sorted s.
Proof.
  intros Hnull Hidle Hc Hh Hr.
  assert (∀ e, ¬ runnable s 0 e) as Hno by (intros e (_ & y & Hy & Hon); by apply Hon, (Hidle e)).
  split; [split; [done|..]|].
  - intros q c. rewrite Hc. intros [<- <-]%lookup_singleton_Some. split; simpl.
    + rewrite RB_ROOT_law. constructor.
    + by rewrite RB_ROOT_law.
    + intros e. rewrite RB_ROOT_law. split; [by intros ?%not_elem_of_nil|]. intros [_ He]. by apply Hno in He.
    + done.
    + unfold queue_len, curr_on. simpl. by rewrite RB_ROOT_law, Hnull.
  - intros q. unfold hints_ok. rewrite Hc, Hh. intros [c [<- <-]%lookup_singleton_Some].
    eexists. split; [apply lookup_singleton_eq|]. simpl. split_and!; by left.
  - intros q. rewrite Hc. by intros [c [<- <-]%lookup_singleton_Some].
  - intros q c. rewrite Hc. intros [<- <-]%lookup_singleton_Some. unfold sorted_by_vr. simpl.
    rewrite RB_ROOT_law. constructor.
Qed.

(** C17: [sched_init] establishes the invariant of the fair class.  Whatever the
    runqueue, the timeline, the counts, the load and the minimum of its fair
    queue, the two list heads and the locks held before, it returns with every
    field of the runqueue at its initial value ([initial_rq_field]), an empty
    and uncounted fair queue, both lists empty and both locks free.  It relies
    on the zeroed static data only for what it does not assign: [rb_leftmost]
    and [curr] of the fair queue, the buddy marks and the entities, none of
    which is queued. *)
Theorem sched_init_establishes `{!CoreLaws} s x c (Hr : rqs s !! 0 = Some x)
    (Hc : cfs s = {[ 0 := c ]}) (Hleft : rb_leftmost c = NULL) (Hcurr : curr c = NULL)
    (Hh : hints s = {[ 0 := Buddies NULL NULL NULL ]}) (Hrq : rq_of 0 = 0)
    (Hnull : ses s !! NULL = None) (Hidle : ∀ e y, ses s !! e = Some y → on_rq y = 0)
    (Hl1 : is_Some (lists s !! task_list)) (Hl2 : is_Some (lists s !! cfs_tasks 0)) :
  ∃ s' x', sched_init s = Ret (tt, s') ∧ rqs s' = <[0 := x']> (rqs s) ∧
    (∀ f, rqfields x' f = initial_rq_field f (rqfields x f)) ∧
    cfs s' = {[ 0 := CfsRq (LoadWeight 0 0) 0 (h_nr_running c) 0 RB_ROOT NULL NULL ]} ∧
    ses s' = ses s ∧ hints s' = hints s ∧
    free_lock (rq_lock x') ∧ free_lock (task_list_lock s') ∧
    lists s' !! task_list = Some (self_loop task_list) ∧
    lists s' !! cfs_tasks 0 = Some (self_loop (cfs_tasks 0)) ∧
    sched_ok s' ∧ sched_sorted s'.
Proof.
  assert (free_lock (SPINLOCK_INIT "unknown")) as Hfree by done.
  set (x' := Rq (SPINLOCK_INIT "unknown") (assign (rq_init 0) (rqfields x))).
  enough (wp sched_init s (λ _ s', rqs s' = <[0 := x']> (rqs s) ∧
      cfs s' = {[ 0 := CfsRq (LoadWeight 0 0) 0 (h_nr_running c) 0 RB_ROOT NULL NULL ]} ∧
      hints s' = hints s ∧ ses s' = ses s ∧ task_list_lock s' = SPINLOCK_INIT "unknown" ∧
      lists s' !! task_list = Some (self_loop task_list) ∧
      lists s' !! cfs_tasks 0 = Some (self_loop (cfs_tasks 0))))
    as ([] & s' & Hrun & Hr' & Hc' & Hh' & Hs' & Hlk & Hn1 & Hn2)%wp_returns.
  { exists s', x'. rewrite Hlk. split_and!; try done.
    1: by intros [].
    all: eapply empty_queue_ok; rewrite ?Hs', ?Hh', ?Hr', ?Hrq, ?lookup_insert_eq; by eauto. }
  eapply wp_sched_init; [done|rewrite Hc; apply lookup_singleton_eq|done..|].
  intros h Hh1 Hh2. simpl. split_and!; try done.
  by rewrite Hc, insert_singleton_eq, Hleft, Hcurr.
Qed.

(** * A new task *)

(** What [p] has after [sched_fork], [tc] being the current task. *)
Definition forked_fields (t tc : task_struct) (f : task_field) : Z :=
  match f with
  | t_state => TASK_RUNNING
  | t_policy => SCHED_NORMAL
  | t_prio | t_normal_prio => tfields tc t_normal_prio
  | t_static_prio => tfields tc t_static_prio
  | t_cpus_allowed | t_nr_cpus_allowed => tfields tc f
  | t_mm => if has_flag (tfields t t_flags) PF_KTHREAD then NULL else tfields t t_mm
  | t_active_mm => if has_flag (tfields t t_flags) PF_KTHREAD then tfields tc t_active_mm else tfields t t_active_mm
  | t_sched_info => 0
  | t_last_cpu | t_wake_cpu => smp_processor_id
  | t_preempt_count => FORK_PREEMPT_COUNT
  | f => tfields t f
  end.

Record forked s s' (p : Z) t tc (w : Z) (l : list lnode) (D : gset lnode) : Prop := {
  fk_task : ∃ t', tasks s' = <[p := t']> (tasks s) ∧ comm t' = comm t ∧ alloc_lock t' = alloc_lock t ∧
    ∀ f, tfields t' f = forked_fields t tc f;
  fk_se : ∃ e, ses s !! p = Some e ∧ ses s' = <[p := Entity (LoadWeight w 0) 0 0 0 0 0 (on_rq e)]> (ses s);
  fk_list : all_tasks s' (l ++ [in_task p tasks_node]) (D ∖ {[in_task p tasks_node]});
  fk_lock : free_lock (task_list_lock s') ∧ irqs_on s' = irqs_on s;
  fk_rest : rqs s' = rqs s ∧ cfs s' = cfs s ∧ hints s' = hints s ∧ stacks s' = stacks s ∧
    next_pid s' = next_pid s ∧ current_task s' = current_task s
}.

Lemma prio_weight_run i s w : prio_to_weight !! Z.to_nat i = Some w → 0 ≤ i →
  prio_weight i s = Ret (w, s).
Proof. intros Hw Hi. unfold prio_weight. destruct (Z.ltb_spec i 0); [lia|]. by rewrite Hw. Qed.

Lemma wp_list_lock_irqsave s (Q : bool → st → Prop) : free_lock (task_list_lock s) → (0 < fuel)%nat →
  Q (irqs_on s) (with_irqs false (with_list_lock (acquired smp_processor_id return_address (task_list_lock s)) s)) →
  wp (on_list_lock (spin_lock_irqsave smp_processor_id return_address fuel)) s Q.
Proof. intros Hl Hf HQ. by apply wp_zoom, wp_irqsave. Qed.

Lemma wp_list_unlock_irqrestore s flags (Q : unit → st → Prop) : held_lock (task_list_lock s) →
  Q tt (with_irqs flags (with_list_lock (released (task_list_lock s)) s)) →
  wp (on_list_lock (spin_unlock_irqrestore smp_processor_id flags)) s Q.
Proof. intros Hl HQ. by apply wp_zoom, wp_irqrestore. Qed.

(** Adding the node of a task to the list of all tasks. *)
Lemma wp_add_task s p l D (Q : unit → st → Prop) : all_tasks s l D → in_task p tasks_node ∈ D →
  (∀ h, rep h (AStore {[task_list := l ++ [in_task p tasks_node]]} (D ∖ {[in_task p tasks_node]})) →
     Q tt (with_lists h s)) →
  wp (on_lists (list_add_tail (Ptr (in_task p tasks_node)) (Ptr task_list))) s Q.
Proof.
  intros Hr Hin HQ. apply wp_zoom.
  destruct (runs_list_add_tail (AStore {[task_list := l]} D) task_list l (in_task p tasks_node) (lookup_singleton_eq _ _) Hin _ Hr) as (h & Hrun & Hh).
  eapply wp_Ret; [exact Hrun|]. apply HQ. simpl in Hh. by rewrite insert_singleton_eq in Hh.
Qed.

(** Reads and writes of the fields of one of two tasks. *)
Ltac at_task := simpl; rewrite ?lookup_insert_ne by done; first [apply lookup_insert_eq | eassumption].
Ltac fork_step := first
  [ apply wp_gets | eapply wp_task_set; [at_task|] | eapply wp_task_get; [at_task|] ].

Definition fork_mm (k : bool) (tc t : task_struct) : task_struct :=
  if k then Task (upd t_active_mm (tfields tc t_active_mm) (upd t_mm NULL (tfields t))) (comm t) (alloc_lock t)
  else t.

(** The assignments of [sched_fork], in order. *)
Definition fork_assigned (t tc : task_struct) : task_field → Z :=
  upd t_nr_cpus_allowed (tfields tc t_nr_cpus_allowed) (upd t_cpus_allowed (tfields tc t_cpus_allowed)
    (upd t_normal_prio (tfields tc t_normal_prio) (upd t_static_prio (tfields tc t_static_prio)
    (upd t_prio (tfields tc t_normal_prio) (upd t_policy SCHED_NORMAL (upd t_state TASK_RUNNING (tfields t))))))).

Lemma forked_fields_ok t tc f :
  assign [(t_sched_info, 0); (t_last_cpu, smp_processor_id); (t_wake_cpu, smp_processor_id);
          (t_preempt_count, FORK_PREEMPT_COUNT)]
    (tfields (fork_mm (has_flag (tfields t t_flags) PF_KTHREAD) tc
      (Task (fork_assigned t tc) (comm t) (alloc_lock t)))) f = forked_fields t tc f.
Proof.
  unfold assign, fork_mm, fork_assigned.
  destruct f; simpl; repeat (rewrite upd_other by done); rewrite ?upd_same; try done;
    destruct (has_flag _ _); simpl; repeat (rewrite upd_other by done); by rewrite ?upd_same.
Qed.

Lemma wp_fork_mm s p t cur tc (k : bool) (Q : unit → st → Prop) : cur ≠ p → tasks s !! p = Some t →
  tasks s !! cur = Some tc →
  (∀ w, Q tt (with_world w (with_tasks (<[p := fork_mm k tc t]> (tasks s)) s))) →
  wp (if k then
        task_set p t_mm NULL;;
        v ← task_get cur t_active_mm; task_set p t_active_mm v;;
        if negb (v =? NULL) then acct (atomic_inc_mm_count v) else mret tt
      else mret tt) s Q.
Proof.
  intros Hne Ht Htc HQ. destruct k.
  - do 3 (apply wp_bind; fork_step). simpl in HQ |- *. rewrite insert_insert_eq.
    destruct (negb _); [apply wp_acct, HQ|]. apply wp_ret, (wp_skip _ Q HQ).
  - apply wp_ret. simpl in HQ. rewrite insert_id in HQ by done. apply (wp_skip s Q). destruct s. apply HQ.
Qed.

Lemma wp_sched_fork s p t e tc w l D (Q : unit → st → Prop) : (0 < fuel)%nat → p ≠ current_task s →
  tasks s !! p = Some t → ses s !! p = Some e → tasks s !! current_task s = Some tc →
  MAX_RT_PRIO ≤ tfields tc t_static_prio →
  prio_to_weight !! Z.to_nat (tfields tc t_static_prio - MAX_RT_PRIO) = Some w →
  free_lock (task_list_lock s) → all_tasks s l D → in_task p tasks_node ∈ D →
  (∀ s', forked s s' p t tc w l D → Q tt s') →
  wp (sched_fork fuel p) s Q.
Proof.
  intros Hf Hne Ht He Htc Hsp Hw Hlk Hl Hin HQ. unfold sched_fork. set (cur := current_task s) in *.
  assert (cur ≠ p) as Hne' by congruence.
  apply wp_bind; fork_step. eapply wp_bind, wp_mod_se; [done|]. apply wp_bind; fork_step.
  apply wp_bind, wp_gets. simpl. fold cur. do 6 (apply wp_bind; fork_step).
  apply wp_bind; fork_step. apply wp_bind. eapply wp_Ret; [apply prio_weight_run; simpl; rewrite upd_other, upd_same by done; [done|lia]|].
  eapply wp_bind, wp_mod_se; [simpl; apply lookup_insert_eq|]. do 4 (apply wp_bind; fork_step).
  apply wp_bind; fork_step.
  change (has_flag _ PF_KTHREAD) with (has_flag (tfields t t_flags) PF_KTHREAD).
  eapply wp_bind, wp_fork_mm; [exact Hne'|at_task|at_task|]. intros ww.
  eapply wp_bind, wp_task_assign; [at_task|].
  apply wp_bind, wp_list_lock_irqsave; [done..|]. eapply wp_bind, wp_add_task; [exact Hl|done|].
  intros h Hh. apply wp_list_unlock_irqrestore; [by apply free_acquired|]. apply HQ. simpl.
  rewrite !insert_insert_eq. split; simpl.
  - eexists. split; [done|]. simpl. split_and!; [by destruct (has_flag _ _)..|].
    intros f. apply forked_fields_ok.
  - by exists e.
  - exact Hh.
  - split; [by apply held_released, free_acquired|done].
  - by split_and!.
Qed.

(** [sched_fork] makes a task a child of the scheduler: it inherits the
    priorities and the CPU mask of the current task, starts runnable with the
    weight of its priority and no virtual runtime, on CPU 0, is appended to the
    list of all tasks and to no other, and the lock of that list is free again;
    every field the code does not set keeps its value. *)
Theorem sched_fork_inherits s p t tc e w l D (Hf : (0 < fuel)%nat) (Hne : p ≠ current_task s)
    (Ht : tasks s !! p = Some t) (He : ses s !! p = Some e) (Htc : tasks s !! current_task s = Some tc)
    (Hsp : MAX_RT_PRIO ≤ tfields tc t_static_prio)
    (Hw : prio_to_weight !! Z.to_nat (tfields tc t_static_prio - MAX_RT_PRIO) = Some w)
    (Hlk : free_lock (task_list_lock s)) (Hl : all_tasks s l D) (Hin : in_task p tasks_node ∈ D) :
  ∃ s', sched_fork fuel p s = Ret (tt, s') ∧ forked s s' p t tc w l D.
Proof.
  apply wp_returns_tt. by eapply wp_sched_fork.
Qed.

(** * Waking a new task *)

Definition clock_fields : list rq_field :=
  [rq_clock; rq_prev_irq_time; rq_prev_steal_time_rq; rq_clock_task].

(** Two runqueues that differ in fields of [l] only. *)
Definition rq_differ (l : list rq_field) (x x' : rq) : Prop :=
  rq_lock x' = rq_lock x ∧ ∀ f, f ∉ l → rqfields x' f = rqfields x f.

Lemma rq_differ_set l x x1 f v : rq_differ l x x1 → f ∈ l →
  rq_differ l x (Rq (rq_lock x1) (upd f v (rqfields x1))).
Proof.
  intros [Hl Hf] Hin. split; [done|]. intros g Hg. simpl. rewrite upd_other; [by apply Hf|]. by intros ->.
Qed.

Lemma wp_rq_clock s r x (Q : unit → st → Prop) : rqs s !! r = Some x →
  (∀ w x', rq_differ clock_fields x x' → Q tt (with_world w (with_rq r x' s))) →
  wp (update_rq_clock r) s Q.
Proof.
  intros Hr HQ. unfold update_rq_clock. apply wp_bind. unfold wp at 1.
  destruct (sched_clock_cpu (cpu_of r) (world s)) as [now w1]. eapply wp_bind, wp_rq_get; [done|].
  assert (rq_differ clock_fields x x) as H0x by done.
  destruct (cast s64 _ <? 0).
  { apply wp_ret. specialize (HQ w1 x H0x). unfold with_rq in HQ. by rewrite insert_id in HQ. }
  eapply wp_bind, wp_rq_set; [exact Hr|]. unfold update_rq_clock_task.
  eapply wp_bind, wp_rq_get; [apply lookup_insert_eq|]. apply wp_bind, wp_gets.
  eapply wp_bind, wp_rq_set; [apply lookup_insert_eq|]. apply wp_bind. unfold wp at 1. simpl.
  destruct (steal_account_process_tick (cpu_of r) w1) as [tk w2].
  eapply wp_bind, wp_rq_get; [simpl; apply lookup_insert_eq|].
  eapply wp_bind, wp_rq_set; [simpl; apply lookup_insert_eq|].
  eapply wp_bind, wp_rq_get; [simpl; apply lookup_insert_eq|].
  eapply wp_rq_set; [simpl; apply lookup_insert_eq|]. simpl. rewrite !insert_insert_eq.
  refine (HQ w2 _ _). split; [done|]. intros g Hg. simpl.
  rewrite !upd_other; [done|..]; intros ->; apply Hg; unfold clock_fields; set_solver.
Qed.

(** The invariant reads the queues, the entities and the hints only. *)
Lemma sched_ok_same s s' : sched_ok s → cfs s' = cfs s → ses s' = ses s → hints s' = hints s →
  (∀ r, is_Some (rqs s !! r) → is_Some (rqs s' !! r)) → sched_ok s'.
Proof.
  intros Hok Hc Hs Hh Hr. eapply same_queues_ok; [done|]. split; [by rewrite Hc|intros e; by rewrite Hs| |done|done].
  intros q c e _ _. unfold vr. by rewrite Hs.
Qed.

Lemma wp_task_rq_lock s p t x (Q : Z * bool → st → Prop) : (0 < fuel)%nat → tasks s !! p = Some t →
  rqs s !! tfields t t_last_cpu = Some x → free_lock (rq_lock x) →
  Q (tfields t t_last_cpu, irqs_on s) (with_irqs false (with_rq (tfields t t_last_cpu)
    (relock (acquired smp_processor_id return_address (rq_lock x)) x) s)) →
  wp (task_rq_lock fuel p) s Q.
Proof.
  intros Hf Ht Hr Hl HQ. unfold task_rq_lock.
  replace (lock_loop fuel fuel p) with (lock_loop fuel (S (pred fuel)) p) by (f_equal; lia). simpl.
  assert (∀ s1 (Q : Z → st → Prop), tasks s1 !! p = Some t → Q (tfields t t_last_cpu) s1 → wp (task_rq p) s1 Q) as Htr.
  { intros s1 Q1 Ht1 HQ1. unfold task_rq, task_cpu. by eapply wp_bind, wp_task_get. }
  apply wp_bind, Htr; [done|]. eapply wp_bind, wp_rq_lock_irqsave; [done..|].
  apply wp_bind, Htr; [done|]. by rewrite Z.eqb_refl.
Qed.

Lemma wp_add_uninterruptible s r p d x (Q : unit → st → Prop) : is_Some (tasks s !! p) → rqs s !! r = Some x →
  (∀ x', rq_differ [rq_nr_uninterruptible] x x' → Q tt (with_rq r x' s)) →
  wp (add_uninterruptible r p d) s Q.
Proof.
  intros [t Ht] Hr HQ. unfold add_uninterruptible. eapply wp_bind, wp_get_task; [done|].
  destruct (task_contributes_to_load t).
  - eapply wp_bind, wp_rq_get; [done|]. eapply wp_rq_set; [done|]. apply HQ.
    apply rq_differ_set; [done|set_solver].
  - apply wp_ret. specialize (HQ x). unfold with_rq in HQ. rewrite insert_id in HQ by done. destruct s. by apply HQ.
Qed.

(** ** Activating and deactivating *)

Definition moved_fields : list rq_field := rq_nr_uninterruptible :: clock_fields.

Lemma with_rq_twice s r x1 x2 : with_rq r x2 (with_rq r x1 s) = with_rq r x2 s.
Proof. unfold with_rq. simpl. by rewrite insert_insert_eq. Qed.

(** [activate_task] and [deactivate_task] up to the call of the fair class. *)
Lemma wp_dispatch_fair `{!CoreLaws} (d : Z) s r p t x (b : bool) call (fair : C unit) (other : Z → C unit)
    (Q : unit → st → Prop) : tasks s !! p = Some t → tfields t t_sched_class = fair_sched_class →
  rqs s !! r = Some x →
  (∀ w x', rq_differ moved_fields x x' → wp fair (with_world w (with_rq r x' s)) Q) →
  wp (add_uninterruptible r p d;;
      (update_rq_clock r;; (if b then acct call else mret tt);;
       cl ← task_get p t_sched_class; dispatch cl fair (other cl))) s Q.
Proof.
  intros Ht Hcl Hr HQ. eapply wp_bind, (wp_add_uninterruptible s r p _ x); [by eexists|done|].
  intros x1 Hx1. eapply wp_bind, wp_rq_clock; [apply lookup_insert_eq|]. intros w2 x2 Hx2.
  rewrite with_rq_twice.
  assert (rq_differ moved_fields x x2) as Hx.
  { destruct Hx1 as [Hl1 Hf1], Hx2 as [Hl2 Hf2]. split; [by rewrite Hl2|].
    intros f [Hn Hc]%not_elem_of_cons. rewrite Hf2 by done. apply Hf1. by intros ->%list_elem_of_singleton. }
  apply wp_bind.
  match goal with |- wp _ ?s3 ?R => assert (∀ w, R tt (with_world w s3)) as Hgo; [|destruct b;
    [by apply wp_acct|apply wp_ret; exact (Hgo w2)]] end.
  intros w3. eapply wp_bind, wp_task_get; [exact Ht|]. rewrite Hcl. unfold dispatch.
  rewrite (proj2 (Z.eqb_neq _ _) fair_sched_class_law), Z.eqb_refl. exact (HQ w3 x2 Hx).
Qed.

(** What [activate_task] ([d = v = 1]) and [deactivate_task] ([d = -1],
    [v = 0]) did on a task of the fair class: [l1] are the entities that were
    queued or taken off, [l2] those above them. *)
Record activated (d v : Z) s s' (r : Z) (x : rq) (l1 l2 : list Z) : Prop := {
  ac_ok : sched_ok s';
  ac_on : ∀ e, e ∈ l1 → on_rq <$> ses s' !! e = Some v;
  ac_off : ∀ e, e ∉ l1 → on_rq <$> ses s' !! e = on_rq <$> ses s !! e;
  ac_bumped : bumped d s s' (cfs_rq_of <$> l1 ++ l2);
  ac_rq : ∃ x', rqs s' = <[r := x']> (rqs s) ∧ rq_lock x' = rq_lock x ∧
    rqfields x' rq_nr_running = rqfields x rq_nr_running +[32] d ∧
    ∀ f, f ∉ rq_nr_running :: moved_fields → rqfields x' f = rqfields x f;
  ac_rest : tasks s' = tasks s ∧ current_task s' = current_task s ∧ irqs_on s' = irqs_on s;
  ac_live : ∀ q, hints_live s q → hints_live s' q
}.

Lemma walked_activated d v s s' r x x' w (l1 l2 : list Z) : rq_differ moved_fields x x' →
  task_walked d v (with_world w (with_rq r x' s)) s' r x' l1 l2 → activated d v s s' r x l1 l2.
Proof.
  intros [Hlk Hf] [Hok Hon Hoff Hb Hrq Hrest Hlv _]. split; try done.
  - eexists. split; [rewrite Hrq; apply insert_insert_eq|]. simpl. split; [done|].
    split; [rewrite upd_same; by rewrite Hf by by_decide|]. intros f [Hn Hm]%not_elem_of_cons.
    rewrite upd_other by done. by apply Hf.
  - unfold same_rest in Hrest. simpl in Hrest. tauto.
Qed.

Lemma with_rq_ok s r x x' w : sched_ok s → rqs s !! r = Some x → sched_ok (with_world w (with_rq r x' s)).
Proof.
  intros Hok Hr. eapply sched_ok_same; [done..|]. intros q Hq. simpl. rewrite lookup_insert_is_Some'. by right.
Qed.

Lemma wp_activate_task `{!SchedLaws, !CoreLaws} s r p t x flags (l1 l2 : list Z) (Q : unit → st → Prop) :
  (∀ w q, cfs_rq_throttled w q = false) → sched_ok s → tasks s !! p = Some t →
  tfields t t_sched_class = fair_sched_class → rqs s !! r = Some x →
  chain p (l1 ++ l2) → NoDup (cfs_rq_of <$> l1 ++ l2) →
  (∀ e, e ∈ l1 ++ l2 → is_Some (cfs s !! cfs_rq_of e)) →
  (∀ e, e ∈ l1 → on_rq <$> ses s !! e = Some 0) →
  (∀ e, e ∈ l2 → ∃ y, ses s !! e = Some y ∧ on_rq y ≠ 0) → (length (l1 ++ l2) < fuel)%nat →
  (∀ s', activated 1 1 s s' r x l1 l2 → Q tt s') →
  wp (activate_task fuel r p flags) s Q.
Proof.
  intros Hthr Hok Ht Hcl Hr Hch Hnd Hcfs Hl1 Hl2 Hfuel HQ. unfold activate_task, enqueue_task.
  eapply wp_dispatch_fair; [done..|]. intros w x' Hx.
  eapply (wp_enqueue_task_fair _ r p flags l1 l2 fuel x'); [done|by eapply with_rq_ok|done..
    |apply lookup_insert_eq|done|].
  intros s' Hw. by eapply HQ, walked_activated.
Qed.

Lemma wp_deactivate_task `{!SchedLaws, !CoreLaws} s r p t x flags (l : list Z) (Q : unit → st → Prop) :
  (∀ w q, cfs_rq_throttled w q = false) → sched_ok s → tasks s !! p = Some t →
  tfields t t_sched_class = fair_sched_class → rqs s !! r = Some x →
  chain p l → NoDup (cfs_rq_of <$> l) → (∀ e, e ∈ l → removable s e) → (length l < fuel)%nat →
  (∀ l1 l2 s', l = l1 ++ l2 → (l1 = [] → l = []) → activated (-1) 0 s s' r x l1 l2 → Q tt s') →
  wp (deactivate_task fuel r p flags) s Q.
Proof.
  intros Hthr Hok Ht Hcl Hr Hch Hnd Hl Hfuel HQ. unfold deactivate_task, dequeue_task.
  eapply wp_dispatch_fair; [done..|]. intros w x' Hx.
  eapply (wp_dequeue_task_fair _ r p flags l fuel x'); [done|by eapply with_rq_ok|done..
    |apply lookup_insert_eq|done|].
  intros l1 l2 s' Heq Hne Hw _. eapply HQ; [done..|]. by eapply walked_activated.
Qed.

(** ** Waking *)

Definition running t : task_struct := Task (upd t_state TASK_RUNNING (tfields t)) (comm t) (alloc_lock t).

(** [wake_up_new_task]: the task is runnable and queued, with the entities
    above it that were not ([l1]), the counters of its runqueue and of the
    queues above it count it, the lock is free and the interrupts are as
    before. *)
Record woken s s' (p r : Z) t (x : rq) (l1 l2 : list Z) : Prop := {
  wo_ok : sched_ok s';
  wo_on : ∀ e, e ∈ l1 → on_rq <$> ses s' !! e = Some 1;
  wo_off : ∀ e, e ∉ l1 → on_rq <$> ses s' !! e = on_rq <$> ses s !! e;
  wo_bumped : bumped 1 s s' (cfs_rq_of <$> l1 ++ l2);
  wo_rq : ∃ x', rqs s' = <[r := x']> (rqs s) ∧ free_lock (rq_lock x') ∧
    rqfields x' rq_nr_running = rqfields x rq_nr_running +[32] 1 ∧
    ∀ f, f ∉ rq_nr_running :: moved_fields → rqfields x' f = rqfields x f;
  wo_tasks : tasks s' = <[p := running t]> (tasks s);
  wo_rest : current_task s' = current_task s ∧ irqs_on s' = irqs_on s;
  wo_live : ∀ q, hints_live s q → hints_live s' q
}.

Lemma wp_wake_up_new_task `{!SchedLaws, !CoreLaws} s p t x (l1 l2 : list Z) (Q : unit → st → Prop) :
  let r := tfields t t_last_cpu in
  (∀ w q, cfs_rq_throttled w q = false) → sched_ok s → tasks s !! p = Some t →
  tfields t t_sched_class = fair_sched_class → rqs s !! r = Some x → free_lock (rq_lock x) →
  chain p (l1 ++ l2) → NoDup (cfs_rq_of <$> l1 ++ l2) →
  (∀ e, e ∈ l1 ++ l2 → is_Some (cfs s !! cfs_rq_of e)) →
  (∀ e, e ∈ l1 → on_rq <$> ses s !! e = Some 0) →
  (∀ e, e ∈ l2 → ∃ y, ses s !! e = Some y ∧ on_rq y ≠ 0) → (length (l1 ++ l2) < fuel)%nat →
  (∀ s', woken s s' p r t x l1 l2 → Q tt s') →
  wp (wake_up_new_task fuel p) s Q.
Proof.
  intros r Hthr Hok Ht Hcl Hr Hlk Hch Hnd Hcfs Hl1 Hl2 Hfuel HQ. unfold wake_up_new_task.
  eapply wp_bind, wp_task_set; [done|]. fold (running t). set (s1 := with_tasks _ s).
  eapply wp_bind, (wp_task_rq_lock s1 p (running t) x); [lia|apply lookup_insert_eq|done|done|].
  change (tfields (running t) t_last_cpu) with r. set (x2 := relock _ x). set (s2 := with_irqs _ _). cbn [fst snd].
  eapply wp_bind, (wp_activate_task s2 r p (running t) x2 0 l1 l2); [done| |apply lookup_insert_eq|done
    |apply lookup_insert_eq|done..|].
  { eapply sched_ok_same; [exact Hok|done..|]. intros q Hq. simpl. rewrite lookup_insert_is_Some'. by right. }
  intros s3 [Hok3 Hon Hoff Hb (x3 & Hrq3 & Hlk3 & Hn3 & Hf3) (Ht3 & Hc3 & Hi3) Hlv].
  assert (rqs s3 !! r = Some x3) as Hr3 by (rewrite Hrq3; apply lookup_insert_eq).
  destruct (check_preempt_curr_law r p WF_FORK s3) as (w4 & h & Hrun & Hh); [by eexists|].
  apply wp_bind. eapply wp_Ret; [exact Hrun|].
  assert (held_lock (rq_lock x3)) as Hheld by (rewrite Hlk3; by apply free_acquired).
  unfold task_rq_unlock. eapply wp_rq_unlock_irqrestore; [exact Hr3|done|]. apply HQ. split; try done.
  - eapply sched_ok_same; [exact (sched_ok_marks s3 h Hok3 Hh)|done..|]. intros q Hq. simpl.
    rewrite lookup_insert_is_Some'. by right.
  - exists (relock (released (rq_lock x3)) x3). split; [simpl; rewrite Hrq3; simpl; by rewrite !insert_insert_eq|].
    split; [by apply held_released|]. split; [done|]. done.
  - intros q Hl. by apply (marks_live s3 h q Hh), Hlv.
Qed.

(** C15: [wake_up_new_task] on a task of the fair class whose CPU has a free
    lock: it returns, the task and the entities above it that were not queued
    are queued and no other changes, every queue on the way up counts one more
    runnable task exactly once, as does the runqueue, the queues stay well
    formed, the lock of the runqueue is free again and the interrupt flag is
    restored. *)
Theorem wake_up_new_task_queues `{!SchedLaws, !CoreLaws} s p t x (l1 l2 : list Z)
    (Hthr : ∀ w q, cfs_rq_throttled w q = false) (Hok : sched_ok s) (Ht : tasks s !! p = Some t)
    (Hcl : tfields t t_sched_class = fair_sched_class)
    (Hr : rqs s !! tfields t t_last_cpu = Some x) (Hlk : free_lock (rq_lock x))
    (Hch : chain p (l1 ++ l2)) (Hnd : NoDup (cfs_rq_of <$> l1 ++ l2))
    (Hcfs : ∀ e, e ∈ l1 ++ l2 → is_Some (cfs s !! cfs_rq_of e))
    (Hl1 : ∀ e, e ∈ l1 → on_rq <$> ses s !! e = Some 0)
    (Hl2 : ∀ e, e ∈ l2 → ∃ y, ses s !! e = Some y ∧ on_rq y ≠ 0)
    (Hfuel : (length (l1 ++ l2) < fuel)%nat) :
  ∃ s', wake_up_new_task fuel p s = Ret (tt, s') ∧ woken s s' p (tfields t t_last_cpu) t x l1 l2.
Proof. apply wp_returns_tt. by eapply (wp_wake_up_new_task s p t x l1 l2). Qed.

(** ** Tasks as [alloc_task_struct] leaves them *)

(** The runqueue of CPU -1 is outside the array. *)
Lemma wake_up_outside s p t : tasks s !! p = Some t → rqs s !! tfields t t_last_cpu = None → (0 < fuel)%nat →
  wake_up_new_task fuel p s = Fault.
Proof.
  intros Ht Hr Hf. unfold wake_up_new_task. apply wp_bind_Fault. eapply wp_task_set; [done|].
  apply bind_Fault. unfold task_rq_lock. destruct fuel as [|n]; [lia|]. simpl. apply wp_bind_Fault.
  unfold task_rq, task_cpu. eapply wp_bind, wp_task_get; [apply lookup_insert_eq|]. apply wp_ret.
  apply bind_Fault. unfold on_rq_lock, cpu_rq. simpl. rewrite upd_other by done. by rewrite Hr.
Qed.

(** A call of a method through a NULL class. *)
Lemma wake_up_no_class s p t x : tasks s !! p = Some t → tfields t t_sched_class = NULL →
  rqs s !! tfields t t_last_cpu = Some x → free_lock (rq_lock x) → (0 < fuel)%nat →
  wake_up_new_task fuel p s = Fault.
Proof.
  intros Ht Hcl Hr Hlk Hf. unfold wake_up_new_task. apply wp_bind_Fault. eapply wp_task_set; [done|].
  fold (running t). set (s1 := with_tasks _ s). apply wp_bind_Fault.
  eapply (wp_task_rq_lock s1 p (running t) x); [done|apply lookup_insert_eq|done|done|]. cbn [fst snd].
  change (tfields (running t) t_last_cpu) with (tfields t t_last_cpu).
  apply bind_Fault. unfold activate_task. apply wp_bind_Fault. eapply wp_add_uninterruptible;
    [simpl; rewrite lookup_insert_eq; by eexists|simpl; apply lookup_insert_eq|]. intros x3 _.
  apply wp_bind_Fault. eapply wp_rq_clock; [simpl; apply lookup_insert_eq|]. intros w4 x4 _.
  apply wp_bind_Fault.
  match goal with |- wp _ ?s4 ?R => assert (∀ w, R tt (with_world w s4)) as Hgo; [|destruct (negb _);
    [by apply wp_acct|apply wp_ret; exact (Hgo w4)]] end.
  intros w5. apply wp_bind_Fault. eapply wp_task_get; [simpl; apply lookup_insert_eq|].
  change (tfields (running t) t_sched_class) with (tfields t t_sched_class). by rewrite Hcl.
Qed.

(** C23: no new task can be woken: right after [alloc_task_struct] the task is
    on CPU -1 and [wake_up_new_task] takes the lock of a runqueue outside the
    array; after [sched_fork] it is on CPU 0 but has no scheduling class, and
    [wake_up_new_task] calls through a NULL pointer. *)
Theorem new_task_never_runs s (p q cur : Z) tc (w w' : env) x wt l D (Hf : (0 < fuel)%nat)
    (Hpid : 1 ≤ next_pid s < PID_MAX) (Hp : kmalloc sizeof_task_struct (world s) = (p, w))
    (Hq : kmalloc THREAD_SIZE w = (q, w')) (Hpn : p ≠ NULL) (Hqn : q ≠ NULL) (Hfresh : fresh_task s p)
    (Hout : rqs s !! (-1) = None) (Hr : rqs s !! 0 = Some x) (Hlk : free_lock (rq_lock x))
    (Hcur : current_task s = cur) (Htc : tasks s !! cur = Some tc)
    (Hsp : MAX_RT_PRIO ≤ tfields tc t_static_prio)
    (Hw : prio_to_weight !! Z.to_nat (tfields tc t_static_prio - MAX_RT_PRIO) = Some wt)
    (Htl : free_lock (task_list_lock s)) (Hl : all_tasks s l D) :
  ∃ s1 s2, alloc_task_struct s = Ret (p, s1) ∧ sched_fork fuel p s1 = Ret (tt, s2) ∧
    all_tasks s2 (l ++ [in_task p tasks_node]) D ∧
    wake_up_new_task fuel p s1 = Fault ∧ wake_up_new_task fuel p s2 = Fault.
Proof.
  assert (cur ≠ p) as Hne. { intros ->. destruct Hfresh as [Hn _]. congruence. }
  set (s1 := with_new_task p q w' s).
  assert (alloc_task_struct s = Ret (p, s1)) as Hrun.
  { enough (wp alloc_task_struct s (λ r s', r = p ∧ s' = s1)) as (? & ? & ? & -> & ->)%wp_returns by done.
    eapply wp_alloc_task_struct; [done..| | | |done]; done. }
  assert (in_task p tasks_node ∉ D) as HnD.
  { intros Hin. destruct Hfresh as (_ & _ & Hn). destruct (rep_detached _ _ Hl _ Hin) as [y Hy]. congruence. }
  enough (wp (sched_fork fuel p) s1 (λ _ s2, all_tasks s2 (l ++ [in_task p tasks_node]) D ∧
    wake_up_new_task fuel p s2 = Fault)) as (s2 & Hrun2 & Hl2 & Hf2)%wp_returns_tt.
  { exists s1, s2. split_and!; try done. eapply wake_up_outside; [apply lookup_insert_eq|done|done]. }
  eapply (wp_sched_fork s1 p _ _ tc wt l ({[in_task p tasks_node]} ∪ D));
    [done|by simpl; rewrite Hcur|apply lookup_insert_eq|apply lookup_insert_eq| |done|done|done
    |by apply new_task_detached|set_solver|].
  { simpl. rewrite lookup_insert_ne; by rewrite Hcur. }
  intros s2 [(t' & Ht' & _ & _ & Hfd) _ Hl2 _ (Hr2 & _)]. split.
  - replace D with (({[in_task p tasks_node]} ∪ D) ∖ {[in_task p tasks_node]}) by set_solver. done.
  - eapply (wake_up_no_class s2 p t' x); [rewrite Ht'; apply lookup_insert_eq|by rewrite Hfd| |done|done].
    rewrite Hfd, Hr2. done.
Qed.

(** * Switching *)

(** The memory descriptors after a switch: a task without one borrows that of
    the task before it, and gives it up when it is switched from. *)
Definition borrowed (tp tn : task_struct) : Z :=
  if tfields tn t_mm =? NULL then tfields tp t_active_mm else tfields tn t_active_mm.
Definition kept_mm tp : Z := if tfields tp t_mm =? NULL then NULL else tfields tp t_active_mm.
Definition with_active_mm (v : Z) t : task_struct :=
  Task (upd t_active_mm v (tfields t)) (comm t) (alloc_lock t).

(** [t'] is [t] but for [active_mm], which is [v]. *)
Definition has_active_mm (v : Z) (t t' : task_struct) : Prop :=
  tfields t' t_active_mm = v ∧ ∀ f, f ≠ t_active_mm → tfields t' f = tfields t f.

(** The tasks after a switch: only the descriptors of the two tasks change. *)
Definition handed (ts ts' : gmap Z task_struct) (prev next : Z) : Prop :=
  ∃ tp tn tp' tn', ts !! prev = Some tp ∧ ts !! next = Some tn ∧
    ts' = <[prev := tp']> (<[next := tn']> ts) ∧
    has_active_mm (kept_mm tp) tp tp' ∧ has_active_mm (borrowed tp tn) tn tn'.

Record switched s s' (prev next : Z) (x : rq) : Prop := {
  sw_tasks : handed (tasks s) (tasks s') prev next;
  sw_rq : ∃ x', rqs s' = <[cpu_rq smp_processor_id := x']> (rqs s) ∧ free_lock (rq_lock x') ∧
    rqfields x' rq_prev_mm = NULL ∧ ∀ f, f ≠ rq_prev_mm → rqfields x' f = rqfields x f;
  sw_irqs : irqs_on s' = true;
  sw_same : cfs s' = cfs s ∧ hints s' = hints s ∧ ses s' = ses s ∧ current_task s' = current_task s
}.

Lemma wp_prepare_task_switch s r prev next (Q : unit → st → Prop) : (∀ w, Q tt (with_world w s)) →
  wp (prepare_task_switch r prev next) s Q.
Proof.
  intros HQ. unfold prepare_task_switch. do 4 (apply wp_bind, wp_acct; intros ?).
  apply wp_acct. intros w'. apply HQ.
Qed.

(** The task that is switched to. *)
Lemma wp_finish_task_switch `{!CoreLaws} s prev t x (Q : unit → st → Prop) :
  tasks s !! prev = Some t → tfields t t_state ≠ TASK_DEAD →
  rqs s !! cpu_rq smp_processor_id = Some x → held_lock (rq_lock x) →
  (∀ w, Q tt (with_world w (with_irqs true (with_rq (cpu_rq smp_processor_id)
     (Rq (released (rq_lock x)) (upd rq_prev_mm NULL (rqfields x))) s)))) →
  wp (finish_task_switch prev) s Q.
Proof.
  intros Ht Hdead Hr [Hm Ho] HQ. unfold finish_task_switch. rewrite this_rq_law.
  eapply wp_bind, wp_rq_get; [done|]. eapply wp_bind, wp_rq_set; [done|].
  eapply wp_bind, wp_task_get; [done|]. apply wp_bind, wp_gets. do 2 (apply wp_bind, wp_acct; intros ?).
  set (s1 := with_world _ _).
  destruct (finish_lock_switch_law (cpu_rq smp_processor_id) prev s1
    (Rq (rq_lock x) (upd rq_prev_mm NULL (rqfields x)))) as [w2 Hrun]; [apply lookup_insert_eq|done..|].
  apply wp_bind. eapply wp_Ret; [exact Hrun|]. apply wp_bind, wp_gets, wp_bind, wp_acct. intros w3.
  rewrite (proj2 (Z.eqb_neq _ _) Hdead). simpl. rewrite insert_insert_eq. apply wp_bind.
  destruct (negb _); [apply wp_acct; intros w4|]; apply wp_ret; apply HQ.
Qed.

Lemma set_active_mm v t : has_active_mm v t (with_active_mm v t).
Proof. split; [apply upd_same|]. intros f Hf. by apply upd_other. Qed.

(** The borrowing half of [context_switch]. *)
Lemma wp_switch_mm s next tp tn (Q : unit → st → Prop) : tasks s !! next = Some tn →
  (tfields tn t_mm = NULL → tfields tp t_active_mm ≠ NULL) →
  (∀ w tn', has_active_mm (borrowed tp tn) tn tn' →
     Q tt (with_world w (with_tasks (<[next := tn']> (tasks s)) s))) →
  wp (if tfields tn t_mm =? NULL then
        task_set next t_active_mm (tfields tp t_active_mm);;
        (if tfields tp t_active_mm =? NULL then fault
         else acct (atomic_inc_mm_count (tfields tp t_active_mm)));;
        acct (enter_lazy_tlb (tfields tp t_active_mm) next)
      else acct (switch_mm (tfields tp t_active_mm) (tfields tn t_mm) next)) s Q.
Proof.
  intros Hn Hmm HQ. unfold borrowed in HQ. destruct (Z.eqb_spec (tfields tn t_mm) NULL) as [Hz|Hz].
  - eapply wp_bind, wp_task_set; [done|]. rewrite (proj2 (Z.eqb_neq _ _)) by by apply Hmm.
    apply wp_bind, wp_acct; intros ?. apply wp_acct. intros w1. apply HQ, set_active_mm.
  - apply wp_acct. intros w1. specialize (HQ w1 tn). rewrite insert_id in HQ by done. by apply HQ.
Qed.

Lemma wp_drop_mm s r prev tp x oldmm (Q : unit → st → Prop) : tasks s !! prev = Some tp → rqs s !! r = Some x →
  (∀ tp' x', has_active_mm (kept_mm tp) tp tp' → rq_differ [rq_prev_mm] x x' →
     Q tt (with_rq r x' (with_tasks (<[prev := tp']> (tasks s)) s))) →
  wp (if tfields tp t_mm =? NULL then task_set prev t_active_mm NULL;; rq_set r rq_prev_mm oldmm
      else mret tt) s Q.
Proof.
  intros Hp Hr HQ. unfold kept_mm in HQ. destruct (Z.eqb_spec (tfields tp t_mm) NULL) as [Hz|Hz].
  - eapply wp_bind, wp_task_set; [done|]. eapply wp_rq_set; [done|].
    apply (HQ (with_active_mm NULL tp)); [apply set_active_mm|]. apply rq_differ_set; [done|set_solver].
  - apply wp_ret. specialize (HQ tp x). unfold with_rq in HQ. simpl in HQ. rewrite !insert_id in HQ by done.
    destruct s. by apply HQ.
Qed.

Lemma wp_context_switch `{!CoreLaws} s prev next tp tn x (Q : unit → st → Prop) : prev ≠ next →
  tasks s !! prev = Some tp → tasks s !! next = Some tn → tfields tp t_state ≠ TASK_DEAD →
  (tfields tn t_mm = NULL → tfields tp t_active_mm ≠ NULL) →
  rqs s !! cpu_rq smp_processor_id = Some x → held_lock (rq_lock x) →
  (∀ s', switched s s' prev next x → Q tt s') →
  wp (context_switch (cpu_rq smp_processor_id) prev next) s Q.
Proof.
  intros Hne Hp Hn Hdead Hmm Hr Hlk HQ. unfold context_switch. set (r := cpu_rq smp_processor_id) in *.
  apply wp_bind, wp_prepare_task_switch. intros w1.
  eapply wp_bind, wp_task_get; [done|]. eapply wp_bind, wp_task_get; [done|].
  apply wp_bind, wp_acct. intros w2. eapply wp_bind, wp_switch_mm; [done..|]. intros w3 tn' [Hn1 Hn2].
  eapply wp_bind, wp_task_get; [simpl; by rewrite lookup_insert_ne by done|].
  eapply wp_bind, wp_drop_mm; [simpl; by rewrite lookup_insert_ne by done|done|]. intros tp' x' [Hp1 Hp2] [Hx1 Hx2].
  set (s4 := with_rq r x' _). destruct (switch_to_law prev next s4) as [w5 Hrun].
  apply wp_bind. eapply wp_Ret; [exact Hrun|].
  eapply (wp_finish_task_switch _ prev tp' x'); [apply lookup_insert_eq|by rewrite Hp2|apply lookup_insert_eq|by rewrite Hx1|].
  intros w6. apply HQ. split; simpl.
  - exists tp, tn, tp', tn'. by split_and!.
  - eexists. split; [by rewrite insert_insert_eq|]. simpl. split_and!.
    + apply held_released. by rewrite Hx1.
    + apply upd_same.
    + intros f Hf. rewrite upd_other by done. apply Hx2. by intros ->%list_elem_of_singleton.
  - done.
  - by split_and!.
Qed.

(** ** schedule *)

Lemma wp_pick_next_task `{!SchedLaws} s r prev x c (Q : Z → st → Prop) : sched_ok s →
  rqs s !! r = Some x → cfs s !! r = Some c → rqfields x rq_nr_running = h_nr_running c →
  nr_running c ≠ 0 → pick_legal s c prev →
  (∀ p s' c', picked s s' r c c' p → p ≠ NULL → Q p s') →
  wp (pick_next_task r prev) s Q.
Proof.
  intros Hok Hr Hc Heq Hnz Hl HQ. unfold pick_next_task. eapply wp_bind, wp_rq_get; [done|].
  eapply wp_bind, wp_get_cfs; [done|]. rewrite Heq, Z.eqb_refl.
  eapply wp_bind, wp_pick_next_task_fair; [done..| |].
  - intros Hz. by destruct Hnz.
  - intros _ p s' c' Hpk.
    assert (p ≠ NULL) as Hp.
    { eapply on_queue_not_null; [|exact (pk_queue _ _ _ _ _ _ Hpk)].
      eapply only_queue_ok; [exact Hok|by eexists|apply Hpk..]. }
    rewrite (proj2 (Z.eqb_neq _ _) Hp). by eapply wp_ret, HQ.
Qed.

(** [schedule] up to the choice of the next task. *)
Definition schedule_tail (r prev next : Z) (flags : bool) : C unit :=
  acct (clear_tsk_need_resched prev);;
  (if negb (prev =? next) then
     n ← rq_get r rq_nr_switches;
     rq_set r rq_nr_switches (n +[64] 1);;
     rq_set r rq_curr next;;
     context_switch r prev next
   else on_rq_lock r (on_lock (spin_unlock smp_processor_id)));;
  irq_restore flags.

(** What [schedule] has done by then: [s1] is the state with the lock taken
    and the clock advanced, [s2] the one after the choice. *)
Record chosen s s1 s2 (x x' : rq) c c' (next : Z) : Prop := {
  cn_same : cfs s1 = cfs s ∧ ses s1 = ses s ∧ hints s1 = hints s ∧ tasks s1 = tasks s ∧
    current_task s1 = current_task s;
  cn_rqs : rqs s1 = <[cpu_rq smp_processor_id := x']> (rqs s);
  cn_lock : held_lock (rq_lock x');
  cn_fields : ∀ f, f ∉ clock_fields → rqfields x' f = rqfields x f;
  cn_ok : sched_ok s1;
  cn_picked : picked s1 s2 (cpu_rq smp_processor_id) c c' next;
  cn_next : next ≠ NULL
}.

Lemma schedule_head `{!SchedLaws} s x c (P : outcome (unit * st) → Prop) : let r := cpu_rq smp_processor_id in
  (0 < fuel)%nat → sched_ok s → rqs s !! r = Some x → free_lock (rq_lock x) → cfs s !! r = Some c →
  rqfields x rq_nr_running = h_nr_running c → nr_running c ≠ 0 → pick_legal s c (rqfields x rq_curr) →
  (∀ s1 s2 x' c' next, chosen s s1 s2 x x' c c' next →
     P (schedule_tail r (rqfields x rq_curr) next (irqs_on s) s2)) →
  P (schedule fuel s).
Proof.
  intros r Hf Hok Hr Hlk Hc Heq Hnz Hl HP. unfold schedule. fold r.
  apply wp_bind_out. eapply wp_rq_get; [done|].
  apply wp_bind_out. apply wp_bind, wp_gets, wp_bind, wp_modify, wp_ret.
  set (s1 := with_irqs false s). apply wp_bind_out. eapply (wp_rq_spin_lock s1 r x); [done..|].
  set (x2 := relock _ x). set (s2 := with_irqs (irqs_on s1) (with_rq r x2 s1)).
  apply wp_bind_out. eapply (wp_rq_clock s2 r x2); [apply lookup_insert_eq|]. intros w3 x3 [Hx1 Hx2].
  set (s3 := with_world w3 _).
  assert (sched_ok s3) as Hok3.
  { eapply sched_ok_same; [exact Hok|done..|]. intros q Hq. simpl.
    do 2 (rewrite lookup_insert_is_Some'; right). done. }
  apply wp_bind_out. eapply (wp_pick_next_task s3 r _ x3 c); [done|apply lookup_insert_eq|exact Hc| |done|exact Hl|].
  { rewrite Hx2; [done|]. by_decide. }
  intros next s4 c' Hpk Hnn. apply (HP s3 s4 x3 c' next). split; try done.
  - simpl. by rewrite insert_insert_eq.
  - rewrite Hx1. by apply free_acquired.
Qed.

(** After [schedule]: [next] runs on the queue of the CPU, and the lock and the
    interrupt flag are as before. *)
Record scheduled s s' (x : rq) (next : Z) : Prop := {
  sd_next : next ≠ NULL ∧ on_queue s' (cpu_rq smp_processor_id) next;
  sd_curr : curr <$> cfs s' !! cpu_rq smp_processor_id = Some next;
  sd_rq : ∃ x', rqs s' = <[cpu_rq smp_processor_id := x']> (rqs s) ∧ free_lock (rq_lock x') ∧
    rqfields x' rq_curr = next ∧
    rqfields x' rq_nr_switches =
      (if rqfields x rq_curr =? next then rqfields x rq_nr_switches else rqfields x rq_nr_switches +[64] 1) ∧
    rqfields x' rq_nr_running = rqfields x rq_nr_running;
  sd_counts : (λ c, (nr_running c, h_nr_running c)) <$> cfs s' !! cpu_rq smp_processor_id =
    (λ c, (nr_running c, h_nr_running c)) <$> cfs s !! cpu_rq smp_processor_id;
  sd_tasks : if decide (rqfields x rq_curr = next) then tasks s' = tasks s
    else handed (tasks s) (tasks s') (rqfields x rq_curr) next;
  sd_irqs : irqs_on s' = irqs_on s;
  sd_ok : sched_ok s';
  sd_on : same_on s s';
  sd_least : hints s !! cpu_rq smp_processor_id = Some (Buddies NULL NULL NULL) → sched_sorted s →
    window s' (cpu_rq smp_processor_id) → ∀ e, runnable s' (cpu_rq smp_processor_id) e → vr s' next ≤ vr s' e;
  sd_current : current_task s' = current_task s;
  sd_live : hints_live s (cpu_rq smp_processor_id) →
    runnable s' (cpu_rq smp_processor_id) next ∧ hints_live s' (cpu_rq smp_processor_id)
}.

(** The chosen task was on the queue. *)
Lemma chosen_on `{!SchedLaws} s s1 s2 x x' c c' next : chosen s s1 s2 x x' c c' next →
  on_queue s (cpu_rq smp_processor_id) next.
Proof.
  intros [(_ & Hs1 & _) _ _ _ _ Hpk _]. destruct (pk_queue _ _ _ _ _ _ Hpk) as [He Hq].
  split; [|done]. apply (same_on_dom s1 s2 next (pk_on _ _ _ _ _ _ Hpk)) in He. by rewrite <-Hs1.
Qed.

Lemma chosen_live `{!SchedLaws} s s1 s2 x x' c c' next : chosen s s1 s2 x x' c c' next →
  hints_live s (cpu_rq smp_processor_id) →
  runnable s (cpu_rq smp_processor_id) next ∧ hints_live s2 (cpu_rq smp_processor_id).
Proof.
  intros [(_ & Hs1 & Hh1 & _) _ _ _ _ Hpk _] Hl. set (r := cpu_rq smp_processor_id) in *.
  assert (∀ e, runnable s1 r e ↔ runnable s r e) as Hrun by (intros e; unfold runnable; by rewrite Hs1).
  assert (hints_live s1 r) as Hl1.
  { intros b. rewrite Hh1, !Hrun. apply Hl. }
  split.
  - apply Hrun, (same_on_runnable s1 s2); [apply Hpk|exact (pk_live _ _ _ _ _ _ Hpk Hl1)].
  - eapply hints_live_same; [exact Hl1|apply (pk_only _ _ _ _ _ _ Hpk)|apply Hpk].
Qed.

(** The queues of [s'] are those of [s2]. *)
Lemma chosen_scheduled `{!SchedLaws} s s1 s2 s' x x' xf c c' next : cfs s !! cpu_rq smp_processor_id = Some c →
  chosen s s1 s2 x x' c c' next →
  cfs s' = cfs s2 → ses s' = ses s2 → hints s' = hints s2 → current_task s' = current_task s2 →
  rqs s' = <[cpu_rq smp_processor_id := xf]> (rqs s2) → irqs_on s' = irqs_on s →
  free_lock (rq_lock xf) → rqfields xf rq_curr = next →
  rqfields xf rq_nr_switches =
    (if rqfields x rq_curr =? next then rqfields x rq_nr_switches else rqfields x rq_nr_switches +[64] 1) →
  rqfields xf rq_nr_running = rqfields x rq_nr_running →
  (if decide (rqfields x rq_curr = next) then tasks s' = tasks s
   else handed (tasks s) (tasks s') (rqfields x rq_curr) next) →
  scheduled s s' x next.
Proof.
  intros Hc Hch. pose proof (chosen_live _ _ _ _ _ _ _ _ Hch) as Hlive. revert Hch. intros [(Hc1 & Hs1 & Hh1 & Ht1 & Hcu1) Hr1 _ _ Hok1 Hpk Hnn] Hcf Hse Hhi Hcu Hrq Hi Hlk Hcur Hsw Hnr Hts.
  set (r := cpu_rq smp_processor_id) in *. destruct Hpk as [Ho Hok' Hc' Hq Hlv Hon Hcn Hso Hleast].
  assert (sched_ok s2) as Hok2 by (eapply only_queue_ok; [exact Hok1|rewrite Hc1; by eexists|done..]).
  destruct (oq_rest _ _ _ _ Ho) as (Hr2 & _ & _ & _ & _ & _ & Hcu2 & _).
  assert (∀ e, vr s' e = vr s2 e) as Hvr by (intros e; unfold vr; by rewrite Hse).
  assert (∀ e, runnable s' r e ↔ runnable s2 r e) as Hrun by (intros e; unfold runnable; by rewrite Hse).
  split.
  - split; [done|]. unfold on_queue in *. by rewrite Hse.
  - rewrite Hcf, (oq_cfs _ _ _ _ Ho), lookup_insert_eq. simpl. by rewrite Hc'.
  - exists xf. by rewrite Hrq, Hr2, Hr1, insert_insert_eq.
  - fold r. rewrite Hcf, (oq_cfs _ _ _ _ Ho), lookup_insert_eq, Hc. simpl. destruct Hcn as (_ & -> & ->). done.
  - done.
  - done.
  - eapply sched_ok_same; [exact Hok2|done..|]. intros q Hq1. rewrite Hrq, lookup_insert_is_Some'. by right.
  - intros e. rewrite Hse, (Hon e). by rewrite Hs1.
  - intros Hh Hss Hw e He. rewrite !Hvr. apply Hleast; [by rewrite Hh1| | |by apply Hrun].
    + intros q c0 Hq0. rewrite Hc1 in Hq0. specialize (Hss q c0 Hq0). unfold sorted_by_vr in *.
      revert Hss. apply sorted_ext. intros a b _ _. unfold vr. by rewrite Hs1.
    + intros c0 e0 Hq0 He0. rewrite <-Hcf in Hq0. apply Hrun in He0. specialize (Hw c0 e0 Hq0 He0).
      unfold in_window in *. by rewrite <-Hvr.
  - congruence.
  - intros Hl. destruct (Hlive Hl) as [Hn Hl2]. split.
    + apply Hrun, (same_on_runnable s s2); [|done]. intros e. rewrite (Hon e). by rewrite Hs1.
    + intros b. fold r. rewrite Hhi, !Hrun. apply Hl2.
Qed.

Lemma wp_schedule `{!SchedLaws, !CoreLaws} s x c (Q : unit → st → Prop) : (0 < fuel)%nat → sched_ok s →
  rqs s !! cpu_rq smp_processor_id = Some x → free_lock (rq_lock x) →
  cfs s !! cpu_rq smp_processor_id = Some c →
  rqfields x rq_nr_running = h_nr_running c → nr_running c ≠ 0 →
  pick_legal s c (rqfields x rq_curr) → rqfields x rq_curr ≠ NULL →
  (∀ t, tasks s !! rqfields x rq_curr = Some t → tfields t t_state ≠ TASK_DEAD) →
  (∀ e, on_queue s (cpu_rq smp_processor_id) e →
    (hints_live s (cpu_rq smp_processor_id) → runnable s (cpu_rq smp_processor_id) e) → is_Some (tasks s !! e)) →
  (∀ t, tasks s !! rqfields x rq_curr = Some t → tfields t t_active_mm ≠ NULL) →
  (∀ next s', scheduled s s' x next → Q tt s') →
  wp (schedule fuel) s Q.
Proof.
  intros Hf Hok Hr Hlk Hc Heq Hnz Hl Hprev Hdead Htasks Hmm HQ.
  apply (schedule_head s x c (λ o, match o with Ret (a, s') => Q a s' | _ => False end));
    [done..|]. intros s1 s2 x' c' next Hch.
  change (wp (schedule_tail (cpu_rq smp_processor_id) (rqfields x rq_curr) next (irqs_on s)) s2 Q).
  pose proof Hch as [(Hc1 & Hs1 & Hh1 & Ht1 & Hcu1) Hr1 Hlk1 Hx1 Hok1 Hpk Hnn].
  set (r := cpu_rq smp_processor_id) in *. set (prev := rqfields x rq_curr) in *.
  destruct (oq_rest _ _ _ _ (pk_only _ _ _ _ _ _ Hpk)) as (Hr2 & Ht2 & _).
  unfold schedule_tail. apply wp_bind, wp_acct. intros w3.
  assert (rqs (with_world w3 s2) !! r = Some x') as Hr3 by (simpl; rewrite Hr2, Hr1; apply lookup_insert_eq).
  apply wp_bind. destruct (Z.eqb_spec prev next) as [He|Hne]; simpl.
  - eapply wp_rq_spin_unlock; [exact Hr3|done|]. apply wp_modify, (HQ next).
    eapply (chosen_scheduled s s1 s2 _ x x' (relock (released (rq_lock x')) x') c c' next); try done.
    + by apply held_released.
    + simpl. rewrite Hx1 by by_decide. done.
    + simpl. rewrite Hx1 by by_decide. subst prev. by rewrite (proj2 (Z.eqb_eq _ _) He).
    + simpl. by rewrite Hx1 by by_decide.
    + rewrite decide_True by done. simpl. congruence.
  - unfold pick_legal in Hl. fold prev in Hl. rewrite decide_False in Hl by done.
    destruct Hl as (tp & Htp & _).
    destruct (Htasks next) as [tn Htn];
      [exact (chosen_on s s1 s2 x x' c c' next Hch)|intros Hl'; by apply (chosen_live s s1 s2 x x' c c' next Hch)|].
    eapply wp_bind, wp_rq_get; [exact Hr3|]. eapply wp_bind, wp_rq_set; [exact Hr3|].
    eapply wp_bind, wp_rq_set; [apply lookup_insert_eq|]. simpl. rewrite insert_insert_eq.
    eapply (wp_context_switch _ prev next tp tn); [done|simpl; by rewrite Ht2, Ht1..|by apply Hdead|by intros _; apply Hmm
      |apply lookup_insert_eq|done|].
    intros s4 [Hts (x4 & Hr4 & Hlk4 & _ & Hx4) _ (Hc4 & Hh4 & Hs4 & Hcu4)]. apply wp_modify, (HQ next).
    simpl in Hr4, Hts. rewrite insert_insert_eq in Hr4.
    eapply (chosen_scheduled s s1 s2 _ x x' x4 c c' next); try done.
    + rewrite Hx4 by done. simpl. apply upd_same.
    + rewrite Hx4 by done. simpl. rewrite upd_other, upd_same, Hx1 by by_decide.
      subst prev. by rewrite (proj2 (Z.eqb_neq _ _) Hne).
    + rewrite Hx4 by done. simpl. by rewrite !upd_other, Hx1 by by_decide.
    + rewrite decide_False by done. simpl. by rewrite Ht2, Ht1 in Hts.
Qed.

(** C10: [schedule] on a CPU whose runnable tasks are all of the fair class,
    none in a group, called by a task that is not dead and has an address
    space: it returns with the lock of the runqueue free and the interrupt flag
    restored; the chosen task is the current one of the runqueue and of its
    fair queue, which is well formed, and nobody's runnability changes; a
    switch is counted, modulo 2^64, exactly when the task changed, and then
    only the memory descriptors of the two tasks change; and [current] still
    names the task it named.  Who is chosen: a runnable task if the marked
    buddies are runnable; and one of least virtual runtime if no buddy is
    marked, the queue was in the order of the virtual runtimes and its keys,
    afterwards, fit their 32 bits ([window]). *)
Theorem schedule_switches `{!SchedLaws, !CoreLaws} s x c (Hf : (0 < fuel)%nat) (Hok : sched_ok s)
    (Hr : rqs s !! cpu_rq smp_processor_id = Some x) (Hlk : free_lock (rq_lock x))
    (Hc : cfs s !! cpu_rq smp_processor_id = Some c)
    (Heq : rqfields x rq_nr_running = h_nr_running c) (Hnz : nr_running c ≠ 0)
    (Hl : pick_legal s c (rqfields x rq_curr)) (Hprev : rqfields x rq_curr ≠ NULL)
    (Hdead : ∀ t, tasks s !! rqfields x rq_curr = Some t → tfields t t_state ≠ TASK_DEAD)
    (Htasks : ∀ e, on_queue s (cpu_rq smp_processor_id) e → is_Some (tasks s !! e))
    (Hmm : ∀ t, tasks s !! rqfields x rq_curr = Some t → tfields t t_active_mm ≠ NULL) :
  ∃ next s', schedule fuel s = Ret (tt, s') ∧ scheduled s s' x next.
Proof.
  enough (wp (schedule fuel) s (λ _ s', ∃ next, scheduled s s' x next)) as (s' & Hrun & next & Hs)%wp_returns_tt by eauto.
  eapply wp_schedule; eauto.
Qed.

(** The first [schedule]: nothing sets the current task of a runqueue, so
    after [sched_init] it is NULL, and a [schedule] that finds a task to run
    reads the memory descriptor of that NULL task. *)
Theorem first_schedule_faults `{!SchedLaws} s x c (Hf : (0 < fuel)%nat) (Hok : sched_ok s)
    (Hr : rqs s !! cpu_rq smp_processor_id = Some x) (Hlk : free_lock (rq_lock x))
    (Hc : cfs s !! cpu_rq smp_processor_id = Some c)
    (Heq : rqfields x rq_nr_running = h_nr_running c) (Hnz : nr_running c ≠ 0)
    (Hprev : rqfields x rq_curr = NULL) (Hcurr : curr c = NULL) (Hnt : tasks s !! NULL = None) :
  schedule fuel s = Fault.
Proof.
  apply (schedule_head s x c (λ o, o = Fault)); [done..| |].
  { unfold pick_legal. by rewrite decide_True. }
  intros s1 s2 x' c' next [(_ & _ & _ & Ht1 & _) Hr1 _ _ _ Hpk Hnn]. rewrite Hprev.
  destruct (oq_rest _ _ _ _ (pk_only _ _ _ _ _ _ Hpk)) as (Hr2 & Ht2 & _).
  unfold schedule_tail. apply wp_bind_Fault, wp_acct. intros w3. apply bind_Fault.
  rewrite (proj2 (Z.eqb_neq NULL next)) by congruence. simpl.
  assert (rqs (with_world w3 s2) !! cpu_rq smp_processor_id = Some x') as Hr3.
  { simpl. rewrite Hr2, Hr1. apply lookup_insert_eq. }
  apply wp_bind_Fault. eapply wp_rq_get; [exact Hr3|]. apply wp_bind_Fault. eapply wp_rq_set; [exact Hr3|].
  apply wp_bind_Fault. eapply wp_rq_set; [apply lookup_insert_eq|].
  unfold context_switch. apply wp_bind_Fault, wp_prepare_task_switch. intros w4.
  set (s4 := with_world w4 _). assert (tasks s4 = tasks s) as Ht4 by (simpl; congruence).
  (* the fault comes with [prev->active_mm] at the latest *)
  destruct (tasks s4 !! next) as [tn|] eqn:Htn.
  - apply wp_bind_Fault. eapply wp_task_get; [done|]. apply bind_Fault, bind_Fault.
    unfold get_task, get_some. by rewrite Ht4, Hnt.
  - apply bind_Fault, bind_Fault. unfold get_task, get_some. by rewrite Htn.
Qed.
End switch.
