(* ===== verification/SchedCore.v ===== *)
(** The scheduler core as a whole: over any sequence of calls of
    [kernel/core/sched/sched.c] that queue, take off, switch and yield, the
    runqueue of the CPU behaves like a set of runnable tasks and a current one.

    The tasks are of the fair class, without groups and on this CPU. *)
From stdpp Require Import base gmap list strings fin_maps fin_sets.
From S2P Require Import Prelude CTypes ListHead ListTheory Spinlock SchedData Cfs CfsTheory CfsOps CfsSpec CfsGroups Sched SchedTasks SchedSwitch.

(** * The abstract machine *)

Inductive core_op :=
  | Activate (p flags : Z)      (* activate_task *)
  | Deactivate (p flags : Z)    (* deactivate_task *)
  | WakeNew (p : Z)             (* wake_up_new_task *)
  | Clock                       (* update_rq_clock *)
  | Schedule                    (* schedule *)
  | SchedYield                  (* sys_sched_yield *)
  | Yield.                      (* yield *)

(** The set of runnable tasks after a call. *)
Definition ready_after (R : gset Z) (k : core_op) : gset Z :=
  match k with
  | Activate p _ | WakeNew p => {[p]} ∪ R
  | Deactivate p _ => R ∖ {[p]}
  | _ => R
  end.

(** When a caller may make a call, [T] being the tasks there are. *)
Definition may (T R : gset Z) (k : core_op) : Prop :=
  match k with
  | Activate p _ | WakeNew p => p ∈ T ∧ p ∉ R
  | Deactivate p _ => p ∈ R
  | Clock => True
  | Schedule | SchedYield | Yield => R ≠ ∅
  end.
#[export] Instance may_dec T R k : Decision (may T R k).
Proof. destruct k; simpl; apply _. Defined.

(** Who may be current after a call. *)
Definition turn (R : gset Z) (cur : Z) (k : core_op) (cur' : Z) : Prop :=
  match k with
  | Schedule | SchedYield | Yield => cur' ∈ R
  | _ => cur' = cur
  end.

Fixpoint ready_end (R : gset Z) (ks : list core_op) : gset Z :=
  match ks with [] => R | k :: ks => ready_end (ready_after R k) ks end.
Fixpoint may_all (T R : gset Z) (ks : list core_op) : Prop :=
  match ks with [] => True | k :: ks => may T R k ∧ may_all T (ready_after R k) ks end.
#[export] Instance may_all_dec T R ks : Decision (may_all T R ks).
Proof. revert R. induction ks as [|k ks IH]; intros R; simpl; apply _. Defined.
Fixpoint turns (R : gset Z) (cur : Z) (ks : list core_op) (cur' : Z) : Prop :=
  match ks with
  | [] => cur' = cur
  | k :: ks => ∃ cur1, turn R cur k cur1 ∧ turns (ready_after R k) cur1 ks cur'
  end.

(** * The code *)

Section core.
  Context `{CoreLib, !Allocator}.
  Context (fuel : nat).
  Abbreviation st := (sched env).
  Abbreviation C := (M st).
  Implicit Types (s : st) (t : task_struct) (R T : gset Z).

Definition here : Z := cpu_rq smp_processor_id.

Definition run_op (k : core_op) : C unit :=
  match k with
  | Activate p flags => activate_task fuel here p flags
  | Deactivate p flags => deactivate_task fuel here p flags
  | WakeNew p => wake_up_new_task fuel p
  | Clock => update_rq_clock here
  | Schedule => schedule fuel
  | SchedYield => sys_sched_yield fuel;; mret tt
  | Yield => yield fuel
  end.
Fixpoint run_ops (ks : list core_op) : C unit :=
  match ks with [] => mret tt | k :: ks => run_op k;; run_ops ks end.

(** * The representation *)

(** A task of the fair class on this CPU that may be switched to. *)
Definition good_task t : Prop :=
  tfields t t_sched_class = fair_sched_class ∧ tfields t t_last_cpu = here ∧
  tfields t t_state ≠ TASK_DEAD ∧ (tfields t t_mm ≠ NULL → tfields t t_active_mm ≠ NULL).

Definition flat_entity s (p : Z) : Prop :=
  p ≠ NULL ∧ parent_entity p = NULL ∧ cfs_rq_of p = here ∧ is_Some (ses s !! p).

(** The state represents the tasks [T], of which [R] are runnable and [cur] is
    current; the lock of the runqueue satisfies [L]. *)
Record core_rep (L : spinlock_t → Prop) T s R (cur : Z) : Prop := {
  cr_ok : sched_ok s;
  cr_run : ∀ p, p ∈ R ↔ runnable s here p;
  cr_sub : R ⊆ T;
  cr_flat : ∀ p, p ∈ T → flat_entity s p;
  cr_good : ∀ p, p ∈ T → ∃ t, tasks s !! p = Some t ∧ good_task t;
  cr_rq : ∃ x, rqs s !! here = Some x ∧ L (rq_lock x) ∧ rqfields x rq_curr = cur ∧
    rqfields x rq_nr_running = Z.of_nat (size R);
  cr_cfs : ∃ c, cfs s !! here = Some c ∧ curr c = cur ∧ h_nr_running c = Z.of_nat (size R);
  cr_cur : cur ∈ T;
  cr_current : current_task s ∈ T;
  cr_mm : ∃ t, tasks s !! cur = Some t ∧ tfields t t_active_mm ≠ NULL;
  cr_live : hints_live s here
}.

Lemma here_not_dead t : good_task t → tfields t t_state ≠ TASK_DEAD.
Proof. by intros (_ & _ & ? & _). Qed.

Context `{!SchedLaws, !CoreLaws}.

Lemma running_good t : good_task t → good_task (running t).
Proof.
  intros (Hc & Hl & _ & Hm). split; [done|]. split; [done|]. split; [|done].
  simpl. rewrite upd_same. intros He. by apply TASK_DEAD_law.
Qed.

(** ** Steps that queue nobody *)

(** Only the clock, the marks, virtual times and the environment change. *)
Record quiet s s' : Prop := {
  qt_ok : sched_ok s → sched_ok s';
  qt_on : same_on s s';
  qt_cfs : ∀ q, (λ c, (curr c, h_nr_running c)) <$> cfs s' !! q = (λ c, (curr c, h_nr_running c)) <$> cfs s !! q;
  qt_rq : ∀ x, rqs s !! here = Some x → ∃ x', rqs s' !! here = Some x' ∧ rq_differ clock_fields x x';
  qt_tasks : tasks s' = tasks s;
  qt_current : current_task s' = current_task s;
  qt_live : hints_live s here → hints_live s' here
}.

Lemma quiet_refl s : quiet s s.
Proof. split; try done. intros x Hx. exists x. split; [done|]. by split. Qed.

Lemma quiet_trans s1 s2 s3 : quiet s1 s2 → quiet s2 s3 → quiet s1 s3.
Proof.
  intros [Hok1 Hon1 Hc1 Hr1 Ht1 Hcu1 Hl1] [Hok2 Hon2 Hc2 Hr2 Ht2 Hcu2 Hl2]. split; [auto| | | | | |auto].
  - by eapply same_on_trans.
  - intros q. by rewrite Hc2.
  - intros x Hx. destruct (Hr1 x Hx) as (x1 & Hx1 & Hl & Hf). destruct (Hr2 x1 Hx1) as (x2 & Hx2 & Hl' & Hf').
    exists x2. split; [done|]. split; [congruence|]. intros f Hn. rewrite Hf' by done. by apply Hf.
  - congruence.
  - congruence.
Qed.

Lemma quiet_world s w : quiet s (with_world w s).
Proof.
  split; try done; [|by intros x Hx; exists x; split; [|split]].
  intros Hok. eapply same_queues_ok; [exact Hok|apply same_queues_world].
Qed.

Lemma fmap_Some_curr {A B} (f : A → B) (o o' : option A) a : f <$> o' = f <$> o → o = Some a →
  ∃ a', o' = Some a' ∧ f a' = f a.
Proof. intros He ->. destruct o' as [a'|]; [|done]. injection He as He. eauto. Qed.

Lemma quiet_rep L T s s' R cur : core_rep L T s R cur → quiet s s' → core_rep L T s' R cur.
Proof.
  intros [Hok Hrun Hsub Hflat Hgood (x & Hr & Hlk & Hcu & Hn) (c & Hc & Hcc & Hh) Hcur Hct Hmm Hlv]
    [Hok' Hon Hcf Hrq Ht Hcu' Hlv']. split; [auto| |done| | | | |done|by rewrite Hcu'|by rewrite Ht|auto].
  - intros p. rewrite Hrun. symmetry. by apply same_on_runnable.
  - intros p Hp. destruct (Hflat p Hp) as (? & ? & ? & He). split_and!; [done..|]. by apply (same_on_dom s).
  - rewrite Ht. exact Hgood.
  - destruct (Hrq x Hr) as (x' & Hr' & Hl' & Hf). exists x'. rewrite Hl', !Hf by by_decide. done.
  - destruct (fmap_Some_curr _ _ _ c (Hcf here) Hc) as (c' & Hc' & [= He1 He2]).
    exists c'. split; [done|]. split; congruence.
Qed.

Lemma wp_quiet_clock s x : rqs s !! here = Some x → wp (update_rq_clock here) s (λ _ s', quiet s s').
Proof.
  intros Hr. eapply wp_rq_clock; [exact Hr|]. intros w x' Hx. split; try done.
  - intros Hok. by eapply with_rq_ok.
  - intros y Hy. simplify_eq. exists x'. split; [apply lookup_insert_eq|done].
Qed.

Lemma charged_quiet s s' q c m : sched_ok s → cfs s !! q = Some c → charged s s' q c m → quiet s s'.
Proof.
  intros Hok Hq Hch. pose proof (ch_same _ _ _ _ _ Hch) as Hsame.
  destruct (ch_rest _ _ _ _ _ Hch) as (Hr & Ht & _ & _ & _ & _ & Hcu & _). split; [|apply Hsame| | |done|done|].
  - intros _. by eapply charged_ok.
  - intros q'. rewrite (ch_cfs _ _ _ _ _ Hch). destruct (decide (q' = q)) as [->|Hne].
    + by rewrite lookup_insert_eq, Hq.
    + by rewrite lookup_insert_ne.
  - intros x Hx. exists x. rewrite Hr. split; [done|]. by split.
  - intros Hl. eapply hints_live_same; [exact Hl| |apply Hsame]. rewrite (sq_hints _ _ Hsame).
    apply hints_from_refl.
Qed.

Lemma quiet_clear s q se : (is_Some (ses s !! se)) →
  quiet s (with_hints (clear_buddies q se (hints s)) s).
Proof.
  intros He. pose proof (clear_buddies_law q se (hints s)) as Hh. split; try done.
  - intros Hok. eapply (cm_ok s), (calm_hints s _ se); [done|done|]. by apply hints_from_weaken.
  - by intros x Hx; exists x; split; [|split].
  - intros Hl. by eapply hints_live_same; [exact Hl|exact Hh|].
Qed.

Lemma quiet_skip s se : parent_entity se = NULL → is_Some (ses s !! se) →
  quiet s (with_hints (set_skip_buddy se (hints s)) s).
Proof.
  intros Hp He. split; try done.
  - intros Hok. eapply (cm_ok s), (calm_hints s _ se); [done|done|]. by apply set_skip_buddy_law.
  - by intros x Hx; exists x; split; [|split].
  - intros Hl b Hb. destruct (set_skip_buddy_only _ _ _ _ Hb) as (b0 & Hb0 & -> & ->). by apply (Hl b0).
Qed.

Lemma wp_quiet_yield L T s R cur : core_rep L T s R cur →
  wp (yield_task_fair here) s (λ _ s', quiet s s').
Proof.
  intros [Hok _ _ Hflat Hgood (x & Hr & _ & Hcu & _) (c & Hc & _) Hcur _ _ _].
  destruct (Hflat cur Hcur) as (Hn & Hp & Hq & He). destruct (Hgood cur Hcur) as (t & Ht & _).
  unfold yield_task_fair. eapply wp_bind, wp_rq_get; [done|]. rewrite Hcu, task_cfs_rq_law, Hq.
  eapply wp_bind, wp_rq_get; [done|]. destruct (_ =? 1); [apply quiet_refl|].
  apply wp_bind, wp_modify. pose proof (quiet_clear s here cur He) as Hq1. set (s1 := with_hints _ s) in *.
  eapply wp_bind, wp_task_get; [done|]. apply wp_bind, (wp_mono _ _ (λ _ s2, quiet s s2)).
  - destruct (negb _); [|done]. eapply wp_bind, wp_mono; [by eapply wp_quiet_clock|].
    intros ? s2 Hq2; cbv beta in Hq2. pose proof (quiet_trans _ _ _ Hq1 Hq2) as Hq02.
    destruct (fmap_Some_curr _ _ _ c (qt_cfs _ _ Hq02 here) Hc) as (c2 & Hc2 & _).
    pose proof (qt_ok _ _ Hq02 Hok) as Hok2.
    eapply wp_bind, wp_update_curr_charged; [done..|]. intros s3 m Hch. apply wp_acct. intros w.
    eapply quiet_trans; [exact Hq02|]. eapply quiet_trans; [by eapply charged_quiet|]. apply quiet_world.
  - intros ? s2 Hq2; cbv beta in Hq2. apply wp_modify. eapply quiet_trans; [exact Hq2|].
    apply quiet_skip; [done|]. by apply (same_on_dom s _ _ (qt_on _ _ Hq2)).
Qed.

(** ** Steps that queue or take off one task *)

(** [p] is queued ([d = v = 1]) or taken off ([d = -1], [v = 0]). *)
Record moved (d v p : Z) s s' : Prop := {
  mv_ok : sched_ok s';
  mv_on : on_rq <$> ses s' !! p = Some v;
  mv_off : ∀ e, e ≠ p → on_rq <$> ses s' !! e = on_rq <$> ses s !! e;
  mv_cfs : bumped d s s' [here];
  mv_rq : ∀ x, rqs s !! here = Some x → ∃ x', rqs s' !! here = Some x' ∧
    (free_lock (rq_lock x) → free_lock (rq_lock x')) ∧ rqfields x' rq_curr = rqfields x rq_curr ∧
    rqfields x' rq_nr_running = rqfields x rq_nr_running +[32] d;
  mv_tasks : ∀ q t, tasks s !! q = Some t → tasks s' !! q = Some t ∨ tasks s' !! q = Some (running t);
  mv_current : current_task s' = current_task s;
  mv_live : hints_live s here → hints_live s' here
}.

Lemma moved_rep T s s' R R' cur d v p : core_rep free_lock T s R cur → p ∈ T → moved d v p s s' →
  (∀ e, e ≠ p → e ∈ R' ↔ e ∈ R) → (p ∈ R' ↔ v ≠ 0) →
  Z.of_nat (size R) +[32] d = Z.of_nat (size R') → core_rep free_lock T s' R' cur.
Proof.
  intros [Hok Hrun Hsub Hflat Hgood (x & Hr & Hlk & Hcu & Hn) (c & Hc & Hcc & Hh) Hcur Hct Hmm Hlv] HpT
    [Hok' Hon Hoff Hb Hrq Ht Hct' Hlv'] HR' Hp Hsize.
  assert (∀ e, is_Some (ses s !! e) → is_Some (ses s' !! e)) as Hdom.
  { intros e He. destruct (decide (e = p)) as [->|Hne]; [by destruct (ses s' !! p)|].
    specialize (Hoff e Hne). destruct He as [y Hy]. rewrite Hy in Hoff. by destruct (ses s' !! e). }
  split; [done| | | | | | |done|by rewrite Hct'| |auto].
  - intros e. destruct (decide (e = p)) as [->|Hne].
    + rewrite Hp. unfold runnable. destruct (Hflat p HpT) as (_ & _ & -> & _).
      destruct (ses s' !! p) as [y|]; [|done]. injection Hon as <-. naive_solver.
    + rewrite (HR' e Hne), Hrun. unfold runnable. specialize (Hoff e Hne).
      destruct (ses s' !! e) as [y'|], (ses s !! e) as [y|]; simplify_eq/=; [|naive_solver..].
      split; intros (? & z & [= <-] & ?); (split; [done|]); eexists; split; try done; congruence.
  - intros e He. destruct (decide (e = p)) as [->|Hne]; [done|]. by apply Hsub, HR'.
  - intros e He. destruct (Hflat e He) as (? & ? & ? & ?). split_and!; auto.
  - intros e He. destruct (Hgood e He) as (t & Ht0 & Hg). destruct (Ht e t Ht0) as [Ht1|Ht1]; [by exists t|].
    exists (running t). split; [done|by apply running_good].
  - destruct (Hrq x Hr) as (x' & Hr' & Hl' & Hcu' & Hn'). exists x'. split_and!; [done|auto|congruence|].
    by rewrite Hn', Hn.
  - specialize (Hb here). rewrite decide_True in Hb by (by left). rewrite Hc in Hb.
    destruct (cfs s' !! here) as [c'|]; [|done]. injection Hb as Hb1 Hb2. exists c'.
    split; [done|]. split; [congruence|]. by rewrite Hb1, Hh.
  - destruct Hmm as (t & Ht0 & Hm). destruct (Ht cur t Ht0) as [Ht1|Ht1]; [by exists t|].
    exists (running t). split; [done|]. simpl. by rewrite upd_other.
Qed.

Lemma activated_moved d v s s' x p : cfs_rq_of p = here → rqs s !! here = Some x →
  activated d v s s' here x [p] [] → moved d v p s s'.
Proof.
  intros Hq Hr [Hok Hon Hoff Hb (x' & Hrq & Hlk & Hn & Hf) (Ht & Hc & _) Hlv]. simpl in Hb. rewrite Hq in Hb.
  split; [done|apply Hon; by left| |done| | |done|auto].
  - intros e He. apply Hoff. by intros ->%list_elem_of_singleton.
  - intros y Hy. simplify_eq. exists x'. rewrite Hrq, lookup_insert_eq, Hlk. split_and!; [done|done| |done].
    apply Hf. by_decide.
  - intros q t Htq. left. by rewrite Ht.
Qed.

Lemma woken_moved s s' x p t : cfs_rq_of p = here → rqs s !! here = Some x → tasks s !! p = Some t →
  woken s s' p here t x [p] [] → moved 1 1 p s s'.
Proof.
  intros Hq Hr Htp [Hok Hon Hoff Hb (x' & Hrq & Hlk & Hn & Hf) Ht (Hc & _) Hlv]. simpl in Hb. rewrite Hq in Hb.
  split; [done|apply Hon; by left| |done| | |done|auto].
  - intros e He. apply Hoff. by intros ->%list_elem_of_singleton.
  - intros y Hy. simplify_eq. exists x'. rewrite Hrq, lookup_insert_eq. split_and!; [done|done| |done].
    apply Hf. by_decide.
  - intros q t' Htq. rewrite Ht. destruct (decide (q = p)) as [->|Hne].
    + right. rewrite lookup_insert_eq. congruence.
    + left. by rewrite lookup_insert_ne.
Qed.

Lemma rep_idle L T s R cur p : core_rep L T s R cur → p ∈ T → p ∉ R → on_rq <$> ses s !! p = Some 0.
Proof.
  intros Hrep Hp HpR. destruct (cr_flat _ _ _ _ _ Hrep p Hp) as (_ & _ & Hq & [y Hy]).
  rewrite (cr_run _ _ _ _ _ Hrep) in HpR. rewrite Hy. simpl. f_equal.
  destruct (decide (on_rq y = 0)) as [|Hon]; [done|]. exfalso. apply HpR. split; [done|by exists y].
Qed.

(** The counters do not wrap. *)
Lemma size_insert T R p : Z.of_nat (size T) < 2 ^ 32 → R ⊆ T → p ∈ T → p ∉ R →
  Z.of_nat (size R) +[32] 1 = Z.of_nat (size ({[p]} ∪ R)).
Proof.
  intros HT Hsub Hp HpR. assert (size ({[p]} ∪ R) ≤ size T)%nat as Hle by (apply subseteq_size; set_solver).
  rewrite size_union, size_singleton in * by set_solver. rewrite wrap_small; lia.
Qed.

Lemma size_delete T R p : Z.of_nat (size T) < 2 ^ 32 → R ⊆ T → p ∈ R →
  Z.of_nat (size R) +[32] (-1) = Z.of_nat (size (R ∖ {[p]})).
Proof.
  intros HT Hsub Hp. pose proof (subseteq_size _ _ Hsub).
  assert (size R = S (size (R ∖ {[p]}))) as Hs.
  { rewrite (union_difference_L {[p]} R) at 1 by set_solver. rewrite size_union, size_singleton by set_solver. lia. }
  rewrite wrap_small; lia.
Qed.

(** ** Each call *)

Context (Hthr : ∀ w q, cfs_rq_throttled w q = false) (Hfuel : (1 < fuel)%nat).
Context (T : gset Z) (HT : Z.of_nat (size T) < 2 ^ 32).

Lemma wp_op_activate s R cur p flags : core_rep free_lock T s R cur → p ∈ T → p ∉ R →
  wp (activate_task fuel here p flags) s (λ _ s', core_rep free_lock T s' ({[p]} ∪ R) cur).
Proof.
  intros Hrep Hp HpR. pose proof (rep_idle _ _ _ _ _ _ Hrep Hp HpR) as Hidle.
  pose proof Hrep as [Hok _ Hsub Hflat Hgood (x & Hr & _) (c & Hc & _) _ _ _ _].
  destruct (Hflat p Hp) as (Hn & Hpar & Hq & He). destruct (Hgood p Hp) as (t & Ht & Hcl & _).
  eapply (wp_activate_task fuel s here p t x flags [p] []); [done..|by split_and!|apply NoDup_singleton| | | |done|].
  - intros e ->%list_elem_of_singleton. rewrite Hq. by exists c.
  - by intros e ->%list_elem_of_singleton.
  - by intros e ?%not_elem_of_nil.
  - intros s' Hac. eapply (moved_rep T s s' R _ cur 1 1 p); [done|done|by eapply activated_moved| | |by apply (size_insert T)].
    + intros e Hne. clear -Hne. set_solver.
    + clear. set_solver.
Qed.

Lemma wp_op_wake s R cur p : core_rep free_lock T s R cur → p ∈ T → p ∉ R →
  wp (wake_up_new_task fuel p) s (λ _ s', core_rep free_lock T s' ({[p]} ∪ R) cur).
Proof.
  intros Hrep Hp HpR. pose proof (rep_idle _ _ _ _ _ _ Hrep Hp HpR) as Hidle.
  pose proof Hrep as [Hok _ Hsub Hflat Hgood (x & Hr & Hlk & _) (c & Hc & _) _ _ _ _].
  destruct (Hflat p Hp) as (Hn & Hpar & Hq & He). destruct (Hgood p Hp) as (t & Ht & Hcl & Hcpu & _).
  rewrite <-Hcpu in Hr.
  eapply (wp_wake_up_new_task fuel s p t x [p] []); [done..|by split_and!|apply NoDup_singleton| | | |done|].
  - intros e ->%list_elem_of_singleton. rewrite Hq. by exists c.
  - by intros e ->%list_elem_of_singleton.
  - by intros e ?%not_elem_of_nil.
  - rewrite Hcpu in Hr |- *. intros s' Hwo.
    eapply (moved_rep T s s' R _ cur 1 1 p); [done|done|by eapply woken_moved| | |by apply (size_insert T)].
    + intros e Hne. clear -Hne. set_solver.
    + clear. set_solver.
Qed.

Lemma wp_op_deactivate s R cur p flags : core_rep free_lock T s R cur → p ∈ R →
  wp (deactivate_task fuel here p flags) s (λ _ s', core_rep free_lock T s' (R ∖ {[p]}) cur).
Proof.
  intros Hrep HpR. pose proof Hrep as [Hok Hrun Hsub Hflat Hgood (x & Hr & _) (c & Hc & _) _ _ _ _].
  pose proof (Hsub p HpR) as Hp.
  destruct (Hflat p Hp) as (Hn & Hpar & Hq & He). destruct (Hgood p Hp) as (t & Ht & Hcl & _).
  eapply (wp_deactivate_task fuel s here p t x flags [p]); [done..|by split_and!|apply NoDup_singleton| |done|].
  - intros e ->%list_elem_of_singleton. rewrite <-Hq in Hc. split; [by exists c|].
    split; [rewrite Hq; by apply Hrun|]. intros _. by exists t.
  - intros l1 l2 s' Heq Hne Hac.
    assert (l1 = [p] ∧ l2 = []) as [-> ->].
    { destruct l1 as [|e [|]]; [by discriminate (Hne eq_refl)|by injection Heq as <- <-|by injection Heq]. }
    eapply (moved_rep T s s' R _ cur (-1) 0 p); [done|done|by eapply activated_moved| | |by apply (size_delete T)].
    + intros e Hne'. clear -Hne'. set_solver.
    + clear. set_solver.
Qed.

(** The queue holds the runnable tasks. *)
Lemma queue_len_size s c R : sched_ok s → cfs s !! here = Some c → (∀ e, e ∈ R ↔ runnable s here e) →
  queue_len s c = Z.of_nat (size R).
Proof.
  intros Hok Hc HR. pose proof (so_cfs s Hok here c Hc) as [Hnd _ Hmem Hcu _].
  set (l := inorder (tasks_timeline c)) in *.
  assert (∀ e, e ∈ R ↔ (e ≠ curr c ∧ e ∈ R) ∨ (e = curr c ∧ curr_on s c = true)) as Hsplit.
  { intros e. rewrite HR. unfold curr_on. destruct (decide (e = curr c)) as [->|Hne]; [|naive_solver].
    unfold runnable. destruct (ses s !! curr c) as [y|] eqn:Hy; [|naive_solver].
    assert (cfs_rq_of (curr c) = here) as ->.
    { apply Hcu. intros Hn. rewrite Hn in Hy. by rewrite (so_null s Hok) in Hy. }
    destruct (Z.eqb_spec (on_rq y) 0); simpl; naive_solver. }
  assert (R = list_to_set l ∪ (if curr_on s c then {[curr c]} else ∅)) as ->.
  { apply set_eq. intros e. rewrite elem_of_union, elem_of_list_to_set, Hmem, (Hsplit e), HR.
    destruct (curr_on s c); [rewrite elem_of_singleton|]; naive_solver set_solver. }
  unfold queue_len. fold l. destruct (curr_on s c).
  - rewrite size_union, size_list_to_set, size_singleton by (done || (clear -Hmem; set_solver)). lia.
  - rewrite union_empty_r_L, size_list_to_set by done. lia.
Qed.

(** Tasks after a switch. *)
Lemma handed_good ts ts' prev next p : prev ≠ next → handed ts ts' prev next →
  (∃ t, ts !! p = Some t ∧ good_task t) → ∃ t, ts' !! p = Some t ∧ good_task t.
Proof.
  intros Hne (tp & tn & tp' & tn' & Hp & Hn & -> & [Hp1 Hp2] & [Hn1 Hn2]) (t & Ht & Hc & Hl & Hd & Hm).
  destruct (decide (p = prev)) as [->|Hpp]; [|destruct (decide (p = next)) as [->|Hpn]]; simplify_map_eq.
  - exists tp'. split; [done|]. unfold good_task. rewrite !Hp2 by done. split_and!; [done..|].
    rewrite Hp1. unfold kept_mm. intros Hmm. rewrite (proj2 (Z.eqb_neq _ _) Hmm). by apply Hm.
  - exists tn'. split; [done|]. unfold good_task. rewrite !Hn2 by done. split_and!; [done..|].
    rewrite Hn1. unfold borrowed. intros Hmm. rewrite (proj2 (Z.eqb_neq _ _) Hmm). by apply Hm.
  - by exists t.
Qed.

Lemma handed_mm ts ts' prev next : prev ≠ next → handed ts ts' prev next →
  (∃ t, ts !! prev = Some t ∧ tfields t t_active_mm ≠ NULL) → (∃ t, ts !! next = Some t ∧ good_task t) →
  ∃ t, ts' !! next = Some t ∧ tfields t t_active_mm ≠ NULL.
Proof.
  intros Hne (tp & tn & tp' & tn' & Hp & Hn & -> & _ & [Hn1 _]) (t & Ht & Hm) (t' & Ht' & _ & _ & _ & Hg).
  simplify_map_eq. exists tn'. split; [done|]. rewrite Hn1. unfold borrowed.
  destruct (Z.eqb_spec (tfields tn t_mm) NULL); auto.
Qed.

Lemma wp_op_schedule s R cur : core_rep free_lock T s R cur → R ≠ ∅ →
  wp (schedule fuel) s (λ _ s', ∃ cur', cur' ∈ R ∧ core_rep free_lock T s' R cur').
Proof.
  intros [Hok Hrun Hsub Hflat Hgood (x & Hr & Hlk & Hcu & Hn) (c & Hc & Hcc & Hh) Hcur Hct Hmm Hlv] HR.
  destruct (Hflat cur Hcur) as (Hcn & _). destruct (Hgood cur Hcur) as (t & Ht & Hcl & _ & Hd & _).
  destruct Hmm as (t' & Ht' & Hm). assert (t' = t) as -> by congruence. clear Ht'.
  assert (nr_running c ≠ 0) as Hnz.
  { rewrite (co_nr s here c (so_cfs s Hok here c Hc)), (queue_len_size s c R Hok Hc Hrun).
    pose proof (subseteq_size _ _ Hsub). rewrite wrap_small by lia.
    assert (size R ≠ 0%nat) by by intros ?%size_empty_inv%leibniz_equiv. lia. }
  eapply (wp_schedule fuel s x c); [lia|done|exact Hr|done|exact Hc|congruence|done| |congruence| | | |].
  - unfold pick_legal. rewrite decide_False by congruence. exists t. rewrite Hcu. split; [done|].
    by rewrite decide_True.
  - intros t1 Ht1. rewrite Hcu in Ht1. by simplify_eq.
  - intros e _ Hlive. destruct (Hgood e) as (t1 & Ht1 & _); [apply Hsub, Hrun, Hlive, Hlv|]. by exists t1.
  - intros t1 Ht1. rewrite Hcu in Ht1. by simplify_eq.
  - intros next s' [[Hnn Hon] Hcu' (x' & Hrq & Hlk' & Hcur' & _ & Hnr) Hcnt Hts _ Hok' Hson _ Hct' Hlive'].
    destruct (Hlive' Hlv) as [Hnrun Hlv'].
    assert (∀ p, p ∈ R ↔ runnable s' here p) as Hrun'.
    { intros p. rewrite Hrun. symmetry. by apply same_on_runnable. }
    assert (next ∈ R) as HnR by by apply Hrun'.
    exists next. split; [done|].
    assert (∀ p, p ∈ T → ∃ t, tasks s' !! p = Some t ∧ good_task t) as Hgood'.
    { intros p Hp. destruct (decide (rqfields x rq_curr = next)) as [|Hne]; [rewrite Hts; by apply Hgood|].
      by apply (handed_good _ _ _ _ p Hne Hts), Hgood. }
    split; [done|done|done| |done| | |by apply Hsub|by rewrite Hct'| |done].
    + intros p Hp. destruct (Hflat p Hp) as (? & ? & ? & ?). split_and!; [done..|]. by apply (same_on_dom s).
    + exists x'. rewrite Hrq, lookup_insert_eq. split_and!; [done..|congruence].
    + fold here in Hcu', Hcnt. rewrite Hc in Hcnt. destruct (cfs s' !! here) as [c'|]; [|done]. exists c'.
      injection Hcu' as ->. injection Hcnt as _ ->. done.
    + destruct (decide (rqfields x rq_curr = next)) as [<-|Hne]; [rewrite Hts, Hcu; by exists t|].
      apply (handed_mm _ _ _ _ Hne Hts); [rewrite Hcu; by exists t|]. by apply Hgood, Hsub.
Qed.

(** Taking and releasing the lock of the runqueue. *)
Lemma relock_rep (L L' : spinlock_t → Prop) s R cur x l w b : core_rep L T s R cur →
  rqs s !! here = Some x → L' l →
  core_rep L' T (with_world w (with_irqs b (with_rq here (relock l x) s))) R cur.
Proof.
  intros [Hok Hrun Hsub Hflat Hgood (y & Hy & _ & Hcu & Hn) Hcf Hcur Hct Hmm Hlv] Hr Hl. assert (y = x) as -> by congruence.
  split; try done.
  - eapply sched_ok_same; [exact Hok|done..|]. intros q Hq. simpl. rewrite lookup_insert_is_Some'. by right.
  - exists (relock l x). split; [apply lookup_insert_eq|]. by split_and!.
Qed.

Lemma running_rep L s R cur p t : core_rep L T s R cur → tasks s !! p = Some t →
  core_rep L T (with_tasks (<[p := running t]> (tasks s)) s) R cur.
Proof.
  intros [Hok Hrun Hsub Hflat Hgood Hrq Hcf Hcur Hct (t' & Ht' & Hm) Hlv] Ht. split; try done.
  - eapply sched_ok_same; [exact Hok|done..].
  - intros q Hq. destruct (Hgood q Hq) as (tq & Htq & Hg). simpl. destruct (decide (q = p)) as [->|Hne].
    + exists (running t). rewrite lookup_insert_eq. split; [done|]. apply running_good. congruence.
    + exists tq. by rewrite lookup_insert_ne.
  - simpl. destruct (decide (cur = p)) as [->|Hne].
    + exists (running t). rewrite lookup_insert_eq. split; [done|]. simpl. rewrite upd_other by done. congruence.
    + exists t'. by rewrite lookup_insert_ne.
Qed.

Lemma wp_op_sched_yield s R cur : core_rep free_lock T s R cur → R ≠ ∅ →
  wp (sys_sched_yield fuel) s (λ _ s', ∃ cur', cur' ∈ R ∧ core_rep free_lock T s' R cur').
Proof.
  intros Hrep HR. pose proof (cr_rq _ _ _ _ _ Hrep) as (x & Hr & (Hm & Ho & Hl) & _).
  unfold sys_sched_yield.
  destruct (this_rq_lock_law s x Hr Hm Ho Hl) as (w & b & l & Hrun & Hlm & Hlo).
  apply wp_bind. eapply wp_Ret; [exact Hrun|].
  pose proof (relock_rep _ held_lock s R cur x l w b Hrep Hr ltac:(done)) as Hrep1.
  set (s1 := with_world w _) in *. change (with_world _ _) with s1.
  apply wp_bind, wp_acct. intros w2. pose proof (quiet_rep _ _ _ _ _ _ Hrep1 (quiet_world s1 w2)) as Hrep2.
  set (s2 := with_world w2 s1) in *. apply wp_bind, wp_gets.
  destruct (cr_good _ _ _ _ _ Hrep2 _ (cr_current _ _ _ _ _ Hrep2)) as (t & Ht & Hcl & _).
  eapply wp_bind, wp_task_get; [exact Ht|]. rewrite Hcl. unfold dispatch.
  rewrite (proj2 (Z.eqb_neq _ _) fair_sched_class_law), Z.eqb_refl.
  eapply wp_bind, wp_mono; [exact (wp_quiet_yield _ _ _ _ _ Hrep2)|]. intros ? s3 Hq3; cbv beta in Hq3.
  pose proof (quiet_rep _ _ _ _ _ _ Hrep2 Hq3) as Hrep3. apply wp_bind, wp_acct. intros w4.
  pose proof (quiet_rep _ _ _ _ _ _ Hrep3 (quiet_world s3 w4)) as Hrep4. set (s4 := with_world w4 s3) in *.
  destruct (cr_rq _ _ _ _ _ Hrep4) as (x4 & Hr4 & Hheld & _).
  eapply wp_bind, wp_rq_spin_unlock; [exact Hr4|done|]. set (l5 := released _).
  pose proof (relock_rep _ free_lock s4 R cur x4 l5 (world s4) (irqs_on s4) Hrep4 Hr4 (held_released _ Hheld)) as Hrep5.
  eapply wp_bind, wp_mono; [exact (wp_op_schedule _ R cur Hrep5 HR)|]. intros ? s6 (cur' & Hcur' & Hrep6); clear Hrep5.
  apply wp_bind, wp_acct. intros w7. apply wp_ret. exists cur'. split; [done|].
  exact (quiet_rep _ _ _ _ _ _ Hrep6 (quiet_world s6 w7)).
Qed.

Lemma wp_op_yield s R cur : core_rep free_lock T s R cur → R ≠ ∅ →
  wp (yield fuel) s (λ _ s', ∃ cur', cur' ∈ R ∧ core_rep free_lock T s' R cur').
Proof.
  intros Hrep HR. unfold yield. apply wp_bind, wp_gets.
  destruct (cr_good _ _ _ _ _ Hrep _ (cr_current _ _ _ _ _ Hrep)) as (t & Ht & _).
  eapply wp_bind, wp_task_set; [exact Ht|]. eapply wp_bind, wp_mono.
  - eapply (wp_op_sched_yield _ R cur); [|done]. by apply running_rep.
  - intros ? s' Hs'. by apply wp_ret.
Qed.

(** Every call that may be made returns and does what the abstract machine
    says. *)
Lemma wp_run_op s R cur k : core_rep free_lock T s R cur → may T R k →
  wp (run_op k) s (λ _ s', ∃ cur', turn R cur k cur' ∧ core_rep free_lock T s' (ready_after R k) cur').
Proof.
  intros Hrep Hk. destruct k as [p flags|p flags|p| | | |]; simpl in Hk |- *.
  - eapply wp_mono; [destruct Hk; by apply (wp_op_activate s R cur p flags)|]. eauto.
  - eapply wp_mono; [by apply (wp_op_deactivate s R cur p flags)|]. eauto.
  - eapply wp_mono; [destruct Hk; by apply (wp_op_wake s R cur p)|]. eauto.
  - destruct (cr_rq _ _ _ _ _ Hrep) as (x & Hr & _). eapply wp_mono; [by eapply wp_quiet_clock|].
    intros ? s' Hq; cbv beta in Hq. exists cur. split; [done|]. by eapply quiet_rep.
  - by eapply wp_op_schedule.
  - eapply wp_bind, wp_mono; [by eapply wp_op_sched_yield|]. intros ? s' Hs'. by apply wp_ret.
  - by eapply wp_op_yield.
Qed.

(** C3: the scheduler core refines a set of runnable tasks and a current one:
    whatever sequence of wake-ups, activations, deactivations, clock updates,
    switches and yields is made, each where the abstract machine allows it,
    every call returns; afterwards the runnable tasks are exactly those the
    sequence leaves, every switch on the way chose a runnable one, which is
    the current task of the runqueue and of the fair queue, both counters
    equal the number of runnable tasks, the queues are well formed, the lock
    is free, and the current task has a memory descriptor to lend. *)
Theorem core_refines s R cur (ks : list core_op) (Hrep : core_rep free_lock T s R cur)
    (Hmay : may_all T R ks) :
  ∃ s' cur', run_ops ks s = Ret (tt, s') ∧ turns R cur ks cur' ∧
    core_rep free_lock T s' (ready_end R ks) cur'.
Proof.
  enough (wp (run_ops ks) s (λ _ s', ∃ cur', turns R cur ks cur' ∧
    core_rep free_lock T s' (ready_end R ks) cur')) as (s' & Hrun & cur' & HQ)%wp_returns_tt by eauto.
  revert s R cur Hrep Hmay. induction ks as [|k ks IH]; intros s R cur Hrep Hmay; simpl.
  - apply wp_ret. by exists cur.
  - destruct Hmay as [Hk Hks]. eapply wp_bind, wp_mono; [by apply wp_run_op|].
    intros ? s1 (cur1 & Ht1 & Hrep1). eapply wp_mono; [by eapply IH|].
    intros ? s2 (cur2 & Ht2 & Hrep2). eauto.
Qed.
End core.
