(* ===== verification/SchedWitness.v ===== *)
(** The theorems of [SchedTasks], [SchedTypes], [SchedSwitch] and [SchedCore]
    at concrete states: an allocator that hands out new addresses, and the library of [CfsWitness]. *)
From stdpp Require Import base gmap list strings fin_maps sorting.
From S2P Require Import Prelude CTypes ListHead ListTheory Spinlock SchedData Cfs CfsTheory CfsOps CfsSpec CfsGroups CfsWitness Sched SchedTasks SchedTypes SchedSwitch SchedCore.

(** * A library *)

#[export] Instance linux_core : CoreLib := {|
  atomic_inc := λ n, swrap 32 (n + 1);
  atomic_dec_and_test := λ n, (swrap 32 (n - 1), bool_decide (swrap 32 (n - 1) = 0));
  sizeof_task_struct := 9000; SIGCHLD := 17; DEFAULT_TIMESLICE := 100; return_address := 7;
  TASK_DEAD := 64; TASK_NORMAL := 3; RB_ROOT := rb_null; RB_CLEAR_NODE := 1; sigemptyset := 0;
  init_waitqueue_head := 0;
  task_contributes_to_load := λ t, tfields t t_state =? 2;
  check_preempt_curr := λ _ _ _, mret tt;
  sched_classes := [77];
  other_enqueue := λ _ _ _ _, mret tt; other_dequeue := λ _ _ _ _, mret tt;
  other_pick := λ _ _ _, mret NULL; other_yield := λ _ _, mret tt;
  switch_to := λ prev _, mret prev;
  this_rq := 0; this_rq_lock := on_rq_lock 0 (on_lock (spin_lock smp_processor_id 7 1));; modify (with_irqs false);; mret 0; nr_uninterruptible_bits := 64;
  finish_lock_switch := λ r _, on_rq_lock r (on_lock (spin_unlock smp_processor_id));; modify (with_irqs true);
  pi_lock := λ _, mret tt; pi_unlock := λ _, mret tt;
  ttwu_remote := λ _, mret true; ttwu_queue := λ _ _, mret tt
|}.

#[export] Instance linux_core_laws : CoreLaws.
Proof.
  split; try done.
  - intros r prev s x Hr Hm Ho. exists (world s). unfold finish_lock_switch, linux_core.
    set (s1 := with_irqs (irqs_on s) (with_rq r (relock (released (rq_lock x)) x) s)).
    assert (∃ s', on_rq_lock r (on_lock (spin_unlock smp_processor_id)) s = Ret (tt, s') ∧ s' = s1) as (s' & Hrun & ->).
    { apply wp_returns_tt. by apply (wp_rq_spin_unlock s r x). }
    by rewrite (bind_Ret _ _ _ _ _ Hrun).
  - intros prev next s. exists (world s). by destruct s.
  - intros r p flags s _. exists (world s), (hints s). split; [by destruct s|]. apply hints_from_refl.
  - intros s x Hr Hm Ho Hl. exists (world s), false, (acquired smp_processor_id 7 (rq_lock x)).
    split; [|by apply (free_acquired _ 7)].
    enough (wp (this_rq_lock) s (λ a s', a = 0 ∧ s' = with_world (world s) (with_irqs false
      (with_rq 0 (relock (acquired smp_processor_id 7 (rq_lock x)) x) s)))) as (? & ? & -> & -> & ->)%wp_returns by done.
    unfold this_rq_lock, linux_core.
    change (spin_lock smp_processor_id 7 1) with (spin_lock smp_processor_id (@return_address _ linux_core) 1).
    eapply wp_bind, (wp_rq_spin_lock 1 s 0 x); [exact Hr|done|lia|].
    apply wp_bind, wp_modify, wp_ret. done.
Qed.

#[export] Instance bump_allocator : Allocator := {|
  kmalloc := λ size w, (w + size, w + 1); kfree := λ _ w, w
|}.

(** * States *)

Definition field_task (l : list (task_field * Z)) : task_struct :=
  Task (assign l (λ _, 0)) "task" (SPINLOCK_INIT "alloc").

(** A task of normal priority with an address space and a stack. *)
Definition user_task : task_struct := field_task
  [(t_sched_class, 77); (t_static_prio, 120); (t_normal_prio, 120); (t_usage, 2); (t_stack, 5000);
   (t_mm, 900); (t_active_mm, 900)].

(** Task 100 runs, 200 waits, 400 sleeps; the list of all tasks is empty. *)
Definition sw : st := {|
  rqs := rqs s0;
  cfs := {[ 0 := CfsRq (LoadWeight 1359 0) 2 2 5000000000 (rb_node true rb_null 200 rb_null) 200 100 ]};
  hints := {[ 0 := no_hints ]};
  ses := <[ 100 := one_task 1024 4000000 5000000010 1 ]> (<[ 200 := one_task 335 0 5000000020 1 ]>
    {[ 400 := one_task 1024 0 4990000000 0 ]});
  tasks := <[ 100 := user_task ]> (<[ 200 := user_task ]> {[ 400 := user_task ]});
  stacks := {[ 5000 ]}; lists := {[ task_list := self_loop task_list ]};
  task_list_lock := SPINLOCK_INIT "tasks"; next_pid := 5; current_task := 100;
  irqs_on := true; jiffies := 0; world := 10000000
|}.

Lemma sw_ok : sched_ok sw.
Proof. apply sched_okb_spec. vm_compute. reflexivity. Qed.

Lemma sw_all_tasks : all_tasks sw [] ∅.
Proof.
  split; simpl.
  - intros hd l [<- <-]%lookup_singleton_Some. split; [|apply NoDup_singleton].
    split; [split; reflexivity|done].
  - by intros hd1 l1 hd2 l2 x [<- <-]%lookup_singleton_Some [<- <-]%lookup_singleton_Some.
  - by intros x ?%elem_of_empty.
  - by intros x hd l ?%elem_of_empty.
Qed.

Lemma sw_fresh p : p ∉ [100; 200; 400] → fresh_task sw p.
Proof.
  intros Hp. assert (p ≠ 100 ∧ p ≠ 200 ∧ p ≠ 400) as (? & ? & ?) by set_solver.
  split; [|split]; [..|intros f; by apply lookup_singleton_ne]; simpl;
    by rewrite !lookup_insert_ne, lookup_singleton_ne by congruence.
Qed.

(** * Witnesses *)

Lemma pid_cycle_witness : ∃ pids s', alloc_pids 10 sw = Ret (pids, s') ∧ NoDup pids.
Proof.
  destruct (pid_cycle sw 10) as (pids & s' & Hrun & _ & _ & Hnd & _); [by_decide|].
  exists pids, s'. split; [exact Hrun|]. apply Hnd. by_decide.
Defined.

Lemma alloc_task_struct_cases_witness : ∃ s', alloc_task_struct sw = Ret (10009000, s').
Proof.
  destruct (alloc_task_struct_cases sw 10009000 10016385 10000001 10000002) as (r & s' & Hrun & Hr);
    [by_decide|reflexivity|reflexivity|intros _; apply sw_fresh; by_decide|].
  exists s'. destruct Hr as [-> _]. exact Hrun.
Defined.

Lemma task_refcount_witness :
  ∃ s', run_refs 200 [Get; Put; Put; Put] sw = Ret (tt, s') ∧ tasks s' !! 200 = None.
Proof.
  exists (without_task 200 5000 sw). split; [|reflexivity].
  exact (task_refcount sw 200 user_task [Get; Put; Put; Put] ltac:(done) eq_refl ltac:(by_decide)
    ltac:(by_decide) ltac:(by_decide)).
Defined.

Lemma dup_task_struct_stack_witness :
  ∃ s1 s2, dup_task_struct 200 sw = Ret (10009000, s1) ∧ put_task_struct 10009000 s1 = Ret (tt, s2) ∧
    free_task_struct 200 s2 = Fault.
Proof.
  destruct (dup_task_struct_stack sw 200 10009000 10016385 user_task (one_task 335 0 5000000020 1)
    10000001 10000002) as (s1 & t' & Hrun & _ & _ & _ & _ & _ & _ & _ & _ & _ & s2 & Hput & _ & Hfree);
    [by_decide|reflexivity|reflexivity|reflexivity|reflexivity|done|done|done|apply sw_fresh; by_decide
    |done|by_decide| |].
  { intros r x Hx. simpl in Hx. enough (tfields x t_stack = 5000) as -> by done.
    apply lookup_insert_Some in Hx as [[_ <-]|[_ Hx]]; [reflexivity|].
    apply lookup_insert_Some in Hx as [[_ <-]|[_ Hx]]; [reflexivity|].
    apply lookup_singleton_Some in Hx as [_ <-]. reflexivity. }
  exists s1, s2. split; [exact Hrun|]. split; [exact Hput|exact Hfree].
Defined.

(** The static data before [sched_init]: zeros. *)
Definition raw_rq : rq := Rq (SpinLock 0 0 0 "" 0) (λ _, 0).
Definition raw : st := {|
  rqs := {[ 0 := raw_rq ]}; cfs := {[ 0 := CfsRq (LoadWeight 0 0) 0 0 0 rb_null NULL NULL ]};
  hints := {[ 0 := no_hints ]}; ses := ∅; tasks := ∅; stacks := ∅;
  lists := <[ task_list := ListNode Null Null ]> {[ cfs_tasks 0 := ListNode Null Null ]};
  task_list_lock := SpinLock 0 0 0 "" 0; next_pid := 1; current_task := NULL;
  irqs_on := false; jiffies := 0; world := 10000000
|}.

(** The same with leftovers in everything [sched_init] assigns: it does not rely
    on the zeros there. *)
Definition stale : st :=
  with_cfs {[ 0 := CfsRq (LoadWeight 1024 7) 3 0 99 (rb_node true rb_null 200 rb_null) NULL NULL ]}
    (with_rqs {[ 0 := Rq (SpinLock 1 0 7 "" 0) (λ _, 42) ]} raw).

Lemma sched_init_establishes_witness : ∃ s', sched_init stale = Ret (tt, s') ∧ sched_ok s'.
Proof.
  destruct (sched_init_establishes stale (Rq (SpinLock 1 0 7 "" 0) (λ _, 42))
    (CfsRq (LoadWeight 1024 7) 3 0 99 (rb_node true rb_null 200 rb_null) NULL NULL))
    as (s' & x' & Hrun & _ & _ & _ & _ & _ & _ & _ & _ & _ & Hok & _);
    [reflexivity|reflexivity|reflexivity|reflexivity|reflexivity|reflexivity|reflexivity|done
    |by eexists|by eexists|].
  exists s'. split; [exact Hrun|exact Hok].
Defined.

(** A task whose node is in no list, before [sched_fork]. *)
Definition sfork : st := with_lists (<[ in_task 400 tasks_node := self_loop (in_task 400 tasks_node) ]>
  (lists sw)) sw.

Lemma sfork_all_tasks : all_tasks sfork [] {[ in_task 400 tasks_node ]}.
Proof.
  split; simpl.
  - intros hd l [<- <-]%lookup_singleton_Some. split; [|apply NoDup_singleton].
    split; [split; reflexivity|done].
  - by intros hd1 l1 hd2 l2 x [<- <-]%lookup_singleton_Some [<- <-]%lookup_singleton_Some.
  - intros x ->%elem_of_singleton. by eexists.
  - intros x hd l ->%elem_of_singleton [<- <-]%lookup_singleton_Some. by intros ?%list_elem_of_singleton.
Qed.

Lemma sched_fork_inherits_witness : ∃ s', sched_fork 5 400 sfork = Ret (tt, s').
Proof.
  destruct (sched_fork_inherits 5 sfork 400 user_task user_task (one_task 1024 0 4990000000 0) 1024 []
    {[ in_task 400 tasks_node ]}) as (s' & Hrun & _);
    [lia|done|reflexivity|reflexivity|reflexivity|by_decide|reflexivity|done|exact sfork_all_tasks|set_solver|].
  exists s'. exact Hrun.
Defined.

Lemma wake_up_new_task_queues_witness :
  ∃ s', wake_up_new_task 5 400 sw = Ret (tt, s') ∧ on_rq <$> ses s' !! 400 = Some 1.
Proof.
  destruct (wake_up_new_task_queues 5 sw 400 user_task (Rq (SPINLOCK_INIT "rq") (λ f, if decide (f = rq_curr) then 100 else 2))
    [400] []) as (s' & Hrun & Hw).
  - intros w q. reflexivity.
  - exact sw_ok.
  - reflexivity.
  - reflexivity.
  - reflexivity.
  - split; [reflexivity|]. split; [discriminate|reflexivity].
  - simpl. done.
  - by_decide.
  - intros e ->%list_elem_of_singleton. by eexists.
  - intros e ->%list_elem_of_singleton. reflexivity.
  - intros e ?%not_elem_of_nil. done.
  - simpl. lia.
  - exists s'. split; [exact Hrun|]. apply (wo_on _ _ _ _ _ _ _ _ Hw). left.
Defined.

Lemma new_task_never_runs_witness :
  ∃ s1, alloc_task_struct sw = Ret (10009000, s1) ∧ wake_up_new_task 5 10009000 s1 = Fault.
Proof.
  destruct (new_task_never_runs 5 sw 10009000 10016385 100 user_task 10000001 10000002
    (Rq (SPINLOCK_INIT "rq") (λ f, if decide (f = rq_curr) then 100 else 2)) 1024 [] ∅)
    as (s1 & s2 & Hrun & _ & _ & Hw & _);
    [lia|by_decide|reflexivity|reflexivity|done|done|apply sw_fresh; by_decide|reflexivity|reflexivity|done
    |reflexivity|reflexivity|by_decide|reflexivity|done|exact sw_all_tasks|].
  exists s1. split; [exact Hrun|exact Hw].
Defined.

Lemma schedule_switches_witness : ∃ next s', schedule 5 sw = Ret (tt, s') ∧ curr <$> cfs s' !! 0 = Some next.
Proof.
  destruct (schedule_switches 5 sw (Rq (SPINLOCK_INIT "rq") (λ f, if decide (f = rq_curr) then 100 else 2))
    (CfsRq (LoadWeight 1359 0) 2 2 5000000000 (rb_node true rb_null 200 rb_null) 200 100))
    as (next & s' & Hrun & Hs); [lia|exact sw_ok|reflexivity|done|reflexivity|reflexivity|done| |done| | | |].
  - unfold pick_legal. rewrite decide_False by done. exists user_task. split; [reflexivity|].
    rewrite decide_True by reflexivity. reflexivity.
  - intros t [= <-]. by_decide.
  - intros e [[y Hy] _]. simpl in Hy |- *.
    rewrite !lookup_insert_is_Some', lookup_singleton_is_Some.
    apply lookup_insert_Some in Hy as [[<- _]|[_ Hy]]; [by left|].
    apply lookup_insert_Some in Hy as [[<- _]|[_ Hy]]; [right; by left|].
    apply lookup_singleton_Some in Hy as [<- _]. right. by right.
  - intros t [= <-]. by_decide.
  - exists next, s'. split; [exact Hrun|]. apply (sd_curr _ _ _ _ Hs).
Defined.

(** One runnable task and no current one. *)
Definition sfirst : st :=
  with_rqs {[ 0 := Rq (SPINLOCK_INIT "rq") (λ f, if decide (f = rq_nr_running) then 1 else 0) ]}
  (with_cfs {[ 0 := CfsRq (LoadWeight 335 0) 1 1 5000000000 (rb_node true rb_null 200 rb_null) 200 NULL ]}
  (with_ses {[ 200 := one_task 335 0 5000000020 1 ]} sw)).

Lemma first_schedule_faults_witness : schedule 5 sfirst = Fault ∧ sched_ok sfirst.
Proof.
  assert (sched_ok sfirst) as Hok by (apply sched_okb_spec; vm_compute; reflexivity).
  split; [|exact Hok].
  apply (first_schedule_faults 5 sfirst (Rq (SPINLOCK_INIT "rq") (λ f, if decide (f = rq_nr_running) then 1 else 0))
    (CfsRq (LoadWeight 335 0) 1 1 5000000000 (rb_node true rb_null 200 rb_null) 200 NULL)); try done. lia.
Defined.

(** An allocator whose addresses have 64 bits. *)
Definition page_allocator : Allocator := {|
  kmalloc := λ size w, (wrap 64 (w + size), w + 1); kfree := λ _ w, w
|}.
Lemma page_allocator_width : @WidthLaws linux_sched linux_core page_allocator.
Proof. split; [intros size w; apply (cast_in_range u64)|by_decide..]. Qed.

Lemma sw_typed : well_typed sw.
Proof.
  assert (∀ f, fits (task_member f) (tfields user_task f)) as Hu.
  { apply assign_typed; [|apply zero_fits]. intros f v Hin.
    repeat (apply elem_of_cons in Hin as [[= -> ->]|Hin]; [first [exact I | by_decide]|]).
    by apply not_elem_of_nil in Hin. }
  split_and!; [| | |by_decide..].
  - intros p t. cbn [tasks sw]. intros [[_ <-]|[_ [[_ <-]|[_ [_ <-]%lookup_singleton_Some]]%lookup_insert_Some]]%lookup_insert_Some; exact Hu.
  - intros p e Hp. assert (e ∈ (map_to_list (ses sw)).*2) as Hin.
    { apply list_elem_of_fmap. exists (p, e). split; [done|by apply elem_of_map_to_list]. }
    vm_compute in Hin. repeat (apply elem_of_cons in Hin as [->|Hin]; [split_and!; by_decide|]).
    by apply not_elem_of_nil in Hin.
  - intros r x. cbn [rqs sw s0]. intros [<- <-]%lookup_singleton_Some f. destruct f; by_decide.
Qed.

Definition types_ops : list task_op := [OpAllocPid; OpAlloc; OpGet 200; OpPut 200; OpSetCurrent 200; OpFork 10009000; OpDup 200].
Definition typed_run : outcome (unit * st) := @run_task_ops _ _ page_allocator 5 types_ops sw.
Definition returned {A} (o : outcome A) : bool := match o with Ret _ => true | _ => false end.
Lemma typed_run_returns : returned typed_run = true.
Proof. vm_compute. reflexivity. Qed.
Lemma task_ops_keep_types_witness : ∃ s', typed_run = Ret (tt, s') ∧ well_typed s'.
Proof.
  pose proof typed_run_returns as Hret.
  destruct typed_run as [[[] s']| | |] eqn:Hrun; [|discriminate Hret..].
  exists s'. split; [reflexivity|].
  exact (@task_ops_keep_types _ _ _ page_allocator page_allocator_width 5 types_ops sw s' sw_typed Hrun).
Defined.

(** The core on [sw]: 100 runs, 200 waits, 400 sleeps. *)
Definition sw_tasks : gset Z := {[100; 200; 400]}.
Definition sw_ready : gset Z := {[100; 200]}.
Definition sw_ops : list core_op :=
  [WakeNew 400; Schedule; Yield; Deactivate 200 1; SchedYield; Clock; Deactivate 100 1; Schedule; Activate 200 0].

Lemma sw_rep : core_rep free_lock sw_tasks sw sw_ready 100.
Proof.
  split.
  - exact sw_ok.
  - intros p. split.
    + intros [->%elem_of_singleton| ->%elem_of_singleton]%elem_of_union; (split; [reflexivity|]; by eexists).
    + intros (_ & y & Hy & Hon). simpl in Hy. apply lookup_insert_Some in Hy as [[<- _]|[_ Hy]]; [by_decide|].
      apply lookup_insert_Some in Hy as [[<- _]|[_ Hy]]; [by_decide|].
      apply lookup_singleton_Some in Hy as [_ <-]. by destruct Hon.
  - by_decide.
  - intros p [[->%elem_of_singleton| ->%elem_of_singleton]%elem_of_union| ->%elem_of_singleton]%elem_of_union;
      (split; [done|]; split; [reflexivity|]; split; [reflexivity|by eexists]).
  - intros p [[->%elem_of_singleton| ->%elem_of_singleton]%elem_of_union| ->%elem_of_singleton]%elem_of_union;
      (exists user_task; split; [reflexivity|]; split_and!; [reflexivity|reflexivity|done|done]).
  - exists (Rq (SPINLOCK_INIT "rq") (λ f, if decide (f = rq_curr) then 100 else 2)). by split_and!.
  - exists (CfsRq (LoadWeight 1359 0) 2 2 5000000000 (rb_node true rb_null 200 rb_null) 200 100). by split_and!.
  - by_decide.
  - by_decide.
  - by exists user_task.
  - intros b Hb. simpl in Hb. apply lookup_singleton_Some in Hb as [_ <-]. split; by left.
Qed.

Lemma core_refines_witness :
  ∃ s' cur', run_ops 5 sw_ops sw = Ret (tt, s') ∧ core_rep free_lock sw_tasks s' {[200; 400]} cur'.
Proof.
  destruct (core_refines 5 ltac:(done) ltac:(lia) sw_tasks ltac:(by_decide) sw sw_ready 100 sw_ops sw_rep
    ltac:(by_decide)) as (s' & cur' & Hrun & _ & Hrep).
  exists s', cur'. split; [exact Hrun|].
  replace {[200; 400]} with (ready_end sw_ready sw_ops) by by_decide. exact Hrep.
Defined.
