(* ===== verification/KString.v ===== *)
(** The string and memory functions at the end of [src/kernel/main.c], on a
    memory of bytes: which functions read and write what, that they end on a
    string that ends, and that [strcpy] onto the tail of its own source does
    not.

    An address outside the memory is a [Fault].  Fuel bounds the rounds of a
    loop; the theorems give the number that is enough. *)
From stdpp Require Import base gmap list fin_maps.
From S2P Require Import Prelude CTypes.

(** The memory: a byte (0 to 255) at every allocated address. *)
Abbreviation bytes := (gmap Z Z).

Section operations.
  Abbreviation B := (M bytes).

Definition load (a : Z) : B Z := get_some (λ m : bytes, m !! a).
Definition store (a v : Z) : B unit := λ m,
  match m !! a with Some _ => Ret (tt, <[a := wrap 8 v]> m) | None => Fault end.

(** A byte read as [char], which is signed. *)
Definition char (b : Z) : Z := swrap 8 b.

(** [while ( *s1 && *s2 && *s1 == *s2) { s1++; s2++; }]; the pointers it stops at. *)
Fixpoint strcmp_loop (fuel : nat) (s1 s2 : Z) : B (Z * Z) :=
  match fuel with
  | O => out_of_fuel
  | S fuel =>
    a ← load s1;
    if a =? 0 then mret (s1, s2) else
    b ← load s2;
    if b =? 0 then mret (s1, s2) else
    if negb (a =? b) then mret (s1, s2) else strcmp_loop fuel (s1 + 1) (s2 + 1)
  end.
Definition strcmp (fuel : nat) (s1 s2 : Z) : B Z :=
  p ← strcmp_loop fuel s1 s2;
  a ← load (fst p); b ← load (snd p);
  mret (char a - char b).

Fixpoint strcpy_loop (fuel : nat) (dest src : Z) : B unit :=
  match fuel with
  | O => out_of_fuel
  | S fuel =>
    c ← load src; store dest c;;
    if c =? 0 then mret tt else strcpy_loop fuel (dest + 1) (src + 1)
  end.
Definition strcpy (fuel : nat) (dest src : Z) : B Z := strcpy_loop fuel dest src;; mret dest.

Fixpoint strlen_loop (fuel : nat) (s len : Z) : B Z :=
  match fuel with
  | O => out_of_fuel
  | S fuel =>
    c ← load s;
    if c =? 0 then mret len else strlen_loop fuel (s + 1) (len +[64] 1)
  end.
Definition strlen (fuel : nat) (s : Z) : B Z := strlen_loop fuel s 0.

(** [while (n--)]: the count is a [size_t], so the loop ends after [n] rounds. *)
Fixpoint memset_loop (n : nat) (p c : Z) : B unit :=
  match n with O => mret tt | S n => store p c;; memset_loop n (p + 1) c end.
Definition memset (s c n : Z) : B Z := memset_loop (Z.to_nat n) s c;; mret s.

Fixpoint memcpy_loop (n : nat) (d s : Z) : B unit :=
  match n with O => mret tt | S n => b ← load s; store d b;; memcpy_loop n (d + 1) (s + 1) end.
Definition memcpy (dest src n : Z) : B Z := memcpy_loop (Z.to_nat n) dest src;; mret dest.

End operations.

(** * Strings in memory *)

(** The bytes [l] at [a], and a C string. *)
Fixpoint holds (m : bytes) (a : Z) (l : list Z) : Prop :=
  match l with [] => True | b :: l => m !! a = Some b ∧ holds m (a + 1) l end.
Definition is_byte (b : Z) : Prop := 0 ≤ b < 256.
Definition is_char (b : Z) : Prop := 0 < b < 256.
Definition cstr (m : bytes) (a : Z) (l : list Z) : Prop :=
  holds m a (l ++ [0]) ∧ Forall is_char l.

(** [l] written at [a]. *)
Fixpoint write (a : Z) (l : list Z) (m : bytes) : bytes :=
  match l with [] => m | b :: l => write (a + 1) l (<[a := b]> m) end.

Lemma holds_ext m m' a l : (∀ x, a ≤ x < a + Z.of_nat (length l) → m' !! x = m !! x) →
  holds m a l → holds m' a l.
Proof.
  revert a. induction l as [|b l IH]; intros a Hx; [done|]. intros [Hb Hl]. split.
  - rewrite Hx; [done|]. simpl. lia.
  - apply IH; [|done]. intros x Hr. apply Hx. simpl. lia.
Qed.

Lemma write_other a l x : ∀ m, x < a ∨ a + Z.of_nat (length l) ≤ x → write a l m !! x = m !! x.
Proof.
  revert a. induction l as [|b l IH]; intros a m Hx; [done|]. simpl in *.
  rewrite IH by lia. apply lookup_insert_ne. lia.
Qed.

Lemma write_holds a l : ∀ m, holds (write a l m) a l.
Proof.
  revert a. induction l as [|b l IH]; intros a m; [done|]. simpl. split; [|apply IH].
  rewrite write_other by lia. apply lookup_insert_eq.
Qed.

Lemma store_run m a v : is_byte v → is_Some (m !! a) → store a v m = Ret (tt, <[a := v]> m).
Proof. intros Hv [x Hx]. unfold store. by rewrite Hx, wrap_small. Qed.

Lemma load_run m a v : m !! a = Some v → load a m = Ret (v, m).
Proof. apply (get_some_run (λ m : bytes, m !! a)). Qed.

Lemma is_char_byte b : is_char b → is_byte b.
Proof. unfold is_char, is_byte. lia. Qed.

(** Writing a byte that the rest of the source does not use. *)
Lemma holds_after_write m d s b l : holds m s l → d < s ∨ s + Z.of_nat (length l) ≤ d →
  holds (<[d := b]> m) s l.
Proof. intros Hl Hd. apply (holds_ext m); [|done]. intros x Hx. apply lookup_insert_ne. lia. Qed.

Lemma strcpy_loop_run l : ∀ fuel m d s, (length l < fuel)%nat → holds m s (l ++ [0]) → Forall is_char l →
  (∀ x, d ≤ x ≤ d + Z.of_nat (length l) → is_Some (m !! x)) →
  d ≤ s ∨ s + Z.of_nat (length l) < d →
  strcpy_loop fuel d s m = Ret (tt, write d (l ++ [0]) m).
Proof.
  induction l as [|b l IH]; intros [|fuel] m d s Hf Hs Hl Hd Hov; simpl in Hf; [lia| |lia|]; simpl in *.
  - destruct Hs as [Hs _]. mstep with load_run; [|done].
    mstep with store_run; [reflexivity|done|apply Hd; lia].
  - destruct Hs as [Hb Hs]. apply Forall_cons in Hl as [Hbc Hl].
    mstep with load_run; [|done]. mstep with store_run; [|by apply is_char_byte|apply Hd; lia].
    rewrite (proj2 (Z.eqb_neq b 0)) by (unfold is_char in Hbc; lia).
    apply IH; [lia| |done| |lia].
    + apply holds_after_write; [done|]. rewrite length_app. simpl. lia.
    + intros x Hx. rewrite lookup_insert_is_Some'. right. apply Hd. lia.
Qed.

(** C39: [strcpy] to a destination that does not start inside the source: with
    fuel for the length it returns the destination, which then holds the
    string; every other byte is as before. *)
Theorem strcpy_copies (m : bytes) (dest src : Z) (l : list Z) (fuel : nat)
    (Hs : cstr m src l) (Hd : ∀ x, dest ≤ x ≤ dest + Z.of_nat (length l) → is_Some (m !! x))
    (Hov : dest ≤ src ∨ src + Z.of_nat (length l) < dest) (Hf : (length l < fuel)%nat) :
  ∃ m', strcpy fuel dest src m = Ret (dest, m') ∧ cstr m' dest l ∧
    ∀ x, x < dest ∨ dest + Z.of_nat (length l) < x → m' !! x = m !! x.
Proof.
  destruct Hs as [Hs Hl]. exists (write dest (l ++ [0]) m). split.
  - unfold strcpy. mstep with strcpy_loop_run; [reflexivity|done..].
  - split; [split; [apply write_holds|done]|]. intros x Hx. apply write_other.
    rewrite length_app. simpl. lia.
Qed.

(** The bytes between the two pointers stay different from zero. *)
Lemma strcpy_loop_overlap fuel : ∀ m d s, s < d → (∀ x, s ≤ x < d → ∃ b, m !! x = Some b ∧ is_char b) →
  ∀ r, strcpy_loop fuel d s m ≠ Ret r.
Proof.
  induction fuel as [|fuel IH]; intros m d s Hsd Hx r; [done|]. simpl.
  destruct (Hx s ltac:(lia)) as (b & Hb & Hbc). mstep with load_run; [|done].
  destruct (m !! d) as [y|] eqn:Hd.
  - mstep with store_run; [|by apply is_char_byte|by eexists].
    rewrite (proj2 (Z.eqb_neq b 0)) by (unfold is_char in Hbc; lia).
    apply IH; [lia|]. intros x Hr. destruct (decide (x = d)) as [->|].
    + exists b. by rewrite lookup_insert_eq.
    + rewrite lookup_insert_ne by done. apply Hx. lia.
  - rewrite bind_Fault; [done|]. unfold store. by rewrite Hd.
Qed.

(** [strcpy] to a destination inside the source overwrites the
    terminator before it reads it and never returns: it runs on until it
    leaves the memory, whatever the fuel. *)
Theorem strcpy_overlap_runs_away (m : bytes) (dest src : Z) (l : list Z) (fuel : nat)
    (Hs : cstr m src l) (Hov : src < dest ≤ src + Z.of_nat (length l)) :
  ∀ r, strcpy fuel dest src m ≠ Ret r.
Proof.
  destruct Hs as [Hs Hl]. intros [r m']. unfold strcpy.
  assert (∀ x, src ≤ x < src + Z.of_nat (length l) → ∃ b, m !! x = Some b ∧ is_char b) as Hin.
  { clear Hov. revert src Hs. induction Hl as [|b l Hb Hl IH]; intros src Hs x Hx; simpl in *; [lia|].
    destruct Hs as [Hb0 Hs]. destruct (decide (x = src)) as [->|]; [by exists b|].
    apply (IH (src + 1)); [done|lia]. }
  intros (? & ? & Hrun & _)%bind_Ret_inv. eapply strcpy_loop_overlap; [| |exact Hrun]; [lia|].
  intros y Hy. apply Hin. lia.
Qed.

(** * Comparison and length *)

(** The difference [strcmp] answers for two strings. *)
Fixpoint difference (l1 l2 : list Z) : Z :=
  match l1, l2 with
  | a :: l1, b :: l2 => if a =? b then difference l1 l2 else char a - char b
  | a :: _, [] => char a
  | [], b :: _ => - char b
  | [], [] => 0
  end.

Lemma char_cases b : is_byte b → char b = if b <? 128 then b else b - 256.
Proof.
  unfold is_byte, char, swrap. intros Hb. destruct (Z.ltb_spec b 128).
  - change (2 ^ 8) with 256. change (2 ^ (8 - 1)) with 128. rewrite Z.mod_small; lia.
  - change (2 ^ 8) with 256. change (2 ^ (8 - 1)) with 128.
    replace (b + 128) with (b - 128 + 1 * 256) by lia. rewrite Z_mod_plus_full, Z.mod_small; lia.
Qed.

Lemma char_inj a b : is_byte a → is_byte b → char a = char b → a = b.
Proof.
  intros Ha Hb. rewrite !char_cases by done. unfold is_byte in *.
  destruct (Z.ltb_spec a 128), (Z.ltb_spec b 128); lia.
Qed.

Lemma char_nonzero b : is_char b → char b ≠ 0.
Proof. intros Hb. rewrite char_cases by by apply is_char_byte. unfold is_char in Hb. destruct (Z.ltb_spec b 128); lia. Qed.

Lemma difference_zero l1 : ∀ l2, Forall is_char l1 → Forall is_char l2 → difference l1 l2 = 0 ↔ l1 = l2.
Proof.
  induction l1 as [|a l1 IH]; intros [|b l2] H1 H2; simpl; [done|..].
  - apply Forall_cons in H2 as [Hb _]. apply char_nonzero in Hb. split; [lia|done].
  - apply Forall_cons in H1 as [Ha _]. apply char_nonzero in Ha. split; [lia|done].
  - apply Forall_cons in H1 as [Ha H1], H2 as [Hb H2]. destruct (Z.eqb_spec a b) as [->|Hne].
    + rewrite IH by done. split; congruence.
    + split; [|congruence]. intros Hz. exfalso. apply Hne, char_inj; [by apply is_char_byte..|lia].
Qed.

Lemma difference_swap l1 : ∀ l2, difference l2 l1 = - difference l1 l2.
Proof.
  induction l1 as [|a l1 IH]; intros [|b l2]; simpl; [lia..|].
  rewrite (Z.eqb_sym b a). destruct (a =? b); [apply IH|lia].
Qed.

Lemma strcmp_loop_run fuel : ∀ m s1 s2 l1 l2, (length l1 < fuel)%nat → cstr m s1 l1 → cstr m s2 l2 →
  ∃ p1 p2 a b, strcmp_loop fuel s1 s2 m = Ret ((p1, p2), m) ∧ m !! p1 = Some a ∧ m !! p2 = Some b ∧
    char a - char b = difference l1 l2.
Proof.
  induction fuel as [|fuel IH]; intros m s1 s2 l1 l2 Hf [H1 C1] [H2 C2]; [lia|]. simpl.
  destruct l1 as [|a l1]; simpl in H1.
  { destruct H1 as [Ha _]. mstep with load_run; [|done]. simpl.
    destruct l2 as [|b l2]; simpl in H2; destruct H2 as [Hb _]; eexists _, _, _, _;
      (split; [reflexivity|split; [done|split; [done|]]]); change (char 0) with 0; simpl; lia. }
  destruct H1 as [Ha H1]. apply Forall_cons in C1 as [Hac C1]. mstep with load_run; [|done].
  rewrite (proj2 (Z.eqb_neq a 0)) by (unfold is_char in Hac; lia).
  destruct l2 as [|b l2]; simpl in H2.
  { destruct H2 as [Hb _]. mstep with load_run; [|done]. simpl. eexists _, _, _, _.
    split; [reflexivity|split; [done|split; [done|]]]. change (char 0) with 0. lia. }
  destruct H2 as [Hb H2]. apply Forall_cons in C2 as [Hbc C2]. mstep with load_run; [|done].
  rewrite (proj2 (Z.eqb_neq b 0)) by (unfold is_char in Hbc; lia). simpl.
  destruct (Z.eqb_spec a b) as [->|Hne]; simpl.
  - simpl in Hf. apply IH; [lia|by split..].
  - eexists _, _, _, _. by split_and!.
Qed.

Lemma strlen_loop_run l : ∀ fuel m s n, (length l < fuel)%nat → holds m s (l ++ [0]) → Forall is_char l →
  0 ≤ n → n + Z.of_nat (length l) < 2 ^ 64 → strlen_loop fuel s n m = Ret (n + Z.of_nat (length l), m).
Proof.
  induction l as [|b l IH]; intros [|fuel] m s n Hf Hs Hl Hn Hmax; simpl in Hf; [lia| |lia|]; simpl in *.
  - destruct Hs as [Hs _]. mstep with load_run; [|done]. simpl. by rewrite Z.add_0_r.
  - destruct Hs as [Hb Hs]. apply Forall_cons in Hl as [Hbc Hl]. mstep with load_run; [|done].
    rewrite (proj2 (Z.eqb_neq b 0)) by (unfold is_char in Hbc; lia).
    rewrite wrap_small by lia. rewrite IH by (done || lia). do 2 f_equal. lia.
Qed.

(** [strcmp] and [strlen] on C strings return within the length of the
    (first) string, change nothing, and answer the difference at the first
    place where the strings differ, as signed characters, and the length: the
    difference is zero exactly for equal strings, and changes sign when the
    arguments are swapped. *)
Theorem strcmp_strlen_spec (m : bytes) (s1 s2 : Z) (l1 l2 : list Z) (fuel : nat)
    (H1 : cstr m s1 l1) (H2 : cstr m s2 l2) (Hf1 : (length l1 < fuel)%nat) (Hf2 : (length l2 < fuel)%nat)
    (Hmax : Z.of_nat (length l1) < 2 ^ 64) :
  ∃ d, strcmp fuel s1 s2 m = Ret (d, m) ∧ strcmp fuel s2 s1 m = Ret (- d, m) ∧ (d = 0 ↔ l1 = l2) ∧
    strlen fuel s1 m = Ret (Z.of_nat (length l1), m).
Proof.
  assert (∀ a b la lb, cstr m a la → cstr m b lb → (length la < fuel)%nat →
    strcmp fuel a b m = Ret (difference la lb, m)) as Hcmp.
  { intros a b la lb Ha Hb Hf. destruct (strcmp_loop_run fuel m a b la lb Hf Ha Hb) as (p1 & p2 & x & y & Hrun & Hx & Hy & Hd).
    unfold strcmp. mstep with Hrun. mstep with load_run; [|exact Hx]. mstep with load_run; [|exact Hy]. by rewrite Hd. }
  exists (difference l1 l2). split; [by apply Hcmp|]. split; [rewrite <-difference_swap; by apply Hcmp|].
  split; [apply difference_zero; [apply H1|apply H2]|]. destruct H1 as [H1 C1]. by apply (strlen_loop_run l1).
Qed.

(** * Blocks *)

Lemma memset_loop_run n : ∀ m p c, (∀ x, p ≤ x < p + Z.of_nat n → is_Some (m !! x)) →
  memset_loop n p c m = Ret (tt, write p (replicate n (wrap 8 c)) m).
Proof.
  induction n as [|n IH]; intros m p c Hp; [done|]. simpl.
  assert (store p c m = Ret (tt, <[p := wrap 8 c]> m)) as Hrun.
  { unfold store. destruct (Hp p ltac:(lia)) as [y ->]. done. }
  mstep with Hrun. apply IH. intros x Hx. rewrite lookup_insert_is_Some'. right. apply Hp. lia.
Qed.

Lemma memcpy_loop_run l : ∀ m d s, holds m s l → Forall is_byte l →
  (∀ x, d ≤ x < d + Z.of_nat (length l) → is_Some (m !! x)) → d ≤ s ∨ s + Z.of_nat (length l) ≤ d →
  memcpy_loop (length l) d s m = Ret (tt, write d l m).
Proof.
  induction l as [|b l IH]; intros m d s Hs Hl Hd Hov; [done|]. simpl in *. destruct Hs as [Hb Hs].
  apply Forall_cons in Hl as [Hbb Hl]. mstep with load_run; [|done].
  mstep with store_run; [|done|apply Hd; lia]. apply IH; [by apply holds_after_write; [|lia]|done| |lia].
  intros x Hx. rewrite lookup_insert_is_Some'. right. apply Hd. lia.
Qed.

(** [memcpy] of [n] bytes to a destination that is not inside the source
    copies them, even where source and destination overlap, and [memset] fills
    [n] bytes with the low byte of its argument; both answer the destination
    and leave every other byte as it was. *)
Theorem memcpy_memset_spec (m : bytes) (dest src c : Z) (l : list Z)
    (Hs : holds m src l) (Hl : Forall is_byte l)
    (Hd : ∀ x, dest ≤ x < dest + Z.of_nat (length l) → is_Some (m !! x))
    (Hov : dest ≤ src ∨ src + Z.of_nat (length l) ≤ dest) :
  ∃ m1 m2, memcpy dest src (Z.of_nat (length l)) m = Ret (dest, m1) ∧ holds m1 dest l ∧
    memset dest c (Z.of_nat (length l)) m = Ret (dest, m2) ∧ holds m2 dest (replicate (length l) (wrap 8 c)) ∧
    ∀ x, x < dest ∨ dest + Z.of_nat (length l) ≤ x → m1 !! x = m !! x ∧ m2 !! x = m !! x.
Proof.
  exists (write dest l m), (write dest (replicate (length l) (wrap 8 c)) m).
  unfold memcpy, memset. rewrite Nat2Z.id. split_and!.
  - mstep with memcpy_loop_run; [reflexivity|done..].
  - apply write_holds.
  - mstep with memset_loop_run; [reflexivity|done].
  - apply write_holds.
  - intros x Hx. rewrite !write_other by (rewrite ?length_replicate; lia). done.
Qed.

(** * At concrete strings *)

Definition hi : bytes := write 10 [104; 105; 0; 7; 7; 7] (write 20 [104; 200; 0] ∅).

Lemma hi_cstr : cstr hi 10 [104; 105].
Proof. split; [repeat split|]. repeat constructor. Qed.
Lemma hi_cstr2 : cstr hi 20 [104; 200].
Proof. split; [repeat split|]. repeat constructor. Qed.
Lemma hi_room x : 13 ≤ x ≤ 15 → is_Some (hi !! x).
Proof.
  intros Hx. assert (x = 13 ∨ x = 14 ∨ x = 15) as [->|[->| ->]] by lia; by eexists.
Qed.

Lemma strcpy_copies_witness : ∃ m', strcpy 3 13 10 hi = Ret (13, m') ∧ cstr m' 13 [104; 105].
Proof.
  destruct (strcpy_copies hi 13 10 [104; 105] 3) as (m' & Hrun & Hc & _);
    [exact hi_cstr|simpl; intros x Hx; apply hi_room; lia|right; simpl; lia|simpl; lia|].
  exists m'. split; [exact Hrun|exact Hc].
Defined.

Lemma strcpy_overlap_runs_away_witness : 10 < 11 ∧ ∀ r, strcpy 100 11 10 hi ≠ Ret r.
Proof.
  split; [lia|]. exact (strcpy_overlap_runs_away hi 11 10 [104; 105] 100 hi_cstr ltac:(simpl; lia)).
Defined.

Lemma strcmp_strlen_spec_witness : ∃ d, strcmp 3 10 20 hi = Ret (d, hi) ∧ strlen 3 10 hi = Ret (2, hi).
Proof.
  destruct (strcmp_strlen_spec hi 10 20 [104; 105] [104; 200] 3 hi_cstr hi_cstr2) as (d & Hrun & _ & _ & Hlen);
    [simpl; lia|simpl; lia|simpl; lia|].
  exists d. split; [exact Hrun|exact Hlen].
Defined.

(** 200 is a negative [char]: the string with it is the smaller one. *)
Example strcmp_signed : strcmp 3 10 20 hi = Ret (161, hi).
Proof. reflexivity. Qed.

Lemma memcpy_memset_spec_witness : ∃ m1, memcpy 13 10 3 hi = Ret (13, m1) ∧ holds m1 13 [104; 105; 0].
Proof.
  destruct (memcpy_memset_spec hi 13 10 0 [104; 105; 0]) as (m1 & m2 & Hrun & Hm & _);
    [repeat split|repeat constructor; discriminate|simpl; intros x Hx; apply hi_room; lia|right; simpl; lia|].
  exists m1. split; [exact Hrun|exact Hm].
Defined.
