(* ===== verification/Main.v ===== *)
(** The kernel's main file, [src/kernel/main.c]: console output, panic, the
    system call table and its stubs, interrupts and exceptions, and the boot
    sequence that composes the memory, scheduler and task files.  Its string
    functions are file [KString].

    What the file calls and nobody in the sources defines is class [MainLib].
    A failing [panic] prints and never returns: its outcome is [Panic]. *)
From stdpp Require Import base gmap list strings fin_maps.
From S2P Require Import Prelude CTypes ListHead Spinlock Buddy SchedData Cfs Sched.

(** * System call numbers *)

Inductive sysno :=
  | NR_read | NR_write | NR_open | NR_close | NR_stat | NR_fstat | NR_lstat | NR_poll | NR_lseek
  | NR_mmap | NR_mprotect | NR_munmap | NR_brk | NR_rt_sigaction | NR_rt_sigprocmask
  | NR_rt_sigreturn | NR_ioctl | NR_pread64 | NR_pwrite64 | NR_readv | NR_writev | NR_access
  | NR_pipe | NR_select | NR_sched_yield | NR_mremap | NR_msync | NR_mincore | NR_madvise
  | NR_shmget | NR_shmat | NR_shmctl | NR_dup | NR_dup2 | NR_pause | NR_nanosleep | NR_getitimer
  | NR_alarm | NR_setitimer | NR_getpid | NR_sendfile | NR_socket | NR_connect | NR_accept
  | NR_sendto | NR_recvfrom | NR_sendmsg | NR_recvmsg | NR_shutdown | NR_bind | NR_listen
  | NR_getsockname | NR_getpeername | NR_socketpair | NR_setsockopt | NR_getsockopt | NR_clone
  | NR_fork | NR_vfork | NR_execve | NR_exit | NR_wait4 | NR_kill | NR_uname | NR_semget | NR_semop
  | NR_semctl | NR_shmdt | NR_msgget | NR_msgsnd | NR_msgrcv | NR_msgctl | NR_fcntl | NR_flock
  | NR_fsync | NR_fdatasync | NR_truncate | NR_ftruncate | NR_getdents | NR_getcwd | NR_chdir
  | NR_fchdir | NR_rename | NR_mkdir | NR_rmdir | NR_creat | NR_link | NR_unlink | NR_symlink
  | NR_readlink | NR_chmod | NR_fchmod | NR_chown | NR_fchown | NR_lchown | NR_umask
  | NR_gettimeofday | NR_getrlimit | NR_getrusage | NR_sysinfo | NR_times.

Definition nr (n : sysno) : Z :=
  match n with
  | NR_read => 0 | NR_write => 1 | NR_open => 2 | NR_close => 3 | NR_stat => 4 | NR_fstat => 5
  | NR_lstat => 6 | NR_poll => 7 | NR_lseek => 8 | NR_mmap => 9 | NR_mprotect => 10
  | NR_munmap => 11 | NR_brk => 12 | NR_rt_sigaction => 13 | NR_rt_sigprocmask => 14
  | NR_rt_sigreturn => 15 | NR_ioctl => 16 | NR_pread64 => 17 | NR_pwrite64 => 18 | NR_readv => 19
  | NR_writev => 20 | NR_access => 21 | NR_pipe => 22 | NR_select => 23 | NR_sched_yield => 24
  | NR_mremap => 25 | NR_msync => 26 | NR_mincore => 27 | NR_madvise => 28 | NR_shmget => 29
  | NR_shmat => 30 | NR_shmctl => 31 | NR_dup => 32 | NR_dup2 => 33 | NR_pause => 34
  | NR_nanosleep => 35 | NR_getitimer => 36 | NR_alarm => 37 | NR_setitimer => 38 | NR_getpid => 39
  | NR_sendfile => 40 | NR_socket => 41 | NR_connect => 42 | NR_accept => 43 | NR_sendto => 44
  | NR_recvfrom => 45 | NR_sendmsg => 46 | NR_recvmsg => 47 | NR_shutdown => 48 | NR_bind => 49
  | NR_listen => 50 | NR_getsockname => 51 | NR_getpeername => 52 | NR_socketpair => 53
  | NR_setsockopt => 54 | NR_getsockopt => 55 | NR_clone => 56 | NR_fork => 57 | NR_vfork => 58
  | NR_execve => 59 | NR_exit => 60 | NR_wait4 => 61 | NR_kill => 62 | NR_uname => 63
  | NR_semget => 64 | NR_semop => 65 | NR_semctl => 66 | NR_shmdt => 67 | NR_msgget => 68
  | NR_msgsnd => 69 | NR_msgrcv => 70 | NR_msgctl => 71 | NR_fcntl => 72 | NR_flock => 73
  | NR_fsync => 74 | NR_fdatasync => 75 | NR_truncate => 76 | NR_ftruncate => 77
  | NR_getdents => 78 | NR_getcwd => 79 | NR_chdir => 80 | NR_fchdir => 81 | NR_rename => 82
  | NR_mkdir => 83 | NR_rmdir => 84 | NR_creat => 85 | NR_link => 86 | NR_unlink => 87
  | NR_symlink => 88 | NR_readlink => 89 | NR_chmod => 90 | NR_fchmod => 91 | NR_chown => 92
  | NR_fchown => 93 | NR_lchown => 94 | NR_umask => 95 | NR_gettimeofday => 96 | NR_getrlimit => 97
  | NR_getrusage => 98 | NR_sysinfo => 99 | NR_times => 100
  end.

Definition all_sysnos : list sysno :=
  [NR_read; NR_write; NR_open; NR_close; NR_stat; NR_fstat; NR_lstat; NR_poll; NR_lseek; NR_mmap;
   NR_mprotect; NR_munmap; NR_brk; NR_rt_sigaction; NR_rt_sigprocmask; NR_rt_sigreturn; NR_ioctl;
   NR_pread64; NR_pwrite64; NR_readv; NR_writev; NR_access; NR_pipe; NR_select; NR_sched_yield;
   NR_mremap; NR_msync; NR_mincore; NR_madvise; NR_shmget; NR_shmat; NR_shmctl; NR_dup; NR_dup2;
   NR_pause; NR_nanosleep; NR_getitimer; NR_alarm; NR_setitimer; NR_getpid; NR_sendfile; NR_socket;
   NR_connect; NR_accept; NR_sendto; NR_recvfrom; NR_sendmsg; NR_recvmsg; NR_shutdown; NR_bind;
   NR_listen; NR_getsockname; NR_getpeername; NR_socketpair; NR_setsockopt; NR_getsockopt;
   NR_clone; NR_fork; NR_vfork; NR_execve; NR_exit; NR_wait4; NR_kill; NR_uname; NR_semget;
   NR_semop; NR_semctl; NR_shmdt; NR_msgget; NR_msgsnd; NR_msgrcv; NR_msgctl; NR_fcntl; NR_flock;
   NR_fsync; NR_fdatasync; NR_truncate; NR_ftruncate; NR_getdents; NR_getcwd; NR_chdir; NR_fchdir;
   NR_rename; NR_mkdir; NR_rmdir; NR_creat; NR_link; NR_unlink; NR_symlink; NR_readlink; NR_chmod;
   NR_fchmod; NR_chown; NR_fchown; NR_lchown; NR_umask; NR_gettimeofday; NR_getrlimit;
   NR_getrusage; NR_sysinfo; NR_times].

Definition NR_syscalls : Z := 101.

Inductive syscall_fn :=
  | sys_read | sys_write | sys_open | sys_close | sys_getpid | sys_clone | sys_fork | sys_vfork
  | sys_execve | sys_exit | sys_wait4 | sys_kill | sys_sched_yield | sys_brk | sys_mmap
  | sys_munmap | sys_sysinfo | sys_uname.

#[export] Instance syscall_fn_eq_dec : EqDecision syscall_fn.
Proof. solve_decision. Defined.

(** The designated initialisers; every other entry is NULL. *)
Definition sys_call_entries : list (sysno * syscall_fn) :=
  [(NR_read, sys_read); (NR_write, sys_write); (NR_open, sys_open); (NR_close, sys_close);
   (NR_getpid, sys_getpid); (NR_clone, sys_clone); (NR_fork, sys_fork); (NR_vfork, sys_vfork);
   (NR_execve, sys_execve); (NR_exit, sys_exit); (NR_wait4, sys_wait4); (NR_kill, sys_kill);
   (NR_sched_yield, sys_sched_yield); (NR_brk, sys_brk); (NR_mmap, sys_mmap);
   (NR_munmap, sys_munmap); (NR_sysinfo, sys_sysinfo); (NR_uname, sys_uname)].
Definition sys_call_table : list (option syscall_fn) :=
  foldr (λ e t, <[Z.to_nat (nr (fst e)) := Some (snd e)]> t)
    (replicate (Z.to_nat NR_syscalls) None) sys_call_entries.

(** * The kernel's state *)

(** [dev] is the state of the devices behind the ports. *)
Record kernel (W D : Type) := Kernel {
  scheduler : sched W;
  memory : mm;
  dev : D;
  ticks : Z;                   (* static u64 jiffies of update_jiffies *)
  init_task : Z;
  kernel_initialized : bool
}.
Arguments Kernel {W D}. Arguments scheduler {W D}. Arguments memory {W D}. Arguments dev {W D}.
Arguments ticks {W D}. Arguments init_task {W D}. Arguments kernel_initialized {W D}.

Section with_state.
  Context {W D : Type}.
Definition with_scheduler v (k : kernel W D) : kernel W D :=
  Kernel v (memory k) (dev k) (ticks k) (init_task k) (kernel_initialized k).
Definition with_memory v (k : kernel W D) : kernel W D :=
  Kernel (scheduler k) v (dev k) (ticks k) (init_task k) (kernel_initialized k).
Definition with_dev v (k : kernel W D) : kernel W D :=
  Kernel (scheduler k) (memory k) v (ticks k) (init_task k) (kernel_initialized k).
Definition with_ticks v (k : kernel W D) : kernel W D :=
  Kernel (scheduler k) (memory k) (dev k) v (init_task k) (kernel_initialized k).
Definition with_init v (b : bool) (k : kernel W D) : kernel W D :=
  Kernel (scheduler k) (memory k) (dev k) (ticks k) v b.
End with_state.

(** * Code outside the sources *)

(** An argument of a format: an integer, or the bytes of a string. *)
Inductive printf_arg := IntArg (v : Z) | StrArg (text : list Z).

(** The bytes of a string literal; a backslash escape of a format stays as it
    is written, for [vsnprintf] to read. *)
Fixpoint bytes_of (s : string) : list Z :=
  match s with EmptyString => [] | String c s => Z.of_N (Ascii.N_of_ascii c) :: bytes_of s end.

Inductive subsystem := mm_init | ipc_init | vfs_init | net_init | driver_init.

(** The strings of [struct utsname]. *)
Record utsname := Utsname {
  sysname : string; nodename : string; release : string; version : string; machine : string;
  domainname : string
}.

Class MainLib `{SchedLib} := {
  device : Type;
  inb : Z → device → Z * device;
  outb : Z → Z → device → device;
  vsnprintf : string → list printf_arg → list Z;        (* the whole formatted text, as bytes *)
  cr2 : device → Z;
  subsystem_init : subsystem → M (kernel env device) unit;
  mm_alloc : M (kernel env device) Z;
  do_exit : Z → M (kernel env device) unit;
  do_fork : Z → Z → Z → Z → Z → M (kernel env device) Z;
  do_wait : Z → Z → Z → Z → M (kernel env device) Z;
  do_kill : Z → Z → M (kernel env device) Z;
  do_brk : Z → M (kernel env device) Z;
  do_mmap : Z → Z → Z → Z → Z → Z → M (kernel env device) Z;
  do_munmap : Z → Z → M (kernel env device) Z;
  si_swapinfo : sysinfo → M (kernel env device) sysinfo;
  copy_sysinfo_to_user : Z → sysinfo → M (kernel env device) Z;   (* copy_to_user: bytes not copied *)
  copy_utsname_to_user : Z → utsname → M (kernel env device) Z;
  scheduler_tick : M (kernel env device) unit;
  run_timer_softirq : M (kernel env device) unit;
  handle_keyboard_input : Z → M (kernel env device) unit;
  do_page_fault : Z → Z → M (kernel env device) unit
}.

(** [kmalloc] and [kfree] of this file. *)
Definition main_allocator `{SchedLib} : Allocator := {|
  kmalloc := λ _ w, (NULL, w);
  kfree := λ _ w, w
|}.

Section main.
  Context `{CoreLib, !Allocator, !MainLib}.
  Context (fuel : nat).
  Abbreviation K := (M (kernel env device)).

(** Code of the other files, on their part of the state; the CPU has one
    interrupt flag. *)
Definition on_sched {A} (m : M (sched env) A) : K A := zoom scheduler with_scheduler m.
Definition on_mm {A} (m : M mm A) : K A :=
  zoom (λ k, with_irq (irqs_on (scheduler k)) (memory k))
    (λ v k, with_memory v (with_scheduler (with_irqs (irq_on v) (scheduler k)) k)) m.

(** * Console *)

Definition SERIAL_PORT : Z := 0x3F8.

Definition in_port (p : Z) : K Z := λ k,
  let '(v, d) := inb p (dev k) in Ret (v, with_dev d k).
Definition out_port (p v : Z) : K unit := modify (λ k, with_dev (outb p v (dev k)) k).

(** [while (!(inb(SERIAL_PORT + 5) & 0x20));] *)
Fixpoint wait_ready (n : nat) : K unit :=
  match n with
  | O => out_of_fuel
  | S n => v ← in_port (SERIAL_PORT + 5); if Z.land v 0x20 =? 0 then wait_ready n else mret tt
  end.
Definition serial_putc (c : Z) : K unit := wait_ready fuel;; out_port SERIAL_PORT (wrap 8 c).

(** [console_write(buffer, len)]: reading past the buffer is a fault. *)
Fixpoint console_write_loop (buffer : list Z) (n : nat) (i : Z) : K unit :=
  match n with
  | O => mret tt
  | S n =>
    match buffer !! Z.to_nat i with
    | None => fault
    | Some c => serial_putc c;; console_write_loop buffer n (i + 1)
    end
  end.
Definition console_write (buffer : list Z) (len : Z) : K unit :=
  console_write_loop buffer (Z.to_nat len) 0.

(** [vsnprintf] stores at most 1023 bytes and a NUL, and answers the length
    of the whole text. *)
Definition printk (fmt : string) (args : list printf_arg) : K Z :=
  let text := vsnprintf fmt args in
  let buffer := take 1023 text ++ [0] in
  let len := Z.of_nat (length text) in
  console_write buffer len;;
  mret len.

Definition local_irq_disable : K unit := on_sched (modify (with_irqs false)).
Definition local_irq_enable : K unit := on_sched (modify (with_irqs true)).
Definition local_bh_enable : K unit := mret tt.

(** Every caller gives a format without arguments; the loop around [halt]
    never ends. *)
Definition panic {A} (fmt : string) : K A :=
  let buffer := take 1023 (vsnprintf fmt []) in
  printk "KERNEL PANIC: %s\n" [StrArg buffer];;
  local_irq_disable;;
  panic_with fmt.

(** * Boot *)

(** [strcpy(task->comm, ...)] and the assignments of [create_init_process]. *)
Definition init_process_fields (task mm : Z) : list (task_field * Z) :=
  [(t_pid, 1); (t_tgid, 1); (t_ppid, 0); (t_pgrp, 1); (t_session, 1);
   (t_uid, 0); (t_gid, 0); (t_euid, 0); (t_egid, 0); (t_suid, 0); (t_sgid, 0); (t_fsuid, 0); (t_fsgid, 0);
   (t_mm, mm); (t_active_mm, mm);
   (t_state, TASK_RUNNING); (t_prio, DEFAULT_PRIO); (t_static_prio, DEFAULT_PRIO);
   (t_normal_prio, DEFAULT_PRIO); (t_policy, SCHED_NORMAL);
   (t_cpus_allowed, Z.shiftl 1 NR_CPUS - 1); (t_nr_cpus_allowed, NR_CPUS);
   (t_real_parent, task); (t_parent, task); (t_group_leader, task)].

Definition create_init_process : K Z :=
  task ← on_sched alloc_task_struct;
  (if task =? NULL then panic "Cannot allocate init task" else mret tt);;
  mm ← mm_alloc;
  (if mm =? NULL then on_sched (free_task_struct task);; panic "Cannot allocate init mm" else mret tt);;
  on_sched (mod_task task (λ t, Task (assign (init_process_fields task mm) (tfields t)) "init" (alloc_lock t)));;
  j ← on_sched get_jiffies_64;
  on_sched (task_assign task [(t_start_time, j); (t_real_start_time, j)]);;
  on_sched (sched_fork fuel task);;
  mret task.

Definition KERNEL_NAME : string := "MicroKernel".
Definition KERNEL_VERSION : string := "0.1.0".

Definition kernel_init : K unit :=
  printk "Initializing %s %s\n" [StrArg (bytes_of KERNEL_NAME); StrArg (bytes_of KERNEL_VERSION)];;
  subsystem_init mm_init;;
  on_mm buddy_init;;
  on_sched sched_init;;
  printk "Scheduler initialized\n" [];;
  subsystem_init ipc_init;;
  subsystem_init vfs_init;;
  subsystem_init net_init;;
  subsystem_init driver_init;;
  task ← create_init_process;
  modify (λ k, with_init task (kernel_initialized k) k);;
  on_sched (set_current task);;
  on_sched (wake_up_new_task fuel task);;
  modify (λ k, with_init (init_task k) true k).

Definition kernel_main : K unit :=
  kernel_init;;
  on_sched (schedule fuel);;
  panic "OOOOOOOO!!!!!! shit".

Definition start_kernel : K unit := kernel_main.

(** * System calls *)

(** [return -ENOSYS] where [ENOSYS] is already negative. *)
Definition minus (e : error_t) : Z := - error_value e.

Definition CLONE_VM : Z := 0x100.
Definition CLONE_VFORK : Z := 0x4000.

(** [yield] calls [sys_sched_yield], and the [sys_sched_yield] of this file
    calls [yield]. *)
Fixpoint main_yield (n : nat) : K unit :=
  match n with
  | O => out_of_fuel
  | S n =>
    cur ← on_sched get_current;
    on_sched (task_set cur t_state TASK_RUNNING);;
    main_yield n;; mret tt
  end.
Definition main_sched_yield : K Z := main_yield fuel;; mret 0.

Definition main_sysinfo (info : Z) : K Z :=
  val ← on_mm si_meminfo;
  val ← si_swapinfo val;
  left ← copy_sysinfo_to_user info val;
  mret (if left =? 0 then 0 else minus EFAULT).

Definition kernel_info : utsname :=
  Utsname "MicroKernel" "localhost" KERNEL_VERSION "1" "x86_64" "localdomain".
Definition main_uname (name : Z) : K Z :=
  left ← copy_utsname_to_user name kernel_info;
  mret (if left =? 0 then 0 else minus EFAULT).

Definition main_getpid : K Z := cur ← on_sched get_current; on_sched (task_get cur t_pid).

(** [syscall_fn(arg0, ..., arg5)]: each function takes its first arguments,
    an [int] or [pid_t] from the low 32 bits. *)
Definition call_fn (f : syscall_fn) (arg0 arg1 arg2 arg3 arg4 arg5 : Z) : K Z :=
  match f with
  | sys_read | sys_write | sys_open | sys_close | sys_execve => mret (minus ENOSYS)
  | sys_getpid => main_getpid
  | sys_clone => do_fork arg0 arg1 0 arg2 arg3
  | sys_fork => do_fork SIGCHLD 0 0 NULL NULL
  | sys_vfork => do_fork (Z.lor (Z.lor CLONE_VFORK CLONE_VM) SIGCHLD) 0 0 NULL NULL
  | sys_exit => do_exit (cast s32 arg0);; mret 0
  | sys_wait4 => do_wait (cast pid_t arg0) arg1 (cast s32 arg2) arg3
  | sys_kill => do_kill (cast pid_t arg0) (cast s32 arg1)
  | sys_sched_yield => main_sched_yield
  | sys_brk => do_brk arg0
  | sys_mmap => do_mmap arg0 arg1 arg2 arg3 arg4 arg5
  | sys_munmap => do_munmap arg0 arg1
  | sys_sysinfo => main_sysinfo arg0
  | sys_uname => main_uname arg0
  end.

(** [syscall_nr] is an [unsigned long] of 64 bits. *)
Definition do_syscall (syscall_nr arg0 arg1 arg2 arg3 arg4 arg5 : Z) : K Z :=
  if NR_syscalls <=? syscall_nr then
    printk "Invalid syscall number: %lu\n" [IntArg syscall_nr];; mret (minus ENOSYS)
  else
    match sys_call_table !! Z.to_nat syscall_nr with
    | None => fault
    | Some None => printk "Unimplemented syscall: %lu\n" [IntArg syscall_nr];; mret (minus ENOSYS)
    | Some (Some f) => call_fn f arg0 arg1 arg2 arg3 arg4 arg5
    end.

(** * Interrupts and exceptions *)

Definition update_jiffies : K unit := modify (λ k, with_ticks (ticks k +[64] 1) k).

Definition timer_interrupt : K unit := update_jiffies;; scheduler_tick;; run_timer_softirq.

Definition keyboard_interrupt : K unit := scancode ← in_port 0x60; handle_keyboard_input scancode.

Definition handle_interrupt (irq : Z) : K unit :=
  printk " 一大波中断来袭 %d received\n" [IntArg irq];;
  if irq =? 0 then timer_interrupt
  else if irq =? 1 then keyboard_interrupt
  else printk "Unknown interrupt: %d\n" [IntArg irq];; mret tt.

Definition handle_page_fault (error_code : Z) : K unit :=
  address ← gets (λ k, cr2 (dev k));
  printk "Page fault at address 0x%lx, error code: 0x%lx\n" [IntArg address; IntArg error_code];;
  do_page_fault address error_code.

Definition handle_exception (exception error_code : Z) : K unit :=
  printk "Exception %d (error code: 0x%lx)\n" [IntArg exception; IntArg error_code];;
  (if exception =? 0 then printk "Division by zero\n" [];; mret tt
   else if exception =? 6 then printk "Invalid instruction\n" [];; mret tt
   else if exception =? 13 then printk "General protection fault\n" [];; mret tt
   else if exception =? 14 then handle_page_fault error_code
   else printk "Unknown exception: %d\n" [IntArg exception];; mret tt);;
  if negb (exception =? 14) then panic "Unhandled exception in kernel" else mret tt.
End main.
