(* ===== verification/MainSpec.v ===== *)
(** Properties of the kernel's main file: what [printk] sends to the serial
    port, that the boot sequence ends in a panic or a fault before the first
    process runs, and what a system call answers. *)
From stdpp Require Import base gmap list strings fin_maps.
From S2P Require Import Prelude CTypes ListHead Spinlock Buddy SchedData Cfs CfsTheory Sched SchedTasks SchedSwitch Main.

(** A serial port that sends every byte written to it, and is ready again
    after finitely many polls. *)
Class UartLaws `{MainLib} := {
  tx : device → list Z;
  polls : device → nat;
  inb_law : ∀ d, tx (snd (inb (SERIAL_PORT + 5) d)) = tx d ∧ cr2 (snd (inb (SERIAL_PORT + 5) d)) = cr2 d ∧
    (Z.land (fst (inb (SERIAL_PORT + 5) d)) 0x20 ≠ 0 ∨ (polls (snd (inb (SERIAL_PORT + 5) d)) < polls d)%nat);
  outb_law : ∀ v d, tx (outb SERIAL_PORT v d) = tx d ++ [v] ∧ cr2 (outb SERIAL_PORT v d) = cr2 d
}.

Section spec.
  Context `{CoreLib, !Allocator, !MainLib, !UartLaws}.
  Context (fuel : nat) (Hfuel : ∀ d, (polls d < fuel)%nat).
  Abbreviation K := (M (kernel env device)).
  Implicit Types (k : kernel env device).

(** * Console *)

Lemma wp_wait_ready n : ∀ k (Q : unit → kernel env device → Prop), (polls (dev k) < n)%nat →
  (∀ d, tx d = tx (dev k) → cr2 d = cr2 (dev k) → Q tt (with_dev d k)) → wp (wait_ready n) k Q.
Proof.
  induction n as [|n IH]; intros k Q Hn HQ; [lia|]. simpl. apply wp_bind. unfold wp at 1, in_port.
  destruct (inb_law (dev k)) as (Htx & Hcr & Hst). destruct (inb (SERIAL_PORT + 5) (dev k)) as [v d]. simpl in Htx, Hcr, Hst.
  destruct (Z.eqb_spec (Z.land v 32) 0) as [Hz|Hz]; [|by apply wp_ret, HQ].
  destruct Hst as [?|Hlt]; [done|]. apply IH; [simpl; lia|]. intros d' Hd' Hc'. apply HQ; [by rewrite Hd'|by rewrite Hc'].
Qed.

Lemma wp_serial_putc c k (Q : unit → kernel env device → Prop) :
  (∀ d, tx d = tx (dev k) ++ [wrap 8 c] → cr2 d = cr2 (dev k) → Q tt (with_dev d k)) → wp (serial_putc fuel c) k Q.
Proof.
  intros HQ. unfold serial_putc. apply wp_bind, wp_wait_ready; [apply Hfuel|]. intros d Hd Hc.
  apply wp_modify. destruct (outb_law (wrap 8 c) d) as [Ho1 Ho2].
  apply (HQ (outb SERIAL_PORT (wrap 8 c) d)); [by rewrite Ho1, Hd|by rewrite Ho2].
Qed.

(** The bytes of the buffer from [i] on. *)
Lemma wp_console_write_loop n : ∀ buffer i k (Q : unit → kernel env device → Prop), 0 ≤ i →
  (Z.to_nat i + n ≤ length buffer)%nat →
  (∀ d, tx d = tx (dev k) ++ (wrap 8 <$> take n (drop (Z.to_nat i) buffer)) → cr2 d = cr2 (dev k) →
     Q tt (with_dev d k)) →
  wp (console_write_loop fuel buffer n i) k Q.
Proof.
  induction n as [|n IH]; intros buffer i k Q Hi Hn HQ; simpl.
  - apply wp_ret. specialize (HQ (dev k)). destruct k. apply HQ; [by rewrite app_nil_r|done].
  - destruct (lookup_lt_is_Some_2 buffer (Z.to_nat i)) as [c Hc]; [lia|]. rewrite Hc.
    apply wp_bind, wp_serial_putc. intros d Hd Hcr. apply IH; [lia|lia|]. intros d' Hd' Hcr'.
    apply HQ; [|by rewrite Hcr']. rewrite Hd'. simpl. rewrite Hd, <-app_assoc, (drop_S _ _ _ Hc). simpl.
    by replace (Z.to_nat (i + 1)) with (S (Z.to_nat i)) by lia.
Qed.

Lemma console_write_overrun n : ∀ buffer i k, 0 ≤ i → (Z.to_nat i ≤ length buffer)%nat →
  (length buffer < Z.to_nat i + n)%nat → console_write_loop fuel buffer n i k = Fault.
Proof.
  induction n as [|n IH]; intros buffer i k Hi Hl Hn; [lia|]. simpl.
  destruct (buffer !! Z.to_nat i) as [c|] eqn:Hc; [|done].
  apply wp_bind_Fault, wp_serial_putc. intros d _ _. apply lookup_lt_Some in Hc. apply IH; lia.
Qed.

Lemma wp_printk fmt args k (Q : Z → kernel env device → Prop) : (length (vsnprintf fmt args) ≤ 1023)%nat →
  (∀ d, tx d = tx (dev k) ++ (wrap 8 <$> vsnprintf fmt args) → cr2 d = cr2 (dev k) →
     Q (Z.of_nat (length (vsnprintf fmt args))) (with_dev d k)) →
  wp (printk fuel fmt args) k Q.
Proof.
  intros Hl HQ. unfold printk, console_write. apply wp_bind, wp_console_write_loop; [done| |].
  - rewrite Nat2Z.id, length_app, length_take. cbn [length]. lia.
  - intros d Hd Hcr. apply wp_ret, HQ; [|done]. rewrite Hd, Nat2Z.id. simpl. rewrite drop_0.
    by rewrite (take_ge (vsnprintf fmt args) 1023), take_app_length by lia.
Qed.

(** C38: [printk] sends the formatted text to the serial port and changes
    nothing else as long as the text fits its 1024-byte buffer with its
    terminator; a text of 1024 bytes is sent with a NUL for its last byte; and
    a longer one makes [console_write] read past the buffer, because it is given
    the length of the whole text. *)
Theorem printk_writes (fmt : string) (args : list printf_arg) k :
  let text := vsnprintf fmt args in
  if decide (length text ≤ 1023)%nat then
    ∃ d, printk fuel fmt args k = Ret (Z.of_nat (length text), with_dev d k) ∧
      tx d = tx (dev k) ++ (wrap 8 <$> text)
  else if decide (length text = 1024)%nat then
    ∃ d, printk fuel fmt args k = Ret (1024, with_dev d k) ∧
      tx d = tx (dev k) ++ (wrap 8 <$> take 1023 text) ++ [0]
  else printk fuel fmt args k = Fault.
Proof.
  intros text. destruct (decide (length text ≤ 1023)%nat) as [Hle|Hgt].
  { enough (wp (printk fuel fmt args) k (λ r k', r = Z.of_nat (length text) ∧ ∃ d, k' = with_dev d k ∧
      tx d = tx (dev k) ++ (wrap 8 <$> text))) as (? & ? & Hrun & -> & d & -> & Hd)%wp_returns by eauto.
    apply wp_printk; [done|]. intros d Hd _. split; [done|]. by exists d. }
  assert (length (take 1023 text ++ [0]) = 1024%nat) as Hlen by (rewrite length_app, length_take; cbn [length]; lia).
  destruct (decide (length text = 1024)%nat) as [He|Hne].
  - enough (wp (printk fuel fmt args) k (λ r k', r = 1024 ∧ ∃ d, k' = with_dev d k ∧
      tx d = tx (dev k) ++ (wrap 8 <$> take 1023 text) ++ [0])) as (? & ? & Hrun & -> & d & -> & Hd)%wp_returns by eauto.
    unfold printk, console_write. fold text. rewrite He, Nat2Z.id.
    apply wp_bind, wp_console_write_loop; [done|lia|]. intros d Hd _. apply wp_ret. split; [done|].
    exists d. split; [done|]. rewrite Hd. simpl. rewrite drop_0, take_ge by lia. by rewrite fmap_app.
  - unfold printk, console_write. fold text. apply bind_Fault, console_write_overrun; [done|lia|lia].
Qed.

(** A message [printk] has room for, and one [panic] does. *)
Definition short_message (fmt : string) (args : list printf_arg) : Prop :=
  (length (vsnprintf fmt args) ≤ 1023)%nat.
Definition short_panic (msg : string) : Prop :=
  short_message "KERNEL PANIC: %s\n" [StrArg (take 1023 (vsnprintf msg []))].

Lemma panic_run {A} msg k : short_panic msg →
  (panic fuel msg : K A) k = Panic msg.
Proof.
  intros Hl. unfold panic. apply (wp_bind_out _ _ _ (λ o, o = Panic msg)), wp_printk; [done|].
  intros d _ _. apply (wp_bind_out _ _ _ (λ o, o = Panic msg)). unfold local_irq_disable, on_sched. by apply wp_zoom, wp_modify.
Qed.

(** * Boot *)

Lemma wp_on_sched {A} (m : M (sched env) A) k (Q : A → kernel env device → Prop) :
  wp m (scheduler k) (λ a s, Q a (with_scheduler s k)) → wp (on_sched m) k Q.
Proof. apply wp_zoom. Qed.

Lemma on_sched_Fault {A} (m : M (sched env) A) k : m (scheduler k) = Fault → on_sched m k = Fault.
Proof. unfold on_sched, zoom. by intros ->. Qed.

(** [sched_fork] reads the current task, and there is none. *)
Lemma sched_fork_no_current s p t e : tasks s !! p = Some t → ses s !! p = Some e →
  current_task s ≠ p → tasks s !! current_task s = None → sched_fork fuel p s = Fault.
Proof.
  intros Ht He Hne Hnone. unfold sched_fork. apply wp_bind_Fault. eapply wp_task_set; [done|].
  apply wp_bind_Fault. eapply wp_mod_se; [done|].
  apply wp_bind_Fault. eapply wp_task_set; [apply lookup_insert_eq|].
  apply wp_bind_Fault, wp_gets, bind_Fault. simpl.
  apply bind_Fault. unfold get_task, get_some. simpl. by rewrite !lookup_insert_ne, Hnone by done.
Qed.

(** C22: [create_init_process] at boot, when no task is current: with the
    answers [p], [q] of [kmalloc] and [m] of [mm_alloc], it panics when one of
    them is NULL, and otherwise faults, because [sched_fork] reads the
    priorities of a NULL current task: the first process is never created,
    whatever the allocator. *)
Theorem first_process_never_created k k2 (p q m : Z) (w w' : env)
    (Hpid : 1 ≤ next_pid (scheduler k) < PID_MAX)
    (Hp : kmalloc sizeof_task_struct (world (scheduler k)) = (p, w)) (Hq : kmalloc THREAD_SIZE w = (q, w'))
    (Hfresh : p ≠ NULL → fresh_task (scheduler k) p)
    (Hcur : current_task (scheduler k) = NULL) (Hnull : tasks (scheduler k) !! NULL = None)
    (Hmm : mm_alloc (with_scheduler (with_new_task p q w' (scheduler k)) k) = Ret (m, k2))
    (Hmm2 : scheduler k2 = with_new_task p q w' (scheduler k))
    (Hmsg1 : short_panic "Cannot allocate init task") (Hmsg2 : short_panic "Cannot allocate init mm") :
  create_init_process fuel k =
    if (p =? NULL) || (q =? NULL) then Panic "Cannot allocate init task"
    else if m =? NULL then Panic "Cannot allocate init mm"
    else Fault.
Proof.
  unfold create_init_process.
  match goal with |- _ = ?o => set (out := o); apply (wp_bind_out _ _ _ (λ r, r = out)) end.
  apply wp_on_sched. eapply wp_alloc_task_struct; [done..| | | |done].
  - intros ->. subst out. cbn [orb Z.eqb NULL]. by apply bind_Panic, panic_run.
  - intros Hpn -> _. subst out. rewrite orb_true_r. cbn [Z.eqb NULL]. by apply bind_Panic, panic_run.
  - intros Hpn Hqn. subst out. set (s1 := with_new_task p q w' (scheduler k)) in *.
    rewrite (proj2 (Z.eqb_neq p NULL)), (proj2 (Z.eqb_neq q NULL)) by done. cbn [orb].
    match goal with |- _ = ?o => set (out := o); apply (wp_bind_out _ _ _ (λ r, r = out)) end. apply wp_ret.
    apply (wp_bind_out _ _ _ (λ r, r = out)). eapply wp_Ret; [exact Hmm|].
    assert (tasks (scheduler k2) !! p = Some (new_task p q (next_pid (scheduler k)))) as Ht2.
    { rewrite Hmm2. apply lookup_insert_eq. }
    destruct (Z.eqb_spec m NULL) as [->|Hmn]; subst out.
    + apply bind_Panic. apply (wp_bind_out _ _ _ (λ r, r = Panic _)), wp_on_sched.
      eapply wp_free_task_struct; [done|exact Ht2| |by apply panic_run].
      intros _. rewrite Hmm2. simpl. set_solver.
    + apply wp_bind_Fault, wp_ret. apply wp_bind_Fault, wp_on_sched. eapply wp_mod_task; [exact Ht2|].
      apply wp_bind_Fault, wp_on_sched. apply wp_bind, wp_gets, wp_bind, wp_modify, wp_ret.
      apply wp_bind_Fault, wp_on_sched. eapply wp_task_assign; [apply lookup_insert_eq|].
      apply bind_Fault, on_sched_Fault. eapply sched_fork_no_current.
      * apply lookup_insert_eq.
      * simpl. rewrite Hmm2. apply lookup_insert_eq.
      * simpl. rewrite Hmm2. simpl. by rewrite Hcur.
      * simpl. rewrite Hmm2. simpl. by rewrite Hcur, !lookup_insert_ne, Hnull by done.
Qed.

(** The static data [sched_init] works on is there. *)
Definition booting k : Prop :=
  is_Some (rqs (scheduler k) !! 0) ∧ is_Some (cfs (scheduler k) !! 0) ∧
  is_Some (lists (scheduler k) !! task_list) ∧ is_Some (lists (scheduler k) !! cfs_tasks 0).

Lemma booting_dev d k : booting k → booting (with_dev d k).
Proof. done. Qed.

Lemma booting_sched_init k : booting k → wp (on_sched sched_init) k (λ _ k', booting k').
Proof.
  intros ([x Hr] & [c Hc] & Hl1 & Hl2). apply wp_on_sched. eapply wp_sched_init; [done..|].
  intros h Hh1 Hh2. unfold booting. simpl. rewrite !lookup_insert_eq, Hh1, Hh2.
  split_and!; by eexists.
Qed.

(** C21: the boot sequence with an allocator that has nothing, as the one of
    the main file: once the subsystems are initialised, [kernel_main] panics
    with "Cannot allocate init task"; no task ever runs. *)
Theorem boot_panics k (Hk : booting k) (Hempty : ∀ size w, fst (kmalloc size w) = NULL)
    (Hsub : ∀ sub k, booting k → ∃ k', subsystem_init sub k = Ret (tt, k') ∧ booting k')
    (Hmsg1 : short_message "Initializing %s %s\n" [StrArg (bytes_of KERNEL_NAME); StrArg (bytes_of KERNEL_VERSION)])
    (Hmsg2 : short_message "Scheduler initialized\n" []) (Hmsg3 : short_panic "Cannot allocate init task") :
  kernel_main fuel k = Panic "Cannot allocate init task".
Proof.
  assert (∀ sub k, booting k → wp (subsystem_init sub) k (λ _ k', booting k')) as Hs.
  { intros sub k1 Hk1. destruct (Hsub sub k1 Hk1) as (k1' & Hrun & Hb). by eapply wp_Ret. }
  assert (∀ msg args k, short_message msg args → booting k → wp (printk fuel msg args) k (λ _ k', booting k')) as Hpr.
  { intros msg args k1 Hm Hk1. apply wp_printk; [exact Hm|]. done. }
  assert (∀ k, booting k → create_init_process fuel k = Panic "Cannot allocate init task") as Hcreate.
  { intros k1 _. unfold create_init_process.
    destruct (kmalloc sizeof_task_struct (world (scheduler k1))) as [p w] eqn:Hp.
    assert (p = NULL) as -> by by (rewrite <-(Hempty sizeof_task_struct (world (scheduler k1))), Hp).
    apply (wp_bind_out _ _ _ (λ o, o = Panic _)), wp_on_sched. unfold alloc_task_struct.
    apply wp_bind. eapply wp_Ret; [by apply alloc_run|]. apply wp_ret. by apply bind_Panic, panic_run. }
  unfold kernel_main. apply bind_Panic. unfold kernel_init.
  apply (wp_bind_out _ _ _ (λ o, o = Panic _)). eapply wp_mono; [by apply Hpr|]. intros ? k1 Hk1; cbv beta in Hk1.
  apply (wp_bind_out _ _ _ (λ o, o = Panic _)). eapply wp_mono; [by apply Hs|]. intros ? k2 Hk2; cbv beta in Hk2.
  apply (wp_bind_out _ _ _ (λ o, o = Panic _)). unfold on_mm. apply wp_zoom, wp_bind, wp_modify, wp_modify.
  set (k3 := with_memory _ _). assert (booting k3) as Hk3 by done.
  apply (wp_bind_out _ _ _ (λ o, o = Panic _)). eapply wp_mono; [by apply booting_sched_init|]. intros ? k4 Hk4; cbv beta in Hk4.
  apply (wp_bind_out _ _ _ (λ o, o = Panic _)). eapply wp_mono; [by apply Hpr|]. intros ? k5 Hk5; cbv beta in Hk5.
  do 4 (apply (wp_bind_out _ _ _ (λ o, o = Panic _)); eapply wp_mono; [by apply Hs|]; intros ? ? ?; cbv beta in *).
  by apply bind_Panic, Hcreate.
Qed.

(** * System calls *)

Lemma table_other l : ∀ t m, (∀ e, e ∈ l → Z.to_nat (nr (fst e)) ≠ m) →
  (foldr (λ e t, <[Z.to_nat (nr (fst e)) := Some (snd e)]> t) t l : list (option syscall_fn)) !! m = t !! m.
Proof.
  induction l as [|e l IH]; intros t m Hm; [done|]. simpl.
  rewrite list_lookup_insert_ne by (apply Hm; by left). apply IH. intros e' He'. apply Hm. by right.
Qed.

Lemma table_entry no f : (no, f) ∈ sys_call_entries → sys_call_table !! Z.to_nat (nr no) = Some (Some f).
Proof.
  intros Hin%list_elem_of_In.
  enough (forallb (λ e, bool_decide (sys_call_table !! Z.to_nat (nr (fst e)) = Some (Some (snd e)))) sys_call_entries = true)
    as Hall.
  { rewrite List.forallb_forall in Hall. specialize (Hall _ Hin). by apply bool_decide_eq_true in Hall. }
  vm_compute. reflexivity.
Qed.

Lemma nr_range no : 0 ≤ nr no < NR_syscalls.
Proof. destruct no; vm_compute; split; congruence. Qed.

(** [nr] lists the constructors in order. *)
Lemma nr_position no : all_sysnos !! Z.to_nat (nr no) = Some no.
Proof. by destruct no. Qed.

(** The message for a system call that does not exist. *)
Definition no_syscall_message (n : Z) : list Z :=
  vsnprintf (if decide (n < NR_syscalls) then "Unimplemented syscall: %lu\n" else "Invalid syscall number: %lu\n")
    [IntArg n].

Lemma wp_print_enosys fmt n k (Q : Z → kernel env device → Prop) : short_message fmt [IntArg n] →
  (∀ d, tx d = tx (dev k) ++ (wrap 8 <$> vsnprintf fmt [IntArg n]) → cr2 d = cr2 (dev k) →
     Q 27 (with_dev d k)) →
  wp (printk fuel fmt [IntArg n];; mret (minus ENOSYS)) k Q.
Proof.
  intros Hm HQ. apply wp_bind, wp_printk; [exact Hm|]. intros d Htx Hcr. by apply wp_ret, HQ.
Qed.

(** C37: [do_syscall] calls exactly the function the table designates for the
    number, with the six arguments; for a number without function or beyond the
    table it prints the message for it, with the number, on the serial port,
    changes nothing else and answers 27, as the
    unimplemented functions do: [-ENOSYS] negates a code that is negative, and
    a caller that tests for a negative result takes it for a success. The
    numbers are distinct and fit the table. *)
Theorem do_syscall_dispatch (n a0 a1 a2 a3 a4 a5 : Z) k (Hn : 0 ≤ n)
    (Hmsg : ∀ fmt, fmt ∈ ["Invalid syscall number: %lu\n"; "Unimplemented syscall: %lu\n"]%string →
      short_message fmt [IntArg n]) :
  (∀ no f, (no, f) ∈ sys_call_entries → n = nr no →
     do_syscall fuel n a0 a1 a2 a3 a4 a5 k = call_fn fuel f a0 a1 a2 a3 a4 a5 k) ∧
  ((∀ no f, (no, f) ∈ sys_call_entries → n ≠ nr no) →
     ∃ d, do_syscall fuel n a0 a1 a2 a3 a4 a5 k = Ret (27, with_dev d k) ∧
       tx d = tx (dev k) ++ (wrap 8 <$> no_syscall_message n) ∧ cr2 d = cr2 (dev k)) ∧
  (∀ f, f ∈ [sys_read; sys_write; sys_open; sys_close; sys_execve] →
     call_fn fuel f a0 a1 a2 a3 a4 a5 k = Ret (27, k)) ∧
  (∀ no, 0 ≤ nr no < NR_syscalls) ∧ (∀ no no', nr no = nr no' → no = no').
Proof.
  split_and!.
  - intros no f Hin ->. unfold do_syscall. pose proof (nr_range no).
    destruct (Z.leb_spec NR_syscalls (nr no)); [lia|]. by rewrite (table_entry no f).
  - intros Hno.
    enough (wp (do_syscall fuel n a0 a1 a2 a3 a4 a5) k (λ r k', r = 27 ∧ ∃ d, k' = with_dev d k ∧
        tx d = tx (dev k) ++ (wrap 8 <$> no_syscall_message n) ∧ cr2 d = cr2 (dev k)))
      as (? & ? & Hrun & -> & d & -> & Hd)%wp_returns by by exists d.
    unfold do_syscall, no_syscall_message.
    destruct (Z.leb_spec NR_syscalls n).
    + rewrite decide_False by lia. apply wp_print_enosys; [apply Hmsg; set_solver|]. eauto 10.
    + rewrite decide_True by lia. unfold sys_call_table. rewrite table_other, lookup_replicate_2.
      * apply wp_print_enosys; [apply Hmsg; set_solver|]. eauto 10.
      * lia.
      * intros [no f] Hin. simpl. specialize (Hno no f Hin). pose proof (nr_range no). lia.
  - intros f Hf. by repeat (apply elem_of_cons in Hf as [->|Hf]; [reflexivity|]); apply elem_of_nil in Hf.
  - apply nr_range.
  - intros no no' He. pose proof (nr_position no) as Hp. rewrite He, nr_position in Hp. congruence.
Qed.

(** The [sys_sched_yield] of the main file never returns: it calls
    [yield], which calls it again; system call 24 marks the current task
    runnable for ever, whatever the fuel. *)
Theorem sched_yield_never_returns (a0 a1 a2 a3 a4 a5 : Z) k t
    (Ht : tasks (scheduler k) !! current_task (scheduler k) = Some t) :
  do_syscall fuel (nr NR_sched_yield) a0 a1 a2 a3 a4 a5 k = OutOfFuel.
Proof.
  change (do_syscall fuel (nr NR_sched_yield) a0 a1 a2 a3 a4 a5 k) with (main_sched_yield fuel k).
  enough (∀ n k t, tasks (scheduler k) !! current_task (scheduler k) = Some t → main_yield n k = OutOfFuel) as Hloop.
  { unfold main_sched_yield, mbind, M_bind. by rewrite (Hloop fuel k t). }
  clear. intros n. induction n as [|n IH]; intros k t Ht; [done|]. simpl.
  apply (wp_bind_out _ _ _ (λ o, o = OutOfFuel)), wp_on_sched, wp_gets.
  apply (wp_bind_out _ _ _ (λ o, o = OutOfFuel)), wp_on_sched. eapply wp_task_set; [exact Ht|].
  unfold mbind at 1, M_bind. erewrite IH; [done|]. simpl. apply lookup_insert_eq.
Qed.

(** The formats of the exception handlers. *)
Definition exception_formats : list string :=
  ["Exception %d (error code: 0x%lx)\n"; "Division by zero\n"; "Invalid instruction\n";
   "General protection fault\n"; "Unknown exception: %d\n";
   "Page fault at address 0x%lx, error code: 0x%lx\n"; "KERNEL PANIC: %s\n"]%string.

Lemma handle_page_fault_run code k :
  (∀ fmt args, fmt ∈ exception_formats → (length (vsnprintf fmt args) ≤ 1023)%nat) →
  ∃ d, handle_page_fault fuel code k = do_page_fault (cr2 (dev k)) code (with_dev d k).
Proof.
  intros Hmsg. unfold handle_page_fault.
  apply (wp_bind_out _ _ _ (λ o, ∃ d, o = do_page_fault _ code (with_dev d k))), wp_gets.
  apply (wp_bind_out _ _ _ (λ o, ∃ d, o = do_page_fault _ code (with_dev d k))), wp_printk; [apply Hmsg; by_decide|].
  intros d _ _. by exists d.
Qed.

Lemma bind_unit {S} (m : M S unit) s : (m ≫= λ _, mret tt) s = m s.
Proof. unfold mbind, M_bind. by destruct (m s) as [[[] s']| | |]. Qed.

(** An exception other than a page fault is never handled: after the
    messages [handle_exception] panics; a page fault is passed on with the
    faulting address, and nothing but the serial port has changed by then. *)
Theorem exceptions_panic (exception code : Z) k
    (Hmsg : ∀ fmt args, fmt ∈ exception_formats → (length (vsnprintf fmt args) ≤ 1023)%nat) :
  if exception =? 14
  then ∃ d, handle_exception fuel exception code k = do_page_fault (cr2 (dev k)) code (with_dev d k)
  else handle_exception fuel exception code k = Panic "Unhandled exception in kernel".
Proof.
  unfold handle_exception. destruct (Z.eqb_spec exception 14) as [->|Hne].
  - apply (wp_bind_out _ _ _ (λ o, ∃ d, o = do_page_fault _ code (with_dev d k))), wp_printk; [apply Hmsg; by_decide|].
    intros d _ Hcr. destruct (handle_page_fault_run code (with_dev d k) Hmsg) as [d' Hrun]. exists d'.
    transitivity ((handle_page_fault fuel code;; mret tt) (with_dev d k)); [reflexivity|].
    change (cr2 (dev (with_dev d k))) with (cr2 d) in Hrun. by rewrite bind_unit, Hrun, Hcr.
  - apply (wp_bind_out _ _ _ (λ o, o = Panic _)), wp_printk; [apply Hmsg; by_decide|]. intros d _ _.
    apply (wp_bind_out _ _ _ (λ o, o = Panic _)).
    assert (∀ fmt args, fmt ∈ exception_formats → wp (printk fuel fmt args;; mret tt) (with_dev d k) (λ _ k',
      (panic fuel "Unhandled exception in kernel" : K unit) k' = Panic "Unhandled exception in kernel")) as Hpr.
    { intros fmt args Hf. apply wp_bind, wp_printk; [by apply Hmsg|]. intros d' _ _. apply wp_ret, panic_run, Hmsg. by_decide. }
    repeat (destruct (_ =? _); [apply Hpr; by_decide|]). apply Hpr; by_decide.
Qed.
End spec.
