(* ===== verification/MainWitness.v ===== *)
(** The theorems of [MainSpec] at concrete states: a serial port that is always
    ready, the empty allocator of the main file, and a booted scheduler. *)
From stdpp Require Import base gmap list strings fin_maps sorting.
From S2P Require Import Prelude CTypes ListHead Spinlock Buddy SchedData Cfs CfsTheory CfsWitness Sched SchedTasks SchedSwitch SchedWitness Main MainSpec.

(** The device is the log of what was sent. *)
#[export] Instance quiet_main : MainLib := {|
  device := list Z;
  inb := λ _ d, (0x20, d); outb := λ _ v d, d ++ [v];
  vsnprintf := λ fmt _, bytes_of fmt; cr2 := λ _, 4096;
  subsystem_init := λ _, mret tt; mm_alloc := mret 800;
  do_exit := λ _, mret tt; do_fork := λ _ _ _ _ _, mret 2; do_wait := λ _ _ _ _, mret 0;
  do_kill := λ _ _, mret 0; do_brk := λ _, mret 0; do_mmap := λ _ _ _ _ _ _, mret 0;
  do_munmap := λ _ _, mret 0; si_swapinfo := mret;
  copy_sysinfo_to_user := λ _ _, mret 0; copy_utsname_to_user := λ _ _, mret 0;
  scheduler_tick := mret tt; run_timer_softirq := mret tt; handle_keyboard_input := λ _, mret tt;
  do_page_fault := λ _ _, mret tt
|}.

#[export] Instance quiet_uart : @UartLaws linux_sched quiet_main.
Proof.
  refine (@Build_UartLaws linux_sched quiet_main (λ d, d) (λ _, 0%nat) _ _).
  - intros d. split; [done|]. split; [done|]. by left.
  - intros v d. done.
Defined.

Definition no_memory : mm :=
  MM ∅ ∅ ∅ ∅ [] 0 0 0 0 (SPINLOCK_INIT "zone") 0 true.
Definition k_boot : kernel env device := Kernel raw no_memory [] 0 NULL false.
Definition k_run : kernel env device := Kernel sw no_memory [] 0 NULL true.

Lemma ready (d : device) : (polls d < 3)%nat.
Proof. apply Nat.ltb_lt. reflexivity. Qed.

Lemma printk_writes_witness : ∃ d, printk 3 "ok" [] k_boot = Ret (2, with_dev d k_boot) ∧ d = [111; 107].
Proof.
  destruct (printk_writes 3 ready "ok" [] k_boot) as (d & Hrun & Hd). exists d. split; [exact Hrun|exact Hd].
Defined.

Lemma boot_panics_witness :
  @kernel_main _ _ main_allocator _ 3 k_boot = Panic "Cannot allocate init task" ∧ booting k_boot.
Proof.
  assert (booting k_boot) as Hk by (split_and!; by eexists). split; [|exact Hk].
  apply (@boot_panics _ _ main_allocator _ _ 3 ready k_boot Hk).
  - intros size w. reflexivity.
  - intros sub k Hb. exists k. split; [reflexivity|exact Hb].
  - unfold short_panic, short_message. by_decide.
  - unfold short_panic, short_message. by_decide.
  - unfold short_panic, short_message. by_decide.
Defined.

(** The clock after each allocation. *)
Definition w1 : @env linux_sched := 10000001.
Definition w2 : @env linux_sched := 10000002.

Lemma first_process_never_created_witness : create_init_process 3 k_boot = Fault.
Proof.
  apply (first_process_never_created 3 ready k_boot
    (with_scheduler (with_new_task 10009000 10016385 w2 raw) k_boot) 10009000 10016385 800 w1 w2).
  - by_decide.
  - reflexivity.
  - reflexivity.
  - intros _. split; [reflexivity|]. split; [reflexivity|]. intros f. simpl.
    by rewrite lookup_insert_ne, lookup_singleton_ne by done.
  - reflexivity.
  - reflexivity.
  - reflexivity.
  - reflexivity.
  - unfold short_panic, short_message. by_decide.
  - unfold short_panic, short_message. by_decide.
Defined.

Lemma do_syscall_dispatch_witness :
  ∃ d, do_syscall 3 4 0 0 0 0 0 0 k_run = Ret (27, with_dev d k_run) ∧
    tx d = tx (dev k_run) ++ (wrap 8 <$> no_syscall_message 4).
Proof.
  destruct (do_syscall_dispatch 3 ready 4 0 0 0 0 0 0 k_run) as (_ & Hno & _).
  - lia.
  - intros fmt Hf. by repeat (apply elem_of_cons in Hf as [->|Hf]; [unfold short_message; by_decide|]); apply elem_of_nil in Hf.
  - destruct Hno as (d & Hrun & Htx & _).
    + intros no f Hin.
      repeat (apply elem_of_cons in Hin as [[= -> _]|Hin]; [discriminate|]). by apply elem_of_nil in Hin.
    + exists d. split; [exact Hrun|exact Htx].
Defined.

Lemma sched_yield_never_returns_witness :
  do_syscall 3 24 0 0 0 0 0 0 k_run = OutOfFuel ∧ is_Some (tasks sw !! 100).
Proof.
  split; [|by eexists]. apply (sched_yield_never_returns 3 0 0 0 0 0 0 k_run user_task). reflexivity.
Defined.

Lemma exceptions_panic_witness : handle_exception 3 13 0 k_run = Panic "Unhandled exception in kernel".
Proof.
  apply (exceptions_panic 3 ready 13 0 k_run). intros fmt args Hf.
  repeat (apply elem_of_cons in Hf as [->|Hf]; [by_decide|]). by apply elem_of_nil in Hf.
Defined.
