(* ===== verification/Flags.v ===== *)
(** Flag words, modes and ranges of the headers that carry no code of their
    own: the [PF_], [CLONE_] and [VM_] flags of [sched.h] and [mm.h], the file
    modes of [types.h], the enumerations of [mm.h] with the counts [config.h]
    gives for them, and the address map.

    A set of flags is kept in one 32-bit word.  [FlagType] states what makes
    that sound (every flag is a bit of its own) and the words are proved
    faithful for every instance: testing a word decides membership, and two sets
    have one word exactly when they are equal. *)
From stdpp Require Import base list.
From S2P Require Import Prelude CTypes Page Cfs Sched Main.

(** * Flags *)

Inductive pf_flag :=
  | PF_KTHREAD | PF_IDLE | PF_EXITING | PF_EXITPIDONE | PF_VCPU | PF_WQ_WORKER
  | PF_FORKNOEXEC | PF_MCE_PROCESS | PF_SUPERPRIV | PF_DUMPCORE | PF_SIGNALED
  | PF_MEMALLOC | PF_NPROC_EXCEEDED | PF_USED_MATH | PF_USED_ASYNC | PF_NOFREEZE
  | PF_FROZEN | PF_FREEZER_SKIP.

Definition pf_value (f : pf_flag) : Z :=
  match f with
  | PF_KTHREAD => 0x00000001 | PF_IDLE => 0x00000002 | PF_EXITING => 0x00000004
  | PF_EXITPIDONE => 0x00000008 | PF_VCPU => 0x00000010 | PF_WQ_WORKER => 0x00000020
  | PF_FORKNOEXEC => 0x00000040 | PF_MCE_PROCESS => 0x00000080 | PF_SUPERPRIV => 0x00000100
  | PF_DUMPCORE => 0x00000200 | PF_SIGNALED => 0x00000400 | PF_MEMALLOC => 0x00000800
  | PF_NPROC_EXCEEDED => 0x00001000 | PF_USED_MATH => 0x00002000 | PF_USED_ASYNC => 0x00004000
  | PF_NOFREEZE => 0x00008000 | PF_FROZEN => 0x00010000 | PF_FREEZER_SKIP => 0x00020000
  end.

Inductive clone_flag :=
  | CLONE_VM | CLONE_FS | CLONE_FILES | CLONE_SIGHAND | CLONE_PTRACE | CLONE_VFORK
  | CLONE_PARENT | CLONE_THREAD | CLONE_NEWNS | CLONE_SYSVSEM | CLONE_SETTLS
  | CLONE_PARENT_SETTID | CLONE_CHILD_CLEARTID | CLONE_DETACHED | CLONE_UNTRACED
  | CLONE_CHILD_SETTID | CLONE_NEWCGROUP | CLONE_NEWUTS | CLONE_NEWIPC | CLONE_NEWUSER
  | CLONE_NEWPID | CLONE_NEWNET | CLONE_IO.

Definition clone_value (f : clone_flag) : Z :=
  match f with
  | CLONE_VM => 0x00000100 | CLONE_FS => 0x00000200 | CLONE_FILES => 0x00000400
  | CLONE_SIGHAND => 0x00000800 | CLONE_PTRACE => 0x00002000 | CLONE_VFORK => 0x00004000
  | CLONE_PARENT => 0x00008000 | CLONE_THREAD => 0x00010000 | CLONE_NEWNS => 0x00020000
  | CLONE_SYSVSEM => 0x00040000 | CLONE_SETTLS => 0x00080000
  | CLONE_PARENT_SETTID => 0x00100000 | CLONE_CHILD_CLEARTID => 0x00200000
  | CLONE_DETACHED => 0x00400000 | CLONE_UNTRACED => 0x00800000
  | CLONE_CHILD_SETTID => 0x01000000 | CLONE_NEWCGROUP => 0x02000000
  | CLONE_NEWUTS => 0x04000000 | CLONE_NEWIPC => 0x08000000 | CLONE_NEWUSER => 0x10000000
  | CLONE_NEWPID => 0x20000000 | CLONE_NEWNET => 0x40000000 | CLONE_IO => 0x80000000
  end.

Inductive vm_flag :=
  | VM_READ | VM_WRITE | VM_EXEC | VM_SHARED | VM_MAYREAD | VM_MAYWRITE | VM_MAYEXEC
  | VM_MAYSHARE | VM_GROWSDOWN | VM_GROWSUP | VM_PFNMAP | VM_DENYWRITE | VM_LOCKED | VM_IO
  | VM_SEQ_READ | VM_RAND_READ | VM_DONTCOPY | VM_DONTEXPAND | VM_LOCKONFAULT | VM_ACCOUNT
  | VM_NORESERVE | VM_HUGETLB | VM_ARCH_1 | VM_ARCH_2 | VM_DONTDUMP | VM_SOFTDIRTY
  | VM_MIXEDMAP | VM_HUGEPAGE | VM_NOHUGEPAGE | VM_MERGEABLE.

Definition vm_value (f : vm_flag) : Z :=
  match f with
  | VM_READ => 0x00000001 | VM_WRITE => 0x00000002 | VM_EXEC => 0x00000004
  | VM_SHARED => 0x00000008 | VM_MAYREAD => 0x00000010 | VM_MAYWRITE => 0x00000020
  | VM_MAYEXEC => 0x00000040 | VM_MAYSHARE => 0x00000080 | VM_GROWSDOWN => 0x00000100
  | VM_GROWSUP => 0x00000200 | VM_PFNMAP => 0x00000400 | VM_DENYWRITE => 0x00000800
  | VM_LOCKED => 0x00002000 | VM_IO => 0x00004000 | VM_SEQ_READ => 0x00008000
  | VM_RAND_READ => 0x00010000 | VM_DONTCOPY => 0x00020000 | VM_DONTEXPAND => 0x00040000
  | VM_LOCKONFAULT => 0x00080000 | VM_ACCOUNT => 0x00100000 | VM_NORESERVE => 0x00200000
  | VM_HUGETLB => 0x00400000 | VM_ARCH_1 => 0x01000000 | VM_ARCH_2 => 0x02000000
  | VM_DONTDUMP => 0x04000000 | VM_SOFTDIRTY => 0x08000000 | VM_MIXEDMAP => 0x10000000
  | VM_HUGEPAGE => 0x20000000 | VM_NOHUGEPAGE => 0x40000000 | VM_MERGEABLE => 0x80000000
  end.

#[export] Instance pf_flag_eq_dec : EqDecision pf_flag.
Proof. solve_decision. Defined.
#[export] Instance clone_flag_eq_dec : EqDecision clone_flag.
Proof. solve_decision. Defined.
#[export] Instance vm_flag_eq_dec : EqDecision vm_flag.
Proof. solve_decision. Defined.

(** ** Words of flags *)

(** A type of flags: each is a bit of a 32-bit word and no two share one. *)
Class FlagType (F : Type) (value : F → Z) := {
  flag_bit f : value f = 2 ^ Z.log2 (value f);
  flag_width f : 0 < value f < 2 ^ 32;
  flag_inj f g : value f = value g → f = g
}.

(** [A | B | ...] *)
Definition flags_or {F} (value : F → Z) (fs : list F) : Z := foldr (λ f m, Z.lor (value f) m) 0 fs.

(** * File modes *)

(** An octal literal by its digits. *)
Definition octal (ds : list Z) : Z := foldl (λ n d, 8 * n + d) 0 ds.

Inductive file_type := S_IFSOCK | S_IFLINK | S_IFREG | S_IFBLK | S_IFDIR | S_IFCHR | S_IFIFO.
Definition S_IF (t : file_type) : Z :=
  match t with
  | S_IFSOCK => octal [1;4;0;0;0;0] | S_IFLINK => octal [1;2;0;0;0;0]
  | S_IFREG => octal [1;0;0;0;0;0] | S_IFBLK => octal [0;6;0;0;0;0]
  | S_IFDIR => octal [0;4;0;0;0;0] | S_IFCHR => octal [0;2;0;0;0;0]
  | S_IFIFO => octal [0;1;0;0;0;0]
  end.
Definition S_IFMT : Z := octal [1;7;0;0;0;0].

(** The bits that set identities, and the permissions. *)
Inductive mode_bit :=
  | S_ISUID | S_ISGID | S_ISVTX
  | S_IRUSR | S_IWUSR | S_IXUSR | S_IRGRP | S_IWGRP | S_IXGRP | S_IROTH | S_IWOTH | S_IXOTH.
Definition mode_value (b : mode_bit) : Z :=
  match b with
  | S_ISUID => octal [4;0;0;0] | S_ISGID => octal [2;0;0;0] | S_ISVTX => octal [1;0;0;0]
  | S_IRUSR => octal [4;0;0] | S_IWUSR => octal [2;0;0] | S_IXUSR => octal [1;0;0]
  | S_IRGRP => octal [4;0] | S_IWGRP => octal [2;0] | S_IXGRP => octal [1;0]
  | S_IROTH => octal [4] | S_IWOTH => octal [2] | S_IXOTH => octal [1]
  end.
Definition S_IRWXU : Z := octal [7;0;0].
Definition S_IRWXG : Z := octal [7;0].
Definition S_IRWXO : Z := octal [7].

#[export] Instance mode_bit_eq_dec : EqDecision mode_bit.
Proof. solve_decision. Defined.

(** * Enumerations of the page allocator *)

Inductive zone_type :=
  | ZONE_DMA | ZONE_DMA32 | ZONE_NORMAL | ZONE_HIGHMEM | ZONE_MOVABLE | ZONE_DEVICE.
Definition zone_value (z : zone_type) : Z :=
  match z with
  | ZONE_DMA => 0 | ZONE_DMA32 => 1 | ZONE_NORMAL => 2 | ZONE_HIGHMEM => 3
  | ZONE_MOVABLE => 4 | ZONE_DEVICE => 5
  end.
Definition __MAX_NR_ZONES : Z := 6.

Inductive zone_watermarks := WMARK_MIN | WMARK_LOW | WMARK_HIGH.
Definition wmark_value (w : zone_watermarks) : Z :=
  match w with WMARK_MIN => 0 | WMARK_LOW => 1 | WMARK_HIGH => 2 end.
Definition NR_WMARK : Z := 3.

Definition LRU_BASE : Z := 0.
Definition LRU_ACTIVE : Z := 1.
Definition LRU_FILE : Z := 2.
Inductive lru_list :=
  | LRU_INACTIVE_ANON | LRU_ACTIVE_ANON | LRU_INACTIVE_FILE | LRU_ACTIVE_FILE | LRU_UNEVICTABLE.
Definition lru_value (l : lru_list) : Z :=
  match l with
  | LRU_INACTIVE_ANON => LRU_BASE
  | LRU_ACTIVE_ANON => LRU_BASE + LRU_ACTIVE
  | LRU_INACTIVE_FILE => LRU_BASE + LRU_FILE
  | LRU_ACTIVE_FILE => LRU_BASE + LRU_FILE + LRU_ACTIVE
  | LRU_UNEVICTABLE => LRU_BASE + LRU_FILE + LRU_ACTIVE + 1
  end.

(** An enumeration numbers an array of [n] elements: no two constants share an
    index, none is outside, and no index is unused. *)
Definition indexes {E} (value : E → Z) (n : Z) : Prop :=
  (∀ a b, value a = value b → a = b) ∧ ∀ i, 0 ≤ i < n ↔ ∃ a, value a = i.

(** * Address map ([config.h]) *)

Definition USER_VIRTUAL_BASE : Z := 0x0000000000000000.
Definition VMALLOC_START : Z := 0xFFFF880000000000.
Definition VMALLOC_END : Z := 0xFFFFC80000000000.
Definition MODULES_VADDR : Z := 0xFFFFFFFF80000000.
Definition MODULES_END : Z := 0xFFFFFFFFC0000000.

Inductive region := RUser | RDirect | RVmalloc | RModules.
Definition in_region (r : region) (a : Z) : Prop :=
  match r with
  | RUser => USER_VIRTUAL_BASE ≤ a < USER_VIRTUAL_END
  | RDirect => KERNEL_VIRTUAL_BASE ≤ a < VMALLOC_START
  | RVmalloc => VMALLOC_START ≤ a < VMALLOC_END
  | RModules => MODULES_VADDR ≤ a < MODULES_END
  end.

(** * Lemmas and instances *)

(** The instances are decided by evaluation, flag by flag. *)
Ltac flag_type := split; [intros f; by destruct f|intros f; by destruct f|
  intros f g; destruct f, g; first [done|intros E; vm_compute in E; discriminate E]].

#[export] Instance pf_flags : FlagType pf_flag pf_value.
Proof. flag_type. Qed.
#[export] Instance clone_flags : FlagType clone_flag clone_value.
Proof. flag_type. Qed.
#[export] Instance vm_flags : FlagType vm_flag vm_value.
Proof. flag_type. Qed.
#[export] Instance mode_bits : FlagType mode_bit mode_value.
Proof. flag_type. Qed.
#[export] Instance gfp_flags : FlagType gfp_bit gfp.
Proof. flag_type. Qed.
#[export] Instance page_flags : FlagType page_flag (λ f, BIT (PG f)).
Proof. flag_type. Qed.

Section flag_words.
  Context {F : Type} `{EqDecision F} (value : F → Z) `{!FlagType F value}.
  Implicit Types (f g : F) (fs gs : list F).

Lemma flag_testbit f n : 0 ≤ n → Z.testbit (value f) n = (Z.log2 (value f) =? n).
Proof. intros Hn. rewrite flag_bit at 1. apply Z.pow2_bits_eqb. apply Z.log2_nonneg. Qed.

Lemma flag_log_inj f g : Z.log2 (value f) = Z.log2 (value g) → f = g.
Proof. intros Hfg. apply (flag_inj (value := value)). transitivity (2 ^ Z.log2 (value f)); [apply flag_bit|].
  rewrite Hfg. symmetry. apply flag_bit. Qed.

Lemma flag_log_eqb f g : (Z.log2 (value g) =? Z.log2 (value f)) = bool_decide (f = g).
Proof.
  destruct (Z.eqb_spec (Z.log2 (value g)) (Z.log2 (value f))) as [->%flag_log_inj|Hne].
  - by rewrite bool_decide_eq_true_2.
  - rewrite bool_decide_eq_false_2; [done|by intros ->].
Qed.

Lemma flags_or_testbit fs n : 0 ≤ n →
  Z.testbit (flags_or value fs) n = existsb (λ g, Z.log2 (value g) =? n) fs.
Proof.
  intros Hn. induction fs as [|g fs IH]; simpl; [apply Z.bits_0|].
  by rewrite Z.lor_spec, IH, flag_testbit.
Qed.

Lemma flags_or_member fs f :
  Z.testbit (flags_or value fs) (Z.log2 (value f)) = bool_decide (f ∈ fs).
Proof.
  rewrite flags_or_testbit by apply Z.log2_nonneg.
  induction fs as [|g fs IH]; simpl; [done|]. rewrite IH, flag_log_eqb, <-bool_decide_or.
  apply bool_decide_ext. by rewrite elem_of_cons.
Qed.

(** The test of a flag reads its bit. *)
Lemma has_flag_testbit w f : has_flag w (value f) = Z.testbit w (Z.log2 (value f)).
Proof.
  pose proof (Z.log2_nonneg (value f)) as Hb. unfold has_flag.
  destruct (Z.testbit w (Z.log2 (value f))) eqn:Hw.
  - apply negb_true_iff, Z.eqb_neq. intros Hz.
    apply (f_equal (λ x, Z.testbit x (Z.log2 (value f)))) in Hz.
    rewrite Z.land_spec, Hw, flag_testbit, Z.eqb_refl, Z.bits_0 in Hz by done. done.
  - apply negb_false_iff, Z.eqb_eq, Z.bits_inj'. intros n Hn.
    rewrite Z.land_spec, Z.bits_0, flag_testbit by done.
    destruct (Z.eqb_spec (Z.log2 (value f)) n) as [<-|]; [by rewrite Hw|by rewrite andb_false_r].
Qed.

Lemma flags_or_range fs : 0 ≤ flags_or value fs < 2 ^ 32.
Proof.
  induction fs as [|f fs IH]; simpl; [done|]. pose proof (flag_width (value := value) f) as Hf.
  split; [apply Z.lor_nonneg; lia|]. apply Z.log2_lt_cancel.
  rewrite Z.log2_lor by lia. change (Z.log2 (2 ^ 32)) with 32. apply Z.max_lub_lt.
  - apply Z.log2_lt_pow2; lia.
  - destruct (decide (flags_or value fs ≤ 0)) as [Hz|]; [by rewrite Z.log2_nonpos|].
    apply Z.log2_lt_pow2; lia.
Qed.
End flag_words.

(** * Properties *)

(** Words of flags are faithful, for every instance of [FlagType]: a word
    built by or-ing flags fits 32 bits, the test [w & F] on it decides whether
    [F] is among them, two sets of flags have one word exactly when they have
    the same flags, and adding a flag to any word changes its test only. *)
Theorem flag_words_faithful {F} `{EqDecision F} (value : F → Z) `{!FlagType F value}
    (fs gs : list F) (f g : F) (w : Z) :
  in_range u32 (flags_or value fs) ∧
  has_flag (flags_or value fs) (value f) = bool_decide (f ∈ fs) ∧
  (flags_or value fs = flags_or value gs ↔ ∀ x, x ∈ fs ↔ x ∈ gs) ∧
  has_flag (Z.lor w (value g)) (value f) = bool_decide (f = g) || has_flag w (value f).
Proof.
  split_and!.
  - apply flags_or_range; done.
  - by rewrite (has_flag_testbit value), (flags_or_member value).
  - split.
    + intros Hfg x. rewrite <-(bool_decide_eq_true (x ∈ fs)), <-(bool_decide_eq_true (x ∈ gs)).
      by rewrite <-!(flags_or_member value), Hfg.
    + intros Hx. apply Z.bits_inj'. intros n Hn. rewrite !flags_or_testbit by done.
      apply eq_bool_prop_intro. rewrite !Is_true_true, !existsb_exists.
      split; intros (y & Hy & He); exists y; (split; [|done]); rewrite <-list_elem_of_In in *; by apply Hx.
  - rewrite !has_flag_testbit, Z.lor_spec, flag_testbit, flag_log_eqb
      by first [done | apply Z.log2_nonneg].
    apply orb_comm.
Qed.

(** [sys_vfork] asks [do_fork] for exactly [CLONE_VM] and [CLONE_VFORK]: the
    signal number in the low byte disturbs no flag. *)
Theorem vfork_flags (SIGCHLD : Z) (f : clone_flag) : 0 ≤ SIGCHLD < 2 ^ 8 →
  has_flag (Z.lor (Z.lor Main.CLONE_VFORK Main.CLONE_VM) SIGCHLD) (clone_value f) =
    bool_decide (f ∈ [CLONE_VFORK; CLONE_VM]).
Proof.
  intros Hsig. change (Z.lor Main.CLONE_VFORK Main.CLONE_VM) with (flags_or clone_value [CLONE_VFORK; CLONE_VM]).
  rewrite (has_flag_testbit clone_value), Z.lor_spec, (flags_or_member clone_value).
  rewrite (testbit_above 8), orb_false_r; [done..|]. split; [done|].
  by destruct f.
Qed.

(** A file mode splits into its type and its mode bits: [S_IFMT] selects the
    type, the rest is the word of bits, and no two types are confused.  The
    three permission masks are the words of their three bits. *)
Theorem file_mode_splits (t t' : file_type) (bs : list mode_bit) :
  let m := Z.lor (S_IF t) (flags_or mode_value bs) in
  Z.land m S_IFMT = S_IF t ∧ Z.ldiff m S_IFMT = flags_or mode_value bs ∧
  (S_IF t = S_IF t' → t = t') ∧
  S_IRWXU = flags_or mode_value [S_IRUSR; S_IWUSR; S_IXUSR] ∧
  S_IRWXG = flags_or mode_value [S_IRGRP; S_IWGRP; S_IXGRP] ∧
  S_IRWXO = flags_or mode_value [S_IROTH; S_IWOTH; S_IXOTH].
Proof.
  intros m.
  assert (Z.land (flags_or mode_value bs) S_IFMT = 0) as Hbs.
  { induction bs as [|b bs IH]; simpl; [done|]. rewrite Z.land_lor_distr_l, IH, Z.lor_0_r. by destruct b. }
  assert (Z.land (S_IF t) S_IFMT = S_IF t) as Ht by by destruct t.
  unfold m. split_and!; [| | |done..].
  - by rewrite Z.land_lor_distr_l, Hbs, Ht, Z.lor_0_r.
  - apply Z.bits_inj'. intros n Hn. rewrite Z.ldiff_spec, Z.lor_spec.
    apply (f_equal (λ x, Z.testbit x n)) in Hbs, Ht. rewrite Z.land_spec in Hbs, Ht.
    rewrite Z.bits_0 in Hbs.
    destruct (Z.testbit (S_IF t) n), (Z.testbit (flags_or _ _) n), (Z.testbit S_IFMT n); done.
  - destruct t, t'; first [done|intros E; vm_compute in E; discriminate E].
Qed.

(** The enumerations number the arrays that are indexed by them: the
    watermarks and the lists of pages.  The zones do not fit: [config.h]
    provides [MAX_NR_ZONES] entries and the last two zones lie outside. *)
Theorem enumerations_index :
  indexes wmark_value NR_WMARK ∧ indexes lru_value NR_LRU_LISTS ∧
  indexes zone_value __MAX_NR_ZONES ∧
  (∀ z, zone_value z < MAX_NR_ZONES ↔ z ≠ ZONE_MOVABLE ∧ z ≠ ZONE_DEVICE).
Proof.
  split_and!; [split..|].
  - by intros [] [].
  - unfold NR_WMARK. intros i. split; [|by intros [[] <-]].
    intros Hi. assert (i = 0 ∨ i = 1 ∨ i = 2) as [->|[->| ->]] by lia;
      [by exists WMARK_MIN|by exists WMARK_LOW|by exists WMARK_HIGH].
  - by intros [] [].
  - unfold NR_LRU_LISTS. intros i. split; [|by intros [[] <-]].
    intros Hi. assert (i = 0 ∨ i = 1 ∨ i = 2 ∨ i = 3 ∨ i = 4) as [->|[->|[->|[->| ->]]]] by lia;
      [by exists LRU_INACTIVE_ANON|by exists LRU_ACTIVE_ANON|by exists LRU_INACTIVE_FILE
      |by exists LRU_ACTIVE_FILE|by exists LRU_UNEVICTABLE].
  - by intros [] [].
  - unfold __MAX_NR_ZONES. intros i. split; [|by intros [[] <-]].
    intros Hi. assert (i = 0 ∨ i = 1 ∨ i = 2 ∨ i = 3 ∨ i = 4 ∨ i = 5)
      as [->|[->|[->|[->|[->| ->]]]]] by lia;
      [by exists ZONE_DMA|by exists ZONE_DMA32|by exists ZONE_NORMAL|by exists ZONE_HIGHMEM
      |by exists ZONE_MOVABLE|by exists ZONE_DEVICE].
  - unfold MAX_NR_ZONES. intros []; simpl; naive_solver lia.
Qed.

(** The regions of the address map lie apart and within 64 bits, and [__pa]
    takes the direct map onto the physical addresses below 2^43, in order. *)
Theorem address_map (r r' : region) (a b : Z) :
  in_region r a → in_region r' b →
  in_range u64 a ∧ (a = b → r = r') ∧
  (r = RDirect → r' = RDirect → 0 ≤ pa a < 2 ^ 43 ∧ (pa a ≤ pa b ↔ a ≤ b)).
Proof.
  intros Ha Hb. split_and!.
  - unfold in_range; simpl. destruct r; simpl in Ha; unfold USER_VIRTUAL_BASE, USER_VIRTUAL_END,
      KERNEL_VIRTUAL_BASE, VMALLOC_START, VMALLOC_END, MODULES_VADDR, MODULES_END in Ha; lia.
  - intros ->. destruct r, r'; try done; simpl in Ha, Hb; unfold USER_VIRTUAL_BASE, USER_VIRTUAL_END,
      KERNEL_VIRTUAL_BASE, VMALLOC_START, VMALLOC_END, MODULES_VADDR, MODULES_END in Ha, Hb; lia.
  - intros -> ->. simpl in Ha, Hb. unfold pa. unfold VMALLOC_START, KERNEL_VIRTUAL_BASE in *.
    rewrite !wrap_small by lia. lia.
Qed.
